(* ===== verification/_CoqProject ===== *)
-Q . S2P
Prelude.v
Json.v
Records.v
Schema.v
LeaseRegistry.v
World.v
ScmWorkload.v
AgentBinding.v
Resume.v
TaskQueue.v
TaskQueueDb.v
Scheduling.v
RunClaims.v
Liveness.v
Reaper.v
Recovery.v
RunExecute.v
WorkspaceRemoval.v
RemovalReconciler.v
RemovalProtocol.v
EvaluationQueue.v
LeaseSweeper.v
SourceDeletion.v
ErrorPatterns.v
ExecuteRetry.v
RunLifecycle.v
AgentEnv.v
MemoryTokens.v
LineDecoder.v
ProcessRunner.v
CcStream.v
CodexStream.v
LiveSession.v
KeyedMutex.v
NetGuard.v
GitTriggerDiff.v
TimeBuckets.v
RateLimit.v
GatewayAuth.v
SessionGuard.v
ScmSecrets.v
AgentAccess.v
UserAdmin.v
DeviceAuth.v
A2aTaskStore.v
JobRetry.v
GitForge.v
GitPoll.v
GitRun.v
ScheduleTrigger.v
DbTyping.v
