(* ===== verification/Prelude.v ===== *)
(** * a2wave: verification of the run orchestration core

    a2wave runs AI agents on behalf of chat users, schedules and other agents.
    The server (apps/api) admits a run, queues it, executes it in a CLI engine
    through a chain of model providers, and settles it exactly once, with
    several server processes sharing one database and one set of SCM checkouts.
    This library models that core of the server and proves what keeps it
    correct: slots are not overbooked, checkouts are not shared between a sync
    and a workload, a worktree is not removed under a run, a source is not
    deleted under its agents, no process acts on work a peer may reclaim, a run
    settles once, resumes, retries and replays stay within their budgets, a
    restart accounts for every run, and credentials and tool output stay where
    they belong.  Around the core stand the engines' output parsers, the request
    limits and authentication of the gateway, sign-in by device, the access rules
    of agents and users, the A2A task store, the schedules, the git triggers and
    the time buckets of the statistics.

    ** How the code is modelled

    An asynchronous handler is a computation [M S A]: a function from a state to
    an outcome, a value or a thrown error, and the next state.  A throw keeps
    the writes made before it, except inside [withTransaction], which restores
    the database.  Code inside a keyed lock or a database transaction is one
    step; KeyedMutex.v proves that the lock serialises.  Interleavings are of
    two kinds: relations between whole handlers ([rtc] of a step relation), and,
    where a handler makes several transactions, arbitrary changes by other
    processes between them ([others] of WorkspaceRemoval.v, [rivals] of
    Resume.v).  Objects shared by reference (execution leases) live in a heap;
    JSON columns are values of [json]; numbers are [Z] or [nat], and a JSON
    number that is not an integer is kept apart.

    Most loops recurse on the counter that bounds them in the code (the
    promotion guard, the merge attempts, the retry budget, the redirects, the
    removal attempts) or on the list they visit.  Fuel is chosen in four places:
    the metadata and address checks of NetGuard.v nest twice
    ([NetGuard.metadata_fuel] shows it is enough), the bucket list and the
    binary search of TimeBuckets.v take the number of buckets (the equivalence
    theorem holds with it), and the page walk of A2aTaskStore.v takes more steps
    than there are tasks ([A2aTaskStore.pages_complete]).  The pages of a listing
    of GitForge.v are counted down from the bound of the code.

    What is not under src/ or not a computation is a parameter: the clock,
    identifiers, workers, DNS, [fetch], URL parsing, the tracer, [ipaddr.js],
    [localeCompare], [Number] and [Date.parse] on text, the offsets of time
    zones, the protobuf codec of the A2A library ([TaskCodec]), the lookups of
    the gateway ([GatewayDeps]), the cookies and tokens of the HTTP library
    ([HttpLibrary]), [URL] ([UrlParser]), [JSON.parse] and [JSON.stringify] where
    text is parsed or written, hashes of codes and tokens, the cron library
    ([Croner]), the file system ([Surroundings], and the
    reclaiming of a source's storage), and who may see or change a row.

    ** Files

    The ground:
    - Prelude.v: outcomes, the state monad, its loops, what a computation keeps
      ([keeps]) and what it returns ([returns]), generic lemmas, tactics and
      the hint database.
    - Json.v, Records.v: JSON columns, string helpers, objects used as maps.
    - Schema.v: the table rows of db/schema.sqlite.ts the code touches.
    - World.v: the state of a process and the database, and [withTransaction].
    - LeaseRegistry.v: engine/execution-lease-registry.ts.  In every reachable
      state the run and task indices name exactly the unfinished entries;
      finishing a stale handle spares the current lease; reserve and complete
      occupy and free one slot; the settling flag is exact.

    Checkouts, worktrees and sources:
    - ScmWorkload.v: lib/scm-workload-lifecycle.ts and the sync claim of
      lib/p4-sync.ts.  Admission is atomic, leases are fenced by owner, and in
      every interleaving a checkout being synced has no active workload in it.
    - AgentBinding.v: lib/scm-workload-guard.ts, agent-scm-binding-mutation.ts
      and the agent handlers that write a binding.  What deleting an agent does,
      on every branch.
    - WorkspaceRemoval.v, RemovalReconciler.v, RemovalProtocol.v:
      lib/scm-workspace-removal.ts and its reconciler.  The outcome of a guarded
      removal, and that no worktree is removed under a run that has claimed it.
    - LeaseSweeper.v: lib/scm-lease-sweeper.ts.  The leases of dead instances
      are released with their worktrees reserved for removal.
    - SourceDeletion.v: the deletion of a source in routes/scm-sources.ts.  No
      interleaving reclaims the storage of a source that is in use.

    Runs:
    - Resume.v: lib/resume-decision.ts, resume-chat-id.ts,
      merge-execution-metadata.ts, persist-live-session-id.ts.  The exact resume
      condition, at most three resumes of a session, merges that lose no update
      under rival writers.
    - TaskQueue.v, TaskQueueDb.v: engine/task-queue.ts over the interface
      [TaskQueueDb], and its storage task-queue-db.ts.
    - Scheduling.v: their composition.  Admission on every branch, safety of a
      scheduling pass, and that a pass leaves no free slot with work queued.
    - Recovery.v: startup recovery with the hooks of index.ts.  It completes,
      and what becomes of every run.
    - RunExecute.v: POST /runs/:id/execute.  A request starts its run once,
      within capacity, or changes nothing.
    - RunClaims.v: lib/run-cancellation.ts, reap-run-claim.ts,
      run-retry-in-place.ts.  First terminal write wins; a retry starts fresh
      and its undo restores the row.
    - Liveness.v: lib/instance-heartbeat.ts, retry-until-success.ts.  A process
      fences itself before peers may reclaim its work.
    - Reaper.v: lib/orphaned-run-reaper.ts.  Only abandoned runs are reaped.
    - RunLifecycle.v: lib/run-lifecycle.ts.  Run and step settle together, usage
      is counted once, and the execution lease outlives the worktree's cleanup.
    - JobRetry.v: lib/job-retry-*.ts and rerun-builder.ts.  A chain of replays
      ends within the agent's budget.
    - DbTyping.v: the owner, queue time and lease columns agree with status and
      phase in every interleaving of the operations above.
    - EvaluationQueue.v: engine/evaluation-queue.ts and evaluation-queue-db.ts.
      One evaluation per agent, admission, and recovery after a restart.

    Execution:
    - ErrorPatterns.v: the error tables of lib/execute-with-retry.ts with a
      small regular expression matcher.
    - ExecuteRetry.v: the rest of lib/execute-with-retry.ts.  The executions of
      a run follow the provider list within the attempt budget; they carry only
      their own provider's credentials and no foreign session; token usage is
      conserved; the deadline holds but for one race; tool output reaches the
      tracer only; the execution lease is balanced.
    - ProcessRunner.v: engine/cli-process-runner.ts and cli-process-tree.ts.
      Every callback the runtime may make is an event; in every order of them a
      call is settled once with nothing left behind, a child that ignores
      SIGTERM is killed, and a call whose child has closed resolves within three
      of its own events.
    - AgentEnv.v: the environment blocks of engine/runtime-context.ts, the
      credential matrix of cli-engine-base.ts and the buildEnv of all eight
      engines.  What agents and the API process can put into a child's
      environment, and exactly which credentials it gets.
    - LineDecoder.v: the line decoder of the same file.  The parsers see the
      lines of the whole output, however it is cut into chunks.
    - CcStream.v, CodexStream.v: engine/cc-stream-parser.ts and
      codex-stream-parser.ts with the engine code that settles a call from what
      they read.  The exact verdict of a call: its text, its error, its usage and
      session, and no tool call or heartbeat is lost.
    - LiveSession.v: engine/live-session-id.ts, live-session-tap.ts and
      lib/live-session-recorder.ts.  What the recorder holds as stored is stored,
      and a write that was lost is tried again.

    Around the core:
    - KeyedMutex.v: lib/keyed-mutex.ts.  Mutual exclusion in call order,
      progress and clean-up.
    - NetGuard.v: lib/url-safety-core.ts and client-ip.ts.  Resolved addresses
      are safe, redirects are confined, the caller address cannot be forged.
    - RateLimit.v: middleware/rate-limit.ts.  At most twice the limit passes in
      any stretch of one window's length, and what a refusal tells the caller.
    - GatewayAuth.v: middleware/gateway-auth.ts.  Exactly who is admitted, and
      the exact meaning of an IPv4 range.
    - SessionGuard.v: middleware/csrf-origin.ts and auth-middleware.ts with the
      session functions they call.  A cookie alone changes nothing unless the
      page is of an allowed origin; an active browser stays signed in, and with
      the lifetime its user chose.
    - MemoryTokens.v: lib/agent-memory-token.ts.  A token reads what it was
      issued for, within its life.
    - ScmSecrets.v: lib/scm-secret-mask.ts and its callers.  A read shows a mask
      in place of every credential, and sending the mask back keeps it.
    - AgentAccess.v: lib/agent-access.ts and the membership routes.  The two
      forms of the permission model, as code and as SQL, agree.
    - UserAdmin.v: routes/users.ts.  The last administrator survives every
      interleaving of requests.
    - DeviceAuth.v: lib/device-code.ts, routes/auth-device.ts and the sweep of
      grants.  In every interleaving of its database calls a grant pays out at
      most once, and only after a signed-in user approved it.
    - ScheduleTrigger.v: lib/schedule-trigger.ts.  The jobs of the process are
      those of the stored schedules after a restart, and every outcome of a firing.
    - A2aTaskStore.v: a2a/sqlite-task-store.ts.  It refines a map from tenant,
      caller and id to tasks, and paging lists every task once.
    - GitTriggerDiff.v: lib/git-trigger-diff.ts.  A fingerprint advances exactly
      when its state was handled, and a state is delivered once.
    - GitForge.v: lib/git-trigger-cli.ts.  What a listing of the forge holds and
      when it is complete, and whose comment the newest is.
    - GitPoll.v: lib/git-trigger-manager.ts, each await of a poll a step.  No
      change is lost in any interleaving, and a poll that was overtaken retires.
    - GitRun.v: the run a change starts, and lib/git-trigger-run-preflight.ts.
      Skipping a queued run leaves a newer one that reviews the same request.
    - TimeBuckets.v: lib/time-buckets.ts.  The buckets of the code and of its
      SQL agree.

    ** Bounds and abstractions

    Rows keep the columns the modelled code reads or writes.  Strings are
    sequences of code units below 256 and are lower-cased on ASCII letters.
    Backoff jitter is computed exactly rather than in floating point.  Logging
    calls are omitted; log entries that are data are not.

    ** Not modelled

    The stream parsers of the other engines and the command lines of all of
    them, prompt building, chat platform services, the parsing and shaping of
    most routes, sign-in by password and by identity provider, agent memory,
    telemetry, the built-in MCP servers, the CLI and the web console: they are
    adapters to processes and services, or presentation.  Next in line: the log
    collector that persists a run's output. *)
From stdpp Require Export base gmap strings list fin_maps fin_map_dom fin_sets sets.
From Stdlib Require Export ZArith Lia.

(** ** Exceptions and the state monad of the handlers

    An [async] function of the source is a computation that reads and writes
    the state [S] (database, process memory) and either returns or throws.
    State changes made before a throw stay, except inside a transaction. *)

#[local] Set Warnings "-register-all".
Inductive JsError := mkErrorCause (name message : string) (cause : option JsError).

(** An [Error] without a [cause] *)
Abbreviation mkError name message := (mkErrorCause name message None).

#[export] Instance JsError_eq_dec : EqDecision JsError.
Proof.
  refine (fix rec (a b : JsError) {struct a} : {a = b} + {a <> b} := _).
  destruct a as [n m c], b as [n' m' c'].
  destruct (String.string_dec n n'); [|right; congruence].
  destruct (String.string_dec m m'); [|right; congruence].
  destruct c as [c|], c' as [c'|]; [destruct (rec c c')| | |]; [left|right|right|right|left];
    congruence.
Defined.

Definition err_name (e : JsError) : string := let 'mkErrorCause n _ _ := e in n.
Definition err_message (e : JsError) : string := let 'mkErrorCause _ m _ := e in m.
Definition err_cause (e : JsError) : option JsError := let 'mkErrorCause _ _ c := e in c.

(** [e instanceof C] for an error class that sets its own [name] *)
Definition instanceof (e : JsError) (class : string) : bool := String.eqb (err_name e) class.

Inductive outcome (A : Type) :=
| Ret (a : A)
| Throw (e : JsError).
Arguments Ret {A} a.
Arguments Throw {A} e.

Definition is_ret {A} (o : outcome A) : bool :=
  match o with Ret _ => true | Throw _ => false end.

Definition M (S A : Type) : Type := S -> outcome A * S.

Definition throw {S A} (e : JsError) : M S A := fun s => (Throw e, s).
Definition get {S} : M S S := fun s => (Ret s, s).
Definition gets {S A} (f : S -> A) : M S A := fun s => (Ret (f s), s).
Definition modify {S} (f : S -> S) : M S unit := fun s => (Ret tt, f s).

#[export] Instance M_ret {S} : MRet (M S) := fun A a s => (Ret a, s).
#[export] Instance M_bind {S} : MBind (M S) := fun A B k m s =>
  match m s with
  | (Ret a, s') => k a s'
  | (Throw e, s') => (Throw e, s')
  end.

(** [try { m } catch (e) { h(e) }] *)
Definition try_catch {S A} (m : M S A) (h : JsError -> M S A) : M S A :=
  fun s => match m s with
           | (Ret a, s') => (Ret a, s')
           | (Throw e, s') => h e s'
           end.

(** The end of [m] as a value *)
Definition capture {S A} (m : M S A) : M S (outcome A) := fun s =>
  let '(o, s') := m s in (Ret o, s').

(** [return] or [throw] *)
Definition settle {S A} (o : outcome A) : M S A := fun s => (o, s).

(** [for (const x of l) await f(x)] *)
Fixpoint for_each {S A} (l : list A) (f : A -> M S unit) : M S unit :=
  match l with
  | [] => mret tt
  | x :: l' => f x ≫= fun _ => for_each l' f
  end.

(** A loop over [l] that updates local variables *)
Fixpoint fold_each {S A B} (l : list A) (f : A -> B -> M S B) (b : B) : M S B :=
  match l with
  | [] => mret b
  | x :: l' => f x b ≫= fun b' => fold_each l' f b'
  end.

Section MonadLaws.
Context {S : Type}.

Lemma bind_Ret_inv {A B} (m : M S A) (k : A -> M S B) s b s' :
  (m ≫= k) s = (Ret b, s') ->
  exists a s1, m s = (Ret a, s1) /\ k a s1 = (Ret b, s').
Proof.
  unfold mbind, M_bind. destruct (m s) as [[a|e] s1]; [eauto | discriminate].
Qed.

Lemma bind_inv {A B} (m : M S A) (k : A -> M S B) s o s' :
  (m ≫= k) s = (o, s') ->
  (exists a s1, m s = (Ret a, s1) /\ k a s1 = (o, s')) \/
  (exists e, m s = (Throw e, s') /\ o = Throw e).
Proof.
  unfold mbind, M_bind. destruct (m s) as [[a|e] s1]; [eauto 6|]. intros [= <- <-]. eauto.
Qed.

Lemma bind_run {A B} (m : M S A) (k : A -> M S B) s a s1 :
  m s = (Ret a, s1) -> (m ≫= k) s = k a s1.
Proof. unfold mbind, M_bind. by intros ->. Qed.

Lemma bind_throw {A B} (m : M S A) (k : A -> M S B) s e s1 :
  m s = (Throw e, s1) -> (m ≫= k) s = (Throw e, s1).
Proof. unfold mbind, M_bind. by intros ->. Qed.

Lemma capture_inv {A B} (m : M S A) (k : outcome A -> M S B) s o s' :
  (capture m ≫= k) s = (o, s') -> exists r s1, m s = (r, s1) /\ k r s1 = (o, s').
Proof. unfold mbind, M_bind, capture. destruct (m s) as [r s1]. eauto. Qed.

Lemma bind_assoc {A B C} (m : M S A) (f : A -> M S B) (g : B -> M S C) s :
  ((m ≫= f) ≫= g) s = (m ≫= fun a => f a ≫= g) s.
Proof. unfold mbind, M_bind. by destruct (m s) as [[a|e] s1]. Qed.
End MonadLaws.

(** A loop keeps what each of its iterations keeps. *)
Lemma for_each_invariant {S A} (Inv : S -> Prop) (f : A -> M S unit) (l : list A) :
  (forall x s o s', x ∈ l -> Inv s -> f x s = (o, s') -> Inv s') ->
  forall s o s', Inv s -> for_each l f s = (o, s') -> Inv s'.
Proof.
  induction l as [|x l IH]; intros Hstep s o s' Hs; simpl.
  - intros [= _ <-]. done.
  - unfold mbind, M_bind. destruct (f x s) as [[[]|e] s1] eqn:Hf.
    + apply IH; [set_solver|]. eapply Hstep; [| exact Hs | exact Hf]. set_solver.
    + intros [= _ <-]. eapply Hstep; [| exact Hs | exact Hf]. set_solver.
Qed.

Lemma fold_each_invariant {S A B} (Inv : S -> Prop) (f : A -> B -> M S B) (l : list A) :
  (forall x b s o s', x ∈ l -> Inv s -> f x b s = (o, s') -> Inv s') ->
  forall b s o s', Inv s -> fold_each l f b s = (o, s') -> Inv s'.
Proof.
  induction l as [|x l IH]; intros Hstep b s o s' Hs; simpl.
  - intros [= _ <-]. done.
  - unfold mbind, M_bind. destruct (f x b s) as [[b'|e] s1] eqn:Hf.
    + apply IH; [set_solver|]. eapply Hstep; [| exact Hs | exact Hf]. set_solver.
    + intros [= _ <-]. eapply Hstep; [| exact Hs | exact Hf]. set_solver.
Qed.

(** [m] started in [s] returns, and does not throw, with a result and a state
    that satisfy [Q]. *)
Definition returns {S A} (m : M S A) (s : S) (Q : A -> S -> Prop) : Prop :=
  exists a s', m s = (Ret a, s') /\ Q a s'.

Section Returns.
Context {S : Type}.

Lemma returns_ret {A} (a : A) (s : S) (Q : A -> S -> Prop) : Q a s -> returns (mret a) s Q.
Proof. intros HQ. by exists a, s. Qed.
Lemma returns_gets {A} (f : S -> A) s (Q : A -> S -> Prop) : Q (f s) s -> returns (gets f) s Q.
Proof. intros HQ. by exists (f s), s. Qed.
Lemma returns_modify (f : S -> S) s (Q : unit -> S -> Prop) :
  Q tt (f s) -> returns (modify f) s Q.
Proof. intros HQ. by exists tt, (f s). Qed.
Lemma returns_bind {A B} (m : M S A) (k : A -> M S B) s (Q : B -> S -> Prop) :
  returns m s (fun a s1 => returns (k a) s1 Q) -> returns (m ≫= k) s Q.
Proof.
  intros (a & s1 & Hm & b & s2 & Hk & HQ). exists b, s2. split; [|done].
  by rewrite (bind_run _ _ _ _ _ Hm).
Qed.
Lemma returns_mono {A} (m : M S A) s (P Q : A -> S -> Prop) :
  returns m s P -> (forall a s', P a s' -> Q a s') -> returns m s Q.
Proof. intros (a & s1 & Hm & HP) HPQ. exists a, s1. auto. Qed.
Lemma returns_try_catch {A} (m : M S A) h s (Q : A -> S -> Prop) :
  returns m s Q -> returns (try_catch m h) s Q.
Proof. intros (a & s1 & Hm & HQ). exists a, s1. unfold try_catch. by rewrite Hm. Qed.

(** A loop, by an invariant of the items still to come *)
Lemma returns_fold {A B} (f : A -> B -> M S B) (Inv : list A -> S -> Prop) l :
  (forall x l' b s, Inv (x :: l') s -> returns (f x b) s (fun _ => Inv l')) ->
  forall b s, Inv l s -> returns (fold_each l f b) s (fun _ => Inv []).
Proof.
  intros Hf. induction l as [|x l IH]; intros b s Hs; simpl; [by apply returns_ret|].
  apply returns_bind. eapply returns_mono; [by apply Hf|]. intros b' s1. apply IH.
Qed.
End Returns.

(** [m] keeps [Inv], whether it returns or throws. *)
Definition keeps {S A} (Inv : S -> Prop) (m : M S A) : Prop :=
  forall s o s', Inv s -> m s = (o, s') -> Inv s'.

Section Keeps.
Context {S : Type} (Inv : S -> Prop).

Lemma keeps_ret {A} (a : A) : keeps Inv (mret a).
Proof. by intros s o s' Hs [= _ <-]. Qed.
Lemma keeps_gets {A} (f : S -> A) : keeps Inv (gets f).
Proof. by intros s o s' Hs [= _ <-]. Qed.
Lemma keeps_modify (f : S -> S) : (forall s, Inv s -> Inv (f s)) -> keeps Inv (modify f).
Proof. intros Hf s o s' Hs [= _ <-]. auto. Qed.
Lemma keeps_bind {A B} (m : M S A) (k : A -> M S B) :
  keeps Inv m -> (forall a, keeps Inv (k a)) -> keeps Inv (m ≫= k).
Proof.
  intros Hm Hk s o s' Hs [(a & s1 & Ha & Hr)|(e & He & _)]%bind_inv;
    [eapply Hk; [|done]; by eapply Hm|by eapply Hm].
Qed.
Lemma keeps_throw {A} e : keeps Inv (throw e : M S A).
Proof. by intros s o s' Hs [= _ <-]. Qed.
Lemma keeps_settle {A} (r : outcome A) : keeps Inv (settle r).
Proof. by intros s o s' Hs [= _ <-]. Qed.
Lemma keeps_try_catch {A} (m : M S A) h :
  keeps Inv m -> (forall e, keeps Inv (h e)) -> keeps Inv (try_catch m h).
Proof.
  intros Hm Hh s o s' Hs. unfold try_catch. destruct (m s) as [[a|e] s1] eqn:Hr.
  - intros [= _ <-]. by eapply Hm.
  - intros Hk. eapply Hh; [|exact Hk]. by eapply Hm.
Qed.
Lemma keeps_capture {A} (m : M S A) : keeps Inv m -> keeps Inv (capture m).
Proof.
  intros Hm s o s' Hs. unfold capture. destruct (m s) as [r s1] eqn:Hr. intros [= _ <-].
  by eapply Hm.
Qed.
Lemma keeps_for_each {A} (f : A -> M S unit) l :
  (forall x, keeps Inv (f x)) -> keeps Inv (for_each l f).
Proof. intros Hf s o s'. apply for_each_invariant. intros x t ot t' _. apply Hf. Qed.
End Keeps.

(** ** Automation *)

Create HintDb a2w.

Create HintDb keeps.
#[export] Hint Resolve keeps_ret keeps_gets keeps_bind keeps_throw keeps_settle keeps_try_catch
  keeps_capture keeps_for_each : keeps.
#[export] Hint Extern 1 (keeps _ (if ?b then _ else _)) => destruct b : keeps.
#[export] Hint Extern 1 (keeps _ (match ?x with _ => _ end)) => destruct x : keeps.

Tactic Notation "inv_bind" ident(H) "as" simple_intropattern(p) :=
  apply bind_Ret_inv in H; destruct H as p.

(** Splits a run of [m ≫= k] at the end of [m]. *)
Tactic Notation "run_bind" ident(H) "as" ident(a) ident(s) ident(E) ident(e) :=
  apply bind_inv in H; destruct H as [(a & s & E & H)|(e & E & H)].

Ltac bool_to_prop :=
  repeat match goal with
  | H : (_ && _)%bool = true |- _ => apply andb_true_iff in H; destruct H
  | H : (_ || _)%bool = false |- _ => apply orb_false_iff in H; destruct H
  | H : bool_decide _ = true |- _ => apply bool_decide_eq_true in H
  | H : bool_decide _ = false |- _ => apply bool_decide_eq_false in H
  | H : negb _ = true |- _ => apply negb_true_iff in H
  | H : negb _ = false |- _ => apply negb_false_iff in H
  | H : (_ <=? _)%nat = true |- _ => apply Nat.leb_le in H
  | H : (_ <=? _)%nat = false |- _ => apply Nat.leb_gt in H
  | H : (_ <? _)%nat = true |- _ => apply Nat.ltb_lt in H
  | H : (_ <? _)%nat = false |- _ => apply Nat.ltb_ge in H
  | H : (_ <=? _)%Z = true |- _ => apply Z.leb_le in H
  | H : (_ <=? _)%Z = false |- _ => apply Z.leb_gt in H
  | H : (_ <? _)%Z = true |- _ => apply Z.ltb_lt in H
  | H : (_ <? _)%Z = false |- _ => apply Z.ltb_ge in H
  end.

(** ** Generic lemmas *)

(** What every step keeps, every execution keeps. *)
Lemma rtc_invariant {A} (R : relation A) (P : A -> Prop) x y :
  (forall a b, R a b -> P a -> P b) -> rtc R x y -> P x -> P y.
Proof. intros Hstep. induction 1; eauto. Qed.

(** [alter] on a list, as a pointwise map. *)
Lemma list_lookup_alter_if {A} (f : A -> A) (l : list A) i j :
  alter f i l !! j = (fun x => if decide (i = j) then f x else x) <$> l !! j.
Proof.
  rewrite list_lookup_alter. case_decide; [by subst | by destruct (l !! j)].
Qed.

Lemma list_alter_Some {A} (f : A -> A) (l : list A) i j y :
  alter f i l !! j = Some y <->
  exists x, l !! j = Some x /\ (i <> j /\ y = x \/ i = j /\ y = f x).
Proof.
  rewrite list_lookup_alter_if. destruct (l !! j) as [x|]; simpl.
  - case_decide; naive_solver.
  - naive_solver.
Qed.

(** Inserting under a key leaves the number of other keys satisfying [P]. *)
Section Counting.
Context `{Countable K} {V : Type} (P : K * V -> Prop) `{!forall x, Decision (P x)}.

Lemma size_filter_insert_not (m : gmap K V) k v :
  ~ P (k, v) ->
  size (filter P (<[k:=v]> m)) <= size (filter P m).
Proof.
  intros Hn. rewrite map_filter_insert_False; [|done].
  rewrite map_filter_delete. apply map_subseteq_size, delete_subseteq.
Qed.

Lemma size_filter_insert_le (m : gmap K V) k v :
  size (filter P (<[k:=v]> m)) <= S (size (filter P m)).
Proof.
  destruct (decide (P (k, v))) as [Hp|Hn].
  - rewrite map_filter_insert_True; [|done]. rewrite map_size_insert.
    destruct (filter P m !! k); simpl; lia.
  - pose proof (size_filter_insert_not m k v Hn). lia.
Qed.

Lemma size_filter_insert_same (m : gmap K V) k v v0 :
  m !! k = Some v0 -> (P (k, v) -> P (k, v0)) ->
  size (filter P (<[k:=v]> m)) <= size (filter P m).
Proof.
  intros Hk Himp. destruct (decide (P (k, v))) as [Hp|Hn].
  - rewrite map_filter_insert_True; [|done]. rewrite map_size_insert.
    rewrite (map_lookup_filter_Some_2 P m k v0 Hk (Himp Hp)). simpl. lia.
  - by apply size_filter_insert_not.
Qed.

Lemma size_filter_insert_out (m : gmap K V) k v v0 :
  m !! k = Some v0 -> P (k, v0) -> ~ P (k, v) ->
  S (size (filter P (<[k:=v]> m))) = size (filter P m).
Proof.
  intros Hk Hp Hn. rewrite map_filter_insert_False; [|done].
  rewrite map_filter_delete.
  assert (filter P m !! k = Some v0) as Hl by by apply map_lookup_filter_Some_2.
  rewrite map_size_delete, Hl.
  assert (size (filter P m) <> 0); [|lia].
  intros Hz%map_size_empty_inv. by rewrite Hz, lookup_empty in Hl.
Qed.
End Counting.

(** A sum over the values of a map *)
Section Sums.
Context `{Countable K} {V : Type} (g : V -> Z).

Definition sum_map (m : gmap K V) : Z := map_fold (fun _ v acc => (g v + acc)%Z) 0%Z m.

Lemma sum_map_insert_new (m : gmap K V) k v :
  m !! k = None -> sum_map (<[k := v]> m) = (g v + sum_map m)%Z.
Proof.
  intros Hk. unfold sum_map.
  rewrite (map_fold_insert_L (fun _ v acc => (g v + acc)%Z)); [done|intros; lia|done].
Qed.

Lemma sum_map_insert (m : gmap K V) k v v0 :
  m !! k = Some v0 -> sum_map (<[k := v]> m) = (sum_map m - g v0 + g v)%Z.
Proof.
  intros Hk. rewrite <- insert_delete_eq.
  rewrite sum_map_insert_new by apply lookup_delete_eq.
  rewrite <- (insert_id m k v0 Hk) at 2. rewrite <- insert_delete_eq.
  rewrite sum_map_insert_new by apply lookup_delete_eq. lia.
Qed.
End Sums.
