(* ===== verification/Json.v ===== *)
(** * JavaScript values stored in JSON columns

    Columns declared [mode: 'json'] hold JavaScript objects; the handlers
    read them with [typeof] guards, copy them with spreads and store them
    back.  An absent key and the value [undefined] are both [None]. *)
From S2P Require Import Prelude.
From Stdlib Require Import Ascii.

(** A number of a JSON document: an integer, or the fraction [m / 2^e] of an
    odd [m] (every other finite double; JSON has no [NaN] or infinity).  The
    code asks [Number.isInteger], compares integers and adds one. *)
Inductive js_number := JInt (z : Z) | JFrac (m : Z) (e : positive).

#[export] Instance js_number_eq_dec : EqDecision js_number.
Proof. solve_decision. Defined.

#[local] Set Warnings "-register-all".
Inductive json :=
| JNull
| JBool (b : bool)
| JNum (n : js_number)
| JStr (s : string)
| JArr (l : list json)
| JObj (o : list (string * json)).

(** An object, in insertion order. *)
Abbreviation js_object := (list (string * json)).

#[export] Instance json_eq_dec : EqDecision json.
Proof.
  refine (fix rec (a b : json) {struct a} : {a = b} + {a <> b} := _).
  decide equality;
    [apply Bool.bool_dec | apply js_number_eq_dec | apply String.string_dec
    |apply (List.list_eq_dec rec)
    |refine (List.list_eq_dec (fun x y => _) _ _); destruct x as [k v], y as [k' v'];
     destruct (String.string_dec k k'); [destruct (rec v v')|]; [left|right|right]; congruence].
Defined.

(** [n + 1], without rounding: the counters it is used on stay small. *)
Definition js_succ (n : js_number) : js_number :=
  match n with JInt z => JInt (z + 1) | JFrac m e => JFrac (m + 2 ^ Zpos e) e end.

(** [o.k], [undefined] when absent *)
Fixpoint obj_get (o : js_object) (k : string) : option json :=
  match o with
  | [] => None
  | (k', v) :: o' => if decide (k = k') then Some v else obj_get o' k
  end.

(** [{ ...o, k: v }]: an existing key keeps its position *)
Fixpoint obj_set (o : js_object) (k : string) (v : json) : js_object :=
  match o with
  | [] => [(k, v)]
  | (k', v') :: o' => if decide (k = k') then (k, v) :: o' else (k', v') :: obj_set o' k v
  end.

(** [delete o.k] *)
Definition obj_delete (o : js_object) (k : string) : js_object :=
  filter (fun kv => kv.1 <> k) o.

(** [{ ...o, ...(x ? { k: x } : {}) }] for an optional [x] *)
Definition obj_set_opt (o : js_object) (k : string) (v : option json) : js_object :=
  match v with Some x => obj_set o k x | None => o end.

Definition as_string (v : option json) : option string :=
  match v with Some (JStr s) => Some s | _ => None end.
Definition as_number (v : option json) : option js_number :=
  match v with Some (JNum n) => Some n | _ => None end.
(** [value && typeof value === 'object' && !Array.isArray(value)] *)
Definition as_object (v : option json) : option js_object :=
  match v with Some (JObj o) => Some o | _ => None end.

(** JavaScript truthiness *)
Definition truthy (v : option json) : bool :=
  match v with
  | None | Some JNull => false
  | Some (JBool b) => b
  | Some (JNum (JInt z)) => negb (z =? 0)%Z
  | Some (JNum (JFrac _ _)) => true
  | Some (JStr s) => negb (String.eqb s "")
  | Some (JArr _) | Some (JObj _) => true
  end.

(** ** Strings

    A string is its sequence of code units below 256. *)
Definition js_whitespace (c : ascii) : bool :=
  let n := nat_of_ascii c in
  ((9 <=? n) && (n <=? 13) || (n =? 32) || (n =? 160))%nat.

Fixpoint trim_start (s : string) : string :=
  match s with
  | EmptyString => EmptyString
  | String c s' => if js_whitespace c then trim_start s' else s
  end.

Fixpoint all_whitespace (s : string) : bool :=
  match s with
  | EmptyString => true
  | String c s' => js_whitespace c && all_whitespace s'
  end.

Fixpoint trim_end (s : string) : string :=
  match s with
  | EmptyString => EmptyString
  | String c s' => if all_whitespace s then EmptyString else String c (trim_end s')
  end.

(** [s.trim()] *)
Definition trim (s : string) : string := trim_end (trim_start s).

(** [s.replace(/\/+$/, '')] *)
Fixpoint drop_slashes (s : string) : string :=
  match s with
  | "" => ""
  | String ch s' =>
      match drop_slashes s' with
      | "" => if Ascii.eqb ch "/" then "" else String ch ""
      | t => String ch t
      end
  end.

(** [s] between double quotes, in a message *)
Definition quoted (s : string) : string :=
  let q := String (Ascii.ascii_of_nat 34) EmptyString in q +:+ s +:+ q.

(** [v?.k] *)
Definition opt_get (v : option json) (k : string) : option json :=
  match v with Some (JObj o) => obj_get o k | _ => None end.

(** ** Object lemmas *)

Lemma obj_get_set_eq o k v : obj_get (obj_set o k v) k = Some v.
Proof.
  induction o as [|[k' v'] o IH]; simpl; repeat (case_decide; simpl); simplify_eq; auto.
Qed.

Lemma obj_get_set_ne o k k' v : k' <> k -> obj_get (obj_set o k v) k' = obj_get o k'.
Proof.
  intros Hne. induction o as [|[k1 v1] o IH]; simpl;
    repeat (case_decide; simpl); simplify_eq; auto.
Qed.

Lemma obj_get_set_opt_ne o k k' v : k' <> k -> obj_get (obj_set_opt o k v) k' = obj_get o k'.
Proof. destruct v; simpl; auto using obj_get_set_ne. Qed.

Lemma obj_get_delete_eq o k : obj_get (obj_delete o k) k = None.
Proof.
  unfold obj_delete. induction o as [|[k' v'] o IH]; [done|].
  rewrite filter_cons. simpl. repeat (case_decide; simpl); simplify_eq; auto.
Qed.

Lemma obj_get_delete_ne o k k' : k' <> k -> obj_get (obj_delete o k) k' = obj_get o k'.
Proof.
  intros Hne. unfold obj_delete. induction o as [|[k1 v1] o IH]; [done|].
  rewrite filter_cons. simpl. repeat (case_decide; simpl); simplify_eq; auto.
Qed.

Lemma trim_start_all_whitespace s : trim_start s = EmptyString <-> all_whitespace s = true.
Proof. induction s as [|c s IH]; simpl; [done|]. by destruct (js_whitespace c); simpl. Qed.

Create Rewrite HintDb a2w_obj.
#[export] Hint Rewrite obj_get_set_eq obj_get_delete_eq : a2w_obj.
#[export] Hint Rewrite obj_get_set_ne obj_get_delete_ne obj_get_set_opt_ne using congruence : a2w_obj.

Lemma append_cons c s t : String c s +:+ t = String c (s +:+ t).
Proof. done. Qed.

Lemma append_assoc s t u : (s +:+ t) +:+ u = s +:+ (t +:+ u).
Proof. induction s as [|c s IH]; [done|]. by rewrite !append_cons, IH. Qed.

Lemma prefix_self a s : String.prefix a (a +:+ s) = true.
Proof.
  induction a as [|c a IH]; [by destruct s|]. rewrite append_cons. simpl.
  destruct (ascii_dec c c); [exact IH|done].
Qed.
