(* ===== verification/Records.v ===== *)
(** * JavaScript objects, maps and sets used as dictionaries

    An object used as a dictionary keeps its own keys in the order the language
    fixes: the array indices in increasing order, then the other keys in the
    order they were added.  A [Map] and a [Set] keep the order of addition.
    Both are association lists here, since the code enumerates them; the lemmas
    below recover the finite map.  [sort] is the stable sort of the language
    with a comparator. *)
From S2P Require Import Prelude.
From stdpp Require Import sorting.
From Stdlib Require Import Ascii Permutation.

Abbreviation js_record A := (list (string * A)).

(** ** Keys *)

Definition digit_value (c : ascii) : option N :=
  let n := N_of_ascii c in
  if ((48 <=? n) && (n <=? 57))%N then Some (n - 48)%N else None.

Fixpoint digits_value (acc : N) (s : string) : option N :=
  match s with
  | EmptyString => Some acc
  | String c s' => d ← digit_value c; digits_value (acc * 10 + d)%N s'
  end.

(** The array index a key spells, if it spells one *)
Definition array_index (k : string) : option N :=
  match k with
  | EmptyString => None
  | String c s' =>
      if decide (c = "0"%char /\ s' <> EmptyString) then None
      else n ← digits_value 0 k; if (n <? 2 ^ 32 - 1)%N then Some n else None
  end.

(** The key [k] is enumerated before [k'], when it is added after it. *)
Definition key_before (k k' : string) : bool :=
  match array_index k, array_index k' with
  | Some i, Some j => (i <? j)%N
  | Some _, None => true
  | None, _ => false
  end.

Section Records.
Context {A : Type}.

(** [o[k]] *)
Fixpoint rec_get (o : js_record A) (k : string) : option A :=
  match o with
  | [] => None
  | (k', v) :: o' => if decide (k = k') then Some v else rec_get o' k
  end.

Fixpoint rec_replace (o : js_record A) (k : string) (v : A) : js_record A :=
  match o with
  | [] => []
  | (k', v') :: o' => if decide (k = k') then (k', v) :: o' else (k', v') :: rec_replace o' k v
  end.

Fixpoint rec_insert (o : js_record A) (k : string) (v : A) : js_record A :=
  match o with
  | [] => [(k, v)]
  | (k', v') :: o' => if key_before k k' then (k, v) :: o else (k', v') :: rec_insert o' k v
  end.

(** [o[k] = v] on an object *)
Definition rec_set (o : js_record A) (k : string) (v : A) : js_record A :=
  match rec_get o k with Some _ => rec_replace o k v | None => rec_insert o k v end.

(** [m.set(k, v)] on a [Map] *)
Definition map_put (o : js_record A) (k : string) (v : A) : js_record A :=
  match rec_get o k with Some _ => rec_replace o k v | None => o ++ [(k, v)] end.

(** [delete o[k]], [m.delete(k)] *)
Definition rec_delete (o : js_record A) (k : string) : js_record A :=
  filter (fun kv => kv.1 <> k) o.

(** [new Map(entries)] *)
Definition map_of (l : list (string * A)) : js_record A :=
  foldl (fun o kv => map_put o kv.1 kv.2) [] l.

(** No key twice *)
Definition rec_wf (o : js_record A) : Prop := NoDup o.*1.
End Records.

(** [s.add(k)] on a [Set] *)
Definition set_add (l : list string) (k : string) : list string :=
  if decide (k ∈ l) then l else l ++ [k].

(** [a.sort(cmp)] *)
Section Sort.
Context {A : Type} (cmp : A -> A -> Z).

Fixpoint sort_insert (x : A) (l : list A) : list A :=
  match l with
  | [] => [x]
  | y :: l' => if (cmp x y <=? 0)%Z then x :: l else y :: sort_insert x l'
  end.

Definition sort (l : list A) : list A := foldr sort_insert [] l.

Lemma sort_insert_perm x l : sort_insert x l ≡ₚ x :: l.
Proof.
  induction l as [|y l IH]; simpl; [done|]. destruct (_ <=? _)%Z; [done|].
  rewrite IH. apply Permutation_swap.
Qed.

Lemma sort_perm l : sort l ≡ₚ l.
Proof. induction l as [|x l IH]; simpl; [done|]. by rewrite sort_insert_perm, IH. Qed.

(** A comparator of an order sorts by that order. *)
Lemma sort_sorted (R : A -> A -> Prop) `{!Transitive R} l :
  (forall x y, (cmp x y <= 0)%Z -> R x y) -> (forall x y, (0 < cmp x y)%Z -> R y x) ->
  StronglySorted R (sort l).
Proof.
  intros Hle Hgt. induction l as [|x l IH]; simpl; [constructor|].
  induction (sort l) as [|y s IHs]; simpl; [repeat constructor|].
  apply StronglySorted_inv in IH as [Hs Hy]. destruct (Z.leb_spec (cmp x y) 0) as [Hc|Hc].
  - constructor; [by constructor|]. constructor; [auto|].
    eapply Forall_impl; [exact Hy|]. intros z Hz. etrans; [by apply Hle|done].
  - constructor; [auto|]. rewrite Forall_forall in Hy |- *. intros z.
    rewrite sort_insert_perm. intros [->|Hz]%elem_of_cons; auto.
Qed.
End Sort.

(** ** Lookup *)

Section Lemmas.
Context {A : Type}.
Implicit Types (o : js_record A) (k : string) (v : A).

Lemma rec_get_in o k v : rec_get o k = Some v -> (k, v) ∈ o.
Proof.
  induction o as [|[k' v'] o IH]; simpl; [done|]. case_decide; [|set_solver].
  intros [= <-]. subst. set_solver.
Qed.

Lemma rec_get_None o k : rec_get o k = None <-> k ∉ o.*1.
Proof.
  induction o as [|[k' v'] o IH]; simpl; [set_solver|]. case_decide; set_solver.
Qed.

Lemma rec_get_is_Some o k : is_Some (rec_get o k) <-> k ∈ o.*1.
Proof.
  rewrite <- not_eq_None_Some, rec_get_None. destruct (decide (k ∈ o.*1)); naive_solver.
Qed.

Lemma rec_in_get o k v : rec_wf o -> (k, v) ∈ o -> rec_get o k = Some v.
Proof.
  unfold rec_wf. induction o as [|[k' v'] o IH]; simpl; [set_solver|].
  intros [Hk Hd]%NoDup_cons [[= -> ->]|Hin]%elem_of_cons; [by rewrite decide_True|].
  rewrite decide_False; [auto|]. intros ->. apply Hk, list_elem_of_fmap. by exists (k', v).
Qed.

Lemma rec_get_replace o k v k' :
  rec_get (rec_replace o k v) k' =
  if decide (k' = k) then (fun _ => v) <$> rec_get o k else rec_get o k'.
Proof.
  induction o as [|[k1 v1] o IH]; simpl; [by case_decide|].
  repeat (case_decide; simpl; subst; try congruence).
  all: rewrite IH; by case_decide.
Qed.

Lemma rec_get_insert o k v k' :
  rec_get o k = None ->
  rec_get (rec_insert o k v) k' = if decide (k' = k) then Some v else rec_get o k'.
Proof.
  induction o as [|[k1 v1] o IH]; simpl; [done|].
  destruct (decide (k = k1)) as [|Hne]; [done|]. intros Hn.
  destruct (key_before k k1); simpl; [done|]. rewrite IH by done.
  repeat case_decide; congruence.
Qed.

Lemma rec_get_set o k v k' :
  rec_get (rec_set o k v) k' = if decide (k' = k) then Some v else rec_get o k'.
Proof.
  unfold rec_set. destruct (rec_get o k) eqn:Hk; [|by apply rec_get_insert].
  rewrite rec_get_replace, Hk. by case_decide.
Qed.

Lemma rec_get_app o o' k :
  rec_get (o ++ o') k = match rec_get o k with Some v => Some v | None => rec_get o' k end.
Proof. induction o as [|[k' v'] o IH]; simpl; [done|]. by case_decide. Qed.

Lemma rec_get_put o k v k' :
  rec_get (map_put o k v) k' = if decide (k' = k) then Some v else rec_get o k'.
Proof.
  unfold map_put. destruct (rec_get o k) eqn:Hk.
  - rewrite rec_get_replace, Hk. by case_decide.
  - rewrite rec_get_app. simpl. case_decide; subst; [by rewrite Hk|]. by destruct (rec_get o k').
Qed.

Lemma rec_get_delete o k k' :
  rec_get (rec_delete o k) k' = if decide (k' = k) then None else rec_get o k'.
Proof.
  unfold rec_delete. induction o as [|[k1 v1] o IH]; [by case_decide|].
  rewrite filter_cons. simpl. repeat (case_decide; simpl; subst; try congruence).
Qed.

(** ** Keys *)

Lemma rec_replace_keys o k v : (rec_replace o k v).*1 = o.*1.
Proof.
  induction o as [|[k1 v1] o IH]; simpl; [done|]. case_decide; [done|]. simpl. by f_equal.
Qed.

Lemma rec_insert_perm o k v : rec_insert o k v ≡ₚ (k, v) :: o.
Proof.
  induction o as [|[k1 v1] o IH]; simpl; [done|]. destruct (key_before k k1); [done|].
  rewrite IH. apply Permutation_swap.
Qed.

Lemma rec_set_wf o k v : rec_wf o -> rec_wf (rec_set o k v).
Proof.
  unfold rec_wf, rec_set. destruct (rec_get o k) eqn:Hk; [by rewrite rec_replace_keys|].
  intros Hd. rewrite rec_insert_perm. apply NoDup_cons. split; [|done]. by apply rec_get_None.
Qed.

Lemma map_put_wf o k v : rec_wf o -> rec_wf (map_put o k v).
Proof.
  unfold rec_wf, map_put. destruct (rec_get o k) eqn:Hk; [by rewrite rec_replace_keys|].
  intros Hd. rewrite fmap_app. apply NoDup_app. split; [done|]. apply rec_get_None in Hk.
  split; [set_solver|apply NoDup_singleton].
Qed.

Lemma rec_filter_wf (P : string * A -> Prop) `{!forall x, Decision (P x)} o :
  rec_wf o -> rec_wf (filter P o).
Proof.
  unfold rec_wf. induction o as [|[k1 v1] o IH]; [done|].
  simpl. intros [Hk Hd]%NoDup_cons. rewrite filter_cons. case_decide; simpl; [|auto].
  apply NoDup_cons. split; [|auto]. intros ([k2 v2] & -> & Hf)%list_elem_of_fmap. simpl in *.
  apply list_elem_of_filter in Hf as [_ Hf]. apply Hk, list_elem_of_fmap. by exists (k2, v2).
Qed.

Lemma rec_delete_wf o k : rec_wf o -> rec_wf (rec_delete o k).
Proof. apply rec_filter_wf. Qed.

Lemma rec_wf_perm o o' : o ≡ₚ o' -> rec_wf o -> rec_wf o'.
Proof. unfold rec_wf. by intros ->. Qed.

Lemma rec_get_perm o o' k : rec_wf o -> o ≡ₚ o' -> rec_get o' k = rec_get o k.
Proof.
  intros Hw Hp. destruct (rec_get o k) as [v|] eqn:Hk.
  - apply rec_in_get; [by eapply rec_wf_perm|]. rewrite <- Hp. by apply rec_get_in.
  - apply rec_get_None. rewrite <- Hp. by apply rec_get_None.
Qed.

(** Adding entries one by one *)
Lemma rec_get_fold_set (l : js_record A) o k :
  rec_wf l ->
  rec_get (foldl (fun o kv => rec_set o kv.1 kv.2) o l) k =
  match rec_get l k with Some v => Some v | None => rec_get o k end.
Proof.
  unfold rec_wf. revert o. induction l as [|[k' v'] l IH]; intros o Hd; simpl; [done|].
  apply NoDup_cons in Hd as [Hk Hd]. rewrite IH by done. rewrite rec_get_set.
  simpl in *. case_decide; subst; [|done]. apply rec_get_None in Hk. by rewrite Hk.
Qed.

Lemma fold_set_wf (l : js_record A) o :
  rec_wf o -> rec_wf (foldl (fun o kv => rec_set o kv.1 kv.2) o l).
Proof. revert o. induction l; simpl; intros o Ho; [done|]. auto using rec_set_wf. Qed.

(** The last entry of a key wins. *)
Lemma rec_get_map_of (l : list (string * A)) k :
  rec_get (map_of l) k = rec_get (reverse l) k.
Proof.
  unfold map_of. induction l as [|[k' v'] l IH] using rev_ind; [done|].
  rewrite foldl_snoc, reverse_snoc. simpl. by rewrite rec_get_put, IH.
Qed.
End Lemmas.

Lemma elem_of_set_add l k k' : k' ∈ set_add l k <-> k' ∈ l \/ k' = k.
Proof. unfold set_add. case_decide; set_solver. Qed.

Lemma set_add_NoDup l k : NoDup l -> NoDup (set_add l k).
Proof.
  unfold set_add. case_decide; [done|]. intros Hd. apply NoDup_app.
  split; [done|]. split; [set_solver|apply NoDup_singleton].
Qed.

Lemma elem_of_fold_set_add (f : list string) l k : k ∈ foldl set_add l f <-> k ∈ l \/ k ∈ f.
Proof.
  revert l. induction f as [|x f IH]; intros l; simpl; [set_solver|].
  rewrite IH, elem_of_set_add. set_solver.
Qed.

Lemma fold_set_add_NoDup (f : list string) l : NoDup l -> NoDup (foldl set_add l f).
Proof. revert l. induction f; simpl; intros l Hl; [done|]. auto using set_add_NoDup. Qed.

(** ** Items under a key *)

Section ByKey.
Context {A : Type} (key : A -> string).

(** The first item under [k] *)
Definition find_key (l : list A) (k : string) : option A := head (filter (fun a => key a = k) l).

Lemma find_key_cons a l k :
  find_key (a :: l) k = if decide (key a = k) then Some a else find_key l k.
Proof. unfold find_key. rewrite filter_cons. by case_decide. Qed.

Lemma find_key_Some l k a : find_key l k = Some a -> a ∈ l /\ key a = k.
Proof.
  unfold find_key. intros Ha%head_Some_elem_of. apply list_elem_of_filter in Ha. naive_solver.
Qed.

Lemma find_key_None l k : find_key l k = None <-> k ∉ key <$> l.
Proof.
  induction l as [|a l IH]; [set_solver|]. rewrite find_key_cons, fmap_cons.
  case_decide; set_solver.
Qed.

Lemma find_key_in l a : NoDup (key <$> l) -> a ∈ l -> find_key l (key a) = Some a.
Proof.
  induction l as [|b l IH]; [set_solver|]. rewrite fmap_cons, find_key_cons.
  intros [Hb Hd]%NoDup_cons [->|Ha]%elem_of_cons; [by rewrite decide_True|].
  rewrite decide_False; [auto|]. intros He. apply Hb. rewrite He. by apply list_elem_of_fmap_2.
Qed.

Lemma filter_key l k :
  NoDup (key <$> l) -> filter (fun a => key a = k) l = option_list (find_key l k).
Proof.
  induction l as [|a l IH]; [done|]. rewrite fmap_cons. intros [Ha Hd]%NoDup_cons.
  rewrite filter_cons, find_key_cons. case_decide; [|auto]. subst. simpl. f_equal.
  rewrite IH by done. by rewrite (proj2 (find_key_None l (key a)) Ha).
Qed.

Lemma rec_get_map_of_keyed l k :
  NoDup (key <$> l) -> rec_get (map_of ((fun a => (key a, a)) <$> l)) k = find_key l k.
Proof.
  intros Hd. rewrite rec_get_map_of.
  assert (rec_wf ((fun a => (key a, a)) <$> l)) as Hw.
  { unfold rec_wf. rewrite <- list_fmap_compose. exact Hd. }
  rewrite (rec_get_perm ((fun a => (key a, a)) <$> l));
    [|done|by rewrite reverse_Permutation].
  clear. induction l as [|a l IH]; [done|]. rewrite fmap_cons, find_key_cons, <- IH. simpl.
  repeat case_decide; congruence.
Qed.

Lemma filter_omap_key {B} (keyB : B -> string) (f : A -> option B) l k :
  NoDup (key <$> l) -> (forall a b, a ∈ l -> f a = Some b -> keyB b = key a) ->
  filter (fun b => keyB b = k) (omap f l) = option_list (find_key l k ≫= f).
Proof.
  induction l as [|a l IH]; [done|]. rewrite fmap_cons. intros [Ha Hd]%NoDup_cons Hf.
  specialize (IH Hd ltac:(set_solver)). rewrite find_key_cons.
  change (omap f (a :: l)) with (match f a with Some b => b :: omap f l | None => omap f l end).
  destruct (f a) as [b|] eqn:Hb.
  - assert (keyB b = key a) as Hk by (eapply Hf; set_solver). rewrite filter_cons, Hk.
    case_decide; subst; simpl; rewrite IH; [|done]. rewrite Hb. simpl. f_equal.
    by rewrite (proj2 (find_key_None l (key a)) Ha).
  - rewrite IH. case_decide; subst; [|done]. simpl.
    by rewrite Hb, (proj2 (find_key_None l (key a)) Ha).
Qed.

Lemma perm_by_key l1 l2 :
  (forall k, filter (fun a => key a = k) l1 ≡ₚ filter (fun a => key a = k) l2) -> l1 ≡ₚ l2.
Proof.
  revert l2. induction l1 as [|a l1 IH]; intros l2 Hk.
  - destruct l2 as [|b l2]; [done|]. specialize (Hk (key b)). rewrite filter_cons in Hk.
    rewrite decide_True in Hk by done. by apply Permutation_nil_l in Hk.
  - assert (a ∈ l2) as [l2' Hp]%elem_of_Permutation.
    { assert (a ∈ filter (fun x => key x = key a) l2) as [_ Ha]%list_elem_of_filter; [|done].
      rewrite <- (Hk (key a)). apply list_elem_of_filter. set_solver. }
    rewrite Hp. f_equiv. apply IH. intros k. specialize (Hk k). rewrite Hp in Hk.
    rewrite !filter_cons in Hk. case_decide; [|done]. by apply Permutation_cons_inv in Hk.
Qed.
End ByKey.

(** Entries made from distinct keys *)
Lemma rec_wf_omap {A} (h : string -> option A) (keys : list string) :
  NoDup keys -> rec_wf (omap (fun k => (k,.) <$> h k) keys).
Proof.
  unfold rec_wf. induction keys as [|k keys IH]; simpl; [constructor|].
  intros [Hk Hd]%NoDup_cons. destruct (h k) as [v|]; simpl; [|auto].
  apply NoDup_cons. split; [|auto]. intros ([k' v'] & -> & Hin)%list_elem_of_fmap.
  apply list_elem_of_omap in Hin as (k1 & Hk1 & He). destruct (h k1); by simplify_eq/=.
Qed.

Lemma rec_get_omap {A} (h : string -> option A) (keys : list string) k :
  NoDup keys ->
  rec_get (omap (fun k => (k,.) <$> h k) keys) k = if decide (k ∈ keys) then h k else None.
Proof.
  intros Hd. pose proof (rec_wf_omap h keys Hd) as Hw. case_decide as Hin.
  - destruct (h k) as [v|] eqn:Hv.
    + apply rec_in_get; [done|]. apply list_elem_of_omap. exists k. by rewrite Hv.
    + apply rec_get_None. intros ([k' v'] & -> & Hk)%list_elem_of_fmap. simpl in *.
      apply list_elem_of_omap in Hk as (k1 & _ & He). destruct (h k1) eqn:?; by simplify_eq/=.
  - apply rec_get_None. intros ([k' v'] & -> & Hk)%list_elem_of_fmap. simpl in *.
    apply list_elem_of_omap in Hk as (k1 & Hk1 & He). destruct (h k1) eqn:?; by simplify_eq/=.
Qed.

(** Setting fresh keys one by one adds the entries. *)
Lemma fold_set_perm {A} (l o : js_record A) :
  rec_wf (o ++ l) -> foldl (fun o kv => rec_set o kv.1 kv.2) o l ≡ₚ o ++ l.
Proof.
  revert o. induction l as [|[k v] l IH]; intros o Hw; simpl; [by rewrite app_nil_r|].
  assert (rec_set o k v ≡ₚ (k, v) :: o) as Hp.
  { unfold rec_set. rewrite (proj2 (rec_get_None o k)); [apply rec_insert_perm|].
    unfold rec_wf in Hw. rewrite fmap_app in Hw. apply NoDup_app in Hw as (_ & Hx & _).
    intros Hk. apply (Hx _ Hk). set_solver. }
  rewrite IH.
  - rewrite Hp. simpl. by rewrite Permutation_middle.
  - unfold rec_wf in *. rewrite Hp. simpl. rewrite !fmap_app in *. simpl in *.
    by rewrite Permutation_middle.
Qed.
