(* ===== verification/Schema.v ===== *)
(** * The tables of the orchestration core

    One record per table of [apps/api/src/db/schema.sqlite.ts], with the
    columns the modelled code reads or writes, and the few query shapes the
    handlers use: select by key, conditional update by key, delete by key,
    count and scan with a predicate.  A table is a finite map from its primary
    key.  Scans return rows in the map's order: the source relies on an order
    only where it says [orderBy]. *)
From S2P Require Import Prelude Json.

Inductive RunStatus := pending | queued | running | completed | failed | cancelled.

#[export] Instance RunStatus_eq_dec : EqDecision RunStatus.
Proof. solve_decision. Defined.

Definition status_name (s : RunStatus) : string :=
  match s with
  | pending => "pending" | queued => "queued" | running => "running"
  | completed => "completed" | failed => "failed" | cancelled => "cancelled"
  end.

Definition VALID_RUN_STATUSES : list RunStatus :=
  [pending; queued; running; completed; failed; cancelled].

(** [parseRunStatus] *)
Definition parseRunStatus (s : string) : option RunStatus :=
  list_find (fun st => status_name st = s) VALID_RUN_STATUSES ≫= fun '(_, st) => Some st.

Definition terminal (s : RunStatus) : bool :=
  match s with completed | failed | cancelled => true | _ => false end.

(** ** Rows *)

Record TokenUsage := mkUsage {
  inputTokens : option Z;
  outputTokens : option Z;
  reasoningTokens : option Z;
  cacheReadTokens : option Z;
  cacheWriteTokens : option Z
}.

Definition empty_usage : TokenUsage := mkUsage None None None None None.

Inductive CleanupPolicy := cleanup_ephemeral | cleanup_persistent | cleanup_ttl.

#[export] Instance CleanupPolicy_eq_dec : EqDecision CleanupPolicy.
Proof. solve_decision. Defined.

Record WorktreeConfig := mkWorktree { wt_name : string; wt_cleanup : CleanupPolicy }.

(** What a run was asked and by whom *)
Record RunOrigin := mkOrigin {
  origin_intent : string;
  origin_userId : option string;
  origin_triggerUserName : option string;
  origin_triggerAgentName : option string
}.

Definition empty_origin : RunOrigin := mkOrigin "" None None None.

Record Run := mkRun {
  run_status : RunStatus;
  run_result : option json;
  run_executionMetadata : option js_object;
  run_triggerSource : option string;
  run_triggerSessionId : option string;
  run_workDir : option string;
  run_ownerInstanceId : option string;
  run_worktreeConfig : option WorktreeConfig;
  run_initiatorAgentId : option string;
  run_queuedAt : option Z;
  run_createdAt : Z;
  run_updatedAt : Z;
  run_usage : TokenUsage;
  run_origin : RunOrigin
}.

(** [worktreeConfig?.name] *)
Definition run_worktreeName (r : Run) : option string := wt_name <$> run_worktreeConfig r.

Inductive StepStatus := step_pending | step_running | step_completed | step_failed | step_cancelled.

#[export] Instance StepStatus_eq_dec : EqDecision StepStatus.
Proof. solve_decision. Defined.

Record RunStep := mkStep {
  step_runId : string;
  step_order : Z;
  step_input : option js_object;
  step_output : option js_object;
  step_status : StepStatus;
  step_durationMs : option Z;
  step_agentId : option string
}.

Inductive WorkspaceType := ws_temp | ws_scm.

#[export] Instance WorkspaceType_eq_dec : EqDecision WorkspaceType.
Proof. solve_decision. Defined.

Record Agent := mkAgent {
  agent_maxConcurrency : nat;
  agent_workspaceType : WorkspaceType;
  agent_scmSourceId : option string;
  agent_active : bool;
  agent_name : string;
  agent_feishuConfig : option js_object;
  agent_artifactPolicy : option json;
  agent_maxJobRetries : option json;     (* config.maxJobRetries *)
  agent_published : bool                 (* publishStatus = 'published' *)
}.

Inductive WorkloadType := wl_run | wl_evaluation.

#[export] Instance WorkloadType_eq_dec : EqDecision WorkloadType.
Proof. solve_decision. Defined.
#[export] Instance WorkloadType_countable : Countable WorkloadType.
Proof.
  refine (inj_countable' (fun t => match t with wl_run => true | wl_evaluation => false end)
            (fun b => if b : bool then wl_run else wl_evaluation) _); by intros [].
Defined.

Definition workload_type_name (t : WorkloadType) : string :=
  match t with wl_run => "run" | wl_evaluation => "evaluation" end.

Inductive LeasePhase := reserved | active.

#[export] Instance LeasePhase_eq_dec : EqDecision LeasePhase.
Proof. solve_decision. Defined.

Record ScmLease := mkLease {
  lease_agentId : string;
  lease_scmSourceId : string;
  lease_phase : LeasePhase;
  lease_ownerInstanceId : option string;
  lease_updatedAt : Z
}.

Inductive SourceType := src_git | src_p4.

#[export] Instance SourceType_eq_dec : EqDecision SourceType.
Proof. solve_decision. Defined.

Inductive SyncStatus := sync_idle | sync_syncing | sync_error.

#[export] Instance SyncStatus_eq_dec : EqDecision SyncStatus.
Proof. solve_decision. Defined.

Record ScmSource := mkSource {
  source_name : string;
  source_localPath : string;
  source_workspacesPath : option string;
  source_type : SourceType;
  source_syncStatus : SyncStatus;
  source_codegraphIndexing : bool;       (* codegraphStatus = 'indexing' *)
  source_deletionRequested : bool;       (* deletionRequestedAt is set *)
  source_initialSyncCompletedAt : option Z;
  source_isEnabled : bool;
  source_userId : option string
}.

Record EvaluationTask := mkTask {
  task_agentId : string;
  task_status : RunStatus;
  task_error : option string;
  task_createdAt : Z;
  task_updatedAt : Z;
  task_finishedAt : option Z
}.

Record EvaluationResult := mkResult {
  result_taskId : string;
  result_status : RunStatus;
  result_error : option string;
  result_updatedAt : Z
}.

Inductive ChatRole := role_user | role_agent.

Record ChatMessage := mkMessage { msg_runId : string; msg_role : ChatRole; msg_content : string }.

(** A removal reservation; its id is [workspaceRemovalId]. *)
Record WorkspaceRemoval := mkRemoval {
  removal_scmSourceId : string;
  removal_workspaceName : string;
  removal_ownerInstanceId : option string;
  removal_attemptToken : string;
  removal_attemptStartedAt : Z
}.

Definition workspaceRemovalId (sourceId name : string) : string := sourceId +:+ ":" +:+ name.

Record InstanceLiveness := mkLiveness { startedAt : Z; heartbeatAt : Z }.

(** ** The database

    SCM leases are keyed by [(workloadType, workloadId)], the table's unique
    index, of which the primary key [<type>:<id>] is a function. *)
Record Db := mkDb {
  db_runs : gmap string Run;
  db_steps : gmap string RunStep;
  db_agents : gmap string Agent;
  db_leases : gmap (WorkloadType * string) ScmLease;
  db_sources : gmap string ScmSource;
  db_removals : gmap string WorkspaceRemoval;
  db_heartbeats : gmap string InstanceLiveness;
  db_tasks : gmap string EvaluationTask;
  db_results : gmap string EvaluationResult;
  db_messages : gmap string ChatMessage
}.

Definition set_runs (f : gmap string Run -> gmap string Run) (d : Db) : Db :=
  mkDb (f (db_runs d)) (db_steps d) (db_agents d) (db_leases d) (db_sources d)
       (db_removals d) (db_heartbeats d) (db_tasks d) (db_results d) (db_messages d).
Definition set_steps (f : gmap string RunStep -> gmap string RunStep) (d : Db) : Db :=
  mkDb (db_runs d) (f (db_steps d)) (db_agents d) (db_leases d) (db_sources d)
       (db_removals d) (db_heartbeats d) (db_tasks d) (db_results d) (db_messages d).
Definition set_leases
    (f : gmap (WorkloadType * string) ScmLease -> gmap (WorkloadType * string) ScmLease)
    (d : Db) : Db :=
  mkDb (db_runs d) (db_steps d) (db_agents d) (f (db_leases d)) (db_sources d)
       (db_removals d) (db_heartbeats d) (db_tasks d) (db_results d) (db_messages d).
Definition set_sources (f : gmap string ScmSource -> gmap string ScmSource) (d : Db) : Db :=
  mkDb (db_runs d) (db_steps d) (db_agents d) (db_leases d) (f (db_sources d))
       (db_removals d) (db_heartbeats d) (db_tasks d) (db_results d) (db_messages d).
Definition set_heartbeats
    (f : gmap string InstanceLiveness -> gmap string InstanceLiveness) (d : Db) : Db :=
  mkDb (db_runs d) (db_steps d) (db_agents d) (db_leases d) (db_sources d)
       (db_removals d) (f (db_heartbeats d)) (db_tasks d) (db_results d) (db_messages d).
Definition set_tasks (f : gmap string EvaluationTask -> gmap string EvaluationTask) (d : Db) : Db :=
  mkDb (db_runs d) (db_steps d) (db_agents d) (db_leases d) (db_sources d)
       (db_removals d) (db_heartbeats d) (f (db_tasks d)) (db_results d) (db_messages d).
Definition set_results
    (f : gmap string EvaluationResult -> gmap string EvaluationResult) (d : Db) : Db :=
  mkDb (db_runs d) (db_steps d) (db_agents d) (db_leases d) (db_sources d)
       (db_removals d) (db_heartbeats d) (db_tasks d) (f (db_results d)) (db_messages d).

Definition set_removals
    (f : gmap string WorkspaceRemoval -> gmap string WorkspaceRemoval) (d : Db) : Db :=
  mkDb (db_runs d) (db_steps d) (db_agents d) (db_leases d) (db_sources d)
       (f (db_removals d)) (db_heartbeats d) (db_tasks d) (db_results d) (db_messages d).
Definition set_messages (f : gmap string ChatMessage -> gmap string ChatMessage) (d : Db) : Db :=
  mkDb (db_runs d) (db_steps d) (db_agents d) (db_leases d) (db_sources d)
       (db_removals d) (db_heartbeats d) (db_tasks d) (db_results d) (f (db_messages d)).

Definition empty_db : Db := mkDb ∅ ∅ ∅ ∅ ∅ ∅ ∅ ∅ ∅ ∅.

(** Column updates of a run row *)
Definition with_status (st : RunStatus) (r : Run) : Run :=
  mkRun st (run_result r) (run_executionMetadata r) (run_triggerSource r)
    (run_triggerSessionId r) (run_workDir r) (run_ownerInstanceId r) (run_worktreeConfig r)
    (run_initiatorAgentId r) (run_queuedAt r) (run_createdAt r) (run_updatedAt r)
    (run_usage r) (run_origin r).
Definition with_result (v : option json) (r : Run) : Run :=
  mkRun (run_status r) v (run_executionMetadata r) (run_triggerSource r)
    (run_triggerSessionId r) (run_workDir r) (run_ownerInstanceId r) (run_worktreeConfig r)
    (run_initiatorAgentId r) (run_queuedAt r) (run_createdAt r) (run_updatedAt r)
    (run_usage r) (run_origin r).
Definition with_metadata (v : option js_object) (r : Run) : Run :=
  mkRun (run_status r) (run_result r) v (run_triggerSource r)
    (run_triggerSessionId r) (run_workDir r) (run_ownerInstanceId r) (run_worktreeConfig r)
    (run_initiatorAgentId r) (run_queuedAt r) (run_createdAt r) (run_updatedAt r)
    (run_usage r) (run_origin r).
Definition with_workDir (v : option string) (r : Run) : Run :=
  mkRun (run_status r) (run_result r) (run_executionMetadata r) (run_triggerSource r)
    (run_triggerSessionId r) v (run_ownerInstanceId r) (run_worktreeConfig r)
    (run_initiatorAgentId r) (run_queuedAt r) (run_createdAt r) (run_updatedAt r)
    (run_usage r) (run_origin r).
Definition with_owner (v : option string) (r : Run) : Run :=
  mkRun (run_status r) (run_result r) (run_executionMetadata r) (run_triggerSource r)
    (run_triggerSessionId r) (run_workDir r) v (run_worktreeConfig r)
    (run_initiatorAgentId r) (run_queuedAt r) (run_createdAt r) (run_updatedAt r)
    (run_usage r) (run_origin r).
Definition with_queuedAt (v : option Z) (r : Run) : Run :=
  mkRun (run_status r) (run_result r) (run_executionMetadata r) (run_triggerSource r)
    (run_triggerSessionId r) (run_workDir r) (run_ownerInstanceId r) (run_worktreeConfig r)
    (run_initiatorAgentId r) v (run_createdAt r) (run_updatedAt r)
    (run_usage r) (run_origin r).
Definition with_updatedAt (v : Z) (r : Run) : Run :=
  mkRun (run_status r) (run_result r) (run_executionMetadata r) (run_triggerSource r)
    (run_triggerSessionId r) (run_workDir r) (run_ownerInstanceId r) (run_worktreeConfig r)
    (run_initiatorAgentId r) (run_queuedAt r) (run_createdAt r) v (run_usage r)
    (run_origin r).

Definition with_usage (v : TokenUsage) (r : Run) : Run :=
  mkRun (run_status r) (run_result r) (run_executionMetadata r) (run_triggerSource r)
    (run_triggerSessionId r) (run_workDir r) (run_ownerInstanceId r) (run_worktreeConfig r)
    (run_initiatorAgentId r) (run_queuedAt r) (run_createdAt r) (run_updatedAt r) v
    (run_origin r).

Definition with_syncStatus (st : SyncStatus) (s : ScmSource) : ScmSource :=
  mkSource (source_name s) (source_localPath s) (source_workspacesPath s) (source_type s) st
    (source_codegraphIndexing s) (source_deletionRequested s) (source_initialSyncCompletedAt s)
    (source_isEnabled s) (source_userId s).

Definition with_phase_owner (ph : LeasePhase) (o : option string) (t : Z) (l : ScmLease) : ScmLease :=
  mkLease (lease_agentId l) (lease_scmSourceId l) ph o t.

(** ** Queries *)

(** [update(table).set(f).where(and(eq(id, k), cond)).returning({ id })]: the
    boolean is whether a row came back. *)
Definition update_where `{Countable K} {V} (k : K) (cond : V -> bool) (f : V -> V)
    (t : gmap K V) : bool * gmap K V :=
  match t !! k with
  | Some v => if cond v then (true, <[k := f v]> t) else (false, t)
  | None => (false, t)
  end.

(** [update(run_steps).set(f).where(run_id = runId and status = 'running')] *)
Definition settle_steps (runId : string) (f : RunStep -> RunStep)
    (t : gmap string RunStep) : gmap string RunStep :=
  (fun s => if decide (step_runId s = runId /\ step_status s = step_running) then f s else s) <$> t.

Definition with_step_status (st : StepStatus) (s : RunStep) : RunStep :=
  mkStep (step_runId s) (step_order s) (step_input s) (step_output s) st (step_durationMs s)
    (step_agentId s).
Definition with_step_output (v : option js_object) (s : RunStep) : RunStep :=
  mkStep (step_runId s) (step_order s) (step_input s) v (step_status s) (step_durationMs s)
    (step_agentId s).

(** Rows of an agent's runs in a status, [eq(initiatorAgentId, a) and eq(status, st)] *)
Definition run_in (a : string) (st : RunStatus) (kv : string * Run) : Prop :=
  run_initiatorAgentId kv.2 = Some a /\ run_status kv.2 = st.
#[export] Instance run_in_dec a st kv : Decision (run_in a st kv).
Proof. unfold run_in. apply _. Defined.

Definition runs_in (a : string) (st : RunStatus) (d : Db) : gmap string Run :=
  filter (run_in a st) (db_runs d).

(** ** Lemmas *)

Lemma parseRunStatus_name st : parseRunStatus (status_name st) = Some st.
Proof. by destruct st. Qed.

Lemma parseRunStatus_Some s st : parseRunStatus s = Some st -> status_name st = s.
Proof.
  unfold parseRunStatus. intros Hp.
  destruct (list_find _ _) as [[i x]|] eqn:Hf; [|done].
  apply list_find_Some in Hf as (_ & Hx & _). by injection Hp as <-.
Qed.

Section UpdateWhere.
Context `{Countable K} {V : Type} (k : K) (cond : V -> bool) (f : V -> V).

Lemma update_where_true t t' :
  update_where k cond f t = (true, t') ->
  exists v, t !! k = Some v /\ cond v = true /\ t' = <[k := f v]> t.
Proof.
  unfold update_where. destruct (t !! k) as [v|]; [|done].
  destruct (cond v) eqn:Hc; naive_solver.
Qed.

Lemma update_where_false t t' :
  update_where k cond f t = (false, t') ->
  t' = t /\ forall v, t !! k = Some v -> cond v = false.
Proof.
  unfold update_where. destruct (t !! k) as [v|]; [|naive_solver].
  destruct (cond v) eqn:Hc; naive_solver.
Qed.

Lemma update_where_hit t v :
  t !! k = Some v -> cond v = true -> update_where k cond f t = (true, <[k := f v]> t).
Proof. unfold update_where. by intros -> ->. Qed.
End UpdateWhere.

Lemma lookup_runs_in a st d k r :
  runs_in a st d !! k = Some r <->
  db_runs d !! k = Some r /\ run_initiatorAgentId r = Some a /\ run_status r = st.
Proof. unfold runs_in. rewrite map_lookup_filter_Some. unfold run_in. naive_solver. Qed.

Lemma lookup_settle_steps runId f t k :
  settle_steps runId f t !! k =
  (fun s => if decide (step_runId s = runId /\ step_status s = step_running)
            then f s else s) <$> t !! k.
Proof. apply lookup_fmap. Qed.
