(* ===== verification/LeaseRegistry.v ===== *)
(** * In-process execution leases

    [apps/api/src/engine/execution-lease-registry.ts].  A lease entry is one
    object reachable from [leasesByRunId], from [leasesByTaskId] under each of
    its tasks, and from every [ExecutionLease] handle given to a caller, so
    entries live in a heap and the maps hold references into it.  A handle is
    a reference: its [finish] acts on the entry it was made for, even when the
    run id has since been leased again. *)
From S2P Require Import Prelude.

Record LeaseEntry := mkEntry {
  entry_runId : string;
  entry_taskIds : gset string;
  entry_agentId : option string;
  entry_aborted : bool;      (* controller.signal.aborted *)
  entry_resolved : bool;     (* completion has resolved *)
  entry_finished : bool
}.

Record Registry := mkRegistry {
  heap : list LeaseEntry;
  leasesByRunId : gmap string nat;
  leasesByTaskId : gmap string nat;
  workerSignalsByTaskId : gmap string nat;       (* task -> signal identity *)
  durableReleaseHandler : bool;                  (* a handler is installed *)
  pendingDurableReleases : gmap nat string;      (* tracked promise -> its run *)
  settlingRunIds : gset string;
  durableReleaseErrors : list JsError;
  nextRelease : nat
}.

Definition empty_registry : Registry := mkRegistry [] ∅ ∅ ∅ true ∅ ∅ [] 0.

Definition with_heap (h : list LeaseEntry) (g : Registry) : Registry :=
  mkRegistry h (leasesByRunId g) (leasesByTaskId g) (workerSignalsByTaskId g)
    (durableReleaseHandler g) (pendingDurableReleases g) (settlingRunIds g)
    (durableReleaseErrors g) (nextRelease g).
Definition with_byRun (m : gmap string nat) (g : Registry) : Registry :=
  mkRegistry (heap g) m (leasesByTaskId g) (workerSignalsByTaskId g)
    (durableReleaseHandler g) (pendingDurableReleases g) (settlingRunIds g)
    (durableReleaseErrors g) (nextRelease g).
Definition with_byTask (m : gmap string nat) (g : Registry) : Registry :=
  mkRegistry (heap g) (leasesByRunId g) m (workerSignalsByTaskId g)
    (durableReleaseHandler g) (pendingDurableReleases g) (settlingRunIds g)
    (durableReleaseErrors g) (nextRelease g).
Definition with_workerSignals (m : gmap string nat) (g : Registry) : Registry :=
  mkRegistry (heap g) (leasesByRunId g) (leasesByTaskId g) m
    (durableReleaseHandler g) (pendingDurableReleases g) (settlingRunIds g)
    (durableReleaseErrors g) (nextRelease g).

(** ** Operations *)

Definition createExecutionLease (runId : string) (agentId : option string)
    (g : Registry) : nat * Registry :=
  let ref := length (heap g) in
  let entry := mkEntry runId ∅ agentId false false false in
  (ref, with_byRun (<[runId := ref]> (leasesByRunId g)) (with_heap (heap g ++ [entry]) g)).

(** [existing.agentId ??= agentId] *)
Definition entry_adopt_agent (agentId : option string) (e : LeaseEntry) : LeaseEntry :=
  mkEntry (entry_runId e) (entry_taskIds e)
    (match entry_agentId e with Some a => Some a | None => agentId end)
    (entry_aborted e) (entry_resolved e) (entry_finished e).

Definition getOrCreateExecutionLease (runId : string) (agentId : option string)
    (g : Registry) : nat * Registry :=
  match leasesByRunId g !! runId with
  | Some ref => (ref, with_heap (alter (entry_adopt_agent agentId) ref (heap g)) g)
  | None => createExecutionLease runId agentId g
  end.

Definition reserveExecutionLease (runId : string) (agentId : option string)
    (g : Registry) : nat * Registry :=
  getOrCreateExecutionLease runId agentId g.

Definition entry_add_task (taskId : string) (e : LeaseEntry) : LeaseEntry :=
  mkEntry (entry_runId e) ({[taskId]} ∪ entry_taskIds e) (entry_agentId e)
    (entry_aborted e) (entry_resolved e) (entry_finished e).

(** The run's lease is looked up or created before the task conflict is
    detected, so a conflicting call throws with the lease in place. *)
Definition bindExecutionLeaseTask (runId taskId : string) (agentId : option string)
    : M Registry nat := fun g =>
  let '(ref, g1) := getOrCreateExecutionLease runId agentId g in
  match leasesByTaskId g1 !! taskId with
  | Some owner =>
      if decide (owner = ref) then
        (Ret ref, with_byTask (<[taskId := ref]> (leasesByTaskId g1))
                    (with_heap (alter (entry_add_task taskId) ref (heap g1)) g1))
      else (Throw (mkError "Error" "Execution lease already exists for task"), g1)
  | None =>
      (Ret ref, with_byTask (<[taskId := ref]> (leasesByTaskId g1))
                  (with_heap (alter (entry_add_task taskId) ref (heap g1)) g1))
  end.

Definition beginExecutionLease := bindExecutionLeaseTask.

Definition entry_abort (e : LeaseEntry) : LeaseEntry :=
  mkEntry (entry_runId e) (entry_taskIds e) (entry_agentId e) true
    (entry_resolved e) (entry_finished e).

(** Returns the entry whose completion the caller awaits, [None] for an
    already resolved promise. *)
Definition cancelExecutionLease (runId : string) (g : Registry) : option nat * Registry :=
  match leasesByRunId g !! runId with
  | None => (None, g)
  | Some ref => (Some ref, with_heap (alter entry_abort ref (heap g)) g)
  end.

Inductive AbortSource := LeaseSignal (ref : nat) | WorkerSignal (id : nat).

(** The signals whose abort aborts the task ([AbortSignal.any] when both). *)
Definition getExecutionAbortSignal (taskId : string) (g : Registry) : list AbortSource :=
  match leasesByTaskId g !! taskId with Some ref => [LeaseSignal ref] | None => [] end ++
  match workerSignalsByTaskId g !! taskId with Some s => [WorkerSignal s] | None => [] end.

Definition registerWorkerExecutionSignal (taskId : string) (signal : nat) : M Registry unit :=
  fun g =>
  match workerSignalsByTaskId g !! taskId with
  | Some _ => (Throw (mkError "Error" "Worker execution signal already exists for task"), g)
  | None => (Ret tt, with_workerSignals (<[taskId := signal]> (workerSignalsByTaskId g)) g)
  end.

(** The closure returned by [registerWorkerExecutionSignal] *)
Definition unregisterWorkerExecutionSignal (taskId : string) (signal : nat) (g : Registry)
    : Registry :=
  if decide (workerSignalsByTaskId g !! taskId = Some signal)
  then with_workerSignals (delete taskId (workerSignalsByTaskId g)) g else g.

Definition hasExecutionLease (runId : string) (g : Registry) : bool :=
  bool_decide (is_Some (leasesByRunId g !! runId)).

Definition isRunExecutionSettling (runId : string) (g : Registry) : bool :=
  hasExecutionLease runId g || bool_decide (runId ∈ settlingRunIds g).

(** [for (const entry of leasesByRunId.values())], unfinished ones *)
Definition listActiveExecutionLeases (g : Registry) : list (string * option string) :=
  omap (fun '(_, ref) =>
          match heap g !! ref with
          | Some e => if entry_finished e then None else Some (entry_runId e, entry_agentId e)
          | None => None
          end) (map_to_list (leasesByRunId g)).

Definition countActiveExecutionLeases (agentId : string) (g : Registry) : nat :=
  length (filter (fun l => l.2 = Some agentId) (listActiveExecutionLeases g)).

Definition entry_finish (e : LeaseEntry) : LeaseEntry :=
  mkEntry (entry_runId e) (entry_taskIds e) (entry_agentId e) (entry_aborted e) true true.

(** [for (const taskId of entry.taskIds) if (leasesByTaskId.get(taskId) === entry) delete] *)
Definition drop_tasks (ref : nat) (tasks : gset string) (m : gmap string nat) : gmap string nat :=
  filter (fun kv => ~ (kv.1 ∈ tasks /\ kv.2 = ref)) m.

(** Start the durable release: the tracked promise stays pending until
    [settleDurableRelease]. *)
Definition startDurableRelease (runId : string) (g : Registry) : Registry :=
  if durableReleaseHandler g then
    mkRegistry (heap g) (leasesByRunId g) (leasesByTaskId g) (workerSignalsByTaskId g)
      (durableReleaseHandler g)
      (<[nextRelease g := runId]> (pendingDurableReleases g))
      ({[runId]} ∪ settlingRunIds g) (durableReleaseErrors g) (S (nextRelease g))
  else g.

Definition finishExecutionLeaseEntry (ref : nat) (g : Registry) : Registry :=
  match heap g !! ref with
  | None => g
  | Some e =>
      if entry_finished e then g else
      let g1 := with_heap (<[ref := entry_finish e]> (heap g)) g in
      let g2 := if decide (leasesByRunId g1 !! entry_runId e = Some ref)
                then with_byRun (delete (entry_runId e) (leasesByRunId g1)) g1 else g1 in
      let g3 := with_byTask (drop_tasks ref (entry_taskIds e) (leasesByTaskId g2)) g2 in
      startDurableRelease (entry_runId e) g3
  end.

Definition completeExecutionLease (runId : string) (g : Registry) : Registry :=
  match leasesByRunId g !! runId with
  | Some ref => finishExecutionLeaseEntry ref g
  | None => g
  end.

(** The [catch] and [finally] of the tracked promise, run when it settles *)
Definition settleDurableRelease (token : nat) (error : option JsError) (g : Registry) : Registry :=
  match pendingDurableReleases g !! token with
  | None => g
  | Some runId =>
      mkRegistry (heap g) (leasesByRunId g) (leasesByTaskId g) (workerSignalsByTaskId g)
        (durableReleaseHandler g) (delete token (pendingDurableReleases g))
        (settlingRunIds g ∖ {[runId]})
        (durableReleaseErrors g ++ option_list error) (nextRelease g)
  end.

(** [drainDurableExecutionLeaseReleases] once every pending release settled:
    the collected errors are spliced out and thrown as one. *)
Definition drainDurableExecutionLeaseReleases : M Registry unit := fun g =>
  match durableReleaseErrors g with
  | [] => (Ret tt, g)
  | _ => (Throw (mkError "AggregateError"
                   "One or more durable SCM workload lease releases failed"),
          mkRegistry (heap g) (leasesByRunId g) (leasesByTaskId g) (workerSignalsByTaskId g)
            (durableReleaseHandler g) (pendingDurableReleases g) (settlingRunIds g) []
            (nextRelease g))
  end.

(** ** Registry invariant *)

Record wf (g : Registry) : Prop := {
  wf_run : forall r l, leasesByRunId g !! r = Some l ->
    exists e, heap g !! l = Some e /\ entry_runId e = r /\ entry_finished e = false;
  wf_live : forall l e, heap g !! l = Some e -> entry_finished e = false ->
    leasesByRunId g !! entry_runId e = Some l;
  wf_task : forall t l, leasesByTaskId g !! t = Some l ->
    exists e, heap g !! l = Some e /\ t ∈ entry_taskIds e /\ entry_finished e = false;
  wf_bound : forall l e t, heap g !! l = Some e -> entry_finished e = false ->
    t ∈ entry_taskIds e -> leasesByTaskId g !! t = Some l;
  wf_resolved : forall l e, heap g !! l = Some e -> entry_resolved e = entry_finished e;
  wf_settling : forall r, r ∈ settlingRunIds g ->
    exists k, pendingDurableReleases g !! k = Some r;
  wf_tokens : forall k r, pendingDurableReleases g !! k = Some r -> k < nextRelease g
}.

(** Any call on the registry, by any holder of a handle, in any order, and any
    settlement of a tracked release. *)
Inductive reg_step : Registry -> Registry -> Prop :=
| step_reserve g r a : reg_step g (reserveExecutionLease r a g).2
| step_bind g r t a : reg_step g (bindExecutionLeaseTask r t a g).2
| step_cancel g r : reg_step g (cancelExecutionLease r g).2
| step_finish g ref : reg_step g (finishExecutionLeaseEntry ref g)
| step_complete g r : reg_step g (completeExecutionLease r g)
| step_settle g k err : reg_step g (settleDurableRelease k err g)
| step_worker g t s : reg_step g (registerWorkerExecutionSignal t s g).2
| step_unworker g t s : reg_step g (unregisterWorkerExecutionSignal t s g)
| step_drain g : reg_step g (drainDurableExecutionLeaseReleases g).2.

Lemma wf_empty : wf empty_registry.
Proof. split; intros *; simpl; rewrite ?lookup_empty, ?lookup_nil; set_solver. Qed.

(** An entry update that keeps identity, tasks and life cycle keeps [wf]. *)
Lemma wf_alter f l g :
  (forall e, entry_runId (f e) = entry_runId e /\ entry_taskIds (f e) = entry_taskIds e /\
             entry_finished (f e) = entry_finished e /\
             entry_resolved (f e) = entry_resolved e) ->
  wf g -> wf (with_heap (alter f l (heap g)) g).
Proof.
  intros Hf [W1 W2 W3 W4 W5 W6 W7].
  assert (forall k e', alter f l (heap g) !! k = Some e' ->
    exists e, heap g !! k = Some e /\ entry_runId e' = entry_runId e /\
      entry_taskIds e' = entry_taskIds e /\ entry_finished e' = entry_finished e /\
      entry_resolved e' = entry_resolved e) as Hback.
  { intros k e' (e & He & [[_ ->]|[_ ->]])%list_alter_Some; exists e; [done|].
    destruct (Hf e) as (? & ? & ? & ?). done. }
  assert (forall k e, heap g !! k = Some e ->
    exists e', alter f l (heap g) !! k = Some e' /\ entry_runId e' = entry_runId e /\
      entry_taskIds e' = entry_taskIds e /\ entry_finished e' = entry_finished e) as Hfwd.
  { intros k e Hk. rewrite list_lookup_alter_if, Hk. destruct (Hf e) as (? & ? & ? & ?).
    simpl. case_decide; eauto. }
  split; simpl.
  - intros r k (e & He & ? & ?)%W1. apply Hfwd in He as (e' & ? & ? & ? & ?).
    exists e'. split_and!; congruence.
  - intros k e' (e & He & Hr & _ & Hfin & _)%Hback Hn. rewrite Hr. apply W2; congruence.
  - intros t k (e & He & ? & ?)%W3. apply Hfwd in He as (e' & ? & ? & Ht & ?).
    exists e'. rewrite Ht. split_and!; congruence.
  - intros k e' t (e & He & Hr & Ht & Hfin & _)%Hback Hn Hin. rewrite Ht in Hin.
    eapply W4; [exact He | congruence | done].
  - intros k e' (e & He & _ & _ & -> & ->)%Hback. by eapply W5.
  - exact W6.
  - exact W7.
Qed.

Lemma wf_create r a g :
  wf g -> leasesByRunId g !! r = None -> wf (createExecutionLease r a g).2.
Proof.
  intros [W1 W2 W3 W4 W5 W6 W7] Hnone.
  assert (forall (ne : LeaseEntry) k e, (heap g ++ [ne]) !! k = Some e ->
    heap g !! k = Some e \/ k = length (heap g) /\ e = ne) as Hback.
  { intros ne k e [|[? Hs]]%lookup_app_Some; [eauto|].
    apply list_lookup_singleton_Some in Hs as [? <-]. right. split; [lia | done]. }
  assert (forall (ne : LeaseEntry) k e, heap g !! k = Some e -> (heap g ++ [ne]) !! k = Some e)
    as Hfwd by (intros; by apply lookup_app_l_Some).
  split; simpl.
  - intros r' k. rewrite lookup_insert. case_decide as Heq.
    + intros [= <-]. eexists. split; [by apply list_lookup_middle|]. naive_solver.
    + intros (e & ? & ? & ?)%W1. eauto 10.
  - intros k e [Hk|[-> ->]]%Hback Hn; simpl; [|by rewrite lookup_insert_eq].
    rewrite lookup_insert_ne; [eauto|]. intros ->.
    by rewrite (W2 _ _ Hk Hn) in Hnone.
  - intros t k (e & ? & ? & ?)%W3. eauto 10.
  - intros k e t [Hk|[-> ->]]%Hback Hn Hin; simpl in *; [eauto | set_solver].
  - intros k e [Hk|[-> ->]]%Hback; simpl; eauto.
  - exact W6.
  - exact W7.
Qed.

Lemma wf_getOrCreate r a g : wf g -> wf (getOrCreateExecutionLease r a g).2.
Proof.
  intros Hw. unfold getOrCreateExecutionLease.
  destruct (leasesByRunId g !! r) eqn:Hr; simpl.
  - apply wf_alter; [|done]. by intros e.
  - by apply wf_create.
Qed.

(** The reference returned is the run's live, registered entry. *)
Lemma getOrCreate_registered r a g :
  wf g -> let '(ref, g') := getOrCreateExecutionLease r a g in
  leasesByRunId g' !! r = Some ref.
Proof.
  intros Hw. unfold getOrCreateExecutionLease, createExecutionLease.
  destruct (leasesByRunId g !! r) eqn:Hr; simpl; [done | by rewrite lookup_insert_eq].
Qed.

Lemma wf_add_task ref t g :
  wf g -> (exists e, heap g !! ref = Some e /\ entry_finished e = false) ->
  (leasesByTaskId g !! t = None \/ leasesByTaskId g !! t = Some ref) ->
  wf (with_byTask (<[t := ref]> (leasesByTaskId g))
        (with_heap (alter (entry_add_task t) ref (heap g)) g)).
Proof.
  intros [W1 W2 W3 W4 W5 W6 W7] (e0 & He0 & Hf0) Hfree.
  assert (forall k e', alter (entry_add_task t) ref (heap g) !! k = Some e' ->
    exists e, heap g !! k = Some e /\ (k <> ref /\ e' = e \/ k = ref /\ e' = entry_add_task t e))
    as Hback.
  { intros k e' (e & He & Hc)%list_alter_Some. exists e. naive_solver. }
  assert (forall k e, heap g !! k = Some e ->
    exists e', alter (entry_add_task t) ref (heap g) !! k = Some e' /\
      entry_runId e' = entry_runId e /\ entry_finished e' = entry_finished e /\
      (forall x, x ∈ entry_taskIds e -> x ∈ entry_taskIds e') /\
      (k = ref -> t ∈ entry_taskIds e')) as Hfwd.
  { intros k e Hk. rewrite list_lookup_alter_if, Hk. simpl.
    case_decide; eexists; split_and!; eauto; simpl; set_solver. }
  split; simpl.
  - intros r k (e & He & ? & ?)%W1. apply Hfwd in He as (e' & ? & ? & ? & _).
    exists e'. split_and!; congruence.
  - intros k e' (e & He & [[_ ->]|[-> ->]])%Hback Hn; simpl in *; eauto.
  - intros t' k. rewrite lookup_insert. case_decide as Heq.
    + intros [= <-]. destruct (Hfwd _ _ He0) as (e' & ? & ? & ? & _ & Hin).
      exists e'. subst t'. split_and!; [done | auto | congruence].
    + intros (e & He & ? & ?)%W3. destruct (Hfwd _ _ He) as (e' & ? & ? & ? & Hin & _).
      exists e'. split_and!; [done | auto | congruence].
  - intros k e' t' (e & He & Hcase)%Hback Hn Hin. rewrite lookup_insert.
    case_decide as Heq; [subst t'|].
    + destruct Hcase as [[Hne ->]|[-> _]]; [|done].
      pose proof (W4 _ _ _ He Hn Hin). destruct Hfree; congruence.
    + destruct Hcase as [[_ ->]|[-> ->]]; simpl in *; eapply W4; eauto; set_solver.
  - intros k e' (e & He & [[_ ->]|[-> ->]])%Hback; simpl; eauto.
  - exact W6.
  - exact W7.
Qed.

Lemma wf_bind r t a g : wf g -> wf (bindExecutionLeaseTask r t a g).2.
Proof.
  intros Hw. unfold bindExecutionLeaseTask.
  pose proof (wf_getOrCreate r a g Hw) as Hw1.
  pose proof (getOrCreate_registered r a g Hw) as Hreg.
  destruct (getOrCreateExecutionLease r a g) as [ref g1]; simpl in *.
  destruct (wf_run _ Hw1 _ _ Hreg) as (e & He & _ & Hf).
  destruct (leasesByTaskId g1 !! t) as [o|] eqn:Ho; [case_decide; [|done]|]; simpl;
    apply wf_add_task; naive_solver.
Qed.

(** Dropping a finished entry from the maps, before its release starts *)
Lemma wf_retire ref e g :
  wf g -> heap g !! ref = Some e -> entry_finished e = false ->
  wf (with_byTask (drop_tasks ref (entry_taskIds e) (leasesByTaskId g))
        (with_byRun (delete (entry_runId e) (leasesByRunId g))
           (with_heap (<[ref := entry_finish e]> (heap g)) g))).
Proof.
  intros [W1 W2 W3 W4 W5 W6 W7] He Hfin.
  pose proof (lookup_lt_Some _ _ _ He) as Hlt.
  pose proof (W2 _ _ He Hfin) as Hrun.
  assert (forall k e', <[ref:=entry_finish e]> (heap g) !! k = Some e' ->
    k = ref /\ e' = entry_finish e \/ k <> ref /\ heap g !! k = Some e') as Hback.
  { intros k e'. rewrite list_lookup_insert. case_decide; [|naive_solver].
    intros [= <-]. naive_solver. }
  assert (forall k e', heap g !! k = Some e' -> k <> ref ->
    <[ref:=entry_finish e]> (heap g) !! k = Some e') as Hfwd.
  { intros k e' Hk Hne. by rewrite list_lookup_insert_ne. }
  split; simpl.
  - intros r k. rewrite lookup_delete. case_decide; [done|].
    intros Hr. destruct (W1 _ _ Hr) as (e' & Hk & Hid & Hn).
    exists e'. split_and!; [|done|done]. apply Hfwd; [done|]. intros ->. congruence.
  - intros k e' [[_ ->]|[Hne Hk]]%Hback Hn; [done|].
    rewrite lookup_delete_ne; [by apply W2|]. intros Heq.
    pose proof (W2 _ _ Hk Hn). congruence.
  - intros t k [Ht Hnot]%map_lookup_filter_Some.
    destruct (W3 _ _ Ht) as (e' & Hk & Hin & Hn). exists e'.
    split_and!; [|done|done]. apply Hfwd; [done|]. intros ->.
    apply Hnot; simpl. split; [|done]. by simplify_eq.
  - intros k e' t [[_ ->]|[Hne Hk]]%Hback Hn Hin; [done|].
    apply map_lookup_filter_Some. split; [by eapply W4|]. naive_solver.
  - intros k e' [[_ ->]|[_ Hk]]%Hback; [done | by eapply W5].
  - exact W6.
  - exact W7.
Qed.

Lemma wf_startDurableRelease r g : wf g -> wf (startDurableRelease r g).
Proof.
  intros [W1 W2 W3 W4 W5 W6 W7]. unfold startDurableRelease.
  case_match; [|by split]. split; try done; simpl.
  - intros r'. rewrite elem_of_union, elem_of_singleton. intros [->|Hin].
    + eexists. by rewrite lookup_insert_eq.
    + destruct (W6 r' Hin) as [k Hk]. exists k.
      rewrite lookup_insert_ne; [done|]. apply W7 in Hk. lia.
  - intros k r'. rewrite lookup_insert. case_decide; [lia|].
    intros ?%W7. lia.
Qed.

Lemma finish_live ref e g :
  wf g -> heap g !! ref = Some e -> entry_finished e = false ->
  finishExecutionLeaseEntry ref g =
  startDurableRelease (entry_runId e)
    (with_byTask (drop_tasks ref (entry_taskIds e) (leasesByTaskId g))
       (with_byRun (delete (entry_runId e) (leasesByRunId g))
          (with_heap (<[ref := entry_finish e]> (heap g)) g))).
Proof.
  intros Hw He Hfin. unfold finishExecutionLeaseEntry. rewrite He, Hfin. simpl.
  by rewrite decide_True by by apply wf_live.
Qed.

Lemma finish_stale ref e g :
  heap g !! ref = Some e -> entry_finished e = true -> finishExecutionLeaseEntry ref g = g.
Proof. unfold finishExecutionLeaseEntry. by intros -> ->. Qed.

Lemma wf_finish ref g : wf g -> wf (finishExecutionLeaseEntry ref g).
Proof.
  intros Hw. destruct (heap g !! ref) as [e|] eqn:He.
  - destruct (entry_finished e) eqn:Hfin.
    + by rewrite (finish_stale _ _ _ He Hfin).
    + rewrite (finish_live _ _ _ Hw He Hfin).
      by apply wf_startDurableRelease, wf_retire.
  - unfold finishExecutionLeaseEntry. by rewrite He.
Qed.

Lemma wf_settle k err g : wf g -> wf (settleDurableRelease k err g).
Proof.
  intros [W1 W2 W3 W4 W5 W6 W7]. unfold settleDurableRelease.
  destruct (pendingDurableReleases g !! k) as [r|] eqn:Hk; [|by split].
  split; try done; simpl.
  - intros r' [Hin Hne]%elem_of_difference. destruct (W6 _ Hin) as [k' Hk'].
    exists k'. rewrite lookup_delete_ne; [done|]. set_solver.
  - intros k' r' [_ ?]%lookup_delete_Some. by eapply W7.
Qed.

Lemma wf_step g g' : reg_step g g' -> wf g -> wf g'.
Proof.
  intros [] Hw.
  - by apply wf_getOrCreate.
  - by apply wf_bind.
  - unfold cancelExecutionLease. case_match; simpl; [|done]. by apply wf_alter.
  - by apply wf_finish.
  - unfold completeExecutionLease. case_match; [by apply wf_finish | done].
  - by apply wf_settle.
  - unfold registerWorkerExecutionSignal. case_match; simpl; [done | by destruct Hw].
  - unfold unregisterWorkerExecutionSignal. case_match; [by destruct Hw | done].
  - unfold drainDurableExecutionLeaseReleases. case_match; simpl; [done | by destruct Hw].
Qed.

#[export] Hint Resolve wf_empty wf_getOrCreate wf_bind wf_finish wf_settle wf_step : a2w.

(** ** Occupancy *)

(** The run ids of an agent's unfinished leases *)
Definition leased_runs (a : string) (g : Registry) : gset string :=
  list_to_set (fst <$> filter (fun l => l.2 = Some a) (listActiveExecutionLeases g)).

Lemma elem_of_listActive g r a :
  wf g -> (r, a) ∈ listActiveExecutionLeases g <->
  exists l e, leasesByRunId g !! r = Some l /\ heap g !! l = Some e /\ entry_agentId e = a.
Proof.
  intros Hw. unfold listActiveExecutionLeases. rewrite list_elem_of_omap. split.
  - intros ([r' l] & Hin%elem_of_map_to_list & Hm).
    destruct (wf_run _ Hw _ _ Hin) as (e & He & Hid & Hn).
    rewrite He, Hn in Hm. injection Hm as <- <-. subst r'. eauto.
  - intros (l & e & Hr & He & <-). exists (r, l).
    rewrite elem_of_map_to_list. split; [done|].
    destruct (wf_run _ Hw _ _ Hr) as (e' & He' & <- & Hn). simplify_eq.
    by rewrite He, Hn.
Qed.

Lemma elem_of_leased_runs a g r :
  wf g -> r ∈ leased_runs a g <->
  exists l e, leasesByRunId g !! r = Some l /\ heap g !! l = Some e /\ entry_agentId e = Some a.
Proof.
  intros Hw. unfold leased_runs.
  rewrite elem_of_list_to_set, list_elem_of_fmap. setoid_rewrite list_elem_of_filter.
  split.
  - intros ([r' a'] & -> & Ha & Hin). simpl in *. subst a'. by apply elem_of_listActive in Hin.
  - intros Hex. exists (r, Some a). split; [done|]. split; [done|]. by apply elem_of_listActive.
Qed.

(** The same set, for one more lease taken or one finished *)
Lemma leased_runs_reserve_fresh a a' r g :
  wf g -> leasesByRunId g !! r = None ->
  leased_runs a' (reserveExecutionLease r (Some a) g).2 =
  (if decide (a = a') then {[r]} else ∅) ∪ leased_runs a' g.
Proof.
  intros Hw Hnone. apply set_eq. intros x.
  rewrite elem_of_union, elem_of_leased_runs, elem_of_leased_runs by auto with a2w.
  unfold reserveExecutionLease, getOrCreateExecutionLease. rewrite Hnone. simpl.
  destruct (decide (x = r)) as [->|Hne].
  - rewrite lookup_insert_eq, Hnone. split.
    + intros (l & e & [= <-] & He & Ha). rewrite list_lookup_middle in He by done.
      injection He as <-. simpl in Ha. left. case_decide; [set_solver | congruence].
    + intros [Hin|(? & ? & ? & _)]; [|done]. case_decide; [subst a'|set_solver].
      eexists _, _. split; [done|]. by rewrite list_lookup_middle.
  - rewrite lookup_insert_ne by done. split.
    + intros (l & e & Hr & He & Ha). right. destruct (wf_run _ Hw _ _ Hr) as (e' & He' & _).
      rewrite (lookup_app_l_Some _ _ _ _ He') in He. naive_solver.
    + intros [Hin|(l & e & Hr & He & Ha)]; [case_decide; set_solver|].
      exists l, e. split_and!; [done | by apply lookup_app_l_Some | done].
Qed.

Lemma registered_finish ref g r l e0 :
  wf g -> heap g !! ref = Some e0 -> entry_finished e0 = false ->
  leasesByRunId (finishExecutionLeaseEntry ref g) !! r = Some l <->
  leasesByRunId g !! r = Some l /\ l <> ref.
Proof.
  intros Hw He Hf. rewrite (finish_live _ _ _ Hw He Hf).
  assert (forall x y, leasesByRunId (startDurableRelease x y) = leasesByRunId y) as ->
    by (intros; unfold startDurableRelease; by case_match).
  simpl. rewrite lookup_delete_Some.
  pose proof (wf_live _ Hw _ _ He Hf). split.
  - intros [Hne Hr]. split; [done|]. intros ->.
    destruct (wf_run _ Hw _ _ Hr) as (e & ? & <- & _). by simplify_eq.
  - intros [Hr Hne]. split; [|done]. intros <-. by simplify_eq.
Qed.

Lemma heap_finish_other ref g l :
  l <> ref -> heap (finishExecutionLeaseEntry ref g) !! l = heap g !! l.
Proof.
  intros Hne. unfold finishExecutionLeaseEntry, startDurableRelease.
  repeat case_match; simpl; try done; by rewrite list_lookup_insert_ne.
Qed.

Lemma leased_runs_complete a r g :
  wf g -> leased_runs a (completeExecutionLease r g) = leased_runs a g ∖ {[r]}.
Proof.
  intros Hw. apply set_eq. intros x.
  unfold completeExecutionLease. destruct (leasesByRunId g !! r) as [ref|] eqn:Hr.
  - destruct (wf_run _ Hw _ _ Hr) as (e & He & Hid & Hf).
    rewrite elem_of_difference, elem_of_leased_runs, elem_of_leased_runs, elem_of_singleton
      by auto with a2w.
    setoid_rewrite (registered_finish _ _ _ _ _ Hw He Hf). split.
    + intros (l & e' & [Hx Hne] & He' & Ha). rewrite heap_finish_other in He' by done.
      split; [eauto|]. intros ->. congruence.
    + intros [(l & e' & Hx & He' & Ha) Hne]. exists l, e'.
      assert (l <> ref) by (intros ->; destruct (wf_run _ Hw _ _ Hx); naive_solver).
      by rewrite heap_finish_other.
  - rewrite elem_of_difference, elem_of_leased_runs, elem_of_singleton by done.
    split; [|naive_solver]. intros Hex. split; [done|]. intros ->. naive_solver.
Qed.

(** ** Properties *)

(** Whatever calls reach the registry, in any order and through any handle,
    the run and task indices name exactly the unfinished entries: each run id
    maps to the one unfinished entry of that run, each task to the unfinished
    entry that lists it, and a completion has resolved exactly when its entry
    finished. *)
Theorem registry_invariant g : rtc reg_step empty_registry g -> wf g.
Proof.
  intros Hr. cut (wf empty_registry); [|auto with a2w].
  induction Hr; eauto with a2w.
Qed.

Definition demo_registry : Registry :=
  (reserveExecutionLease "run_1" (Some "ag") empty_registry).2.

Lemma registry_invariant_witness : wf demo_registry.
Proof. apply registry_invariant, rtc_once, (step_reserve empty_registry). Defined.

(** A handle can end only the lease it was made for: once the run id has
    been leased again, calling [finish] on any other handle leaves the run's
    current lease registered, unfinished and unaborted. *)
Theorem finish_spares_current_lease g r cur ref :
  wf g -> leasesByRunId g !! r = Some cur -> ref <> cur ->
  leasesByRunId (finishExecutionLeaseEntry ref g) !! r = Some cur /\
  heap (finishExecutionLeaseEntry ref g) !! cur = heap g !! cur.
Proof.
  intros Hw Hr Hne. split; [|by apply heap_finish_other].
  destruct (heap g !! ref) as [e|] eqn:He.
  - destruct (entry_finished e) eqn:Hf.
    + by rewrite (finish_stale _ _ _ He Hf).
    + by apply (registered_finish _ _ _ _ _ Hw He Hf).
  - unfold finishExecutionLeaseEntry. by rewrite He.
Qed.

(** A run leased, finished through its handle, leased again: the first handle is stale. *)
Definition releases_then_reserves : Registry :=
  (reserveExecutionLease "run_1" (Some "ag") (finishExecutionLeaseEntry 0 demo_registry)).2.

Lemma finish_spares_current_lease_witness :
  leasesByRunId (finishExecutionLeaseEntry 0 releases_then_reserves) !! "run_1" = Some 1 /\
  heap (finishExecutionLeaseEntry 0 releases_then_reserves) !! 1 = heap releases_then_reserves !! 1.
Proof.
  apply (finish_spares_current_lease releases_then_reserves "run_1" 1 0);
    [| by vm_compute | done].
  unfold releases_then_reserves, demo_registry. auto with a2w.
Defined.

(** Reserving a lease for an unleased run occupies exactly one more of the
    agent's slots and completing it frees exactly that one; no other agent's
    occupancy moves. *)
Theorem reserve_complete_occupancy g a b r :
  wf g -> leasesByRunId g !! r = None ->
  leased_runs b (reserveExecutionLease r (Some a) g).2 =
    (if decide (a = b) then {[r]} else ∅) ∪ leased_runs b g /\
  leased_runs b (completeExecutionLease r (reserveExecutionLease r (Some a) g).2) =
    leased_runs b g.
Proof.
  intros Hw Hr. split; [by apply leased_runs_reserve_fresh|].
  rewrite leased_runs_complete, leased_runs_reserve_fresh by auto with a2w.
  assert (r ∉ leased_runs b g).
  { rewrite elem_of_leased_runs by done. naive_solver. }
  case_decide; set_solver.
Qed.

Lemma reserve_complete_occupancy_witness :
  leased_runs "ag" (reserveExecutionLease "r" (Some "ag") empty_registry).2 =
    (if decide ("ag" = "ag") then {["r"]} else ∅) ∪ leased_runs "ag" empty_registry /\
  leased_runs "ag" (completeExecutionLease "r" (reserveExecutionLease "r" (Some "ag") empty_registry).2) =
    leased_runs "ag" empty_registry.
Proof. apply (reserve_complete_occupancy empty_registry "ag" "ag" "r"); [auto with a2w | done]. Defined.

(** Two releases of the same run id in flight at once share one entry of
    [settlingRunIds]: the first to settle clears it for both. *)
Definition overlapping_releases : Registry :=
  settleDurableRelease 0 None (finishExecutionLeaseEntry 1 releases_then_reserves).

Example settling_flag_lost :
  pendingDurableReleases overlapping_releases !! 1 = Some "run_1" /\
  isRunExecutionSettling "run_1" overlapping_releases = false.
Proof. split; by vm_compute. Qed.

(** The same calls, made by callers that re-lease a run only once it has settled *)
Inductive guarded_step : Registry -> Registry -> Prop :=
| guarded_reserve g r a :
    isRunExecutionSettling r g = false -> guarded_step g (reserveExecutionLease r a g).2
| guarded_finish g ref : guarded_step g (finishExecutionLeaseEntry ref g)
| guarded_settle g k err : guarded_step g (settleDurableRelease k err g).

Record settled (g : Registry) : Prop := {
  st_wf : wf g;
  st_pending : forall k r, pendingDurableReleases g !! k = Some r ->
    r ∈ settlingRunIds g /\ leasesByRunId g !! r = None;
  st_unique : forall k k' r, pendingDurableReleases g !! k = Some r ->
    pendingDurableReleases g !! k' = Some r -> k = k'
}.

Lemma pending_start r g k x :
  pendingDurableReleases (startDurableRelease r g) !! k = Some x ->
  pendingDurableReleases g !! k = Some x \/
  (k = nextRelease g /\ x = r /\ durableReleaseHandler g = true).
Proof.
  unfold startDurableRelease. case_match; simpl; [|eauto].
  rewrite lookup_insert. case_decide; naive_solver.
Qed.

Lemma settling_start r g x :
  x ∈ settlingRunIds (startDurableRelease r g) <->
  x ∈ settlingRunIds g \/ (x = r /\ durableReleaseHandler g = true).
Proof. unfold startDurableRelease. case_match; simpl; set_solver. Qed.

Lemma settled_finish ref g : settled g -> settled (finishExecutionLeaseEntry ref g).
Proof.
  intros [Hw P U]. destruct (heap g !! ref) as [e|] eqn:He;
    [destruct (entry_finished e) eqn:Hf|];
    [by rewrite (finish_stale _ _ _ He Hf) | |
     unfold finishExecutionLeaseEntry; by rewrite He].
  pose proof (wf_live _ Hw _ _ He Hf) as Hrun.
  split; [by apply wf_finish| |]; rewrite (finish_live _ _ _ Hw He Hf).
  - intros k r [Hk|(-> & -> & Hh)]%pending_start.
    + destruct (P _ _ Hk) as [Hs Hn]. split; [by apply settling_start; left|].
      unfold startDurableRelease; case_match; simpl;
        (apply lookup_delete_None; by right).
    + split; [by apply settling_start; right|].
      unfold startDurableRelease; case_match; simpl; apply lookup_delete_eq.
  - intros k k' r [Hk|(Ek & Er & _)]%pending_start [Hk'|(Ek' & Er' & _)]%pending_start.
    + by eapply U.
    + destruct (P _ _ Hk) as [_ ?]. congruence.
    + destruct (P _ _ Hk') as [_ ?]. congruence.
    + congruence.
Qed.

Lemma settled_step g g' : guarded_step g g' -> settled g -> settled g'.
Proof.
  intros [] Hs; pose proof Hs as [Hw P U].
  - apply orb_false_iff in H as [Hl Hsr]. bool_to_prop.
    apply bool_decide_eq_false in Hl. apply eq_None_not_Some in Hl.
    unfold reserveExecutionLease.
    split; [by apply wf_getOrCreate| |]; unfold getOrCreateExecutionLease; rewrite Hl; simpl.
    + intros k r' Hk. destruct (P _ _ Hk) as [Hin Hn]. split; [done|].
      rewrite lookup_insert_ne; [done|]. by intros ->.
    + exact U.
  - by apply settled_finish.
  - split; [by apply wf_settle| |]; unfold settleDurableRelease; case_match; simpl; try done.
    + intros k' r' [Hne Hk']%lookup_delete_Some. destruct (P _ _ Hk') as [Hin Hn].
      split; [|done]. apply elem_of_difference. split; [done|].
      rewrite elem_of_singleton. intros ->. eauto.
    + intros k1 k2 r' [_ H1]%lookup_delete_Some [_ H2]%lookup_delete_Some. eauto.
Qed.

(** Provided a run id is leased again only once [isRunExecutionSettling]
    is false, that flag is exact in every reachable state: it is true as long
    as the run's lease or the durable release of its previous execution is
    outstanding, and false afterwards. *)
Theorem settling_flag_exact g r :
  rtc guarded_step empty_registry g ->
  isRunExecutionSettling r g = true <->
  is_Some (leasesByRunId g !! r) \/ exists k, pendingDurableReleases g !! k = Some r.
Proof.
  intros Hr. assert (settled g) as [Hw P U].
  { cut (settled empty_registry).
    - induction Hr; eauto using settled_step.
    - split; [auto with a2w | |]; intros *; simpl; by rewrite lookup_empty. }
  unfold isRunExecutionSettling, hasExecutionLease. rewrite orb_true_iff.
  rewrite !bool_decide_eq_true. split.
  - intros [?|Hin]; [by left | right; by apply (wf_settling _ Hw)].
  - intros [?|[k Hk]]; [by left | right; by destruct (P _ _ Hk)].
Qed.

Lemma settling_flag_exact_witness :
  isRunExecutionSettling "run_1" (finishExecutionLeaseEntry 0 demo_registry) = true <->
  is_Some (leasesByRunId (finishExecutionLeaseEntry 0 demo_registry) !! "run_1") \/
  exists k, pendingDurableReleases (finishExecutionLeaseEntry 0 demo_registry) !! k = Some "run_1".
Proof.
  apply settling_flag_exact. unfold demo_registry.
  eapply rtc_l; [apply guarded_reserve; reflexivity|].
  eapply rtc_l; [apply guarded_finish|]. apply rtc_refl.
Defined.
