(* ===== verification/World.v ===== *)
(** * The state of a server process and its transactions

    Handlers run against the shared database and the memory of their process.
    [World] is what one process sees: the database, its lease registry, the
    shutdown flags of the two queues and the executions it has started.
    [Instance] is what a process reads from its surroundings during one call:
    its own id, the clock, whether its heartbeat lease is lost, and the
    file-system identity of a path. *)
From S2P Require Import Prelude Schema LeaseRegistry.

Class Instance := {
  processInstanceId : string;
  clock : Z;                                  (* Date.now() *)
  hasLostHeartbeatOwnership : bool;
  filesystemCollisionKey : string -> string   (* realpath and case folding of a path *)
}.

Record World := mkWorld {
  w_db : Db;
  w_reg : Registry;
  w_runPromotionsPaused : bool;
  w_evalPromotionsPaused : bool;
  w_started : list (string * string)          (* onExecute(runId, agentId), oldest first *)
}.

Definition set_db (f : Db -> Db) (w : World) : World :=
  mkWorld (f (w_db w)) (w_reg w) (w_runPromotionsPaused w) (w_evalPromotionsPaused w) (w_started w).
Definition set_reg (f : Registry -> Registry) (w : World) : World :=
  mkWorld (w_db w) (f (w_reg w)) (w_runPromotionsPaused w) (w_evalPromotionsPaused w) (w_started w).
Definition set_runPaused (b : bool) (w : World) : World :=
  mkWorld (w_db w) (w_reg w) b (w_evalPromotionsPaused w) (w_started w).
Definition set_evalPaused (b : bool) (w : World) : World :=
  mkWorld (w_db w) (w_reg w) (w_runPromotionsPaused w) b (w_started w).
Definition add_started (e : string * string) (w : World) : World :=
  mkWorld (w_db w) (w_reg w) (w_runPromotionsPaused w) (w_evalPromotionsPaused w)
    (w_started w ++ [e]).

Definition empty_world : World := mkWorld empty_db empty_registry false false [].

(** Read of the database *)
Definition select {A} (f : Db -> A) : M World A := gets (fun w => f (w_db w)).

(** Write returning whether a row was touched ([.returning()] non-empty) *)
Definition write_returning (f : Db -> bool * Db) : M World bool :=
  fun w => let '(b, d) := f (w_db w) in (Ret b, set_db (fun _ => d) w).

Definition update_runs (k : string) (cond : Run -> bool) (f : Run -> Run) : M World bool :=
  write_returning (fun d =>
    let '(b, t) := update_where k cond f (db_runs d) in (b, set_runs (fun _ => t) d)).

Definition db_write (f : Db -> Db) : M World unit := modify (set_db f).

(** [withTransaction]: a throw undoes the callback's database writes; process
    memory is not part of the transaction. *)
Definition withTransaction {A} (m : M World A) : M World A := fun w =>
  match m w with
  | (Ret a, w') => (Ret a, w')
  | (Throw e, w') => (Throw e, set_db (fun _ => w_db w) w')
  end.

(** [withScmPathMutation]: the transaction additionally takes the global SCM
    lock, so a mutation is one step of every interleaving. *)
Definition withScmPathMutation {A} (mutation : M World A) : M World A := withTransaction mutation.

Definition on_registry {A} (f : Registry -> A * Registry) : M World A :=
  fun w => let '(a, g) := f (w_reg w) in (Ret a, set_reg (fun _ => g) w).

(** ** Lemmas *)

Lemma withTransaction_Ret {A} (m : M World A) w a w' :
  withTransaction m w = (Ret a, w') <-> m w = (Ret a, w').
Proof. unfold withTransaction. destruct (m w) as [[?|?] ?]; naive_solver. Qed.

Lemma withTransaction_Throw {A} (m : M World A) w e w' :
  withTransaction m w = (Throw e, w') ->
  exists w1, m w = (Throw e, w1) /\ w' = set_db (fun _ => w_db w) w1.
Proof. unfold withTransaction. destruct (m w) as [[?|?] ?]; naive_solver. Qed.

Lemma returns_withTransaction {A} (m : M World A) w (Q : A -> World -> Prop) :
  returns m w Q -> returns (withTransaction m) w Q.
Proof. intros (a & w1 & Hm & HQ). exists a, w1. by rewrite withTransaction_Ret. Qed.

Lemma update_runs_run k cond f w :
  update_runs k cond f w =
  (Ret (fst (update_where k cond f (db_runs (w_db w)))),
   set_db (set_runs (fun _ => snd (update_where k cond f (db_runs (w_db w))))) w).
Proof.
  unfold update_runs, write_returning. by destruct (update_where _ _ _ _).
Qed.

Lemma update_runs_cond k cond f w :
  update_runs k cond f w =
  match db_runs (w_db w) !! k with
  | Some r => if cond r then (Ret true, set_db (set_runs (insert k (f r))) w) else (Ret false, w)
  | None => (Ret false, w)
  end.
Proof.
  rewrite update_runs_run. unfold update_where.
  destruct (db_runs (w_db w) !! k) as [r|]; [destruct (cond r)|]; simpl;
    by destruct w as [[]].
Qed.

Lemma set_db_id w : set_db (fun _ => w_db w) w = w.
Proof. by destruct w. Qed.

(** What a process keeps outside the database *)
Definition memory (w : World) : Registry * bool * bool * list (string * string) :=
  (w_reg w, w_runPromotionsPaused w, w_evalPromotionsPaused w, w_started w).

Lemma world_eq w w' : w_db w = w_db w' -> memory w = memory w' -> w = w'.
Proof. destruct w, w'; unfold memory; simpl. intros -> [=]. by subst. Qed.

(** A computation that only touches the database *)
Definition db_only {A} (m : M World A) : Prop :=
  forall w o w', m w = (o, w') -> memory w' = memory w.

Lemma db_only_bind {A B} (m : M World A) (k : A -> M World B) :
  db_only m -> (forall a, db_only (k a)) -> db_only (m ≫= k).
Proof.
  intros Hm Hk w o w'. unfold mbind, M_bind. destruct (m w) as [[a|e] w1] eqn:Hr.
  - intros Hka. rewrite (Hk a _ _ _ Hka). by eapply Hm.
  - intros [= _ <-]. by eapply Hm.
Qed.

Lemma db_only_ret {A} (a : A) : db_only (mret a).
Proof. by intros w o w' [= _ <-]. Qed.
Lemma db_only_throw {A} e : db_only (throw e : M World A).
Proof. by intros w o w' [= _ <-]. Qed.
Lemma db_only_gets {A} (f : World -> A) : db_only (gets f).
Proof. by intros w o w' [= _ <-]. Qed.
Lemma db_only_write f : db_only (db_write f).
Proof. by intros w o w' [= _ <-]. Qed.
Lemma db_only_write_returning f : db_only (write_returning f).
Proof. intros w o w'. unfold write_returning. destruct (f _). by intros [= _ <-]. Qed.
Lemma db_only_withTransaction {A} (m : M World A) : db_only m -> db_only (withTransaction m).
Proof.
  intros Hm w o w'. unfold withTransaction. destruct (m w) as [[a|e] w1] eqn:Hr;
    intros [= _ <-]; by apply Hm in Hr.
Qed.
Lemma db_only_try_catch {A} (m : M World A) h :
  db_only m -> (forall e, db_only (h e)) -> db_only (try_catch m h).
Proof.
  intros Hm Hh w o w'. unfold try_catch. destruct (m w) as [[a|e] w1] eqn:Hr.
  - intros [= _ <-]. by apply Hm in Hr.
  - intros Hk. rewrite (Hh e _ _ _ Hk). by apply Hm in Hr.
Qed.
Lemma db_only_update_runs k cond f : db_only (update_runs k cond f).
Proof. intros w o w'. rewrite update_runs_run. by intros [= _ <-]. Qed.
Lemma db_only_for_each {A} (l : list A) (f : A -> M World unit) :
  (forall x, db_only (f x)) -> db_only (for_each l f).
Proof.
  intros Hf. induction l as [|x l IH]; simpl; [apply db_only_ret | by apply db_only_bind].
Qed.

Create HintDb db_only.
#[export] Hint Resolve db_only_bind db_only_ret db_only_throw db_only_gets db_only_write
  db_only_write_returning db_only_withTransaction db_only_try_catch db_only_update_runs
  db_only_for_each : db_only.
#[export] Hint Extern 1 (db_only (if ?b then _ else _)) => destruct b : db_only.
#[export] Hint Extern 1 (db_only (match ?x with _ => _ end)) => destruct x : db_only.
#[export] Hint Extern 1 (db_only (select _)) => apply db_only_gets : db_only.
#[export] Hint Extern 1 (db_only (withScmPathMutation _)) => apply db_only_withTransaction : db_only.

(** A database-only transaction that throws changes nothing at all. *)
Lemma withTransaction_Throw_id {A} (m : M World A) w e w' :
  db_only m -> withTransaction m w = (Throw e, w') -> w' = w.
Proof.
  intros Hm [w1 [Hr ->]]%withTransaction_Throw. apply world_eq; [done|].
  by rewrite <- (Hm _ _ _ Hr).
Qed.
