(* ===== verification/ScmWorkload.v ===== *)
(** * Durable SCM workload leases

    [apps/api/src/lib/scm-workload-lifecycle.ts] and the sync claim of
    [apps/api/src/lib/p4-sync.ts].  A lease pins the checkout of an agent's
    SCM source for one run or evaluation: [reserved] while queued, [active]
    under one process instance while it executes. *)
From S2P Require Import Prelude Schema LeaseRegistry World.

Definition ScmWorkloadAdmissionError (msg : string) : JsError :=
  mkError "ScmWorkloadAdmissionError" msg.
Definition ScmWorkloadLeaseConflictError (msg : string) : JsError :=
  mkError "ScmWorkloadLeaseConflictError" msg.

(** [scmWorkloadLeaseId]: [`${type}:${workloadId}`] *)
Definition scmWorkloadLeaseId (t : WorkloadType) (w : string) : string :=
  workload_type_name t +:+ ":" +:+ w.

Inductive ScmWorkloadAdmission :=
| admission_temp
| admission_scm (scmSourceId leaseId : string) (alreadyReserved : bool).

(** [admission.leaseId !== null] *)
Definition has_lease_id (a : ScmWorkloadAdmission) : bool :=
  match a with admission_temp => false | admission_scm _ _ _ => true end.
Definition admission_source (a : ScmWorkloadAdmission) : option string :=
  match a with admission_temp => None | admission_scm s _ _ => Some s end.

Section Path.
Context `{Instance}.

(** [overlaps(parent, candidate)]: equal, or under [parent + sep] *)
Definition key_overlaps (parent candidate : string) : bool :=
  String.eqb candidate parent ||
  String.prefix (if String.eqb (String.substring (String.length parent - 1) 1 parent) "/"
                 then parent else parent +:+ "/") candidate.

Definition filesystemPathsOverlap (a b : string) : bool :=
  key_overlaps (filesystemCollisionKey a) (filesystemCollisionKey b) ||
  key_overlaps (filesystemCollisionKey b) (filesystemCollisionKey a).
End Path.

Section Lifecycle.
Context `{Instance}.

Definition assertHeartbeatOwnership : M World unit :=
  if hasLostHeartbeatOwnership then
    throw (ScmWorkloadAdmissionError
      "This instance lost its liveness heartbeat lease and cannot own SCM workloads")
  else mret tt.

Definition loadLease (t : WorkloadType) (w : string) : M World (option ScmLease) :=
  select (fun d => db_leases d !! (t, w)).

Definition assertMatchingReservation (lease : ScmLease) (agentId scmSourceId : string)
    : M World unit :=
  if decide (lease_agentId lease <> agentId \/ lease_scmSourceId lease <> scmSourceId)
  then throw (ScmWorkloadLeaseConflictError "already reserved for a different Agent or source")
  else mret tt.

Definition withScmWorkloadAdmission {T} (t : WorkloadType) (workloadId agentId : string)
    (writeWorkloadState : ScmWorkloadAdmission -> M World T) : M World T :=
  _ ← assertHeartbeatOwnership;
  withScmPathMutation (
    agent ← select (fun d => db_agents d !! agentId);
    match agent with
    | None => throw (ScmWorkloadAdmissionError "Agent not found")
    | Some agent =>
      existing ← loadLease t workloadId;
      if decide (agent_workspaceType agent <> ws_scm) then
        match existing with
        | Some _ => throw (ScmWorkloadLeaseConflictError
                             "remains reserved after the Agent binding changed")
        | None => writeWorkloadState admission_temp
        end
      else
        match agent_scmSourceId agent with
        | None | Some "" => throw (ScmWorkloadAdmissionError
                               "SCM workspace without a source binding")
        | Some src =>
          _ ← match existing with
              | Some lease => assertMatchingReservation lease agentId src
              | None => db_write (set_leases
                  (insert (t, workloadId) (mkLease agentId src reserved None clock)))
              end;
          writeWorkloadState
            (admission_scm src (scmWorkloadLeaseId t workloadId)
               (bool_decide (is_Some existing)))
        end
    end).

(** A committed sync claim on a source, with the checkout it describes *)
Definition findScmSourceSyncClaim (scmSourceId : string)
    : M World (option (string * SourceType)) :=
  select (fun d =>
    match db_sources d !! scmSourceId with
    | Some s => if decide (source_syncStatus s = sync_syncing)
                then Some (source_localPath s, source_type s) else None
    | None => None
    end).

Definition evaluationOccupiesSharedCheckout (sourceType : SourceType) : bool :=
  bool_decide (sourceType <> src_git).

(** [!workDir || filesystemPathsOverlap(workDir, sharedLocalPath)] *)
Definition runOccupiesSharedCheckout (workDir : option string) (sharedLocalPath : string) : bool :=
  match workDir with
  | None | Some "" => true
  | Some d => filesystemPathsOverlap d sharedLocalPath
  end.

Definition workloadOccupiesSharedCheckout (t : WorkloadType) (workloadId : string)
    (claim : string * SourceType) : M World bool :=
  match t with
  | wl_evaluation => mret (evaluationOccupiesSharedCheckout claim.2)
  | wl_run =>
      workDir ← select (fun d => db_runs d !! workloadId ≫= run_workDir);
      mret (runOccupiesSharedCheckout workDir claim.1)
  end.

Definition activateScmWorkloadInMutation (t : WorkloadType) (workloadId ownerInstanceId : string)
    : M World bool :=
  _ ← assertHeartbeatOwnership;
  lease ← loadLease t workloadId;
  match lease with
  | None => mret false
  | Some lease =>
    if decide (lease_phase lease = active) then
      if decide (lease_ownerInstanceId lease <> Some ownerInstanceId)
      then throw (ScmWorkloadLeaseConflictError "is active on another process instance")
      else mret true
    else
      _ ← (if decide (lease_scmSourceId lease = "") then mret tt else
             claim ← findScmSourceSyncClaim (lease_scmSourceId lease);
             match claim with
             | None => mret tt
             | Some claim =>
               occupies ← workloadOccupiesSharedCheckout t workloadId claim;
               if (occupies : bool) then throw (ScmWorkloadLeaseConflictError
                                        "is syncing; cannot take its shared checkout")
               else mret tt
             end);
      _ ← db_write (set_leases
            (alter (with_phase_owner active (Some ownerInstanceId) clock) (t, workloadId)));
      mret true
  end.

(** [delete(...).where(id and phase = 'reserved')] *)
Definition releaseReservedScmWorkloadInMutation (t : WorkloadType) (workloadId : string)
    : M World bool :=
  write_returning (fun d =>
    match db_leases d !! (t, workloadId) with
    | Some l => if decide (lease_phase l = reserved)
                then (true, set_leases (delete (t, workloadId)) d) else (false, d)
    | None => (false, d)
    end).

Definition releaseReservedScmWorkload (t : WorkloadType) (workloadId : string) : M World bool :=
  withScmPathMutation (releaseReservedScmWorkloadInMutation t workloadId).

(** Startup recovery of a single process: the owner is provably dead. *)
Definition releaseRecoveredScmWorkload (t : WorkloadType) (workloadId : string) : M World bool :=
  withScmPathMutation (write_returning (fun d =>
    match db_leases d !! (t, workloadId) with
    | Some _ => (true, set_leases (delete (t, workloadId)) d)
    | None => (false, d)
    end)).

Definition activateScmWorkload (t : WorkloadType) (workloadId ownerInstanceId : string)
    : M World unit :=
  withScmPathMutation (
    activated ← activateScmWorkloadInMutation t workloadId ownerInstanceId;
    if (activated : bool) then mret tt
    else throw (ScmWorkloadLeaseConflictError "has no durable reservation")).

Definition releaseScmWorkload (t : WorkloadType) (workloadId ownerInstanceId : string)
    : M World bool :=
  withScmPathMutation (
    lease ← loadLease t workloadId;
    match lease with
    | None => mret false
    | Some lease =>
      if decide (lease_phase lease = active /\ lease_ownerInstanceId lease <> Some ownerInstanceId)
      then throw (ScmWorkloadLeaseConflictError "is owned by another process instance")
      else write_returning (fun d =>
             match db_leases d !! (t, workloadId) with
             | Some _ => (true, set_leases (delete (t, workloadId)) d)
             | None => (false, d)
             end)
    end).

(** The first lease row of a source, and of an agent *)
Definition findDurableScmSourceWorkload (scmSourceId : string)
    : M World (option (WorkloadType * string * string)) :=
  select (fun d =>
    head (omap (fun '((t, w), l) =>
                  if decide (lease_scmSourceId l = scmSourceId)
                  then Some (t, w, lease_agentId l) else None)
            (map_to_list (db_leases d)))).

Definition findDurableAgentScmWorkload (agentId : string)
    : M World (option (WorkloadType * string)) :=
  select (fun d =>
    head (omap (fun '((t, w), l) =>
                  if decide (lease_agentId l = agentId) then Some (t, w) else None)
            (map_to_list (db_leases d)))).

(** Active leases of a source *)
Definition active_on (scmSourceId : string) (d : Db) : list (WorkloadType * string) :=
  fst <$> filter (fun kv => lease_scmSourceId kv.2 = scmSourceId /\ lease_phase kv.2 = active)
            (map_to_list (db_leases d)).

(** The first loop: an evaluation that occupies the checkout ends the scan. *)
Fixpoint scan_leases (sourceType : SourceType) (leases : list (WorkloadType * string))
    : (WorkloadType * string) + list string :=
  match leases with
  | [] => inr []
  | (wl_evaluation, id) :: rest =>
      if evaluationOccupiesSharedCheckout sourceType then inl (wl_evaluation, id)
      else scan_leases sourceType rest
  | (wl_run, id) :: rest =>
      match scan_leases sourceType rest with
      | inl hit => inl hit
      | inr ids => inr (id :: ids)
      end
  end.

Definition findSharedCheckoutScmWorkload (scmSourceId sharedLocalPath : string)
    (sourceType : SourceType) : M World (option (WorkloadType * string)) :=
  select (fun d =>
    match scan_leases sourceType (active_on scmSourceId d) with
    | inl hit => Some hit
    | inr runLeaseIds =>
        head (omap (fun id =>
                      if runOccupiesSharedCheckout (db_runs d !! id ≫= run_workDir)
                           sharedLocalPath
                      then Some (wl_run, id) else None) runLeaseIds)
    end).

(** ** The sync side of the arbitration: the critical section of [runSyncUnderCheckoutLock] *)

Inductive SyncAcquisition :=
| sync_acquired (source : ScmSource)
| sync_deferred (occupant : WorkloadType * string)
| sync_refused (message : string)
| sync_notAcquired.

(** Atomic acquire: flip to [syncing] only if it is not already, and take the
    row the update returns as the snapshot. *)
Definition acquireClaim (sourceId : string) (statusAlreadyAcquired : bool)
    : M World (option ScmSource) :=
  if statusAlreadyAcquired then select (fun d => db_sources d !! sourceId)
  else
    claimed ← write_returning (fun d =>
      let '(b, t) := update_where sourceId
        (fun s => bool_decide (source_syncStatus s <> sync_syncing) &&
                  negb (source_codegraphIndexing s) &&
                  negb (source_deletionRequested s))
        (with_syncStatus sync_syncing) (db_sources d) in
      (b, set_sources (fun _ => t) d));
    if (claimed : bool) then select (fun d => db_sources d !! sourceId) else mret None.

(** [reclaimRoots] are the two private reclaim roots. *)
Definition acquireSync (reclaimRoots : list string) (sourceId : string)
    (statusAlreadyAcquired : bool) : M World SyncAcquisition :=
  withScmPathMutation (
    row ← acquireClaim sourceId statusAlreadyAcquired;
    match row with
    | None => mret (if statusAlreadyAcquired then sync_refused "SCM source not found"
                    else sync_notAcquired)
    | Some row =>
      if source_deletionRequested row
      then mret (sync_refused "SCM source deletion is pending")
      else if existsb (filesystemPathsOverlap (source_localPath row)) reclaimRoots
      then mret (sync_refused "SCM localPath overlaps the private reclaim root")
      else
        occupant ← findSharedCheckoutScmWorkload sourceId (source_localPath row) (source_type row);
        match occupant with
        | Some occupant =>
            _ ← db_write (set_sources (alter (with_syncStatus sync_idle) sourceId));
            mret (sync_deferred occupant)
        | None => mret (sync_acquired row)
        end
    end).
End Lifecycle.

(** ** What each operation does to the lease table *)

Section Specs.
Context `{Instance}.
Implicit Types (t : WorkloadType) (w : World).

Lemma scmWorkloadLeaseId_inj t1 t2 id1 id2 :
  scmWorkloadLeaseId t1 id1 = scmWorkloadLeaseId t2 id2 -> t1 = t2 /\ id1 = id2.
Proof. destruct t1, t2; vm_compute; intros [= ->]; done. Qed.

(** A sync claim on the lease's source that the workload would collide with *)
Definition claim_blocks t (workloadId : string) (d : Db) (l : ScmLease) : bool :=
  match db_sources d !! lease_scmSourceId l with
  | Some s =>
      bool_decide (lease_scmSourceId l <> "") &&
      bool_decide (source_syncStatus s = sync_syncing) &&
      match t with
      | wl_evaluation => evaluationOccupiesSharedCheckout (source_type s)
      | wl_run => runOccupiesSharedCheckout (db_runs d !! workloadId ≫= run_workDir)
                    (source_localPath s)
      end
  | None => false
  end.

Definition activated_db t (workloadId ownerInstanceId : string) (d : Db) : Db :=
  set_leases (alter (with_phase_owner active (Some ownerInstanceId) clock) (t, workloadId)) d.

(** Every branch of the activation *)
Lemma activateInMutation_run t id o w :
  activateScmWorkloadInMutation t id o w =
  if hasLostHeartbeatOwnership then
    (Throw (ScmWorkloadAdmissionError
       "This instance lost its liveness heartbeat lease and cannot own SCM workloads"), w)
  else match db_leases (w_db w) !! (t, id) with
  | None => (Ret false, w)
  | Some l =>
      if decide (lease_phase l = active) then
        if decide (lease_ownerInstanceId l = Some o) then (Ret true, w)
        else (Throw (ScmWorkloadLeaseConflictError "is active on another process instance"), w)
      else if claim_blocks t id (w_db w) l then
        (Throw (ScmWorkloadLeaseConflictError "is syncing; cannot take its shared checkout"), w)
      else (Ret true, set_db (activated_db t id o) w)
  end.
Proof.
  unfold activateScmWorkloadInMutation, assertHeartbeatOwnership, loadLease, select, gets,
    throw, mbind, M_bind, mret, M_ret.
  destruct hasLostHeartbeatOwnership; [done|].
  destruct (db_leases (w_db w) !! (t, id)) as [l|]; [|done].
  destruct (decide (lease_phase l = active)).
  { destruct (decide (lease_ownerInstanceId l = Some o)), (decide _); done. }
  unfold claim_blocks, findScmSourceSyncClaim, select, gets, db_write, modify.
  destruct (decide (lease_scmSourceId l = "")) as [E|E].
  { rewrite bool_decide_eq_false_2 by naive_solver.
    by destruct (db_sources (w_db w) !! lease_scmSourceId l). }
  rewrite bool_decide_eq_true_2 by done.
  destruct (db_sources (w_db w) !! lease_scmSourceId l) as [s|]; [|done].
  destruct (decide (source_syncStatus s = sync_syncing)) as [Hs|Hs].
  - rewrite bool_decide_eq_true_2 by done. simpl.
    destruct t; unfold workloadOccupiesSharedCheckout, select, gets, mbind, M_bind, mret, M_ret;
      simpl; by destruct (_ : bool).
  - by rewrite bool_decide_eq_false_2.
Qed.

Lemma activateScmWorkload_Ret t id o w w' :
  activateScmWorkload t id o w = (Ret tt, w') ->
  exists l, db_leases (w_db w) !! (t, id) = Some l /\ hasLostHeartbeatOwnership = false /\
    ((lease_phase l = active /\ lease_ownerInstanceId l = Some o /\ w' = w) \/
     (lease_phase l <> active /\ claim_blocks t id (w_db w) l = false /\
      w' = set_db (activated_db t id o) w)).
Proof.
  unfold activateScmWorkload, withScmPathMutation. rewrite withTransaction_Ret.
  intros Ha. inv_bind Ha as (b & w1 & Hb & Hk).
  rewrite activateInMutation_run in Hb. destruct b; [|done]. injection Hk as <-.
  repeat case_match; simplify_eq; naive_solver.
Qed.

Lemma activateInMutation_db_only t id o : db_only (activateScmWorkloadInMutation t id o).
Proof.
  intros w out w'. rewrite activateInMutation_run. unfold throw, mret, M_ret.
  repeat case_match; intros; by simplify_eq.
Qed.
#[local] Hint Resolve activateInMutation_db_only : db_only.

Lemma activateScmWorkload_Throw t id o w e w' :
  activateScmWorkload t id o w = (Throw e, w') -> w' = w.
Proof. apply withTransaction_Throw_id. eauto with db_only. Qed.

Lemma releaseScmWorkload_run t id o w :
  releaseScmWorkload t id o w =
  match db_leases (w_db w) !! (t, id) with
  | None => (Ret false, w)
  | Some l =>
      if decide (lease_phase l = active /\ lease_ownerInstanceId l <> Some o)
      then (Throw (ScmWorkloadLeaseConflictError "is owned by another process instance"), w)
      else (Ret true, set_db (set_leases (delete (t, id))) w)
  end.
Proof.
  unfold releaseScmWorkload, withScmPathMutation, withTransaction, loadLease, select, gets,
    write_returning, throw, mbind, M_bind, mret, M_ret.
  destruct (db_leases (w_db w) !! (t, id)) as [l|] eqn:Hl; [|done].
  destruct (decide _); [by rewrite set_db_id | by rewrite Hl].
Qed.

Lemma releaseReserved_run t id w :
  releaseReservedScmWorkload t id w =
  match db_leases (w_db w) !! (t, id) with
  | Some l => if decide (lease_phase l = reserved)
              then (Ret true, set_db (set_leases (delete (t, id))) w) else (Ret false, w)
  | None => (Ret false, w)
  end.
Proof.
  unfold releaseReservedScmWorkload, releaseReservedScmWorkloadInMutation, withScmPathMutation,
    withTransaction, write_returning.
  destruct (db_leases (w_db w) !! (t, id)) as [l|]; [destruct (decide _)|]; simpl;
    by rewrite ?set_db_id.
Qed.

Lemma releaseRecovered_run t id w :
  releaseRecoveredScmWorkload t id w =
  match db_leases (w_db w) !! (t, id) with
  | Some l => (Ret true, set_db (set_leases (delete (t, id))) w)
  | None => (Ret false, w)
  end.
Proof.
  unfold releaseRecoveredScmWorkload, withScmPathMutation, withTransaction, write_returning.
  destruct (db_leases (w_db w) !! (t, id)) as [l|]; simpl; by rewrite ?set_db_id.
Qed.

(** The binding an admission finds, and the reservation it makes *)
Definition admission_db t (workloadId agentId src : string) (d : Db) : Db :=
  match db_leases d !! (t, workloadId) with
  | Some _ => d
  | None => set_leases (insert (t, workloadId) (mkLease agentId src reserved None clock)) d
  end.

Definition admission_of t (workloadId agentId : string) (d : Db) : option ScmWorkloadAdmission :=
  match db_agents d !! agentId with
  | None => None
  | Some ag =>
      let existing := db_leases d !! (t, workloadId) in
      if decide (agent_workspaceType ag <> ws_scm) then
        match existing with Some _ => None | None => Some admission_temp end
      else match agent_scmSourceId ag with
      | None | Some "" => None
      | Some src =>
          let adm := admission_scm src (scmWorkloadLeaseId t workloadId)
                       (bool_decide (is_Some existing)) in
          match existing with
          | None => Some adm
          | Some l => if decide (lease_agentId l = agentId /\ lease_scmSourceId l = src)
                      then Some adm else None
          end
      end
  end.

Definition reserve_for t (workloadId agentId : string) (adm : ScmWorkloadAdmission) (d : Db) : Db :=
  match adm with
  | admission_temp => d
  | admission_scm src _ _ => admission_db t workloadId agentId src d
  end.

Lemma some_admission {T} (k : ScmWorkloadAdmission -> M World T) (f : ScmWorkloadAdmission -> World)
    adm0 r out :
  k adm0 (f adm0) = r ->
  r = out <->
  false = false /\ exists adm, Some adm0 = Some adm /\ k adm (f adm) = out.
Proof. naive_solver. Qed.

(** An admission runs the caller's write exactly when [admission_of] allows
    it, on the database with the reservation in place. *)
Lemma admission_Ret {T} t id a (k : ScmWorkloadAdmission -> M World T) w v w' :
  withScmWorkloadAdmission t id a k w = (Ret v, w') <->
  hasLostHeartbeatOwnership = false /\
  exists adm, admission_of t id a (w_db w) = Some adm /\
    k adm (set_db (reserve_for t id a adm) w) = (Ret v, w').
Proof.
  unfold withScmWorkloadAdmission, assertHeartbeatOwnership, admission_of.
  destruct hasLostHeartbeatOwnership; [split; [done | naive_solver]|].
  unfold withScmPathMutation. unfold mbind at 1, M_bind at 1, mret at 1, M_ret at 1.
  rewrite withTransaction_Ret.
  unfold loadLease, assertMatchingReservation, select, gets, db_write, modify, throw,
    mbind, M_bind, mret, M_ret.
  destruct (db_agents (w_db w) !! a) as [ag|]; [|naive_solver].
  destruct (decide (agent_workspaceType ag <> ws_scm)).
  { destruct (db_leases (w_db w) !! (t, id)); [naive_solver|].
    apply (some_admission k (fun adm => set_db (reserve_for t id a adm) w)). simpl. by destruct w. }
  destruct (agent_scmSourceId ag) as [[|c src]|]; [naive_solver| |naive_solver].
  set (src' := String c src).
  destruct (db_leases (w_db w) !! (t, id)) as [l|] eqn:Hl; simpl.
  - destruct (decide (lease_agentId l = a /\ lease_scmSourceId l = src')) as [[Ha Hs]|Hn].
    + destruct (decide _); [naive_solver|]. apply (some_admission k (fun adm => set_db (reserve_for t id a adm) w)).
      unfold set_db, reserve_for, admission_db. rewrite Hl. by destruct w.
    + destruct (decide _) as [|Hne]; [naive_solver|].
      exfalso. apply Hn. split; apply dec_stable; naive_solver.
  - apply (some_admission k (fun adm => set_db (reserve_for t id a adm) w)).
    unfold set_db, reserve_for, admission_db. by rewrite Hl.
Qed.

Lemma admission_db_only {T} t id a (k : ScmWorkloadAdmission -> M World T) :
  (forall adm, db_only (k adm)) -> db_only (withScmWorkloadAdmission t id a k).
Proof.
  intros Hk. unfold withScmWorkloadAdmission, assertHeartbeatOwnership, loadLease,
    assertMatchingReservation.
  apply db_only_bind; [eauto with db_only|]. intros _. apply db_only_withTransaction.
  apply db_only_bind; [eauto with db_only|]. intros [ag|]; [|eauto with db_only].
  apply db_only_bind; [eauto with db_only|]. intros existing.
  destruct (decide _); [eauto with db_only|].
  destruct (agent_scmSourceId ag) as [[|]|]; try (apply db_only_throw).
  apply db_only_bind; [|auto]. destruct existing; [|eauto with db_only].
  destruct (decide _); eauto with db_only.
Qed.

(** An admission that throws leaves the database as it was, whatever the
    caller's write had done before throwing. *)
Lemma admission_Throw {T} t id a (k : ScmWorkloadAdmission -> M World T) w e w' :
  withScmWorkloadAdmission t id a k w = (Throw e, w') -> w_db w' = w_db w.
Proof.
  unfold withScmWorkloadAdmission, assertHeartbeatOwnership.
  destruct hasLostHeartbeatOwnership; [by intros [= _ <-]|].
  unfold mbind at 1, M_bind at 1, mret at 1, M_ret at 1.
  by intros [w1 [_ ->]]%withTransaction_Throw.
Qed.

(** The two errors an admission raises by itself *)
Definition refusal (e : JsError) : Prop :=
  exists msg, e = ScmWorkloadAdmissionError msg \/ e = ScmWorkloadLeaseConflictError msg.

(** Any other throw of an admission is the caller's write's. *)
Lemma admission_thrown {T} t id a (k : ScmWorkloadAdmission -> M World T) w e w' :
  withScmWorkloadAdmission t id a k w = (Throw e, w') -> ~ refusal e ->
  hasLostHeartbeatOwnership = false /\
  exists adm w2, admission_of t id a (w_db w) = Some adm /\
    k adm (set_db (reserve_for t id a adm) w) = (Throw e, w2).
Proof.
  unfold refusal, withScmWorkloadAdmission, assertHeartbeatOwnership, loadLease, admission_of,
    assertMatchingReservation, withScmPathMutation, withTransaction, select, gets, db_write,
    modify, throw, mbind, M_bind, mret, M_ret.
  intros Hrun Hr. revert Hrun.
  destruct hasLostHeartbeatOwnership; [intros [= <- _]; by exfalso; eauto|].
  intros Hrun. split; [done|]. revert Hrun.
  destruct (db_agents (w_db w) !! a) as [ag|]; [|intros [= <- _]; by exfalso; eauto].
  destruct (decide (agent_workspaceType ag <> ws_scm)).
  { destruct (db_leases (w_db w) !! (t, id)); [intros [= <- _]; by exfalso; eauto|].
    destruct (k _ _) as [[|e1] w2] eqn:Hk; [done|]. intros [= -> _].
    exists admission_temp, w2. by destruct w. }
  destruct (agent_scmSourceId ag) as [[|c src]|];
    [intros [= <- _]; by exfalso; eauto| |intros [= <- _]; by exfalso; eauto].
  destruct (db_leases (w_db w) !! (t, id)) as [l|] eqn:Hl; simpl.
  - destruct (decide (lease_agentId l <> a \/ _)) as [|Hn]; [intros [= <- _]; by exfalso; eauto|].
    destruct (k _ _) as [[|e1] w2] eqn:Hk; [done|]. intros [= -> _].
    eexists _, w2. split.
    + rewrite decide_True; [done|]. split; apply dec_stable; naive_solver.
    + unfold set_db, reserve_for, admission_db. rewrite Hl. by destruct w.
  - destruct (k _ _) as [[|e1] w2] eqn:Hk; [done|]. intros [= -> _].
    eexists _, w2. split; [done|]. unfold set_db, reserve_for, admission_db. by rewrite Hl.
Qed.
End Specs.

#[export] Hint Resolve activateInMutation_db_only admission_db_only : db_only.

(** ** Syncs and workloads never share a checkout *)

Section Exclusion.
(** The file system is the same for every process. *)
Context (key : string -> string).

Definition at_instance (i : Instance) : Prop := @filesystemCollisionKey i = key.

(** What it is for a leased workload to sit in the source's checkout *)
Definition occupies (t : WorkloadType) (id : string) (s : ScmSource) (d : Db) : bool :=
  match t with
  | wl_evaluation => evaluationOccupiesSharedCheckout (source_type s)
  | wl_run => @runOccupiesSharedCheckout (Build_Instance "" 0 false key)
                (db_runs d !! id ≫= run_workDir) (source_localPath s)
  end.

Lemma occupies_at (i : Instance) t id s d :
  at_instance i ->
  occupies t id s d =
  match t with
  | wl_evaluation => evaluationOccupiesSharedCheckout (source_type s)
  | wl_run => runOccupiesSharedCheckout (db_runs d !! id ≫= run_workDir) (source_localPath s)
  end.
Proof.
  unfold at_instance, occupies. intros Hk. destruct t; [|done].
  unfold runOccupiesSharedCheckout, filesystemPathsOverlap. simpl. by rewrite Hk.
Qed.

(** A process of the cluster: the shared world, and which syncs hold their
    source's checkout. *)
Record Checkouts := mkCheckouts { ck_world : World; ck_syncs : gset string }.

(** An operation that leaves alone what the arbitration reads *)
Definition frames (w w' : World) : Prop :=
  db_leases (w_db w') = db_leases (w_db w) /\ db_sources (w_db w') = db_sources (w_db w) /\
  (forall id, (db_runs (w_db w') !! id ≫= run_workDir) = (db_runs (w_db w) !! id ≫= run_workDir)).

(** A successful sync may hand its checkout over to indexing. *)
Definition handsOffToCodegraph (ok codegraph : bool) : bool := ok && codegraph.

(** The row after the sync's terminal write; [snapshot] is the row the sync
    started from.  During a handover the row stays [syncing]. *)
Definition finished_source (snapshot : ScmSource) (ok cancelled codegraph : bool) (now : Z)
    (s : ScmSource) : ScmSource :=
  let handsOff := handsOffToCodegraph ok codegraph in
  mkSource (source_name s) (source_localPath s) (source_workspacesPath s) (source_type s)
    (if handsOff then sync_syncing else if ok || cancelled then sync_idle else sync_error)
    (if handsOff then true else source_codegraphIndexing s)
    (source_deletionRequested s)
    (if ok && bool_decide (source_initialSyncCompletedAt snapshot = None) then Some now
     else source_initialSyncCompletedAt s)
    (source_isEnabled s) (source_userId s).

Definition finish_sync (snapshot : ScmSource) (ok cancelled codegraph : bool) (now : Z)
    (src : string) : World -> World :=
  set_db (set_sources (alter (finished_source snapshot ok cancelled codegraph now) src)).

(** Indexing has settled: its status is left, and [syncing] for [idle]. *)
Definition settled_source (s : ScmSource) : ScmSource :=
  mkSource (source_name s) (source_localPath s) (source_workspacesPath s) (source_type s)
    (if decide (source_syncStatus s = sync_syncing) then sync_idle else source_syncStatus s)
    false (source_deletionRequested s) (source_initialSyncCompletedAt s) (source_isEnabled s)
    (source_userId s).
Definition settle_codegraph (src : string) : World -> World :=
  set_db (set_sources (alter settled_source src)).

(** [resolveWorkDir] recording a worktree *)
Definition record_workDir (id dir : string) : World -> World :=
  set_db (set_runs (alter (with_workDir (Some dir)) id)).

Inductive ck_step : Checkouts -> Checkouts -> Prop :=
| ck_other w w' S : frames w w' -> ck_step (mkCheckouts w S) (mkCheckouts w' S)
| ck_reserve (i : Instance) w S T t id a (k : ScmWorkloadAdmission -> M World T) o w' :
    at_instance i ->
    (forall adm w0 o0 w0', k adm w0 = (o0, w0') -> frames w0 w0') ->
    withScmWorkloadAdmission t id a k w = (o, w') ->
    ck_step (mkCheckouts w S) (mkCheckouts w' S)
| ck_activate (i : Instance) w S t id o r w' :
    at_instance i -> activateScmWorkload t id o w = (r, w') ->
    ck_step (mkCheckouts w S) (mkCheckouts w' S)
| ck_release (i : Instance) w S t id o r w' :
    at_instance i -> releaseScmWorkload t id o w = (r, w') ->
    ck_step (mkCheckouts w S) (mkCheckouts w' S)
| ck_release_reserved (i : Instance) w S t id r w' :
    at_instance i -> releaseReservedScmWorkload t id w = (r, w') ->
    ck_step (mkCheckouts w S) (mkCheckouts w' S)
| ck_workDir w S id dir l s :
    (* the worktree is outside the checkout of the run's source *)
    db_leases (w_db w) !! (wl_run, id) = Some l ->
    db_sources (w_db w) !! lease_scmSourceId l = Some s ->
    @runOccupiesSharedCheckout (Build_Instance "" 0 false key) (Some dir) (source_localPath s)
      = false ->
    ck_step (mkCheckouts w S) (mkCheckouts (record_workDir id dir w) S)
| ck_sync (i : Instance) w S roots src pre res w' :
    at_instance i ->
    (* a caller that pre-acquired the claim is the one that holds it *)
    src <> "" ->
    (pre = true -> (src ∉ S) /\
       forall s, db_sources (w_db w) !! src = Some s -> source_syncStatus s = sync_syncing) ->
    acquireSync roots src pre w = (Ret res, w') ->
    ck_step (mkCheckouts w S)
      (mkCheckouts w' match res with sync_acquired _ => {[src]} ∪ S | _ => S end)
| ck_sync_end w S snapshot ok cancelled codegraph now src :
    src ∈ S ->
    ck_step (mkCheckouts w S)
      (mkCheckouts (finish_sync snapshot ok cancelled codegraph now src w)
         (if handsOffToCodegraph ok codegraph then S else S ∖ {[src]}))
| ck_codegraph_end w S src :
    src ∈ S -> ck_step (mkCheckouts w S) (mkCheckouts (settle_codegraph src w) (S ∖ {[src]})).

(** While a sync holds a checkout its claim is committed, and no active
    lease of the source sits in that checkout. *)
Definition exclusive (c : Checkouts) : Prop :=
  forall src, src ∈ ck_syncs c ->
    src <> "" /\ exists s, db_sources (w_db (ck_world c)) !! src = Some s /\
      source_syncStatus s = sync_syncing /\
      forall t id l, db_leases (w_db (ck_world c)) !! (t, id) = Some l ->
        lease_phase l = active -> lease_scmSourceId l = src ->
        occupies t id s (w_db (ck_world c)) = false.

Lemma elem_of_active_on src d t id :
  (t, id) ∈ active_on src d <->
  exists l, db_leases d !! (t, id) = Some l /\ lease_scmSourceId l = src /\
    lease_phase l = active.
Proof.
  unfold active_on. rewrite list_elem_of_fmap. split.
  - intros ([[t' id'] l] & [= -> ->] & Hin).
    apply list_elem_of_filter in Hin as [[? ?] Hin%elem_of_map_to_list]. eauto.
  - intros (l & Hl & ? & ?). exists (t, id, l). split; [done|].
    apply list_elem_of_filter. split; [done|]. by apply elem_of_map_to_list.
Qed.

Lemma scan_leases_inr ty ls ids :
  scan_leases ty ls = inr ids ->
  (forall id, (wl_run, id) ∈ ls -> id ∈ ids) /\
  (forall id, (wl_evaluation, id) ∈ ls -> evaluationOccupiesSharedCheckout ty = false).
Proof.
  revert ids. induction ls as [|[[] x] ls IH]; simpl; intros ids Hs.
  - split; intros id ?%not_elem_of_nil; done.
  - destruct (scan_leases ty ls) as [|ids']; [done|]. injection Hs as <-.
    destruct (IH ids' eq_refl) as [I1 I2]. split; intros id; rewrite elem_of_cons;
      intros [Heq|?]; try injection Heq as ->; set_solver.
  - destruct (evaluationOccupiesSharedCheckout ty) eqn:He; [done|].
    destruct (IH _ Hs) as [I1 I2]. split; intros id; rewrite elem_of_cons;
      intros [Heq|?]; try injection Heq as ->; set_solver.
Qed.

Lemma head_omap_None {A B} (f : A -> option B) (l : list A) :
  head (omap f l) = None -> forall x, x ∈ l -> f x = None.
Proof.
  intros Hh x Hx. destruct (f x) as [y|] eqn:Hf; [|done].
  assert (y ∈ omap f l) as Hin by (apply list_elem_of_omap; eauto).
  destruct (omap f l); [by apply not_elem_of_nil in Hin | done].
Qed.

(** The occupancy gate lets a sync through only when no active lease of the
    source occupies the checkout. *)
Lemma findShared_None (i : Instance) s src w w' :
  at_instance i ->
  findSharedCheckoutScmWorkload src (source_localPath s) (source_type s) w = (Ret None, w') ->
  w' = w /\
  forall t id l, db_leases (w_db w) !! (t, id) = Some l -> lease_phase l = active ->
    lease_scmSourceId l = src -> occupies t id s (w_db w) = false.
Proof.
  intros Hi. unfold findSharedCheckoutScmWorkload, select, gets.
  destruct (scan_leases _ _) as [|ids] eqn:Hscan; [done|].
  intros [= Hh <-]. split; [done|]. intros t id l Hl Ha Hsrc.
  assert ((t, id) ∈ active_on src (w_db w)) as Hin by (apply elem_of_active_on; eauto).
  destruct (scan_leases_inr _ _ _ Hscan) as [Hruns Hevals].
  rewrite (occupies_at i _ _ _ _ Hi). destruct t; [|by eapply Hevals].
  pose proof (head_omap_None _ _ Hh id (Hruns _ Hin)) as Hnone. simpl in Hnone.
  by destruct (runOccupiesSharedCheckout _ _).
Qed.

Lemma occupies_frames w w' t id s :
  frames w w' -> occupies t id s (w_db w') = occupies t id s (w_db w).
Proof. intros (_ & _ & Hr). destruct t; simpl; [by rewrite Hr | done]. Qed.

Lemma acquireClaim_Ret (i : Instance) src pre w row w1 :
  acquireClaim src pre w = (Ret row, w1) ->
  w1 = w /\ row = (if pre then db_sources (w_db w) !! src else None) \/
  pre = false /\ exists s, db_sources (w_db w) !! src = Some s /\
    source_syncStatus s <> sync_syncing /\ row = Some (with_syncStatus sync_syncing s) /\
    w1 = set_db (set_sources (fun _ => <[src := with_syncStatus sync_syncing s]>
           (db_sources (w_db w)))) w.
Proof.
  unfold acquireClaim. destruct pre; [intros [= <- <-]; auto|].
  unfold write_returning, select, gets, mbind, M_bind, mret, M_ret.
  destruct (update_where _ _ _ _) as [[] t] eqn:Hu; simpl.
  - apply update_where_true in Hu as (s & Hs & Hc & ->).
    rewrite lookup_insert_eq. intros [= <- <-]. bool_to_prop. right. eauto 10.
  - apply update_where_false in Hu as [-> _]. intros [= <- <-]. left.
    split; [by destruct w as [[]] | done].
Qed.

(** What the admission decision does to the tables *)
Record sync_decision (src : string) (pre : bool) (w w' : World) (res : SyncAcquisition) : Prop := {
  sd_leases : db_leases (w_db w') = db_leases (w_db w);
  sd_runs : db_runs (w_db w') = db_runs (w_db w);
  sd_others : forall k, k <> src -> db_sources (w_db w') !! k = db_sources (w_db w) !! k;
  sd_claimed : w' = w /\ (pre = false -> res = sync_notAcquired) \/ pre = true \/
    exists s, db_sources (w_db w) !! src = Some s /\ source_syncStatus s <> sync_syncing;
  sd_acquired : forall row, res = sync_acquired row ->
    db_sources (w_db w') !! src = Some row /\
    (if pre then db_sources (w_db w) !! src = Some row
     else source_syncStatus row = sync_syncing) /\
    forall t id l, db_leases (w_db w') !! (t, id) = Some l -> lease_phase l = active ->
      lease_scmSourceId l = src -> occupies t id row (w_db w') = false
}.

Lemma acquireSync_Ret (i : Instance) roots src pre w res w' :
  at_instance i -> acquireSync roots src pre w = (Ret res, w') ->
  sync_decision src pre w w' res.
Proof.
  intros Hi. unfold acquireSync, withScmPathMutation. rewrite withTransaction_Ret. intros Ha.
  inv_bind Ha as (row & w1 & Hrow & Hk). apply (acquireClaim_Ret i) in Hrow.
  assert (db_leases (w_db w1) = db_leases (w_db w) /\ db_runs (w_db w1) = db_runs (w_db w) /\
    forall k, k <> src -> db_sources (w_db w1) !! k = db_sources (w_db w) !! k) as (L & R & O).
  { destruct Hrow as [[-> _]|(_ & s & _ & _ & _ & ->)]; [done|]. simpl. split_and!; [done..|].
    intros k Hne. by rewrite lookup_insert_ne. }
  destruct row as [row|]; cycle 1.
  { injection Hk as <- <-. split; try done; [|by destruct pre].
    destruct Hrow as [[-> _]|(_ & s & _ & _ & ? & _)]; [|done]. left. by destruct pre. }
  assert (pre = true \/ exists s, db_sources (w_db w) !! src = Some s /\
    source_syncStatus s <> sync_syncing) as Hc.
  { destruct Hrow as [[_ Hr]|(_ & s & ? & ? & _)]; [|eauto]. destruct pre; [by left | done]. }
  destruct (source_deletionRequested row); [injection Hk as <- <-; by split; auto|].
  destruct (existsb _ _); [injection Hk as <- <-; by split; auto|].
  inv_bind Hk as (occ & w2 & Hf & Hk). destruct occ as [occ|].
  - injection Hf as Hf <-. injection Hk as <- <-. split; try done; [| by auto].
    intros k Hne. simpl. rewrite lookup_alter_ne; auto.
  - apply findShared_None in Hf as [-> Hno]; [|done]. injection Hk as <- <-.
    split; auto. intros row' [= <-]. split_and!; [| |done].
    + destruct Hrow as [[-> Hr]|(_ & s & _ & _ & [= ->] & ->)].
      * destruct pre; [done|]. done.
      * simpl. by rewrite lookup_insert_eq.
    + destruct Hrow as [[-> Hr]|(-> & s & _ & _ & [= ->] & ->)]; [by destruct pre|done].
Qed.

(** The invariant of the arbitration: leases name a source, and syncs are
    exclusive of the workloads in their checkout. *)
Definition arbitrated (c : Checkouts) : Prop :=
  (forall k l, db_leases (w_db (ck_world c)) !! k = Some l -> lease_scmSourceId l <> "") /\
  exclusive c.

Lemma arbitrated_frames w w' S :
  frames w w' -> arbitrated (mkCheckouts w S) -> arbitrated (mkCheckouts w' S).
Proof.
  intros Hf [Hl He]. pose proof Hf as (HL & HS & _). split; simpl.
  - rewrite HL. exact Hl.
  - intros src Hsrc. destruct (He src Hsrc) as (Hne & s & Hs & Hst & Hocc). simpl in *.
    split; [done|]. exists s. rewrite HS, HL. split_and!; [done..|].
    intros t id l Hk Ha Hlsrc. rewrite (occupies_frames _ _ _ _ _ Hf). eauto.
Qed.

(** Leases disappear, or are not active: nothing new sits in a checkout. *)
Lemma arbitrated_leases (f : gmap (WorkloadType * string) ScmLease -> _) w S :
  (forall k l, f (db_leases (w_db w)) !! k = Some l ->
     lease_scmSourceId l <> "" /\
     (lease_phase l = active -> lease_scmSourceId l ∈ S ->
      forall s, db_sources (w_db w) !! lease_scmSourceId l = Some s ->
        source_syncStatus s = sync_syncing -> occupies k.1 k.2 s (w_db w) = false)) ->
  arbitrated (mkCheckouts w S) -> arbitrated (mkCheckouts (set_db (set_leases f) w) S).
Proof.
  intros Hf [Hl He]. split; simpl.
  - intros k l Hk. by apply Hf in Hk as [? _].
  - intros src Hsrc. destruct (He src Hsrc) as (Hne & s & Hs & Hst & Hocc).
    split; [done|]. exists s. split_and!; [done..|]. simpl. intros t id l Hk Ha <-.
    apply Hf in Hk as [_ Hk]. apply (Hk Ha Hsrc s Hs Hst).
Qed.

Lemma arbitrated_old k l w S :
  arbitrated (mkCheckouts w S) -> db_leases (w_db w) !! k = Some l ->
  lease_scmSourceId l <> "" /\
  (lease_phase l = active -> lease_scmSourceId l ∈ S ->
   forall s, db_sources (w_db w) !! lease_scmSourceId l = Some s ->
     source_syncStatus s = sync_syncing -> occupies k.1 k.2 s (w_db w) = false).
Proof.
  intros [Hl He] Hk. split; [by eapply Hl|]. intros Ha Hin s Hs _. destruct k as [t id].
  destruct (He _ Hin) as (_ & s' & Hs' & _ & Hocc). simpl in *. simplify_eq. eauto.
Qed.

Lemma arbitrated_delete k w S :
  arbitrated (mkCheckouts w S) ->
  arbitrated (mkCheckouts (set_db (set_leases (delete k)) w) S).
Proof.
  intros Ha. apply (arbitrated_leases (delete k)); [|done].
  intros k' l [_ Hk]%lookup_delete_Some. by eapply arbitrated_old.
Qed.

Lemma arbitrated_activate (i : Instance) t id o w S l :
  at_instance i -> db_leases (w_db w) !! (t, id) = Some l ->
  claim_blocks t id (w_db w) l = false ->
  arbitrated (mkCheckouts w S) ->
  arbitrated (mkCheckouts (set_db (activated_db t id o) w) S).
Proof.
  intros Hi Hl Hc Ha. apply (arbitrated_leases (alter _ (t, id))); [|done].
  intros k l'. destruct (decide (k = (t, id))) as [->|Hne].
  - rewrite lookup_alter_eq, Hl. intros [= <-]. simpl.
    destruct (arbitrated_old _ _ _ _ Ha Hl) as [Hsrc _]. split; [done|].
    intros _ _ s Hs Hst. unfold claim_blocks in Hc. rewrite Hs in Hc.
    rewrite !bool_decide_eq_true_2 in Hc by done. by rewrite (occupies_at i).
  - rewrite lookup_alter_ne by done. by apply arbitrated_old.
Qed.

Lemma arbitrated_reserve (i : Instance) t id a adm w S :
  admission_of t id a (w_db w) = Some adm ->
  arbitrated (mkCheckouts w S) ->
  arbitrated (mkCheckouts (set_db (reserve_for t id a adm) w) S).
Proof.
  intros Hadm Ha. destruct adm as [|src lid ex]; simpl; [by destruct w|].
  destruct (db_leases (w_db w) !! (t, id)) eqn:Hl.
  { unfold set_db, reserve_for, admission_db. rewrite Hl. by destruct w. }
  assert (set_db (reserve_for t id a (admission_scm src lid ex)) w =
    set_db (set_leases (insert (t, id) (mkLease a src reserved None clock))) w) as ->
    by (unfold set_db, reserve_for, admission_db; by rewrite Hl).
  apply (arbitrated_leases (insert (t, id) _)); [|done].
  intros k l. rewrite lookup_insert. case_decide as Heq; [|by apply arbitrated_old].
  intros [= <-]. simpl. split; [|done].
  unfold admission_of in Hadm. rewrite Hl in Hadm.
  repeat case_match; simplify_eq; done.
Qed.

Lemma arbitrated_sync (i : Instance) roots src pre w S res w' :
  at_instance i -> src <> "" ->
  (pre = true -> (src ∉ S) /\
     forall s, db_sources (w_db w) !! src = Some s -> source_syncStatus s = sync_syncing) ->
  acquireSync roots src pre w = (Ret res, w') ->
  arbitrated (mkCheckouts w S) ->
  arbitrated (mkCheckouts w' match res with sync_acquired _ => {[src]} ∪ S | _ => S end).
Proof.
  intros Hi Hne Hpre Hsync [Hl He].
  destruct (acquireSync_Ret _ _ _ _ _ _ _ Hi Hsync) as [L R O C Q].
  split; simpl; [by rewrite L|].
  assert (src ∈ S -> w' = w /\ res = sync_notAcquired) as Hown.
  { intros Hin. destruct (He src Hin) as (_ & s & Hs & Hst & _). simpl in *.
    destruct C as [[-> Hr]|[->|(s' & ? & ?)]]; [|by destruct (Hpre eq_refl)|congruence].
    split; [done|]. destruct pre; [by destruct (Hpre eq_refl)|auto]. }
  assert (forall t id s, occupies t id s (w_db w') = occupies t id s (w_db w)) as Hocc'.
  { intros t id s. unfold occupies. by rewrite R. }
  intros x Hx. destruct (decide (x = src)) as [->|Hxs].
  - split; [done|]. destruct (decide (src ∈ S)) as [Hin|Hin].
    + destruct (Hown Hin) as [-> ->]. apply (He src Hin).
    + destruct res as [row| | |]; [|done..].
      destruct (Q row eq_refl) as (Hrow & Hst & Hno). exists row. split_and!; [done| |done].
      destruct pre; [|done]. by apply (Hpre eq_refl).
  - assert (x ∈ S) as Hin by (destruct res; set_solver).
    destruct (He x Hin) as (? & s & Hs & Hst & Hocc). split; [done|]. exists s. simpl in *.
    rewrite O, L by done. split_and!; [done..|]. intros. rewrite Hocc'. eauto.
Qed.

Lemma arbitrated_workDir id dir l s w S :
  db_leases (w_db w) !! (wl_run, id) = Some l ->
  db_sources (w_db w) !! lease_scmSourceId l = Some s ->
  @runOccupiesSharedCheckout (Build_Instance "" 0 false key) (Some dir) (source_localPath s)
    = false ->
  arbitrated (mkCheckouts w S) -> arbitrated (mkCheckouts (record_workDir id dir w) S).
Proof.
  intros Hl Hs Hdir [HL He]. split; [done|]. intros src Hsrc.
  destruct (He src Hsrc) as (Hne & s' & Hs' & Hst & Hocc). simpl in *.
  split; [done|]. exists s'. split_and!; [done..|]. intros t id' l' Hl' Ha Hsrc'.
  specialize (Hocc t id' l' Hl' Ha Hsrc'). destruct t; [|done]. simpl in *.
  destruct (decide (id' = id)) as [->|Hn]; [|by rewrite lookup_alter_ne by done].
  rewrite lookup_alter_eq. simplify_eq.
  destruct (db_runs (w_db w) !! id); [exact Hdir | done].
Qed.

(** A source's checkout is let go. *)
Lemma arbitrated_let_go f src w S :
  arbitrated (mkCheckouts w S) ->
  arbitrated (mkCheckouts (set_db (set_sources (alter f src)) w) (S ∖ {[src]})).
Proof.
  intros [HL He]. split; [done|]. intros x [Hx Hxn%not_elem_of_singleton]%elem_of_difference.
  destruct (He x Hx) as (? & s & Hs & ? & ?). split; [done|]. exists s.
  simpl. by rewrite lookup_alter_ne by done.
Qed.

Lemma ck_step_arbitrated c c' : ck_step c c' -> arbitrated c -> arbitrated c'.
Proof.
  destruct 1 as [w w' S Hf|i w S T t id a k o w' Hi Hk Hadm|i w S t id o r w' Hi Hr
    |i w S t id o r w' Hi Hr|i w S t id r w' Hi Hr|w S id dir l s Hl Hs Hd
    |i w S roots src pre res w' Hi Hne Hpre Hr|w S snap ok cn cg now src Hin|w S src Hin]; intros Ha.
  - by eapply arbitrated_frames.
  - destruct o as [v|e].
    + apply admission_Ret in Hadm as (_ & adm & Hof & Hrun).
      eapply arbitrated_frames; [by eapply Hk|]. by eapply arbitrated_reserve.
    + apply admission_Throw in Hadm. eapply arbitrated_frames; [|exact Ha].
      unfold frames. by rewrite Hadm.
  - destruct r as [[]|e]; [|by apply activateScmWorkload_Throw in Hr as ->].
    apply activateScmWorkload_Ret in Hr as (l & Hl & _ & [(_ & _ & ->)|(_ & Hc & ->)]); [done|].
    by eapply arbitrated_activate.
  - rewrite releaseScmWorkload_run in Hr.
    repeat case_match; simplify_eq; auto using arbitrated_delete.
  - rewrite releaseReserved_run in Hr.
    repeat case_match; simplify_eq; auto using arbitrated_delete.
  - by eapply arbitrated_workDir.
  - by eapply arbitrated_sync.
  - destruct (handsOffToCodegraph ok cg) eqn:Hoff; [|by apply arbitrated_let_go].
    destruct Ha as [HL He]. split; [done|]. intros x Hx.
    destruct (He x Hx) as (Hne & s & Hs & Hst & Hocc). split; [done|]. simpl in *.
    destruct (decide (x = src)) as [->|Hxs].
    + rewrite lookup_alter_eq, Hs. eexists. split; [done|]. simpl. rewrite Hoff. done.
    + exists s. by rewrite lookup_alter_ne by done.
  - by apply arbitrated_let_go.
Qed.
End Exclusion.

(** ** Properties *)



(** Admission is atomic: when it returns, the caller's write ran on the
    database in which the workload holds a lease for exactly the agent's
    current source (no lease for an agent without an SCM workspace); when it
    throws, for whatever reason, the database is what it was. *)
Theorem admission_atomic `{Instance} {T} t id a (k : ScmWorkloadAdmission -> M World T) w :
  match withScmWorkloadAdmission t id a k w with
  | (Throw _, w') => w_db w' = w_db w
  | (Ret v, w') =>
      hasLostHeartbeatOwnership = false /\
      exists ag adm d, db_agents (w_db w) !! a = Some ag /\
        k adm (set_db (fun _ => d) w) = (Ret v, w') /\
        (forall x, x <> (t, id) -> db_leases d !! x = db_leases (w_db w) !! x) /\
        match adm with
        | admission_temp => agent_workspaceType ag <> ws_scm /\ d = w_db w /\
            db_leases d !! (t, id) = None
        | admission_scm src lid already => agent_workspaceType ag = ws_scm /\
            agent_scmSourceId ag = Some src /\ lid = scmWorkloadLeaseId t id /\
            exists l, db_leases d !! (t, id) = Some l /\ lease_agentId l = a /\
              lease_scmSourceId l = src /\
              if already then d = w_db w
              else db_leases (w_db w) !! (t, id) = None /\ lease_phase l = reserved
        end
  end.
Proof.
  destruct (withScmWorkloadAdmission t id a k w) as [[v|e] w'] eqn:Hrun;
    [|by eapply admission_Throw].
  apply admission_Ret in Hrun as (Hlost & adm & Hof & Hk). split; [done|].
  unfold admission_of in Hof. destruct (db_agents (w_db w) !! a) as [ag|]; [|done].
  exists ag, adm, (reserve_for t id a adm (w_db w)).
  split; [done|]. split; [exact Hk|].
  destruct (decide (agent_workspaceType ag <> ws_scm)) as [Hw|Hw].
  { destruct (db_leases (w_db w) !! (t, id)) eqn:Hl; [done|]. by injection Hof as <-. }
  destruct (agent_scmSourceId ag) as [[|c src]|]; [done| |done].
  assert (agent_workspaceType ag = ws_scm) as Hws by (by apply dec_stable).
  destruct (db_leases (w_db w) !! (t, id)) as [l|] eqn:Hl.
  - destruct (decide _) as [[Ha Hs]|]; [|done]. injection Hof as <-.
    unfold reserve_for, admission_db. rewrite Hl. split; [done|]. simpl. eauto 10.
  - injection Hof as <-. unfold reserve_for, admission_db. rewrite Hl. simpl.
    split; [intros x Hx; by rewrite lookup_insert_ne|].
    split_and!; [done..|]. eexists. by rewrite lookup_insert_eq.
Qed.

(** ** Witnesses *)

Definition ex_instance : Instance := Build_Instance "i1" 100 false (fun p => p).

Definition ex_source : ScmSource :=
  mkSource "main" "/scm/main" None src_git sync_idle false false (Some 0%Z) true (Some "u1").

(** One bound agent whose run executes in its own worktree *)
Definition ex_scm_db : Db :=
  set_leases (fun _ => {[ (wl_run, "r1") := mkLease "a1" "s1" active (Some "i1") 0 ]})
    (set_sources (fun _ => {[ "s1" := ex_source ]})
      (set_runs (fun _ => {[ "r1" := mkRun running None None None None (Some "/scm/wt/a1")
         (Some "i1") None (Some "a1") (Some 1%Z) 0 0 empty_usage empty_origin ]})
        (mkDb ∅ ∅ {[ "a1" := mkAgent 2 ws_scm (Some "s1") true "A" None None None false ]} ∅ ∅ ∅ ∅ ∅ ∅ ∅))).
Definition ex_scm_world : World := set_db (fun _ => ex_scm_db) empty_world.


