(* ===== verification/AgentBinding.v ===== *)
(** * Agents and the SCM source they are bound to

    [apps/api/src/lib/scm-workload-guard.ts], [agent-scm-binding-mutation.ts]
    and the handlers of [routes/agents.ts], [routes/agent-clone-scope.ts] and
    [lib/agent-import.ts] that write an agent's binding.  The binding is the
    reference the source deletion protocol trusts: it may be released or
    established only while no work of the agent can be using a checkout. *)
From S2P Require Import Prelude Json Schema LeaseRegistry World ScmWorkload.

(** ** The workload guard *)

(** [activeEvaluations], a [Map] from task to agent in insertion order *)
Abbreviation Evaluations := (list (string * string)).

(** [Map.set] keeps the position of an existing key. *)
Fixpoint registerScmEvaluationWorkload (taskId agentId : string) (m : Evaluations) : Evaluations :=
  match m with
  | [] => [(taskId, agentId)]
  | (t, a) :: m' =>
      if decide (t = taskId) then (taskId, agentId) :: m'
      else (t, a) :: registerScmEvaluationWorkload taskId agentId m'
  end.

(** The callback a registration returns *)
Definition unregisterScmEvaluationWorkload (taskId : string) (m : Evaluations) : Evaluations :=
  filter (fun kv => kv.1 <> taskId) m.

Definition isScmEvaluationWorkloadRegistered (taskId : string) (m : Evaluations) : bool :=
  bool_decide (taskId ∈ m.*1).

Abbreviation ActiveAgentScmWorkload := (WorkloadType * string)%type.

Definition UNFINISHED : list RunStatus := [pending; queued; running].

(** The first row of a table that satisfies the condition, [limit(1)] *)
Definition first_row {V} (p : string * V -> bool) (t : gmap string V) : option (string * V) :=
  List.find p (map_to_list t).

Definition executing_step (agentId : string) (kv : string * RunStep) : bool :=
  bool_decide (step_agentId kv.2 = Some agentId) && bool_decide (step_status kv.2 = step_running).

Definition unfinished_run (agentId : string) (kv : string * Run) : bool :=
  bool_decide (run_initiatorAgentId kv.2 = Some agentId) &&
  bool_decide (run_status kv.2 ∈ UNFINISHED).

Definition unfinished_evaluation (agentId : string) (kv : string * EvaluationTask) : bool :=
  bool_decide (task_agentId kv.2 = agentId) && bool_decide (task_status kv.2 ∈ UNFINISHED).

Definition findActiveAgentScmWorkload (activeEvaluations : Evaluations) (agentId : string)
    : M World (option ActiveAgentScmWorkload) :=
  leasedRun ← gets (fun w => List.find (fun lease => bool_decide (lease.2 = Some agentId))
                               (listActiveExecutionLeases (w_reg w)));
  match leasedRun with
  | Some lease => mret (Some (wl_run, lease.1))
  | None =>
  match List.find (fun kv => bool_decide (kv.2 = agentId)) activeEvaluations with
  | Some kv => mret (Some (wl_evaluation, kv.1))
  | None =>
      durable ← findDurableAgentScmWorkload agentId;
      match durable with
      | Some workload => mret (Some workload)
      | None =>
          executingStep ← select (fun d => first_row (executing_step agentId) (db_steps d));
          match executingStep with
          | Some kv => mret (Some (wl_run, step_runId kv.2))
          | None =>
              activeRun ← select (fun d => first_row (unfinished_run agentId) (db_runs d));
              match activeRun with
              | Some kv => mret (Some (wl_run, kv.1))
              | None =>
                  activeEvaluation ←
                    select (fun d => first_row (unfinished_evaluation agentId) (db_tasks d));
                  mret ((fun kv => (wl_evaluation, kv.1)) <$> activeEvaluation)
              end
          end
      end
  end
  end.

(** ** Guarded mutations of a binding *)

Inductive AgentBindingMutationResult (T : Type) :=
| binding_allowed (value : T)
| binding_refused (busy : option ActiveAgentScmWorkload).
Arguments binding_allowed {T} value.
Arguments binding_refused {T} busy.

(** The columns [workspaceType] and [scmSourceId] *)
Record Binding := mkBinding { bind_type : WorkspaceType; bind_source : option string }.

Definition agent_binding (a : Agent) : Binding :=
  mkBinding (agent_workspaceType a) (agent_scmSourceId a).

Definition with_binding (b : Binding) (a : Agent) : Agent :=
  mkAgent (agent_maxConcurrency a) (bind_type b) (bind_source b) (agent_active a) (agent_name a)
    (agent_feishuConfig a) (agent_artifactPolicy a) (agent_maxJobRetries a) (agent_published a).

Definition loadBinding (agentId : string) : M World (option Binding) :=
  select (fun d => agent_binding <$> db_agents d !! agentId).

Definition isReadySource (sourceId : string) : M World bool :=
  select (fun d =>
    match db_sources d !! sourceId with
    | Some s => negb (source_deletionRequested s) &&
                bool_decide (is_Some (source_initialSyncCompletedAt s))
    | None => false
    end).

(** The binding is left for another, or a new one is entered. *)
Definition releases (current next : Binding) : bool :=
  bool_decide (bind_type current = ws_scm) && bool_decide (is_Some (bind_source current)) &&
  (bool_decide (bind_type next <> ws_scm) ||
   bool_decide (bind_source next <> bind_source current)).
Definition establishes (current next : Binding) : bool :=
  bool_decide (bind_type next = ws_scm) && bool_decide (is_Some (bind_source next)) &&
  (bool_decide (bind_type current <> ws_scm) ||
   bool_decide (bind_source next <> bind_source current)).

Section Guard.
Context (activeEvaluations : Evaluations).

Definition withAgentLock {A} (agentId : string) (m : M World A) : M World A := m.

(** The transaction of [mutateAgentBinding] *)
Definition mutate_in_guard {T} (agentId : string)
    (requestedWorkspaceType : option WorkspaceType)
    (requestedScmSourceId : option (option string)) (mutate : M World T)
    : M World (AgentBindingMutationResult T) :=
  current ← loadBinding agentId;
  match current with
  | None => mret (binding_refused None)
  | Some current =>
      let next := mkBinding (default (bind_type current) requestedWorkspaceType)
                            (default (bind_source current) requestedScmSourceId) in
      busy ← (if releases current next || establishes current next
              then findActiveAgentScmWorkload activeEvaluations agentId else mret None);
      match busy with
      | Some workload => mret (binding_refused (Some workload))
      | None =>
          ready ← (match bind_source next with
                   | Some sourceId => if establishes current next
                                      then isReadySource sourceId else mret true
                   | None => mret true
                   end);
          if negb ready then mret (binding_refused None)
          else value ← mutate; mret (binding_allowed value)
      end
  end.

Definition mutateAgentBinding {T} (agentId : string)
    (requestedWorkspaceType : option WorkspaceType)
    (requestedScmSourceId : option (option string)) (mutate : M World T)
    : M World (AgentBindingMutationResult T) :=
  match requestedWorkspaceType, requestedScmSourceId with
  | None, None => value ← mutate; mret (binding_allowed value)
  | _, _ => withAgentLock agentId (withScmPathMutation
      (mutate_in_guard agentId requestedWorkspaceType requestedScmSourceId mutate))
  end.

(** The transaction of [deleteAgentWithBindingGuard] *)
Definition remove_in_guard {T} (agentId : string) (remove : M World T)
    : M World (AgentBindingMutationResult T) :=
  current ← loadBinding agentId;
  match current with
  | None => mret (binding_refused None)
  | Some current =>
      busy ← (match bind_type current, bind_source current with
              | ws_scm, Some (String _ _) => findActiveAgentScmWorkload activeEvaluations agentId
              | _, _ => mret None
              end);
      match busy with
      | Some workload => mret (binding_refused (Some workload))
      | None => value ← remove; mret (binding_allowed value)
      end
  end.

Definition deleteAgentWithBindingGuard {T} (agentId : string) (remove : M World T)
    : M World (AgentBindingMutationResult T) :=
  withAgentLock agentId (withScmPathMutation (remove_in_guard agentId remove)).
End Guard.

(** ** The handlers that write a binding *)

Definition FOREIGN_KEY : JsError := mkError "SqliteError" "FOREIGN KEY constraint failed".
Definition UNIQUE : JsError := mkError "SqliteError" "UNIQUE constraint failed".

(** [agents.scm_source_id references scm_sources.id] *)
Definition source_exists (src : option string) (d : Db) : bool :=
  match src with None => true | Some s => bool_decide (is_Some (db_sources d !! s)) end.

Definition set_agents (f : gmap string Agent -> gmap string Agent) (d : Db) : Db :=
  mkDb (db_runs d) (db_steps d) (f (db_agents d)) (db_leases d) (db_sources d)
       (db_removals d) (db_heartbeats d) (db_tasks d) (db_results d) (db_messages d).

Definition insert_agent (id : string) (row : Agent) : M World Agent := fun w =>
  match db_agents (w_db w) !! id with
  | Some _ => (Throw UNIQUE, w)
  | None => if source_exists (agent_scmSourceId row) (w_db w)
            then (Ret row, set_db (set_agents (insert id row)) w)
            else (Throw FOREIGN_KEY, w)
  end.

(** A PATCH body: the binding it names, and what it does to the other columns *)
Record AgentPatch := mkPatch {
  patch_workspaceType : option WorkspaceType;
  patch_scmSourceId : option (option string);
  patch_rest : Agent -> Agent
}.

Definition patched (p : AgentPatch) (a : Agent) : Agent :=
  with_binding (mkBinding (default (agent_workspaceType a) (patch_workspaceType p))
                          (default (agent_scmSourceId a) (patch_scmSourceId p)))
    (patch_rest p a).

(** [update(agents).set(updatePayload).where(eq(agents.id, id)).returning()] *)
Definition updateAgent (id : string) (p : AgentPatch) : M World (option Agent) := fun w =>
  match db_agents (w_db w) !! id with
  | None => (Ret None, w)
  | Some a => if source_exists (agent_scmSourceId (patched p a)) (w_db w)
              then (Ret (Some (patched p a)), set_db (set_agents (insert id (patched p a))) w)
              else (Throw FOREIGN_KEY, w)
  end.

(** [getOwnerFilter]: the caller's user id, or [None] for an administrator *)
Definition owned_by (owner : option string) (s : ScmSource) : bool :=
  match owner with None => true | Some u => bool_decide (source_userId s = Some u) end.

Definition visible_source (owner : option string) (id : string) (d : Db) : option ScmSource :=
  match db_sources d !! id with
  | Some s => if owned_by owner s then Some s else None
  | None => None
  end.

Inductive BindingResponse :=
| agent_written (row : option Agent)            (* 200 or 201 *)
| source_not_found                              (* 400 *)
| initial_sync_required                         (* 400 *)
| source_unavailable                            (* 409 *)
| workload_active (w : ActiveAgentScmWorkload)  (* 409 *)
| agent_not_found                               (* 404 *)
| agent_is_published.                           (* 409 *)

(** The lookup that precedes a write *)
Definition check_source (owner : option string) (id : string) : M World (option BindingResponse) :=
  select (fun d =>
    match visible_source owner id d with
    | None => Some source_not_found
    | Some s => if decide (source_initialSyncCompletedAt s = None)
                then Some initial_sync_required else None
    end).

(** [workspaceType === 'scm' && scmSourceId] *)
Definition binds_source (b : Binding) : option string :=
  match bind_type b, bind_source b with
  | ws_scm, Some (String c s) => Some (String c s)
  | _, _ => None
  end.

(** [POST /agents]: [row] carries the binding of the request. *)
Definition createAgent (owner : option string) (id : string) (row : Agent)
    : M World BindingResponse :=
  match binds_source (agent_binding row) with
  | None => agent ← insert_agent id row; mret (agent_written (Some agent))
  | Some src =>
      refused ← check_source owner src;
      match refused with
      | Some r => mret r
      | None =>
          withScmPathMutation (
            source ← select (fun d => match visible_source owner src d with
              | Some s => if source_deletionRequested s then None else Some s
              | None => None end);
            match source ≫= source_initialSyncCompletedAt with
            | None => mret source_unavailable
            | Some _ => agent ← insert_agent id row; mret (agent_written (Some agent))
            end)
      end
  end.

(** [PATCH /agents/:id]: [existing] is the row read when the request began. *)
Definition patchAgent (activeEvaluations : Evaluations) (owner : option string) (id : string)
    (existing : Agent) (p : AgentPatch) : M World BindingResponse :=
  refused ← (match patch_scmSourceId p with
             | Some (Some src) =>
                 if decide (Some src = agent_scmSourceId existing) then mret None
                 else check_source owner src
             | _ => mret None
             end);
  match refused with
  | Some r => mret r
  | None =>
      result ← mutateAgentBinding activeEvaluations id (patch_workspaceType p)
                 (patch_scmSourceId p) (updateAgent id p);
      mret (match result with
            | binding_allowed updated => agent_written updated
            | binding_refused (Some workload) => workload_active workload
            | binding_refused None => source_unavailable
            end)
  end.

(** [resolveScmBindingForClone]: [None] is [unavailable]. *)
Definition resolveScmBindingForClone (owner : option string) (sourceBinding : Binding)
    : M World (option Binding) :=
  match bind_source sourceBinding with
  | None | Some "" => mret (Some sourceBinding)
  | Some src =>
      select (fun d =>
        match (match db_sources d !! src with
               | Some s => if source_deletionRequested s then None else Some s
               | None => None end) with
        | None => if decide (bind_type sourceBinding = ws_scm) then None
                  else Some (mkBinding ws_temp None)
        | Some s => Some (if owned_by owner s then sourceBinding else mkBinding ws_temp None)
        end)
  end.

(** [POST /agents/:id/clone]: [agent] is the row read before. *)
Definition cloneAgent (owner : option string) (cloneId : string) (agent row : Agent)
    : M World BindingResponse :=
  let insertClone b := insert_agent cloneId (with_binding b row) in
  match bind_source (agent_binding agent) with
  | None | Some "" => clone ← insertClone (agent_binding agent); mret (agent_written (Some clone))
  | Some _ =>
      withScmPathMutation (
        binding ← resolveScmBindingForClone owner (agent_binding agent);
        match binding with
        | None => mret source_unavailable
        | Some b => clone ← insertClone b; mret (agent_written (Some clone))
        end)
  end.

(** The import resolves a source by name among those the importer may bind. *)
Definition resolveScmRef (owner : option string) (ref : option string) : M World (option string) :=
  match ref with
  | None | Some "" => mret None
  | Some name => select (fun d => fst <$>
      first_row (fun kv => bool_decide (source_name kv.2 = name) &&
                           negb (source_deletionRequested kv.2) && owned_by owner kv.2)
        (db_sources d))
  end.

Definition importAgent (owner : option string) (id : string) (workspaceType : WorkspaceType)
    (scmSourceRef : option string) (row : Agent) : M World Agent :=
  withTransaction (
    scmSourceId ← resolveScmRef owner scmSourceRef;
    insert_agent id (with_binding (mkBinding workspaceType scmSourceId) row)).

Section Deletion.
Context `{Instance}.

Definition detached_step (agentId : string) (s : RunStep) : RunStep :=
  if decide (step_agentId s = Some agentId)
  then mkStep (step_runId s) (step_order s) (step_input s) (step_output s) (step_status s)
         (step_durationMs s) None
  else s.

Definition with_initiator (v : option string) (r : Run) : Run :=
  mkRun (run_status r) (run_result r) (run_executionMetadata r) (run_triggerSource r)
    (run_triggerSessionId r) (run_workDir r) (run_ownerInstanceId r) (run_worktreeConfig r)
    v (run_queuedAt r) (run_createdAt r) (run_updatedAt r) (run_usage r) (run_origin r).

Definition detached_run (agentId : string) (r : Run) : Run :=
  if decide (run_initiatorAgentId r = Some agentId)
  then with_updatedAt clock (with_initiator None r) else r.

(** The delete statement: a lease refers to the agent without a cascade, and
    the evaluation tasks go with it, their results with them. *)
Definition delete_agent_row (id : string) : M World (option Agent) := fun w =>
  let d := w_db w in
  match db_agents d !! id with
  | None => (Ret None, w)
  | Some a =>
      if decide (map_Forall (fun _ l => lease_agentId l <> id) (db_leases d)) then
        let gone := filter (fun kv => task_agentId kv.2 = id) (db_tasks d) in
        (Ret (Some a),
         set_db (fun d => set_results (filter (fun kv => gone !! result_taskId kv.2 = None))
           (set_tasks (filter (fun kv => task_agentId kv.2 <> id))
             (set_agents (delete id) d))) w)
      else (Throw FOREIGN_KEY, w)
  end.

Definition deleteRows (id : string) : M World (option Agent) :=
  _ ← db_write (set_steps (fmap (detached_step id)));
  _ ← db_write (set_runs (fmap (detached_run id)));
  delete_agent_row id.

(** [DELETE /agents/:id] *)
Definition deleteAgent (activeEvaluations : Evaluations) (id : string) (existing : Agent)
    : M World BindingResponse :=
  if agent_published existing then mret agent_is_published
  else
    deletion ← deleteAgentWithBindingGuard activeEvaluations id (deleteRows id);
    mret (match deletion with
          | binding_allowed row => agent_written row
          | binding_refused (Some workload) => workload_active workload
          | binding_refused None => agent_not_found
          end).
End Deletion.

(** ** The guard is exact *)

Lemma find_None_iff {A} (p : A -> bool) (l : list A) :
  List.find p l = None <-> forall x, x ∈ l -> p x = false.
Proof.
  split.
  - intros Hn x Hx. apply (List.find_none _ _ Hn). by apply list_elem_of_In.
  - intros Hall. destruct (List.find p l) as [x|] eqn:Hf; [|done].
    apply List.find_some in Hf as [Hin Hp]. apply list_elem_of_In in Hin.
    by rewrite Hall in Hp.
Qed.

Lemma first_row_None {V} (p : string * V -> bool) (t : gmap string V) :
  first_row p t = None <-> forall k v, t !! k = Some v -> p (k, v) = false.
Proof.
  unfold first_row. rewrite find_None_iff. split.
  - intros Hall k v Hk. apply Hall. by apply elem_of_map_to_list.
  - intros Hall [k v] Hin%elem_of_map_to_list. by apply Hall.
Qed.

(** No work of the agent is leased, registered, executing or waiting. *)
Record idle (evals : Evaluations) (a : string) (w : World) : Prop := {
  idle_executions : forall run, (run, Some a) ∉ listActiveExecutionLeases (w_reg w);
  idle_registered : forall task, (task, a) ∉ evals;
  idle_leases : forall k l, db_leases (w_db w) !! k = Some l -> lease_agentId l <> a;
  idle_steps : forall id s, db_steps (w_db w) !! id = Some s ->
    step_agentId s = Some a -> step_status s <> step_running;
  idle_runs : forall id r, db_runs (w_db w) !! id = Some r ->
    run_initiatorAgentId r = Some a -> run_status r ∉ UNFINISHED;
  idle_tasks : forall id t, db_tasks (w_db w) !! id = Some t ->
    task_agentId t = a -> task_status t ∉ UNFINISHED
}.

Lemma find_registered_None a (l : list (string * string)) :
  List.find (fun kv => bool_decide (kv.2 = a)) l = None <-> forall task, (task, a) ∉ l.
Proof.
  rewrite find_None_iff. split.
  - intros Hall task Hin. by specialize (Hall _ Hin); bool_to_prop.
  - intros Hno [task b] Hin. apply bool_decide_eq_false. simpl. intros ->. by eapply Hno.
Qed.

Lemma find_leased_None a (l : list (string * option string)) :
  List.find (fun lease => bool_decide (lease.2 = Some a)) l = None <->
  forall run, (run, Some a) ∉ l.
Proof.
  rewrite find_None_iff. split.
  - intros Hall run Hin. by specialize (Hall _ Hin); bool_to_prop.
  - intros Hno [run b] Hin. apply bool_decide_eq_false. simpl. intros ->. by eapply Hno.
Qed.

Lemma durable_workload_run a w : exists r,
  findDurableAgentScmWorkload a w = (Ret r, w) /\
  (r = None <-> forall k l, db_leases (w_db w) !! k = Some l -> lease_agentId l <> a).
Proof.
  eexists. split; [done|]. split.
  - intros Hh [t id] l Hl Ha.
    pose proof (head_omap_None _ _ Hh ((t, id), l)) as Hn. simpl in Hn.
    rewrite decide_True in Hn by done. by discriminate Hn; apply elem_of_map_to_list.
  - intros Hno. destruct (head _) as [[t id]|] eqn:Hh; [|done].
    assert ((t, id) ∈ omap (fun '((t0, w0), l) => if decide (lease_agentId l = a)
      then Some (t0, w0) else None) (map_to_list (db_leases (w_db w)))) as Hin
      by (destruct (omap _ _); [done|]; injection Hh as ->; by left).
    apply list_elem_of_omap in Hin as ([[t' id'] l] & Hl%elem_of_map_to_list & Hd).
    destruct (decide (lease_agentId l = a)) as [Ha|]; [|done]. by apply Hno in Hl.
Qed.

Lemma no_executing_step a d :
  first_row (executing_step a) (db_steps d) = None <->
  forall id s, db_steps d !! id = Some s -> step_agentId s = Some a -> step_status s <> step_running.
Proof.
  rewrite first_row_None. unfold executing_step. split; intros Hall id s Hs.
  - intros Ha Hst. specialize (Hall _ _ Hs). simpl in Hall. by rewrite !bool_decide_eq_true_2 in Hall.
  - specialize (Hall _ _ Hs). simpl. repeat case_bool_decide; naive_solver.
Qed.

Lemma no_unfinished_run a d :
  first_row (unfinished_run a) (db_runs d) = None <->
  forall id r, db_runs d !! id = Some r -> run_initiatorAgentId r = Some a ->
    run_status r ∉ UNFINISHED.
Proof.
  rewrite first_row_None. unfold unfinished_run. split; intros Hall id s Hs.
  - intros Ha Hst. specialize (Hall _ _ Hs). simpl in Hall. by rewrite !bool_decide_eq_true_2 in Hall.
  - specialize (Hall _ _ Hs). simpl. repeat case_bool_decide; naive_solver.
Qed.

Lemma no_unfinished_evaluation a d :
  first_row (unfinished_evaluation a) (db_tasks d) = None <->
  forall id t, db_tasks d !! id = Some t -> task_agentId t = a -> task_status t ∉ UNFINISHED.
Proof.
  rewrite first_row_None. unfold unfinished_evaluation. split; intros Hall id s Hs.
  - intros Ha Hst. specialize (Hall _ _ Hs). simpl in Hall. by rewrite !bool_decide_eq_true_2 in Hall.
  - specialize (Hall _ _ Hs). simpl. repeat case_bool_decide; naive_solver.
Qed.

(** The guard finds nothing exactly when the agent is idle, and only reads. *)
Lemma findActive_run evals a w : exists r,
  findActiveAgentScmWorkload evals a w = (Ret r, w) /\ (r = None <-> idle evals a w).
Proof.
  pose proof (no_executing_step a (w_db w)) as Hsteps.
  pose proof (no_unfinished_run a (w_db w)) as Hruns.
  pose proof (no_unfinished_evaluation a (w_db w)) as Htasks.
  pose proof (find_leased_None a (listActiveExecutionLeases (w_reg w))) as Hleased.
  pose proof (find_registered_None a evals) as Hreg.
  destruct (durable_workload_run a w) as (r & Hr & Hdur).
  unfold findActiveAgentScmWorkload, mbind at 1, M_bind at 1, gets at 1.
  destruct (List.find _ (listActiveExecutionLeases _)) as [x|];
    [eexists; split; [done|]; split; [done|intros []; naive_solver]|].
  destruct (List.find _ evals) as [x|];
    [eexists; split; [done|]; split; [done|intros []; naive_solver]|].
  rewrite (bind_run _ _ _ _ _ Hr).
  destruct r as [x|]; [exists (Some x); split; [done|]; split; [done|intros []; naive_solver]|].
  unfold mbind at 1, M_bind at 1, select at 1, gets at 1.
  destruct (first_row (executing_step a) _) as [x|];
    [eexists; split; [done|]; split; [done|intros []; naive_solver]|].
  unfold mbind at 1, M_bind at 1, select at 1, gets at 1.
  destruct (first_row (unfinished_run a) _) as [x|];
    [eexists; split; [done|]; split; [done|intros []; naive_solver]|].
  unfold mbind at 1, M_bind at 1, select at 1, gets at 1.
  eexists. split; [done|].
  destruct (first_row (unfinished_evaluation a) _); simpl; split; try done.
  - intros []; naive_solver.
  - intros _. split; naive_solver.
Qed.

(** ** What a guarded mutation does *)

(** A source an agent may enter *)
Definition open_source (s : string) (d : Db) : Prop :=
  exists row, db_sources d !! s = Some row /\ source_deletionRequested row = false.

Lemma isReadySource_run s w :
  exists b, isReadySource s w = (Ret b, w) /\ (b = true -> open_source s (w_db w)).
Proof.
  eexists. split; [done|]. unfold open_source.
  destruct (db_sources (w_db w) !! s) as [row|]; [|done]. intros Hb. bool_to_prop. eauto.
Qed.

Section MutationSpecs.
Context (evals : Evaluations).

(** What the guard has established when the mutation runs *)
Definition guarded_by_binding (id : string) ws src (w : World) : Prop :=
  ws = None /\ src = None \/
  exists cur, agent_binding <$> db_agents (w_db w) !! id = Some cur /\
    let next := mkBinding (default (bind_type cur) ws) (default (bind_source cur) src) in
    (releases cur next || establishes cur next = true -> idle evals id w) /\
    (forall s, bind_source next = Some s -> establishes cur next = true -> open_source s (w_db w)).

Lemma find_guard (b : bool) id w : exists r,
  (if b then findActiveAgentScmWorkload evals id else mret None) w = (Ret r, w) /\
  (r = None -> b = true -> idle evals id w).
Proof.
  destruct b; [|by eexists]. destruct (findActive_run evals id w) as (r & Hr & Hi).
  exists r. split; [done|]. intros ? _. by apply Hi.
Qed.

Lemma ready_guard src (b : bool) w : exists r,
  match src with
  | Some sourceId => if b then isReadySource sourceId else mret true
  | None => mret true
  end w = (Ret r, w) /\
  (r = true -> forall s, src = Some s -> b = true -> open_source s (w_db w)).
Proof.
  destruct src as [s|]; [|by eexists]. destruct b; [|by eexists].
  destruct (isReadySource_run s w) as (r & Hr & Ho). exists r. split; [done|]. naive_solver.
Qed.

Lemma mutate_in_guard_cases {T} id ws src (mutate : M World T) w o w' :
  mutate_in_guard evals id ws src mutate w = (o, w') ->
  match o with
  | Ret (binding_allowed v) => mutate w = (Ret v, w') /\ guarded_by_binding id ws src w
  | Ret (binding_refused _) => w' = w
  | Throw e => mutate w = (Throw e, w')
  end.
Proof.
  unfold mutate_in_guard, loadBinding, mbind at 1, M_bind at 1, select, gets.
  destruct (agent_binding <$> db_agents (w_db w) !! id) as [cur|] eqn:Hcur; [|by intros [= <- <-]].
  set (next := mkBinding _ _).
  destruct (find_guard (releases cur next || establishes cur next) id w) as (r & Hr & Hidle).
  rewrite (bind_run _ _ _ _ _ Hr). destruct r as [x|]; [by intros [= <- <-]|].
  destruct (ready_guard (bind_source next) (establishes cur next) w) as (ok & Hok & Hopen).
  rewrite (bind_run _ _ _ _ _ Hok). destruct ok; [simpl|by intros [= <- <-]].
  intros [(v & w1 & Hv & Hm)|(e & Hm & ->)]%bind_inv; [|done].
  injection Hm as <- <-. split; [done|]. right. exists cur. auto.
Qed.

Lemma mutate_in_guard_db_only {T} id ws src (mutate : M World T) :
  db_only mutate -> db_only (mutate_in_guard evals id ws src mutate).
Proof.
  intros Hdb w o w' Hm. apply mutate_in_guard_cases in Hm.
  destruct o as [[v|b]|e]; [destruct Hm as [Hm _]| |]; subst; eauto.
Qed.

Lemma mutateAgentBinding_cases {T} id ws src (mutate : M World T) w o w' :
  db_only mutate ->
  mutateAgentBinding evals id ws src mutate w = (o, w') ->
  match o with
  | Ret (binding_allowed v) => mutate w = (Ret v, w') /\ guarded_by_binding id ws src w
  | Ret (binding_refused _) => w' = w
  | Throw e => w' = w \/ mutate w = (Throw e, w')
  end.
Proof.
  intros Hdb Hm.
  assert (ws = None /\ src = None /\ (value ← mutate; mret (binding_allowed value)) w = (o, w') \/
    withTransaction (mutate_in_guard evals id ws src mutate) w = (o, w')) as
    [(-> & -> & Hc)|Hc] by (destruct ws, src; auto).
  - apply bind_inv in Hc as [(v & w1 & Hv & Hc)|(e & He & ->)]; [|by right].
    injection Hc as <- <-. split; [done|]. by left.
  - destruct o as [v|e].
    + rewrite withTransaction_Ret in Hc. by apply mutate_in_guard_cases in Hc.
    + left. by apply withTransaction_Throw_id in Hc; [|apply mutate_in_guard_db_only].
Qed.

(** What the guard of a deletion has established *)
Definition removable (id : string) (w : World) : Prop :=
  exists a, db_agents (w_db w) !! id = Some a /\
    (is_Some (binds_source (agent_binding a)) -> idle evals id w).

Lemma remove_in_guard_cases {T} id (remove : M World T) w o w' :
  remove_in_guard evals id remove w = (o, w') ->
  match o with
  | Ret (binding_allowed v) => remove w = (Ret v, w') /\ removable id w
  | Ret (binding_refused None) => w' = w /\ db_agents (w_db w) !! id = None
  | Ret (binding_refused (Some _)) => w' = w /\ ~ idle evals id w
  | Throw e => remove w = (Throw e, w') /\ removable id w
  end.
Proof.
  unfold remove_in_guard, loadBinding, mbind at 1, M_bind at 1, select, gets.
  destruct (db_agents (w_db w) !! id) as [a|] eqn:Ha; simpl; [|by intros [= <- <-]].
  assert (exists r, match agent_workspaceType a, agent_scmSourceId a with
      | ws_scm, Some (String _ _) => findActiveAgentScmWorkload evals id
      | _, _ => mret None end w = (Ret r, w) /\
      (r = None -> is_Some (binds_source (agent_binding a)) -> idle evals id w) /\
      (is_Some r -> ~ idle evals id w))
    as (r & Hr & Hidle & Hbusy).
  { destruct (findActive_run evals id w) as (r & Hr & Hi). unfold binds_source. simpl.
    destruct (agent_workspaceType a), (agent_scmSourceId a) as [[|c s]|];
      try (eexists; split; [done|]; split; by intros ? [? ?]). exists r.
    split; [done|]. split; [naive_solver|]. intros [x ->] Hid. by apply Hi in Hid. }
  rewrite (bind_run _ _ _ _ _ Hr). destruct r as [x|]; [intros [= <- <-]; eauto|].
  assert (removable id w) as Hok by (exists a; eauto).
  intros [(v & w1 & Hv & Hm)|(e & Hm & ->)]%bind_inv; [|done].
  by injection Hm as <- <-.
Qed.
End MutationSpecs.

(** ** What the handlers write *)

(** The agent works in the checkout of that source. *)
Definition bound_to (a : Agent) (s : string) : Prop := binds_source (agent_binding a) = Some s.

Lemma bound_to_iff a s :
  bound_to a s <-> agent_workspaceType a = ws_scm /\ agent_scmSourceId a = Some s /\ s <> "".
Proof.
  unfold bound_to, binds_source. simpl.
  destruct (agent_workspaceType a), (agent_scmSourceId a) as [[|c x]|]; naive_solver.
Qed.

Definition no_lease (id : string) (d : Db) : Prop :=
  forall k l, db_leases d !! k = Some l -> lease_agentId l <> id.

(** A write of an agent's row enters open sources only, and leaves a source
    only when no lease of the agent is left. *)
Inductive agent_write (id : string) (w : World) : World -> Prop :=
| write_nothing : agent_write id w w
| write_row a' :
    (forall s, bound_to a' s ->
       (exists a, db_agents (w_db w) !! id = Some a /\ bound_to a s) \/ open_source s (w_db w)) ->
    (forall a s, db_agents (w_db w) !! id = Some a -> bound_to a s ->
       bound_to a' s \/ no_lease id (w_db w)) ->
    agent_write id w (set_db (set_agents (insert id a')) w).

Lemma insert_agent_write id row w o w' :
  (forall s, bound_to row s -> open_source s (w_db w)) ->
  insert_agent id row w = (o, w') -> agent_write id w w'.
Proof.
  intros Hopen. unfold insert_agent. destruct (db_agents (w_db w) !! id) eqn:Hid;
    [intros [= _ <-]; constructor|].
  destruct (source_exists _ _); intros [= _ <-]; constructor; [auto|].
  intros a s Ha. congruence.
Qed.

Lemma insert_agent_db_only id row : db_only (insert_agent id row).
Proof.
  intros w o w'. unfold insert_agent. destruct (_ !! id); [|destruct (source_exists _ _)];
    by intros [= _ <-].
Qed.

Lemma insert_written id row w o w' :
  (forall s, bound_to row s -> open_source s (w_db w)) ->
  (agent ← insert_agent id row; mret (agent_written (Some agent))) w = (o, w') ->
  agent_write id w w'.
Proof.
  intros Hopen [(a & w1 & Ha & Hr)|(e & He & _)]%bind_inv; [injection Hr as _ <-|];
    by eapply insert_agent_write.
Qed.

Lemma transaction_write {A} id (m : M World A) w o w' :
  db_only m -> (forall o w', m w = (o, w') -> agent_write id w w') ->
  withScmPathMutation m w = (o, w') -> agent_write id w w'.
Proof.
  intros Hdb Hm. destruct o as [v|e]; unfold withScmPathMutation.
  - rewrite withTransaction_Ret. apply Hm.
  - intros Ht. apply withTransaction_Throw_id in Ht as ->; [constructor|done].
Qed.

Lemma check_source_run owner src w : exists r, check_source owner src w = (Ret r, w).
Proof. by eexists. Qed.

Lemma createAgent_write owner id row w o w' :
  createAgent owner id row w = (o, w') -> agent_write id w w'.
Proof.
  unfold createAgent. destruct (binds_source (agent_binding row)) as [src|] eqn:Hb.
  2: { apply insert_written. unfold bound_to. congruence. }
  destruct (check_source_run owner src w) as (r & Hr). rewrite (bind_run _ _ _ _ _ Hr).
  destruct r as [r|]; [intros [= _ <-]; constructor|].
  apply transaction_write.
  { apply db_only_bind; [eauto with db_only|]. intros s. destruct (s ≫= _); [|eauto with db_only].
    apply db_only_bind; [apply insert_agent_db_only|eauto with db_only]. }
  intros o1 w1. unfold mbind at 1, M_bind at 1, select, gets.
  unfold visible_source. destruct (db_sources (w_db w) !! src) as [s|] eqn:Hs; simpl;
    [|intros [= _ <-]; constructor].
  destruct (owned_by owner s); simpl; [|intros [= _ <-]; constructor].
  destruct (source_deletionRequested s) eqn:Hd; simpl; [intros [= _ <-]; constructor|].
  destruct (source_initialSyncCompletedAt s); [|intros [= _ <-]; constructor].
  apply insert_written. intros x. unfold bound_to. rewrite Hb. intros [= <-]. by exists s.
Qed.

Lemma cloneAgent_write owner id agent row w o w' :
  cloneAgent owner id agent row w = (o, w') -> agent_write id w w'.
Proof.
  assert (forall b (w : World), (forall s, binds_source b = Some s -> open_source s (w_db w)) ->
    forall s, bound_to (with_binding b row) s -> open_source s (w_db w)) as Hbind.
  { intros [ty src] w0 Hb s. unfold bound_to. simpl. apply Hb. }
  unfold cloneAgent.
  destruct (bind_source (agent_binding agent)) as [[|c src]|] eqn:Hsrc;
    [apply insert_written, Hbind; intros s; unfold binds_source; rewrite Hsrc;
     by destruct (bind_type _)| |
     apply insert_written, Hbind; intros s; unfold binds_source; rewrite Hsrc;
     by destruct (bind_type _)].
  apply transaction_write.
  { apply db_only_bind.
    - unfold resolveScmBindingForClone. destruct (bind_source _) as [[]|]; eauto with db_only.
    - intros [b|]; [|eauto with db_only].
      apply db_only_bind; [apply insert_agent_db_only|eauto with db_only]. }
  intros o1 w1. unfold resolveScmBindingForClone. rewrite Hsrc.
  unfold mbind at 1, M_bind at 1, select, gets.
  destruct (db_sources (w_db w) !! String c src) as [s|] eqn:Hs; simpl.
  - destruct (source_deletionRequested s) eqn:Hd; simpl.
    + case_decide; [intros [= _ <-]; constructor|]. apply insert_written, Hbind. done.
    + destruct (owned_by owner s); apply insert_written, Hbind; [|done].
      intros x. unfold binds_source. rewrite Hsrc. destruct (bind_type _); [done|].
      intros [= <-]. by exists s.
  - case_decide; [intros [= _ <-]; constructor|]. apply insert_written, Hbind. done.
Qed.

Lemma importAgent_write owner id ws ref row w o w' :
  importAgent owner id ws ref row w = (o, w') -> agent_write id w w'.
Proof.
  assert (forall w, exists s, resolveScmRef owner ref w = (Ret s, w) /\
    forall x, s = Some x -> open_source x (w_db w)) as Hres.
  { intros w0. unfold resolveScmRef. destruct ref as [[|c n]|]; [by eexists| |by eexists].
    eexists. split; [done|]. intros x. destruct (first_row _ _) as [[id0 row0]|] eqn:Hf; [|done].
    intros [= <-]. apply List.find_some in Hf as [Hin Hp]. simpl in *. bool_to_prop.
    exists row0. split; [|done]. apply elem_of_map_to_list. by apply list_elem_of_In. }
  destruct (Hres w) as (s & Hs & Hopen).
  apply transaction_write.
  { apply db_only_bind; [unfold resolveScmRef; destruct ref as [[]|]; eauto with db_only|].
    intros. apply insert_agent_db_only. }
  intros o1 w1. rewrite (bind_run _ _ _ _ _ Hs). apply insert_agent_write.
  intros x Hb. apply Hopen. by apply bound_to_iff in Hb as (_ & Hb & _).
Qed.

Lemma updateAgent_db_only id p : db_only (updateAgent id p).
Proof.
  intros w o w'. unfold updateAgent. destruct (_ !! id); [destruct (source_exists _ _)|];
    by intros [= _ <-].
Qed.

(** What is not established was there, what is not released stays. *)
Lemma not_entered cur next s :
  establishes cur next = false -> binds_source next = Some s -> binds_source cur = Some s.
Proof.
  destruct cur as [[] [[|c x]|]], next as [[] [[|c' x']|]]; unfold establishes; simpl;
    try done; repeat case_bool_decide; simpl; naive_solver.
Qed.

Lemma not_left cur next s :
  releases cur next = false -> binds_source cur = Some s -> binds_source next = Some s.
Proof.
  destruct cur as [[] [[|c x]|]], next as [[] [[|c' x']|]]; unfold releases; simpl;
    try done; repeat case_bool_decide; simpl; naive_solver.
Qed.

Lemma patched_binding p a :
  agent_binding (patched p a) =
  mkBinding (default (agent_workspaceType a) (patch_workspaceType p))
            (default (agent_scmSourceId a) (patch_scmSourceId p)).
Proof. done. Qed.

Lemma updateAgent_write evals id p w o w' :
  guarded_by_binding evals id (patch_workspaceType p) (patch_scmSourceId p) w ->
  updateAgent id p w = (o, w') -> agent_write id w w'.
Proof.
  intros Hg. unfold updateAgent. destruct (db_agents (w_db w) !! id) as [a|] eqn:Ha;
    [|intros [= _ <-]; constructor].
  destruct (source_exists _ _); intros [= _ <-]; [|constructor].
  destruct Hg as [[Hws Hsrc]|(cur & Hcur & Hidle & Hopen)].
  - assert (agent_binding (patched p a) = agent_binding a) as Hb
      by (by rewrite patched_binding, Hws, Hsrc).
    constructor; unfold bound_to; rewrite Hb; [eauto|]. intros a0 s Ha0 Hs. left. congruence.
  - rewrite Ha in Hcur. injection Hcur as <-. simpl in *. rewrite <- patched_binding in *.
    constructor.
    + intros s Hs. destruct (establishes _ _) eqn:Hest.
      * right. apply Hopen; [|done]. by apply bound_to_iff in Hs as (_ & Hs & _).
      * left. exists a. split; [done|]. by eapply not_entered.
    + intros a0 s Ha0 Hs. rewrite Ha in Ha0. injection Ha0 as <-.
      destruct (releases (agent_binding a) (agent_binding (patched p a))) eqn:Hrel.
      * right. exact (idle_leases _ _ _ (Hidle eq_refl)).
      * left. by eapply not_left.
Qed.

Lemma patchAgent_write evals owner id existing p w o w' :
  patchAgent evals owner id existing p w = (o, w') -> agent_write id w w'.
Proof.
  unfold patchAgent.
  assert (exists r, (match patch_scmSourceId p with
     | Some (Some src) => if decide (Some src = agent_scmSourceId existing) then mret None
                          else check_source owner src
     | _ => mret None end) w = (Ret r, w)) as (r & Hr).
  { destruct (patch_scmSourceId p) as [[src|]|]; [case_decide|..]; by eexists. }
  rewrite (bind_run _ _ _ _ _ Hr). destruct r as [r|]; [intros [= _ <-]; constructor|].
  intros [(res & w1 & Hm & Hk)|(e & Hm & _)]%bind_inv;
    apply mutateAgentBinding_cases in Hm; try apply updateAgent_db_only.
  - injection Hk as _ <-. destruct res as [v|b]; [|by subst; constructor].
    destruct Hm as [Hu Hg]. by eapply updateAgent_write.
  - destruct Hm as [->|Hm]; [constructor|].
    unfold updateAgent in Hm. destruct (_ !! id); [destruct (source_exists _ _)|]; simplify_eq.
    constructor.
Qed.

(** ** Deletion *)

Section DeletionSpecs.
Context `{Instance}.

Definition without_agent (id : string) (d : Db) : Db :=
  let gone := filter (fun kv => task_agentId kv.2 = id) (db_tasks d) in
  mkDb (detached_run id <$> db_runs d) (detached_step id <$> db_steps d)
    (delete id (db_agents d)) (db_leases d) (db_sources d) (db_removals d) (db_heartbeats d)
    (filter (fun kv => task_agentId kv.2 <> id) (db_tasks d))
    (filter (fun kv => gone !! result_taskId kv.2 = None) (db_results d)) (db_messages d).

Lemma deleteRows_run id a w :
  db_agents (w_db w) !! id = Some a ->
  if decide (map_Forall (fun _ l => lease_agentId l <> id) (db_leases (w_db w)))
  then deleteRows id w = (Ret (Some a), set_db (without_agent id) w)
  else exists w1, deleteRows id w = (Throw FOREIGN_KEY, w1) /\ memory w1 = memory w.
Proof.
  intros Ha. unfold deleteRows, mbind, M_bind, db_write, modify, delete_agent_row. simpl.
  rewrite Ha. case_decide; [done|by eexists].
Qed.
(** Nothing refers to the agent any more. *)
Lemma without_agent_free id d :
  db_agents (without_agent id d) !! id = None /\
  (forall k r, db_runs (without_agent id d) !! k = Some r -> run_initiatorAgentId r <> Some id) /\
  (forall k s, db_steps (without_agent id d) !! k = Some s -> step_agentId s <> Some id) /\
  (forall k t, db_tasks (without_agent id d) !! k = Some t -> task_agentId t <> id).
Proof.
  simpl. split; [apply lookup_delete_eq|]. split_and!; intros k v.
  - rewrite lookup_fmap. intros (r & _ & ->)%fmap_Some. unfold detached_run.
    case_decide; simpl; congruence.
  - rewrite lookup_fmap. intros (r & _ & ->)%fmap_Some. unfold detached_step.
    case_decide; simpl; congruence.
  - by intros [_ ?]%map_lookup_filter_Some.
Qed.

(** The rows of other agents are as they were. *)
Lemma without_agent_others id d :
  (forall k, k <> id -> db_agents (without_agent id d) !! k = db_agents d !! k) /\
  (forall k r, run_initiatorAgentId r <> Some id -> db_runs d !! k = Some r ->
     db_runs (without_agent id d) !! k = Some r) /\
  (forall k t, task_agentId t <> id -> db_tasks d !! k = Some t ->
     db_tasks (without_agent id d) !! k = Some t).
Proof.
  simpl. split; [intros; by rewrite lookup_delete_ne|]. split; intros k v Hv Hk.
  - rewrite lookup_fmap, Hk. simpl. unfold detached_run. by case_decide.
  - by apply map_lookup_filter_Some.
Qed.
End DeletionSpecs.

(** ** The binding invariant *)

(** Every lease is held under an agent bound to its source, and every source an
    agent is bound to is open. *)
Record anchored (d : Db) : Prop := {
  anchored_leases : forall k l, db_leases d !! k = Some l ->
    exists a, db_agents d !! lease_agentId l = Some a /\ bound_to a (lease_scmSourceId l);
  anchored_agents : forall id a s, db_agents d !! id = Some a -> bound_to a s -> open_source s d
}.

Lemma anchored_write id w w' :
  agent_write id w w' -> anchored (w_db w) -> anchored (w_db w').
Proof.
  intros [|a' Hin Hout] [Hl Ha]; [by split|]. split; simpl.
  - intros k l Hk. destruct (Hl k l Hk) as (a & Hag & Hb).
    destruct (decide (lease_agentId l = id)) as [Heq|Hne].
    + rewrite Heq, lookup_insert_eq. eexists. split; [done|]. rewrite Heq in Hag.
      destruct (Hout _ _ Hag Hb) as [?|Hno]; [done|]. by destruct (Hno k l Hk).
    + rewrite lookup_insert_ne by done. eauto.
  - intros k a s. rewrite lookup_insert. case_decide; [|by apply Ha].
    intros [= <-] Hb. destruct (Hin _ Hb) as [(a0 & ? & ?)|?]; [|done]. by eapply Ha.
Qed.

Section DeletionTheorem.
Context `{Instance}.

Lemma unbound_no_lease id a d :
  anchored d -> db_agents d !! id = Some a -> binds_source (agent_binding a) = None ->
  no_lease id d.
Proof.
  intros [Hl _] Ha Hb k l Hk <-. destruct (Hl k l Hk) as (a0 & Ha0 & Hb0).
  unfold bound_to in Hb0. congruence.
Qed.

Lemma removable_no_lease evals id w :
  anchored (w_db w) -> removable evals id w -> no_lease id (w_db w).
Proof.
  intros Hanch (a & Ha & Hi). destruct (binds_source (agent_binding a)) eqn:Hb.
  - exact (idle_leases _ _ _ (Hi (ex_intro _ _ eq_refl))).
  - by eapply unbound_no_lease.
Qed.

(** What a deletion may end in *)
Definition deletion_ends evals (id : string) (existing : Agent) (w : World)
    (o : outcome BindingResponse) (w' : World) : Prop :=
  match o with
  | Ret (agent_written row) =>
      exists a, row = Some a /\ db_agents (w_db w) !! id = Some a /\
        agent_published existing = false /\
        (is_Some (binds_source (agent_binding a)) -> idle evals id w) /\
        w' = set_db (without_agent id) w
  | Ret agent_is_published => w' = w /\ agent_published existing = true
  | Ret agent_not_found => w' = w /\ db_agents (w_db w) !! id = None
  | Ret (workload_active _) => w' = w /\ ~ idle evals id w
  | _ => False
  end.

Lemma deletion_result evals id existing w o w' :
  anchored (w_db w) -> deleteAgent evals id existing w = (o, w') ->
  deletion_ends evals id existing w o w'.
Proof.
  intros Hanch. unfold deleteAgent. destruct (agent_published existing) eqn:Hpub;
    [by intros [= <- <-]|].
  unfold deleteAgentWithBindingGuard, withAgentLock, withScmPathMutation.
  intros [(res & w1 & Hr & Hk)|(e & He & ->)]%bind_inv.
  - injection Hk as <- <-. apply withTransaction_Ret, remove_in_guard_cases in Hr.
    destruct res as [row|[x|]]; [|done..].
    destruct Hr as [Hrun (a & Ha & Hi)]. exists a.
    pose proof (removable_no_lease _ _ _ Hanch (ex_intro _ a (conj Ha Hi))) as Hno.
    pose proof (deleteRows_run _ _ _ Ha) as Hdel. rewrite decide_True in Hdel by done.
    rewrite Hdel in Hrun. by injection Hrun as <- <-.
  - apply withTransaction_Throw in He as (w1 & He & _).
    apply remove_in_guard_cases in He as [Hrun Hrem].
    pose proof (removable_no_lease _ _ _ Hanch Hrem) as Hno. destruct Hrem as (a & Ha & _).
    pose proof (deleteRows_run _ _ _ Ha) as Hdel. rewrite decide_True in Hdel by done.
    congruence.
Qed.

(** Deleting an agent never fails.  It is refused for a published agent, for
    one that is gone, and, when the agent is bound to a source, while any work
    of the agent is leased, registered, executing or waiting; then nothing
    changes.  Otherwise the agent and its evaluation tasks are gone, no run or
    step names it, and every other row is what it was. *)
Theorem deletion_outcome evals id existing w o w' :
  anchored (w_db w) -> deleteAgent evals id existing w = (o, w') ->
  deletion_ends evals id existing w o w'.
Proof. apply deletion_result. Qed.
End DeletionTheorem.

Lemma anchored_deleteAgent `{Instance} evals id existing w o w' :
  deleteAgent evals id existing w = (o, w') -> anchored (w_db w) -> anchored (w_db w').
Proof.
  intros Hd Hanch. pose proof (deletion_result _ _ _ _ _ _ Hanch Hd) as Hr.
  destruct o as [[row| | | | | |]|]; try done; try (by destruct Hr as [-> _]).
  destruct Hr as (a & -> & Ha & _ & Hi & ->).
  pose proof (removable_no_lease evals id w Hanch (ex_intro _ a (conj Ha Hi))) as Hno.
  destruct Hanch as [Hl Hb]. split; simpl.
  - intros k l Hk. destruct (Hl k l Hk) as (a0 & Ha0 & Hb0). exists a0.
    rewrite lookup_delete_ne; [done|]. apply not_eq_sym. by apply (Hno k l Hk).
  - intros k a0 s [_ Hk]%lookup_delete_Some Hs. exact (Hb _ _ _ Hk Hs).
Qed.

(** ** Witnesses and a gap *)

Definition plain_agent (b : Binding) : Agent :=
  mkAgent 1 (bind_type b) (bind_source b) true "A" None None None false.

(** A source of user [u1], an agent working in it and a run waiting for it *)
Definition binding_demo : World :=
  set_db (fun _ => set_sources (fun _ => {["s1" := ex_source]})
    (set_agents (fun _ => {["a1" := plain_agent (mkBinding ws_scm (Some "s1"))]})
      (set_runs (fun _ => {["r1" := mkRun queued None None None None None None None (Some "a1")
                                      (Some 1%Z) 0 0 empty_usage empty_origin]}) empty_db)))
    empty_world.

Lemma anchored_demo : anchored (w_db binding_demo).
Proof.
  split.
  - done.
  - simpl. intros id a s [_ <-]%lookup_singleton_Some (_ & [= <-] & _)%bound_to_iff.
    by exists ex_source.
Qed.

(** The agent whose run waits cannot be deleted, nor can its binding change. *)
Lemma deletion_outcome_witness :
  ~ idle [] "a1" binding_demo /\
  patchAgent [] None "a1" (plain_agent (mkBinding ws_scm (Some "s1")))
    (mkPatch (Some ws_temp) None id) binding_demo = (Ret (workload_active (wl_run, "r1")), binding_demo).
Proof.
  split; [|by vm_compute].
  apply (@deletion_outcome ex_instance [] "a1" (plain_agent (mkBinding ws_scm (Some "s1")))
    binding_demo (Ret (workload_active (wl_run, "r1"))) binding_demo anchored_demo).
  by vm_compute.
Defined.

(** A user who may not see a source is refused an agent bound to it, but may
    name the source in an agent with a temporary workspace, and then switch the
    agent's workspace: only the request that names a source is checked. *)
Lemma hidden_source_bound :
  let u2 := Some "u2" in
  let inert := plain_agent (mkBinding ws_temp (Some "s1")) in
  (createAgent u2 "a9" (plain_agent (mkBinding ws_scm (Some "s1"))) binding_demo).1 =
    Ret source_not_found /\
  exists w1 a,
    createAgent u2 "a9" inert binding_demo = (Ret (agent_written (Some inert)), w1) /\
    (patchAgent [] u2 "a9" inert (mkPatch (Some ws_scm) None id) w1).1 = Ret (agent_written (Some a)) /\
    bound_to a "s1".
Proof. split; [by vm_compute|]. eexists _, _. split; [by vm_compute|]. split; by vm_compute. Qed.
