(* ===== verification/Resume.v ===== *)
(** * Resuming interrupted runs

    [run-failure-reasons.ts], [resume-decision.ts], [resume-chat-id.ts],
    [merge-execution-metadata.ts] and [persist-live-session-id.ts] under
    [apps/api/src/lib], with the resume branch of [execute-chat-run.ts]: which
    interrupted runs may continue, from which session, and how the shared
    metadata column is written under concurrent writers. *)
From S2P Require Import Prelude Json Schema LeaseRegistry World.

(** ** Failure reasons *)

Inductive FailureReasonCode :=
| SERVER_RESTART_DURING_EXEC
| PENDING_ORPHAN_ON_STARTUP
| FEISHU_QUEUED_RESET_FOR_REPLAY
| REPLACED_BY_REPLAY
| DANGLING_RUN_ON_STARTUP
| INSTANCE_STOPPED_DURING_EXEC.

#[export] Instance FailureReasonCode_eq_dec : EqDecision FailureReasonCode.
Proof. solve_decision. Defined.

Definition code_name (c : FailureReasonCode) : string :=
  match c with
  | SERVER_RESTART_DURING_EXEC => "SERVER_RESTART_DURING_EXEC"
  | PENDING_ORPHAN_ON_STARTUP => "PENDING_ORPHAN_ON_STARTUP"
  | FEISHU_QUEUED_RESET_FOR_REPLAY => "FEISHU_QUEUED_RESET_FOR_REPLAY"
  | REPLACED_BY_REPLAY => "REPLACED_BY_REPLAY"
  | DANGLING_RUN_ON_STARTUP => "DANGLING_RUN_ON_STARTUP"
  | INSTANCE_STOPPED_DURING_EXEC => "INSTANCE_STOPPED_DURING_EXEC"
  end.

Record FailureReason := mkReason {
  reason_code : FailureReasonCode;
  reason_message : string;
  reason_retryable : bool
}.

Definition FAILURE_REASONS (c : FailureReasonCode) : FailureReason :=
  match c with
  | SERVER_RESTART_DURING_EXEC =>
      mkReason c "Interrupted by a server restart; safe to retry" true
  | PENDING_ORPHAN_ON_STARTUP =>
      mkReason c "Interrupted before entering the execution queue; can be triggered again" true
  | FEISHU_QUEUED_RESET_FOR_REPLAY =>
      mkReason c "Queued Feishu task was rebuilt by message replay after a restart; the original record is marked failed" true
  | REPLACED_BY_REPLAY =>
      mkReason c "Feishu message replay replaced a task left unfinished before the restart" false
  | DANGLING_RUN_ON_STARTUP =>
      mkReason c "The associated Agent no longer exists; archived during startup recovery" false
  | INSTANCE_STOPPED_DURING_EXEC =>
      mkReason c "Interrupted: the owning server instance stopped; safe to retry" true
  end.

Definition reason_json (r : FailureReason) : json :=
  JObj [("code", JStr (code_name (reason_code r)));
        ("message", JStr (reason_message r));
        ("retryable", JBool (reason_retryable r))].

(** [{ error: reason }] *)
Definition error_object (e : json) : js_object := [("error", e)].

(** ** The resume decision *)

Definition MAX_RESUME_ATTEMPTS : Z := 3.

Definition INTERRUPTION_CODES : list string :=
  [code_name SERVER_RESTART_DURING_EXEC; code_name INSTANCE_STOPPED_DURING_EXEC].

Record ResumeCandidate := mkCandidate {
  cand_liveChatId : option string;
  cand_restartable : bool;
  cand_resumeAttempts : js_number;
  cand_failureCode : string;
  cand_agentMissing : bool;
  cand_sessionResetRequested : bool
}.

Inductive ResumeRefusal :=
  no_session | attempts_exhausted | not_interrupted | agent_missing | session_reset.

Inductive ResumeDecision :=
| resume_yes (chatId : option string) (attempt : Z)
| resume_no (reason : ResumeRefusal).

(** [!s] on an optional string *)
Definition str_absent (s : option string) : bool :=
  match s with None | Some "" => true | Some _ => false end.

Definition decideResume (c : ResumeCandidate) : ResumeDecision :=
  if cand_agentMissing c then resume_no agent_missing
  else if cand_sessionResetRequested c then resume_no session_reset
  else if negb (bool_decide (cand_failureCode c ∈ INTERRUPTION_CODES))
  then resume_no not_interrupted
  else if str_absent (cand_liveChatId c) && negb (cand_restartable c)
  then resume_no no_session
  else match cand_resumeAttempts c with
  | JInt spent =>
      if (spent <? 0)%Z || (MAX_RESUME_ATTEMPTS <=? spent)%Z
      then resume_no attempts_exhausted
      else resume_yes (cand_liveChatId c) (spent + 1)
  | JFrac _ _ => resume_no attempts_exhausted
  end.

Definition NATIVE_CHAT_CHANNELS : list string := ["slack"; "discord"; "telegram"; "qq_official"].
Definition RESTARTABLE_TRIGGERS : list string :=
  ["glab"; "gh"; "schedule"; "feishu"] ++ NATIVE_CHAT_CHANNELS.

Definition isRestartableTrigger (triggerSource : option string) : bool :=
  match triggerSource with
  | Some s => bool_decide (s ∈ RESTARTABLE_TRIGGERS)
  | None => false
  end.

(** [result?.error?.code] when it is a string *)
Definition readFailureCode (result : option json) : string :=
  default "" (as_string
    (as_object result ≫= fun r => as_object (obj_get r "error") ≫= fun e => obj_get e "code")).

(** [metadata?.k] *)
Definition meta_get (m : option js_object) (k : string) : option json :=
  m ≫= fun o => obj_get o k.

(** [a || b || c] on strings *)
Definition str_or (a b : string) : string := if decide (a = "") then b else a.

Definition resumeDecisionForRow (row : Run) (assumeFailureCode : option string) : ResumeDecision :=
  let metadata := run_executionMetadata row in
  decideResume (mkCandidate
    (as_string (meta_get metadata "liveChatId"))
    (bool_decide (meta_get metadata "executionStarted" <> Some (JBool true)) &&
     isRestartableTrigger (run_triggerSource row))
    (default (JInt 0) (as_number (meta_get metadata "resumeAttempts")))
    (str_or (default "" assumeFailureCode)
      (str_or (default "" (as_string (meta_get metadata "resumePending")))
         (readFailureCode (run_result row))))
    (str_absent (run_initiatorAgentId row))
    (bool_decide (meta_get metadata "oauthResetSession" = Some (JBool true)) ||
     bool_decide (meta_get metadata "nativeChatResetSession" = Some (JBool true)))).

Definition resumeChatIdFromRow (row : Run) (assumeFailureCode : option string) : option string :=
  match resumeDecisionForRow row assumeFailureCode with
  | resume_yes chatId _ => chatId
  | resume_no _ => None
  end.

Definition canRequeueInterruptedRun (runId : string) (assumeFailureCode : option string)
    : M World bool :=
  row ← select (fun d => db_runs d !! runId);
  mret (match row with
        | None => false
        | Some row => match resumeDecisionForRow row assumeFailureCode with
                      | resume_yes _ _ => true
                      | resume_no _ => false
                      end
        end).

Definition resolveResumeChatId (runId : string) (assumeFailureCode : option string)
    : M World (option string) :=
  row ← select (fun d => db_runs d !! runId);
  mret (row ≫= fun row => resumeChatIdFromRow row assumeFailureCode).

(** ** Merging into the shared metadata column *)

Definition MAX_MERGE_ATTEMPTS : nat := 5.

Inductive MergeOutcome := merge_gone | merge_written | merge_conflict.

(** The loop over [Object.entries(produce(base))]: [undefined] deletes. *)
Definition merge_fields (base : js_object) (fields : list (string * option json)) : js_object :=
  fold_left (fun merged '(key, value) =>
    match value with None => obj_delete merged key | Some v => obj_set merged key v end)
    fields base.

Section Merge.
(** What other database clients commit between the read and the write of
    each attempt. *)
Context (rivals : nat -> World -> World).

Definition merge_attempt (attempt : nat) (runId : string)
    (produce : js_object -> list (string * option json)) : M World MergeOutcome :=
  withTransaction (
    current ← select (fun d => db_runs d !! runId);
    match current with
    | None => mret merge_gone
    | Some current =>
        _ ← modify (rivals attempt);
        let base := default [] (run_executionMetadata current) in
        let merged := merge_fields base (produce base) in
        written ← update_runs runId
          (fun r => bool_decide (run_executionMetadata r = run_executionMetadata current))
          (with_metadata (Some merged));
        mret (if (written : bool) then merge_written else merge_conflict)
    end).

Fixpoint merge_loop (attempts : nat) (attempt : nat) (runId : string)
    (produce : js_object -> list (string * option json)) : M World bool :=
  match attempts with
  | 0 => mret false
  | S attempts' =>
      outcome ← merge_attempt attempt runId produce;
      match outcome with
      | merge_gone => mret false
      | merge_written => mret true
      | merge_conflict => merge_loop attempts' (S attempt) runId produce
      end
  end.

Definition mergeExecutionMetadata (runId : string)
    (produce : js_object -> list (string * option json)) : M World bool :=
  merge_loop MAX_MERGE_ATTEMPTS 0 runId produce.

Definition markRunForResume (runId failureCode : string) : M World unit :=
  _ ← mergeExecutionMetadata runId (fun _ => [("resumePending", Some (JStr failureCode))]);
  mret tt.

Definition recordResumeAttempt (runId : string) : M World unit :=
  _ ← mergeExecutionMetadata runId (fun current =>
        [("resumeAttempts", Some (JNum (js_succ
            (default (JInt 0) (as_number (obj_get current "resumeAttempts"))))));
         ("resumePending", None)]);
  mret tt.

Definition markExecutionStarted (runId : string) : M World bool :=
  mergeExecutionMetadata runId (fun _ => [("executionStarted", Some (JBool true))]).

Definition persistLiveSessionId (runId sessionId : string) : M World bool :=
  mergeExecutionMetadata runId (fun _ =>
    [("liveChatId", Some (JStr sessionId)); ("executionStarted", Some (JBool true))]).

(** The resume branch of [resolveQueuedChatId]: [Some] is an [isResume]
    result, [None] goes on to the lookups of an ordinary turn. *)
Definition resolveQueuedResume (runId : string) (run : Run) : M World (option string) :=
  match resumeChatIdFromRow run None with
  | None | Some "" => mret None
  | Some chatId => _ ← recordResumeAttempt runId; mret (Some chatId)
  end.
End Merge.

(** ** Lemmas *)

Section MergeLemmas.
Context (rivals : nat -> World -> World).

(** The world after the rivals of the first [n] attempts, this writer idle *)
Fixpoint after_rivals (n : nat) (w : World) : World :=
  match n with 0 => w | S n' => rivals n' (after_rivals n' w) end.

Definition metadata_of (r : Run) : js_object := default [] (run_executionMetadata r).

Definition merged_world (runId : string)
    (produce : js_object -> list (string * option json)) (r : Run) (w : World) : World :=
  set_db (set_runs (insert runId
    (with_metadata (Some (merge_fields (metadata_of r) (produce (metadata_of r)))) r))) w.

Lemma merge_attempt_run n id produce w :
  merge_attempt rivals n id produce w =
  match db_runs (w_db w) !! id with
  | None => (Ret merge_gone, w)
  | Some cur =>
      let w1 := rivals n w in
      match db_runs (w_db w1) !! id with
      | Some r => if decide (run_executionMetadata r = run_executionMetadata cur)
                  then (Ret merge_written, merged_world id produce r w1)
                  else (Ret merge_conflict, w1)
      | None => (Ret merge_conflict, w1)
      end
  end.
Proof.
  unfold merge_attempt, withTransaction, select, gets, modify, mbind, M_bind, mret, M_ret.
  destruct (db_runs (w_db w) !! id) as [cur|]; [|done]. simpl.
  rewrite update_runs_run. unfold update_where.
  destruct (db_runs (w_db (rivals n w)) !! id) as [r|]; simpl.
  - destruct (decide (run_executionMetadata r = run_executionMetadata cur)) as [He|He].
    + rewrite bool_decide_eq_true_2 by done. simpl. unfold merged_world, metadata_of.
      by rewrite He.
    + rewrite bool_decide_eq_false_2 by done. simpl. by destruct (rivals n w) as [[]].
  - by destruct (rivals n w) as [[]].
Qed.

Lemma merge_loop_Ret id produce k a w o w' :
  merge_loop rivals k a id produce (after_rivals a w) = (o, w') ->
  exists n, a <= n <= a + k /\
    (o = Ret true /\ n < a + k /\ (exists r,
       db_runs (w_db (after_rivals (S n) w)) !! id = Some r /\
       w' = merged_world id produce r (after_rivals (S n) w))
     \/ o = Ret false /\ w' = after_rivals n w).
Proof.
  revert a. induction k as [|k IH]; intros a; simpl.
  - intros [= <- <-]. exists a. split; [lia|]. auto.
  - unfold mbind, M_bind. rewrite merge_attempt_run.
    destruct (db_runs (w_db (after_rivals a w)) !! id) as [cur|]; cycle 1.
    { intros [= <- <-]. exists a. split; [lia|]. auto. }
    simpl. destruct (db_runs (w_db (rivals a (after_rivals a w))) !! id) as [r|] eqn:Hr;
      [destruct (decide _) as [He|He]|].
    + intros [= <- <-]. exists a. split; [lia|]. left. split; [done|]. split; [lia|]. eauto.
    + intros Hl. apply (IH (S a)) in Hl as (n & ? & Hl). exists n.
      split; [lia|]. destruct Hl as [(? & ? & ?)|?]; [left|by right].
      split; [done|]. split; [lia|done].
    + intros Hl. apply (IH (S a)) in Hl as (n & ? & Hl). exists n.
      split; [lia|]. destruct Hl as [(? & ? & ?)|?]; [left|by right].
      split; [done|]. split; [lia|done].
Qed.

(** An attempt whose rival leaves the column alone is the last one. *)
Lemma merge_loop_lands id produce k a w n :
  a <= n < a + k ->
  (forall i, a <= i <= n -> is_Some (db_runs (w_db (after_rivals i w)) !! id)) ->
  run_executionMetadata <$> db_runs (w_db (after_rivals (S n) w)) !! id =
    run_executionMetadata <$> db_runs (w_db (after_rivals n w)) !! id ->
  exists w', merge_loop rivals k a id produce (after_rivals a w) = (Ret true, w').
Proof.
  revert a. induction k as [|k IH]; intros a Hn Hrows Hq; [lia|]. simpl.
  unfold mbind, M_bind. rewrite merge_attempt_run.
  destruct (Hrows a) as [cur Hcur]; [lia|]. rewrite Hcur. simpl.
  destruct (decide (a = n)) as [->|Hne].
  - simpl in Hq. rewrite Hcur in Hq.
    destruct (db_runs (w_db (rivals n (after_rivals n w))) !! id) as [r|]; [|done].
    injection Hq as Hq. rewrite decide_True by done. by eexists.
  - assert (exists w', merge_loop rivals k (S a) id produce (after_rivals (S a) w) = (Ret true, w'))
      as [w' Hw'] by (apply IH; [lia | intros; apply Hrows; lia | done]).
    simpl in Hw'.
    destruct (db_runs (w_db (rivals a (after_rivals a w))) !! id);
      [destruct (decide _)|]; by eexists.
Qed.
End MergeLemmas.

(** Merging into the shared metadata column never loses a concurrent
    update: when the call reports success, the value written is the produced
    fields laid over the column as it stood at the instant of the write, other
    clients' writes since the read included, and no other column or row is
    touched; when it gives up (the run is gone, or five conflicts) it has
    written nothing. *)
Theorem merge_no_lost_update (rivals : nat -> World -> World) runId produce w o w' :
  mergeExecutionMetadata rivals runId produce w = (o, w') ->
  exists n, n <= MAX_MERGE_ATTEMPTS /\
  (o = Ret true /\ 0 < n /\ (exists r,
     db_runs (w_db (after_rivals rivals n w)) !! runId = Some r /\
     let base := default [] (run_executionMetadata r) in
     w' = set_db (set_runs (insert runId
            (with_metadata (Some (merge_fields base (produce base))) r)))
            (after_rivals rivals n w))
   \/ o = Ret false /\ w' = after_rivals rivals n w).
Proof.
  unfold mergeExecutionMetadata. intros Hm.
  apply (merge_loop_Ret rivals runId produce _ 0 w) in Hm as (n & Hn & [(-> & ? & r & Hr & ->)|[-> ->]]).
  - exists (S n). split; [unfold MAX_MERGE_ATTEMPTS in *; lia|]. left.
    split_and!; [done | lia | by exists r].
  - exists n. split; [unfold MAX_MERGE_ATTEMPTS in *; lia|]. by right.
Qed.

(** A merge lands as soon as one of its five attempts meets no rival write
    to the column while the run exists. *)
Theorem merge_lands (rivals : nat -> World -> World) runId produce w n :
  n < MAX_MERGE_ATTEMPTS ->
  (forall i, i <= n -> is_Some (db_runs (w_db (after_rivals rivals i w)) !! runId)) ->
  run_executionMetadata <$> db_runs (w_db (after_rivals rivals (S n) w)) !! runId =
    run_executionMetadata <$> db_runs (w_db (after_rivals rivals n w)) !! runId ->
  exists w', mergeExecutionMetadata rivals runId produce w = (Ret true, w').
Proof.
  intros Hn Hrows Hq. unfold mergeExecutionMetadata.
  apply (merge_loop_lands rivals runId produce _ 0 w n); [lia | intros; apply Hrows; lia | done].
Qed.

(** The counter of spent resumes that the decision reads *)
Definition spent_resumes (m : option js_object) : js_number :=
  default (JInt 0) (as_number (meta_get m "resumeAttempts")).

Definition run_spent (id : string) (w : World) : js_number :=
  spent_resumes (db_runs (w_db w) !! id ≫= run_executionMetadata).

(** An interrupted run continues exactly when its agent exists, nobody
    asked for a fresh session, the failure is an interruption, there is a
    session to continue (or the run provably emitted nothing and no caller
    awaits it), and fewer than three resumes are spent; the session continued
    is the recorded one. *)
Theorem resume_decision_exact row code chat attempt :
  resumeDecisionForRow row code = resume_yes chat attempt <->
  (exists a, run_initiatorAgentId row = Some a /\ a <> "") /\
  meta_get (run_executionMetadata row) "oauthResetSession" <> Some (JBool true) /\
  meta_get (run_executionMetadata row) "nativeChatResetSession" <> Some (JBool true) /\
  str_or (default "" code)
    (str_or (default "" (as_string (meta_get (run_executionMetadata row) "resumePending")))
       (readFailureCode (run_result row))) ∈ INTERRUPTION_CODES /\
  chat = as_string (meta_get (run_executionMetadata row) "liveChatId") /\
  ((exists c, chat = Some c /\ c <> "") \/
   meta_get (run_executionMetadata row) "executionStarted" <> Some (JBool true) /\
   isRestartableTrigger (run_triggerSource row) = true) /\
  (exists z, spent_resumes (run_executionMetadata row) = JInt z /\
     (0 <= z < MAX_RESUME_ATTEMPTS)%Z /\ attempt = (z + 1)%Z).
Proof.
  assert (forall s, str_absent s = false <-> exists a, s = Some a /\ a <> "") as Habs.
  { intros [[|c s]|]; simpl; naive_solver. }
  unfold resumeDecisionForRow, decideResume, spent_resumes. simpl.
  set (sp := default (JInt 0) _). set (code' := str_or _ _).
  rewrite <- Habs.
  destruct (str_absent (run_initiatorAgentId row)); [naive_solver|].
  destruct (bool_decide_reflect
    (meta_get (run_executionMetadata row) "oauthResetSession" = Some (JBool true)));
    simpl; [naive_solver|].
  destruct (bool_decide_reflect
    (meta_get (run_executionMetadata row) "nativeChatResetSession" = Some (JBool true)));
    [naive_solver|].
  destruct (bool_decide_reflect (code' ∈ INTERRUPTION_CODES)); simpl; [|naive_solver].
  set (live := as_string (meta_get (run_executionMetadata row) "liveChatId")).
  assert (str_absent live && negb (bool_decide (meta_get (run_executionMetadata row)
      "executionStarted" <> Some (JBool true)) && isRestartableTrigger (run_triggerSource row))
    = false <->
    ((exists c, live = Some c /\ c <> "") \/
     meta_get (run_executionMetadata row) "executionStarted" <> Some (JBool true) /\
     isRestartableTrigger (run_triggerSource row) = true)) as Hgo.
  { rewrite <- Habs. destruct (str_absent live); simpl; [|naive_solver].
    rewrite negb_false_iff, andb_true_iff, bool_decide_eq_true. naive_solver. }
  destruct (_ && _) eqn:Hb.
  { split; [done|]. intros (_ & _ & _ & _ & -> & Hor & _). by apply Hgo in Hor. }
  pose proof (proj1 Hgo eq_refl) as Hor. unfold MAX_RESUME_ATTEMPTS in *.
  destruct sp as [z|num den]; [|naive_solver].
  destruct ((z <? 0)%Z || (3 <=? z)%Z) eqn:Hz.
  - split; [done|]. intros (_ & _ & _ & _ & _ & _ & z' & [= <-] & ? & _).
    apply orb_true_iff in Hz. lia.
  - bool_to_prop. split; [intros [= <- <-]; naive_solver|].
    intros (_ & _ & _ & _ & -> & _ & z' & [= <-] & _ & ->). done.
Qed.

(** Executions in which [n] sessions of the run [id] are resumed; everything
    else that happens leaves the run's counter alone. *)
Inductive session_resumes (id : string) : nat -> World -> World -> Prop :=
| resumes_start w : session_resumes id 0 w w
| resumes_other n w w1 w2 :
    session_resumes id n w w1 -> run_spent id w2 = run_spent id w1 ->
    session_resumes id n w w2
| resumes_one n rivals w w1 w2 run chatId :
    session_resumes id n w w1 ->
    db_runs (w_db w1) !! id = Some run ->
    (forall k v, run_executionMetadata <$> db_runs (w_db (rivals k v)) !! id =
                 run_executionMetadata <$> db_runs (w_db v) !! id) ->
    resolveQueuedResume rivals id run w1 = (Ret (Some chatId), w2) ->
    session_resumes id (S n) w w2.

(** A quiet resume spends exactly one attempt, and had one to spend. *)
Lemma resolveQueuedResume_spends rivals id run w c w' :
  db_runs (w_db w) !! id = Some run ->
  (forall k v, run_executionMetadata <$> db_runs (w_db (rivals k v)) !! id =
               run_executionMetadata <$> db_runs (w_db v) !! id) ->
  resolveQueuedResume rivals id run w = (Ret (Some c), w') ->
  exists z, run_spent id w = JInt z /\ (0 <= z < MAX_RESUME_ATTEMPTS)%Z /\
    run_spent id w' = JInt (z + 1).
Proof.
  intros Hrun Hq. unfold resolveQueuedResume, resumeChatIdFromRow.
  destruct (resumeDecisionForRow run None) as [[[|ch s]|] att|] eqn:Hd; try done.
  assert (exists z, spent_resumes (run_executionMetadata run) = JInt z /\
    (0 <= z < MAX_RESUME_ATTEMPTS)%Z) as (z & Hz & Hb).
  { unfold resumeDecisionForRow, decideResume in Hd. simpl in Hd.
    fold (spent_resumes (run_executionMetadata run)) in Hd.
    repeat case_match; simplify_eq. bool_to_prop. eauto. }
  assert (run_spent id w = JInt z) as Hw by (unfold run_spent; by rewrite Hrun).
  intros Hres. exists z. split; [done|]. split; [done|].
  inv_bind Hres as ([] & w1 & Hrec & [= _ <-]).
  unfold recordResumeAttempt in Hrec. inv_bind Hrec as (b & w2 & Hm & [= <-]).
  unfold mergeExecutionMetadata, MAX_MERGE_ATTEMPTS in Hm. simpl in Hm.
  unfold mbind at 1, M_bind at 1 in Hm. rewrite merge_attempt_run, Hrun in Hm.
  specialize (Hq 0 w). rewrite Hrun in Hq. simpl in Hm, Hq.
  destruct (db_runs (w_db (rivals 0 w)) !! id) as [r|] eqn:Hr; [|done]. injection Hq as Hq.
  rewrite decide_True in Hm by done. injection Hm as <- <-.
  unfold run_spent, merged_world. simpl. rewrite lookup_insert_eq. simpl.
  unfold spent_resumes, meta_get. simpl. rewrite obj_get_delete_ne, obj_get_set_eq by done. simpl.
  replace (default (JInt 0) _) with (spent_resumes (run_executionMetadata run)).
  - by rewrite Hz.
  - unfold metadata_of, spent_resumes, meta_get. rewrite Hq.
    by destruct (run_executionMetadata run).
Qed.

(** The resume budget: however long a run lives, its provider session is
    resumed at most [MAX_RESUME_ATTEMPTS] times, less what was already spent. *)
Theorem resume_budget id n w w' c :
  session_resumes id n w w' -> run_spent id w = JInt c -> (0 <= c)%Z ->
  run_spent id w' = JInt (c + Z.of_nat n) /\
  (n = 0 \/ (c + Z.of_nat n <= MAX_RESUME_ATTEMPTS)%Z).
Proof.
  intros Hr Hc Hpos. induction Hr as [w|n w w1 w2 Hr IH Heq|n rivals w w1 w2 run ch Hr IH Hrun Hq Hres].
  - split; [|by left]. rewrite Hc. f_equal. lia.
  - rewrite Heq. by apply IH.
  - destruct (IH Hc) as [Hs _].
    destruct (resolveQueuedResume_spends _ _ _ _ _ _ Hrun Hq Hres) as (z & Hz & Hb & Hz').
    rewrite Hs in Hz. injection Hz as <-. rewrite Hz'. split; [f_equal; lia|right; lia].
Qed.

(** Starting over spends nothing: a run resumed by replaying its intent
    (no session recorded) leaves the resume branch with the counter, the
    pending mark and the rest of the database as they were, so the same
    decision is taken again after the next interruption. *)
Theorem restart_spends_no_attempt rivals id run w attempt :
  db_runs (w_db w) !! id = Some run ->
  resumeDecisionForRow run None = resume_yes None attempt ->
  resolveQueuedResume rivals id run w = (Ret None, w) /\
  canRequeueInterruptedRun id None w = (Ret true, w).
Proof.
  intros Hrun Hd. unfold resolveQueuedResume, resumeChatIdFromRow, canRequeueInterruptedRun,
    select, gets, mbind, M_bind, mret, M_ret. rewrite Hrun. by rewrite Hd.
Qed.

(** ** Witnesses *)

Definition resume_demo_run (metadata : js_object) : Run :=
  mkRun running None (Some metadata) (Some "schedule") None None (Some "i1") None (Some "a1")
    None 0 0 empty_usage empty_origin.
Definition resume_demo (metadata : js_object) : World :=
  set_db (set_runs (fun _ => {["r1" := resume_demo_run metadata]})) empty_world.

(** A rival that records the session while the first attempt is in flight *)
Definition session_rival (n : nat) (w : World) : World :=
  if decide (n = 0) then
    set_db (set_runs (alter (fun r => with_metadata
      (Some (obj_set (metadata_of r) "liveChatId" (JStr "s1"))) r) "r1")) w
  else w.

Lemma merge_no_lost_update_witness :
  exists n, n <= MAX_MERGE_ATTEMPTS /\
  (Ret true = Ret true /\ 0 < n /\ (exists r,
     db_runs (w_db (after_rivals session_rival n (resume_demo []))) !! "r1" = Some r /\
     let base := default [] (run_executionMetadata r) in
     resume_demo [("liveChatId", JStr "s1"); ("executionStarted", JBool true)] =
       set_db (set_runs (insert "r1" (with_metadata (Some (merge_fields base
            [("executionStarted", Some (JBool true))])) r)))
            (after_rivals session_rival n (resume_demo [])))
   \/ Ret true = Ret false /\
      resume_demo [("liveChatId", JStr "s1"); ("executionStarted", JBool true)] =
      after_rivals session_rival n (resume_demo [])).
Proof.
  apply (merge_no_lost_update session_rival "r1"
    (fun _ => [("executionStarted", Some (JBool true))]) (resume_demo [])).
  vm_compute. reflexivity.
Defined.

Lemma merge_lands_witness :
  exists w', mergeExecutionMetadata session_rival "r1" (fun _ => []) (resume_demo []) = (Ret true, w').
Proof.
  apply (merge_lands session_rival "r1" (fun _ => []) (resume_demo []) 1).
  - unfold MAX_MERGE_ATTEMPTS. lia.
  - intros [|[|i]] Hi; [eexists; by vm_compute | eexists; by vm_compute | lia].
  - by vm_compute.
Defined.

Definition interrupted_run : js_object :=
  [("liveChatId", JStr "s1"); ("resumePending", JStr "SERVER_RESTART_DURING_EXEC")].

Lemma resume_budget_witness :
  let w' := (resolveQueuedResume (fun _ w => w) "r1" (resume_demo_run interrupted_run)
               (resume_demo interrupted_run)).2 in
  run_spent "r1" w' = JInt 1 /\ (1 = 0 \/ (0 + Z.of_nat 1 <= MAX_RESUME_ATTEMPTS)%Z).
Proof.
  intros w'. apply (resume_budget "r1" 1 (resume_demo interrupted_run) w' 0); [|done|done].
  apply (resumes_one "r1" 0 (fun _ w => w) _ (resume_demo interrupted_run) w'
    (resume_demo_run interrupted_run) "s1"); [apply resumes_start|done..|].
  vm_compute. reflexivity.
Defined.

Lemma restart_spends_no_attempt_witness :
  let md := [("resumePending", JStr "SERVER_RESTART_DURING_EXEC")] in
  resolveQueuedResume (fun _ w => w) "r1" (resume_demo_run md) (resume_demo md)
    = (Ret None, resume_demo md) /\
  canRequeueInterruptedRun "r1" None (resume_demo md) = (Ret true, resume_demo md).
Proof.
  intros md. apply (restart_spends_no_attempt _ "r1" (resume_demo_run md) (resume_demo md) 1);
    by vm_compute.
Defined.
