(* ===== verification/TaskQueue.v ===== *)
(** * The run queue

    [apps/api/src/engine/task-queue.ts]: admission to an agent's concurrency
    slots, promotion of queued runs, the stale-lease sweep and startup
    recovery, all against the database interface [TaskQueueDb]. *)
From S2P Require Import Prelude Json Schema LeaseRegistry World Resume.

Definition MAX_QUEUE_LENGTH : nat := 50.

Record RunRow := mkRow {
  row_id : string;
  row_triggerSource : option string;
  row_triggerSessionId : option string;
  row_hasNativeChatContext : option bool;
  row_retryAttempt : option json
}.

(** [x == null] on a JSON value *)
Definition nullish (v : option json) : bool :=
  match v with None | Some JNull => true | Some _ => false end.

Definition awaitsFeishuEventReplay (run : RunRow) : bool :=
  negb (str_absent (row_triggerSessionId run)) && nullish (row_retryAttempt run).

Inductive SlotResult := slot_acquired | slot_queued | slot_queue_full.

#[export] Instance SlotResult_eq_dec : EqDecision SlotResult.
Proof. solve_decision. Defined.

Record Admission := mkAdmission {
  adm_slot : SlotResult;
  adm_hasScmLease : bool;
  adm_scmLeaseActivated : bool     (* an absent field reads as [false] *)
}.

(** The interface of the queue's storage; optional methods are [option]s. *)
Class TaskQueueDb := {
  countRunsByStatus : string -> string -> M World nat;
  countOccupiedSlots : option (string -> M World nat);
  getRunStatus : string -> M World (option string);
  getAgentMaxConcurrency : string -> M World (option nat);
  updateRunStatus : string -> string -> M World unit;
  requeueForResume : string -> option string -> option string -> M World bool;
  admitRun : option (string -> string -> nat -> M World Admission);
  activateRun : option (string -> M World unit);
  promoteQueuedRun : option (string -> string -> nat -> M World bool);
  releaseReservedRun : option (string -> M World bool);
  tryTransitionRunStatus : string -> string -> string -> M World bool;
  failRunSteps : string -> M World unit;
  failRunWithError : string -> string -> M World unit;
  failRunWithStructuredReason : string -> FailureReason -> M World unit;
  getOldestQueuedRun : string -> M World (option (string * string));
  getRunsByStatus : string -> string -> M World (list RunRow);
  getOrphanedPendingRuns : string -> Z -> M World (list RunRow);
  getDanglingPendingRuns : Z -> M World (list RunRow);
  getDanglingQueuedRuns : M World (list RunRow)
}.

(** [withAgentScmWorkloadLock]: one critical section of an agent at a time in
    this process, so a section is one uninterrupted computation here. *)
Definition withAgentScmWorkloadLock {A} (agentId : string) (section : M World A) : M World A :=
  section.

Definition pauseTaskQueuePromotions : M World unit := modify (set_runPaused true).

Section Queue.
Context {db : TaskQueueDb}.

Definition max_running (agentId : string) : M World nat :=
  runningInDb ← countRunsByStatus agentId "running";
  leased ← gets (fun w => countActiveExecutionLeases agentId (w_reg w));
  mret (Nat.max runningInDb leased).

Definition hasAdmissionCapacity (agentId : string) (maxConcurrency : nat) : M World bool :=
  running ← max_running agentId;
  if (running <? maxConcurrency)%nat then mret true
  else queued ← countRunsByStatus agentId "queued";
       mret (queued <? MAX_QUEUE_LENGTH)%nat.

Definition reserve (runId agentId : string) : M World unit :=
  _ ← on_registry (reserveExecutionLease runId (Some agentId)); mret tt.

Definition complete (runId : string) : M World unit :=
  modify (set_reg (completeExecutionLease runId)).

(** [db.activateRun?.(runId)], completing the lease when it throws *)
Definition activate_or_complete (runId : string) : M World unit :=
  try_catch (match activateRun with Some activate => activate runId | None => mret tt end)
    (fun error => _ ← complete runId; throw error).

Definition tryAcquireSlot (agentId runId : string) (maxConcurrency : nat) : M World SlotResult :=
  paused ← gets w_runPromotionsPaused;
  if (paused : bool) then mret slot_queue_full
  else withAgentScmWorkloadLock agentId
    match admitRun with
    | Some admit_run =>
        admission ← admit_run agentId runId maxConcurrency;
        _ ← (if decide (adm_slot admission = slot_acquired) then
               _ ← reserve runId agentId;
               if adm_hasScmLease admission && negb (adm_scmLeaseActivated admission)
               then activate_or_complete runId else mret tt
             else mret tt);
        mret (adm_slot admission)
    | None =>
        running ← max_running agentId;
        if (running <? maxConcurrency)%nat then
          _ ← reserve runId agentId;
          _ ← updateRunStatus runId "running";
          mret slot_acquired
        else
          queued ← countRunsByStatus agentId "queued";
          if (MAX_QUEUE_LENGTH <=? queued)%nat then mret slot_queue_full
          else _ ← updateRunStatus runId "queued"; mret slot_queued
    end.

(** [finish] is the caller's way of ending a lease. *)
Definition sweepStaleLeases (leases : list (string * option string))
    (finish : string -> M World unit) : M World (list (string * option string)) :=
  fold_each leases (fun lease released =>
    status ← getRunStatus lease.1;
    match status with
    | None => _ ← finish lease.1; mret (released ++ [lease])
    | Some _ => mret released
    end) [].

Definition onExecute (runId agentId : string) : M World unit :=
  modify (add_started (runId, agentId)).

Definition promotion_occupancy (agentId : string) : M World nat :=
  match countOccupiedSlots with
  | Some count => count agentId
  | None => max_running agentId
  end.

Definition claim_queued (agentId runId : string) (maxConcurrency : nat) : M World bool :=
  match promoteQueuedRun with
  | Some promote => promote agentId runId maxConcurrency
  | None => tryTransitionRunStatus runId "queued" "running"
  end.

(** The loop; [iterations] counts what is left of [maxIterations]. *)
Fixpoint promote_loop (iterations : nat) (agentId : string) (maxConcurrency promoted : nat)
    : M World nat :=
  match iterations with
  | 0 => mret promoted
  | S iterations' =>
      running ← promotion_occupancy agentId;
      if (maxConcurrency <=? running)%nat then mret promoted
      else
        next ← getOldestQueuedRun agentId;
        match next with
        | None => mret promoted
        | Some (next, _) =>
            claimed ← claim_queued agentId next maxConcurrency;
            if negb claimed then promote_loop iterations' agentId maxConcurrency promoted
            else
              _ ← reserve next agentId;
              _ ← (match promoteQueuedRun with
                   | None => activate_or_complete next
                   | Some _ => mret tt
                   end);
              _ ← onExecute next agentId;
              promote_loop iterations' agentId maxConcurrency (S promoted)
        end
  end.

Definition promoteQueuedRunsLocked (agentId : string) : M World nat :=
  maxConcurrency ← getAgentMaxConcurrency agentId;
  match maxConcurrency with
  | None => mret 0
  | Some maxConcurrency =>
      promote_loop (MAX_QUEUE_LENGTH + maxConcurrency) agentId maxConcurrency 0
  end.

Definition promoteQueuedRuns (agentId : string) : M World nat :=
  withAgentScmWorkloadLock agentId (promoteQueuedRunsLocked agentId).

(** Never rejects: a failed promotion counts as none. *)
Definition scheduleNext (agentId : string) : M World nat :=
  paused ← gets w_runPromotionsPaused;
  if (paused : bool) then mret 0
  else try_catch (promoteQueuedRuns agentId) (fun _ => mret 0).
End Queue.

(** ** Startup recovery *)

Record RecoveryHooks := mkHooks {
  onRunFailed : option (RunRow -> FailureReason -> M World unit);
  recoverInFlight : bool;                       (* false only when set to false *)
  canResume : option (string -> string -> M World bool);
  onRunRequeued : option (RunRow -> M World unit);
  onBeforeRequeue : option (string -> string -> M World unit)
}.

Record RecoveryStats := mkStats {
  pendingOrphaned : nat;
  runningAborted : nat;
  runningResumed : nat;
  queuedPromoted : nat;
  feishuQueuedReset : nat
}.

Definition no_stats : RecoveryStats := mkStats 0 0 0 0 0.
Definition count_orphaned (s : RecoveryStats) : RecoveryStats :=
  mkStats (S (pendingOrphaned s)) (runningAborted s) (runningResumed s) (queuedPromoted s)
    (feishuQueuedReset s).
Definition count_aborted (s : RecoveryStats) : RecoveryStats :=
  mkStats (pendingOrphaned s) (S (runningAborted s)) (runningResumed s) (queuedPromoted s)
    (feishuQueuedReset s).
Definition count_resumed (s : RecoveryStats) : RecoveryStats :=
  mkStats (pendingOrphaned s) (runningAborted s) (S (runningResumed s)) (queuedPromoted s)
    (feishuQueuedReset s).
Definition count_promoted (n : nat) (s : RecoveryStats) : RecoveryStats :=
  mkStats (pendingOrphaned s) (runningAborted s) (runningResumed s) (queuedPromoted s + n)
    (feishuQueuedReset s).
Definition count_reset (s : RecoveryStats) : RecoveryStats :=
  mkStats (pendingOrphaned s) (runningAborted s) (runningResumed s) (queuedPromoted s)
    (S (feishuQueuedReset s)).

Section Recovery.
Context {db : TaskQueueDb} (hooks : RecoveryHooks).

(** [try { await hook() } catch {}] *)
Definition guarded {A} (default_ : A) (m : M World A) : M World A :=
  try_catch m (fun _ => mret default_).

Definition applyFailure (run : RunRow) (reason : FailureReason) : M World unit :=
  _ ← failRunWithStructuredReason (row_id run) reason;
  _ ← updateRunStatus (row_id run) "failed";
  match onRunFailed hooks with
  | Some hook => guarded tt (hook run reason)
  | None => mret tt
  end.

Definition restart_reason : FailureReason := FAILURE_REASONS SERVER_RESTART_DURING_EXEC.
Definition restart_code : string := code_name SERVER_RESTART_DURING_EXEC.

Definition recover_running (run : RunRow) (stats : RecoveryStats) : M World RecoveryStats :=
  if bool_decide (row_triggerSource run = Some "feishu") && awaitsFeishuEventReplay run then
    _ ← applyFailure run restart_reason; mret (count_aborted stats)
  else
    resumable ← (match canResume hooks with
                 | Some check => guarded false (check (row_id run) restart_code)
                 | None => mret false
                 end);
    if (resumable : bool) then
      _ ← (match onBeforeRequeue hooks with
           | Some hook => hook (row_id run) restart_code
           | None => mret tt
           end);
      _ ← requeueForResume (row_id run) (Some restart_code) None;
      _ ← (match onRunRequeued hooks with
           | Some hook => guarded tt (hook run)
           | None => mret tt
           end);
      mret (count_resumed stats)
    else
      _ ← applyFailure run restart_reason; mret (count_aborted stats).

Definition orphan (reason : FailureReason) (run : RunRow) (stats : RecoveryStats)
    : M World RecoveryStats :=
  _ ← applyFailure run reason; mret (count_orphaned stats).

Definition recover_queued (run : RunRow) (stats : RecoveryStats) : M World RecoveryStats :=
  let isRestartSafeFeishuRerun :=
    negb (awaitsFeishuEventReplay run) &&
    bool_decide (row_hasNativeChatContext run = Some true) in
  if bool_decide (row_triggerSource run = Some "feishu") && negb isRestartSafeFeishuRerun then
    _ ← applyFailure run (FAILURE_REASONS FEISHU_QUEUED_RESET_FOR_REPLAY);
    mret (count_reset stats)
  else mret stats.

Definition recover_agent (pendingCutoff : Z) (agentId : string) (stats : RecoveryStats)
    : M World RecoveryStats :=
  stats ← (if recoverInFlight hooks then
             runningRuns ← getRunsByStatus agentId "running";
             stats ← fold_each runningRuns recover_running stats;
             pendingOrphans ← getOrphanedPendingRuns agentId pendingCutoff;
             stats ← fold_each pendingOrphans
                       (orphan (FAILURE_REASONS PENDING_ORPHAN_ON_STARTUP)) stats;
             queuedRuns ← getRunsByStatus agentId "queued";
             fold_each queuedRuns recover_queued stats
           else mret stats);
  promoted ← scheduleNext agentId;
  mret (count_promoted promoted stats).

(** [now] is [Date.now()], [pendingOrphanTimeoutMs] the configured timeout. *)
Definition recoverOnStartup (now pendingOrphanTimeoutMs : Z) (getAgentIds : M World (list string))
    : M World RecoveryStats :=
  let pendingCutoff := (now - pendingOrphanTimeoutMs)%Z in
  activeAgentIds ← getAgentIds;
  stats ← fold_each activeAgentIds (recover_agent pendingCutoff) no_stats;
  danglingPending ← getDanglingPendingRuns pendingCutoff;
  stats ← fold_each danglingPending (orphan (FAILURE_REASONS DANGLING_RUN_ON_STARTUP)) stats;
  danglingQueued ← getDanglingQueuedRuns;
  fold_each danglingQueued (orphan (FAILURE_REASONS DANGLING_RUN_ON_STARTUP)) stats.
End Recovery.
