(* ===== verification/TaskQueueDb.v ===== *)
(** * The queue's storage

    [apps/api/src/engine/task-queue-db.ts]: the implementation of the
    [TaskQueueDb] interface over the database, with the occupancy count that
    admission and promotion share. *)
From S2P Require Import Prelude Json Schema LeaseRegistry World ScmWorkload Resume TaskQueue.

Definition FEISHU_RECEIVE_ID_TYPES : list string :=
  ["open_id"; "user_id"; "union_id"; "email"; "chat_id"].

Definition RunQueueFullError : JsError := mkError "RunQueueFullError" "".

(** [typeof o.k === 'string' && o.k.trim().length > 0] *)
Definition nonblank_string (v : option json) : bool :=
  match as_string v with
  | Some s => negb (String.eqb (trim s) "")
  | None => false
  end.

Definition hasSendableNativeChatContext (value : option json) : bool :=
  match as_object value with
  | None => false
  | Some context =>
      match as_string (obj_get context "receive_id_type") with
      | Some t => bool_decide (t ∈ FEISHU_RECEIVE_ID_TYPES)
      | None => false
      end && nonblank_string (obj_get context "receive_id")
  end.

Definition hasRecoverableA2AReferencedContext (value : option json) : bool :=
  match as_object value with
  | None => false
  | Some context =>
      match as_object (obj_get context "channel"),
            as_object (obj_get context "referenced_message") with
      | Some channel, Some referencedMessage =>
          bool_decide (obj_get channel "channel_type" = Some (JStr "a2a")) &&
          nonblank_string (obj_get referencedMessage "text")
      | _, _ => false
      end
  end.

(** ** Occupancy *)

(** Runs under an active durable lease of the agent whose row still exists *)
Definition active_lease_runs (a : string) (d : Db) : gset string :=
  list_to_set (omap (fun '((t, id), l) =>
    if decide (lease_agentId l = a /\ t = wl_run /\ lease_phase l = active /\
               is_Some (db_runs d !! id))
    then Some id else None) (map_to_list (db_leases d))).

Definition occupying_runs (a : string) (w : World) : gset string :=
  dom (runs_in a running (w_db w)) ∪ leased_runs a (w_reg w) ∪ active_lease_runs a (w_db w).

Definition countOccupiedRunSlots (agentId : string) : M World nat :=
  gets (fun w => size (occupying_runs agentId w)).

(** Agents with queued work; the order of the rows is immaterial. *)
Definition getQueuedRunAgentIds : M World (list string) :=
  select (fun d => elements (list_to_set (omap (fun '(_, r) =>
    if decide (run_status r = queued) then
      match run_initiatorAgentId r with Some "" => None | a => a end
    else None) (map_to_list (db_runs d))) : gset string)).

Section Storage.
Context `{Instance}.

Definition db_countRunsByStatus (agentId status : string) : M World nat :=
  match parseRunStatus status with
  | None => mret 0
  | Some st => select (fun d => size (runs_in agentId st d))
  end.

Definition db_getRunStatus (runId : string) : M World (option string) :=
  select (fun d => (fun r => status_name (run_status r)) <$> db_runs d !! runId).

Definition db_getAgentMaxConcurrency (agentId : string) : M World (option nat) :=
  select (fun d => agent_maxConcurrency <$> db_agents d !! agentId).

(** [queuedAt] is stamped on entry to the queue and cleared on acquisition. *)
Definition status_update (st : RunStatus) (r : Run) : Run :=
  with_updatedAt clock (with_status st
    (match st with
     | queued => with_queuedAt (Some clock) r
     | running => with_queuedAt None r
     | _ => r
     end)).

Definition db_updateRunStatus (runId status : string) : M World unit :=
  match parseRunStatus status with
  | None => mret tt
  | Some st => _ ← update_runs runId (fun _ => true) (status_update st); mret tt
  end.

(** The run's step of highest order *)
Definition later_step (best : option RunStep) (s : RunStep) : option RunStep :=
  match best with
  | Some b => if (step_order b <? step_order s)%Z then Some s else best
  | None => Some s
  end.
Definition latest_step (runId : string) (d : Db) : option RunStep :=
  fold_left later_step
    (filter (fun s => step_runId s = runId) (map_to_list (db_steps d)).*2) None.

(** [row?.column] *)
Definition column {R A} (f : R -> option A) (row : option R) : option A :=
  match row with Some r => f r | None => None end.

(** The native chat context the requeue restores from the interrupted step *)
Definition restored_context (runId : string) (current : option Run) (d : Db) : option js_object :=
  let currentMetadata := column run_executionMetadata current in
  let source := column run_triggerSource current in
  let chat := meta_get currentMetadata "nativeChatContext" in
  let awaitsEventReplay :=
    bool_decide (is_Some (column run_triggerSessionId current)) &&
    nullish (meta_get currentMetadata "retryAttempt") in
  let shouldRestoreFeishuContext :=
    bool_decide (source = Some "feishu") && negb awaitsEventReplay &&
    negb (hasSendableNativeChatContext chat) in
  let shouldRestoreA2AContext :=
    bool_decide (source = Some "a2a") && negb (hasRecoverableA2AReferencedContext chat) in
  if shouldRestoreFeishuContext || shouldRestoreA2AContext then
    let stepContext := meta_get (column step_input (latest_step runId d)) "context" in
    if (if shouldRestoreFeishuContext then hasSendableNativeChatContext stepContext
        else hasRecoverableA2AReferencedContext stepContext)
    then as_object stepContext else None
  else None.

Definition requeued_metadata (code : string) (restored : option js_object) (m : option js_object)
    : js_object :=
  obj_set (obj_set_opt (default [] m) "nativeChatContext" (JObj <$> restored))
    "resumePending" (JStr code).

Definition fail_step_with (e : json) (s : RunStep) : RunStep :=
  with_step_status step_failed (with_step_output (Some (error_object e)) s).

Definition db_requeueForResume (runId : string) (interruptionCode : option string)
    (expectedOwnerInstanceId : option string) : M World bool :=
  let code := match interruptionCode with Some "" => None | c => c end in
  withTransaction (
    current ← (match code with
               | Some _ => select (fun d => db_runs d !! runId)
               | None => mret None
               end);
    restored ← select (restored_context runId current);
    requeued ← update_runs runId
      (fun r => bool_decide (run_status r = running) &&
         match expectedOwnerInstanceId with
         | None | Some "" => true
         | Some o => bool_decide (run_ownerInstanceId r = Some o)
         end)
      (fun r =>
         let r1 := match code with
                   | Some c => with_metadata (Some (requeued_metadata c restored
                                 (column run_executionMetadata current))) r
                   | None => r
                   end in
         with_updatedAt clock (with_owner None (with_result None
           (with_queuedAt (Some clock) (with_status queued r1)))));
    if negb requeued then mret false
    else
      _ ← db_write (set_steps (settle_steps runId
            (fail_step_with (reason_json (FAILURE_REASONS SERVER_RESTART_DURING_EXEC)))));
      mret true).

(** The row admission writes for its decision *)
Definition admitted_row (slot : SlotResult) (r : Run) : Run :=
  match slot with
  | slot_acquired => with_updatedAt clock (with_queuedAt None
      (with_owner (Some processInstanceId) (with_status running r)))
  | _ => with_updatedAt clock (with_queuedAt (Some clock)
      (with_owner None (with_status queued r)))
  end.

(** A run naming its worktree is not admitted while that worktree has a
    pending removal. *)
Definition removal_gate (runId : string) (admission : ScmWorkloadAdmission) : M World unit :=
  match admission_source admission with
  | None => mret tt
  | Some src =>
      worktree ← select (fun d => column run_worktreeName (db_runs d !! runId));
      match worktree with
      | None | Some "" => mret tt
      | Some name =>
          pendingRemoval ← select (fun d => bool_decide (is_Some (db_removals d !! workspaceRemovalId src name)));
          if (pendingRemoval : bool)
          then throw (mkError "Error" "Worktree is currently being removed; retry shortly")
          else mret tt
      end
  end.

Definition decide_slot (agentId : string) (maxConcurrency : nat) : M World SlotResult :=
  running ← countOccupiedRunSlots agentId;
  if (maxConcurrency <=? running)%nat then
    queued ← select (fun d => size (runs_in agentId queued d));
    if (MAX_QUEUE_LENGTH <=? queued)%nat then throw RunQueueFullError
    else mret slot_queued
  else mret slot_acquired.

(** The write [admitRun] performs inside its admission transaction *)
Definition admit_write (agentId runId : string) (maxConcurrency : nat)
    (admission : ScmWorkloadAdmission) : M World Admission :=
  _ ← removal_gate runId admission;
  slot ← decide_slot agentId maxConcurrency;
  updated ← update_runs runId (fun _ => true) (admitted_row slot);
  if negb updated then throw (mkError "Error" "Run disappeared before queue admission")
  else
    scmLeaseActivated ←
      (if bool_decide (slot = slot_acquired) && has_lease_id admission then
         activated ← activateScmWorkloadInMutation wl_run runId processInstanceId;
         if negb activated
         then throw (mkError "Error" "Cannot admit SCM run without its reserved durable lease")
         else mret true
       else mret false);
    mret (mkAdmission slot (has_lease_id admission) scmLeaseActivated).

Definition db_admitRun (agentId runId : string) (maxConcurrency : nat) : M World Admission :=
  try_catch
    (withScmWorkloadAdmission wl_run runId agentId (admit_write agentId runId maxConcurrency))
    (fun error => if decide (error = RunQueueFullError)
                  then mret (mkAdmission slot_queue_full false false) else throw error).

Definition db_activateRun (runId : string) : M World unit :=
  reserved ← select (fun d => db_leases d !! (wl_run, runId));
  match reserved with
  | None => mret tt
  | Some _ => activateScmWorkload wl_run runId processInstanceId
  end.

Definition db_releaseReservedRun (runId : string) : M World bool :=
  releaseReservedScmWorkload wl_run runId.

Definition promoted_row (r : Run) : Run :=
  with_updatedAt clock (with_owner (Some processInstanceId) (with_status running r)).

Definition db_promoteQueuedRun (agentId runId : string) (maxConcurrency : nat) : M World bool :=
  withScmPathMutation (
    occupied ← countOccupiedRunSlots agentId;
    if (maxConcurrency <=? occupied)%nat then mret false
    else
      changed ← update_runs runId (fun r => bool_decide (run_status r = queued)) promoted_row;
      if negb changed then mret false
      else
        activated ← activateScmWorkloadInMutation wl_run runId processInstanceId;
        if (activated : bool) then mret true
        else
          agent ← select (fun d => db_agents d !! agentId);
          if decide (agent_workspaceType <$> agent <> Some ws_temp)
          then throw (mkError "Error" "Cannot promote SCM run without its reserved durable lease")
          else mret true).

Definition db_tryTransitionRunStatus (runId from to_ : string) : M World bool :=
  match parseRunStatus from, parseRunStatus to_ with
  | Some fromStatus, Some toStatus =>
      update_runs runId (fun r => bool_decide (run_status r = fromStatus))
        (fun r => with_updatedAt clock
           (let r1 := with_status toStatus r in
            if decide (toStatus = running) then with_owner (Some processInstanceId) r1 else r1))
  | _, _ => mret false
  end.

Definition db_failRunSteps (runId : string) : M World unit :=
  db_write (set_steps (settle_steps runId (with_step_status step_failed))).

(** Two statements: the steps, then the run's result *)
Definition fail_with (runId : string) (e : json) : M World unit :=
  _ ← db_write (set_steps (settle_steps runId (fail_step_with e)));
  _ ← update_runs runId (fun _ => true)
        (fun r => with_updatedAt clock (with_result (Some (JObj (error_object e))) r));
  mret tt.

Definition db_failRunWithError (runId reason : string) : M World unit :=
  fail_with runId (JStr reason).

Definition db_failRunWithStructuredReason (runId : string) (reason : FailureReason)
    : M World unit :=
  fail_with runId (reason_json reason).

(** [orderBy(asc(createdAt)).limit(1)] *)
Definition earlier_run (best : option (string * Run)) (kv : string * Run) : option (string * Run) :=
  match best with
  | Some b => if (run_createdAt kv.2 <? run_createdAt b.2)%Z then Some kv else best
  | None => Some kv
  end.
Definition oldest_run (rows : list (string * Run)) : option (string * Run) :=
  fold_left earlier_run rows None.

Definition db_getOldestQueuedRun (agentId : string) : M World (option (string * string)) :=
  select (fun d =>
    match oldest_run (map_to_list (runs_in agentId queued d)) with
    | Some (id, r) => match run_initiatorAgentId r with
                      | None | Some "" => None
                      | Some a => Some (id, a)
                      end
    | None => None
    end).

Definition plain_row (kv : string * Run) : RunRow :=
  mkRow kv.1 (run_triggerSource kv.2) (run_triggerSessionId kv.2) None None.

Definition context_row (kv : string * Run) : RunRow :=
  mkRow kv.1 (run_triggerSource kv.2) (run_triggerSessionId kv.2)
    (Some (hasSendableNativeChatContext
             (meta_get (run_executionMetadata kv.2) "nativeChatContext")))
    (meta_get (run_executionMetadata kv.2) "retryAttempt").

Definition db_getRunsByStatus (agentId status : string) : M World (list RunRow) :=
  match parseRunStatus status with
  | None => mret []
  | Some st => select (fun d => context_row <$> map_to_list (runs_in agentId st d))
  end.

Definition db_getOrphanedPendingRuns (agentId : string) (cutoff : Z) : M World (list RunRow) :=
  select (fun d => plain_row <$>
    filter (fun kv => (run_createdAt kv.2 < cutoff)%Z)
      (map_to_list (runs_in agentId pending d))).

(** [isNotNull(initiatorAgentId) and notExists(agent)] *)
Definition agent_deleted (d : Db) (r : Run) : Prop :=
  match run_initiatorAgentId r with Some a => db_agents d !! a = None | None => False end.
#[export] Instance agent_deleted_dec d r : Decision (agent_deleted d r).
Proof. unfold agent_deleted. destruct (run_initiatorAgentId r); apply _. Defined.

Definition db_getDanglingPendingRuns (cutoff : Z) : M World (list RunRow) :=
  select (fun d => plain_row <$>
    filter (fun kv => run_status kv.2 = pending /\ (run_createdAt kv.2 < cutoff)%Z /\
                      agent_deleted d kv.2) (map_to_list (db_runs d))).

Definition db_getDanglingQueuedRuns : M World (list RunRow) :=
  select (fun d => plain_row <$>
    filter (fun kv => run_status kv.2 = queued /\ agent_deleted d kv.2)
      (map_to_list (db_runs d))).

#[export] Instance taskQueueDb : TaskQueueDb := {|
  countRunsByStatus := db_countRunsByStatus;
  countOccupiedSlots := Some countOccupiedRunSlots;
  getRunStatus := db_getRunStatus;
  getAgentMaxConcurrency := db_getAgentMaxConcurrency;
  updateRunStatus := db_updateRunStatus;
  requeueForResume := db_requeueForResume;
  admitRun := Some db_admitRun;
  activateRun := Some db_activateRun;
  promoteQueuedRun := Some db_promoteQueuedRun;
  releaseReservedRun := Some db_releaseReservedRun;
  tryTransitionRunStatus := db_tryTransitionRunStatus;
  failRunSteps := db_failRunSteps;
  failRunWithError := db_failRunWithError;
  failRunWithStructuredReason := db_failRunWithStructuredReason;
  getOldestQueuedRun := db_getOldestQueuedRun;
  getRunsByStatus := db_getRunsByStatus;
  getOrphanedPendingRuns := db_getOrphanedPendingRuns;
  getDanglingPendingRuns := db_getDanglingPendingRuns;
  getDanglingQueuedRuns := db_getDanglingQueuedRuns
|}.
End Storage.

(** ** Lemmas *)

Lemma elem_of_active_lease_runs a d id :
  id ∈ active_lease_runs a d <->
  exists l, db_leases d !! (wl_run, id) = Some l /\ lease_agentId l = a /\
    lease_phase l = active /\ is_Some (db_runs d !! id).
Proof.
  unfold active_lease_runs. rewrite elem_of_list_to_set, list_elem_of_omap. split.
  - intros ([[t id'] l] & Hin%elem_of_map_to_list & Hm).
    destruct (decide _) as [(? & -> & ? & ?)|]; [|done]. injection Hm as ->. eauto.
  - intros (l & Hl & Ha & Hp & Hr). exists (wl_run, id, l).
    split; [by apply elem_of_map_to_list|]. by rewrite decide_True.
Qed.

Lemma elem_of_occupying a w id :
  id ∈ occupying_runs a w <->
  (exists r, db_runs (w_db w) !! id = Some r /\ run_initiatorAgentId r = Some a /\
     run_status r = running) \/
  id ∈ leased_runs a (w_reg w) \/ id ∈ active_lease_runs a (w_db w).
Proof.
  unfold occupying_runs. rewrite !elem_of_union, elem_of_dom.
  assert (is_Some (runs_in a running (w_db w) !! id) <->
    exists r, db_runs (w_db w) !! id = Some r /\ run_initiatorAgentId r = Some a /\
      run_status r = running) as ->.
  { split; [intros [r Hr]; apply lookup_runs_in in Hr; eauto|].
    intros (r & ? & ? & ?). exists r. by apply lookup_runs_in. }
  tauto.
Qed.

(** What a change may do to one agent's occupancy *)
Lemma occupying_sub a w w' (X : gset string) :
  (forall id r', db_runs (w_db w') !! id = Some r' -> run_initiatorAgentId r' = Some a ->
     run_status r' = running -> id ∈ X \/ exists r, db_runs (w_db w) !! id = Some r /\
       run_initiatorAgentId r = Some a /\ run_status r = running) ->
  leased_runs a (w_reg w') ⊆ X ∪ leased_runs a (w_reg w) ->
  (forall id l', db_leases (w_db w') !! (wl_run, id) = Some l' -> lease_agentId l' = a ->
     lease_phase l' = active -> id ∈ X \/ exists l, db_leases (w_db w) !! (wl_run, id) = Some l /\
       lease_agentId l = a /\ lease_phase l = active) ->
  (forall id, is_Some (db_runs (w_db w') !! id) -> is_Some (db_runs (w_db w) !! id)) ->
  occupying_runs a w' ⊆ X ∪ occupying_runs a w.
Proof.
  intros Hr Hg Hl Hd id. rewrite elem_of_union, !elem_of_occupying.
  intros [(r & H1 & H2 & H3)|[Hin|Hin]].
  - destruct (Hr _ _ H1 H2 H3); naive_solver.
  - apply Hg in Hin. set_solver.
  - apply elem_of_active_lease_runs in Hin as (l & H1 & H2 & H3 & H4).
    destruct (Hl _ _ H1 H2 H3) as [|(l' & ? & ? & ?)]; [by left|].
    right. right. right. apply elem_of_active_lease_runs. eauto 10.
Qed.

Lemma leased_runs_reserve_sub a a' r g :
  wf g ->
  leased_runs a' (reserveExecutionLease r (Some a) g).2 ⊆ {[r]} ∪ leased_runs a' g.
Proof.
  intros Hw. destruct (leasesByRunId g !! r) as [ref|] eqn:Hr.
  - intros x. rewrite elem_of_union, elem_of_singleton, !elem_of_leased_runs by auto with a2w.
    unfold reserveExecutionLease, getOrCreateExecutionLease. rewrite Hr. simpl.
    intros (l & e & Hx & He & Ha).
    destruct (decide (x = r)) as [->|Hne]; [by left|]. right. exists l.
    apply list_alter_Some in He as (e0 & He0 & [[_ ->]|[-> ->]]); [by eauto|].
    destruct (wf_run _ Hw _ _ Hr) as (er & ? & Hid & _).
    destruct (wf_run _ Hw _ _ Hx) as (ex & ? & Hidx & _). congruence.
  - rewrite leased_runs_reserve_fresh by done. case_decide; set_solver.
Qed.

Section Lemmas.
Context `{Instance}.

(** The claim of a queued run, on every branch *)
Lemma promote_run a id mx w :
  db_promoteQueuedRun a id mx w =
  if (mx <=? size (occupying_runs a w))%nat then (Ret false, w)
  else match db_runs (w_db w) !! id with
  | Some r =>
      if decide (run_status r = queued) then
        let w1 := set_db (set_runs (insert id (promoted_row r))) w in
        match activateScmWorkloadInMutation wl_run id processInstanceId w1 with
        | (Throw e, _) => (Throw e, w)
        | (Ret true, w2) => (Ret true, w2)
        | (Ret false, _) =>
            if decide (agent_workspaceType <$> db_agents (w_db w) !! a <> Some ws_temp)
            then (Throw (mkError "Error"
                    "Cannot promote SCM run without its reserved durable lease"), w)
            else (Ret true, w1)
        end
      else (Ret false, w)
  | None => (Ret false, w)
  end.
Proof.
  unfold db_promoteQueuedRun, withScmPathMutation, withTransaction, countOccupiedRunSlots,
    gets, mbind, M_bind, mret, M_ret.
  destruct (mx <=? _)%nat; [done|]. rewrite update_runs_run. unfold update_where.
  destruct (db_runs (w_db w) !! id) as [r|]; simpl; [|by destruct w as [[]]].
  destruct (decide (run_status r = queued)) as [Hq|Hq].
  - rewrite bool_decide_eq_true_2 by done. simpl.
    assert (set_db (set_runs (fun _ => <[id:=promoted_row r]> (db_runs (w_db w)))) w =
            set_db (set_runs (insert id (promoted_row r))) w) as -> by done.
    rewrite activateInMutation_run. simpl. unfold select, gets, throw. simpl.
    destruct hasLostHeartbeatOwnership; simpl; [by destruct w as [[]]|].
    destruct (db_leases (w_db w) !! (wl_run, id)) as [l|]; simpl.
    + repeat case_decide; simpl; try done; try (by destruct w as [[]]);
        destruct (claim_blocks _ _ _ _); simpl; by destruct w as [[]].
    + destruct (decide _); by destruct w as [[]].
  - rewrite bool_decide_eq_false_2 by done. simpl. by destruct w as [[]].
Qed.

(** What an activation that succeeds leaves of the lease *)
Definition owned_lease (t : WorkloadType) (id : string) (w w' : World) : Prop :=
  exists l l', db_leases (w_db w) !! (t, id) = Some l /\
    db_leases (w_db w') = <[(t, id) := l']> (db_leases (w_db w)) /\
    lease_agentId l' = lease_agentId l /\ lease_scmSourceId l' = lease_scmSourceId l /\
    lease_phase l' = active /\ lease_ownerInstanceId l' = Some processInstanceId.

(** Everything but the leases *)
Definition same_but_leases (w w' : World) : Prop :=
  w_reg w' = w_reg w /\ w_started w' = w_started w /\ db_agents (w_db w') = db_agents (w_db w) /\
  w_runPromotionsPaused w' = w_runPromotionsPaused w /\
  db_runs (w_db w') = db_runs (w_db w).

Lemma activate_true t id w w' :
  activateScmWorkloadInMutation t id processInstanceId w = (Ret true, w') ->
  owned_lease t id w w' /\ same_but_leases w w'.
Proof.
  rewrite activateInMutation_run. destruct hasLostHeartbeatOwnership; [done|].
  destruct (db_leases (w_db w) !! (t, id)) as [l|] eqn:Hl; [|done].
  repeat case_decide; [| |].
  - intros [= <-]. split; [|done]. exists l, l. split_and!; try done. by rewrite insert_id.
  - done.
  - case_match; [done|]. intros [= <-]. split; [|done].
    exists l, (with_phase_owner active (Some processInstanceId) clock l).
    split_and!; try done. simpl. apply map_eq. intros k.
    destruct (decide (k = (t, id))) as [->|Hne].
    + by rewrite lookup_alter_eq, lookup_insert_eq, Hl.
    + by rewrite lookup_alter_ne, lookup_insert_ne by done.
Qed.

(** What a successful claim of the queued run [id] does *)
Record claimed (a id : string) (mx : nat) (r : Run) (w w' : World) : Prop := {
  cl_room : size (occupying_runs a w) < mx;
  cl_row : db_runs (w_db w) !! id = Some r /\ run_status r = queued;
  cl_runs : db_runs (w_db w') = <[id := promoted_row r]> (db_runs (w_db w));
  cl_leases : owned_lease wl_run id w w' \/
    db_leases (w_db w) !! (wl_run, id) = None /\ db_leases (w_db w') = db_leases (w_db w) /\
    agent_workspaceType <$> db_agents (w_db w) !! a = Some ws_temp;
  cl_reg : w_reg w' = w_reg w;
  cl_started : w_started w' = w_started w;
  cl_paused : w_runPromotionsPaused w' = w_runPromotionsPaused w;
  cl_agents : db_agents (w_db w') = db_agents (w_db w)
}.

Lemma promote_true a id mx w w' :
  db_promoteQueuedRun a id mx w = (Ret true, w') -> exists r, claimed a id mx r w w'.
Proof.
  rewrite promote_run. destruct (mx <=? _)%nat eqn:Hroom; [done|]. apply Nat.leb_gt in Hroom.
  destruct (db_runs (w_db w) !! id) as [r|] eqn:Hr; [|done].
  destruct (decide (run_status r = queued)) as [Hq|]; [|done]. simpl.
  destruct (activateScmWorkloadInMutation wl_run id processInstanceId _) as [[[]|] w2] eqn:Ha;
    [..|done].
  - intros [= <-]. apply activate_true in Ha as [Hown (? & ? & ? & ? & Hruns)].
    exists r. split; auto.
  - rewrite activateInMutation_run in Ha. destruct hasLostHeartbeatOwnership; [done|].
    simpl in Ha. destruct (db_leases (w_db w) !! (wl_run, id)) as [l|] eqn:Hl.
    { repeat case_decide; try done. by destruct (claim_blocks _ _ _ _). }
    destruct (decide _) as [|Hws]; [done|]. intros [= <-]. exists r. split; auto.
    right. split; [done|]. split; [done|]. by apply dec_stable.
Qed.

(** Of the three results only a capacity or a lost race leaves the run unclaimed. *)
Lemma promote_false a id mx w w' :
  db_promoteQueuedRun a id mx w = (Ret false, w') ->
  w' = w /\ (mx <= size (occupying_runs a w) \/
    forall r, db_runs (w_db w) !! id = Some r -> run_status r <> queued).
Proof.
  rewrite promote_run. destruct (mx <=? _)%nat eqn:Hroom.
  { apply Nat.leb_le in Hroom. intros [= <-]. auto. }
  destruct (db_runs (w_db w) !! id) as [r|] eqn:Hr; [|intros [= <-]; split; [done|by right]].
  destruct (decide (run_status r = queued)) as [Hq|Hq].
  - simpl. repeat case_match; intros; simplify_eq.
  - intros [= <-]. split; [done|]. right. by intros ? [= <-].
Qed.

Lemma promote_throw a id mx w e w' :
  db_promoteQueuedRun a id mx w = (Throw e, w') -> w' = w.
Proof. rewrite promote_run. simpl. repeat case_match; intros; by simplify_eq. Qed.

Lemma claimed_occupying a id mx r w w' :
  claimed a id mx r w w' -> run_initiatorAgentId r = Some a ->
  {[id]} ⊆ occupying_runs a w' /\ occupying_runs a w' ⊆ {[id]} ∪ occupying_runs a w.
Proof.
  intros [Hroom [Hr Hq] Hruns Hl Hreg _ _ _] Ha. split.
  - intros x ->%elem_of_singleton. apply elem_of_occupying. left.
    rewrite Hruns, lookup_insert_eq. eexists. split; [done|]. done.
  - apply occupying_sub.
    + intros x r'. rewrite Hruns, lookup_insert. case_decide as Hx; [|eauto].
      subst. left. set_solver.
    + rewrite Hreg. set_solver.
    + intros x l'. destruct (decide (x = id)) as [->|Hx]; [left; set_solver|].
      destruct Hl as [(l & l1 & _ & -> & _)|(_ & -> & _)]; [|eauto].
      rewrite lookup_insert_ne; [eauto|congruence].
    + intros x. rewrite Hruns, lookup_insert. case_decide; [subst; by rewrite Hr|done].
Qed.

(** The oldest queued run of an agent *)
Definition oldest_queued (a id : string) (r : Run) (d : Db) : Prop :=
  runs_in a queued d !! id = Some r /\
  forall id' r', runs_in a queued d !! id' = Some r' -> (run_createdAt r <= run_createdAt r')%Z.

Lemma oldest_run_Some rows kv :
  oldest_run rows = Some kv ->
  kv ∈ rows /\ forall kv', kv' ∈ rows -> (run_createdAt kv.2 <= run_createdAt kv'.2)%Z.
Proof.
  unfold oldest_run.
  assert (forall rows b, fold_left earlier_run rows (Some b) = Some kv ->
    (kv = b \/ kv ∈ rows) /\ (run_createdAt kv.2 <= run_createdAt b.2)%Z /\
    forall kv', kv' ∈ rows -> (run_createdAt kv.2 <= run_createdAt kv'.2)%Z) as Hgen.
  { clear. induction rows as [|x rows IH]; simpl; intros b Hf.
    - injection Hf as <-. split_and!; [by left | lia |]. intros kv' ?%not_elem_of_nil. done.
    - destruct (run_createdAt x.2 <? run_createdAt b.2)%Z eqn:Hlt; apply IH in Hf as (Hin & Hle & Hall);
        bool_to_prop; (split; [set_solver|]); (split; [lia|]);
        intros kv' [->|?]%elem_of_cons; auto; lia. }
  destruct rows as [|x rows]; simpl; [done|]. intros (Hin & Hle & Hall)%Hgen.
  split; [set_solver|]. intros kv' [->|?]%elem_of_cons; auto.
Qed.

Lemma oldest_run_None rows : oldest_run rows = None -> rows = [].
Proof.
  assert (forall rows b, fold_left earlier_run rows (Some b) <> None) as Hgen.
  { clear. induction rows as [|x rows IH]; simpl; intros b; [done|]. by case_match. }
  destruct rows; [done|]. simpl. intros Hf. by apply Hgen in Hf.
Qed.

Lemma getOldest_Some a w id a' w' :
  db_getOldestQueuedRun a w = (Ret (Some (id, a')), w') ->
  w' = w /\ exists r, oldest_queued a id r (w_db w).
Proof.
  unfold db_getOldestQueuedRun, select, gets. intros [= Hm <-]. split; [done|].
  destruct (oldest_run _) as [[id' r]|] eqn:Ho; [|done].
  apply oldest_run_Some in Ho as [Hin Hall]. apply elem_of_map_to_list in Hin.
  assert (id' = id) as -> by (repeat case_match; congruence).
  exists r. split; [done|]. intros id1 r1 Hr1%elem_of_map_to_list. by apply (Hall (id1, r1)).
Qed.

Lemma getOldest_None a w w' :
  a <> "" -> db_getOldestQueuedRun a w = (Ret None, w') -> w' = w /\ runs_in a queued (w_db w) = ∅.
Proof.
  intros Hne. unfold db_getOldestQueuedRun, select, gets. intros [= Hm <-]. split; [done|].
  destruct (oldest_run _) as [[id r]|] eqn:Ho.
  - apply oldest_run_Some in Ho as [Hin _]. apply elem_of_map_to_list in Hin.
    apply lookup_runs_in in Hin as (_ & Ha & _). rewrite Ha in Hm. by destruct a.
  - apply oldest_run_None in Ho. by apply map_to_list_empty_iff.
Qed.
End Lemmas.
