(* ===== verification/Scheduling.v ===== *)
(** * Admission and promotion over the real storage

    What [tryAcquireSlot] and [scheduleNext] of [task-queue.ts] guarantee when
    they run on the [taskQueueDb] of [task-queue-db.ts]: capacity, order,
    work conservation and the outcome of every branch. *)
From S2P Require Import Prelude Json Schema LeaseRegistry World ScmWorkload Resume TaskQueue TaskQueueDb.

Lemma reserve_run id a w :
  reserve id a w = (Ret tt, set_reg (fun _ => (reserveExecutionLease id (Some a) (w_reg w)).2) w).
Proof. unfold reserve, on_registry, mbind, M_bind. by destruct (reserveExecutionLease _ _ _). Qed.

Section Promotion.
Context `{Instance}.

(** The lease and the execution that follow a claim *)
Definition started_world (id a : string) (w : World) : World :=
  add_started (id, a) (set_reg (fun _ => (reserveExecutionLease id (Some a) (w_reg w)).2) w).

(** The promotions of one call: each claims the oldest queued run of the
    agent at that moment, while a slot is free. *)
Inductive promotions (a : string) (mx : nat) : list string -> World -> World -> Prop :=
| promotions_nil w : promotions a mx [] w w
| promotions_cons id ids r w w1 w2 :
    oldest_queued a id r (w_db w) -> claimed a id mx r w w1 ->
    promotions a mx ids (started_world id a w1) w2 ->
    promotions a mx (id :: ids) w w2.

Lemma claimed_wf a id mx r w w1 :
  claimed a id mx r w w1 -> wf (w_reg w) -> wf (w_reg (started_world id a w1)).
Proof. intros Hc Hw. simpl. rewrite (cl_reg _ _ _ _ _ _ Hc). unfold reserveExecutionLease. auto with a2w. Qed.

Lemma started_occupying a id mx r w w1 :
  wf (w_reg w) -> claimed a id mx r w w1 -> run_initiatorAgentId r = Some a ->
  occupying_runs a (started_world id a w1) ⊆ {[id]} ∪ occupying_runs a w.
Proof.
  intros Hw Hc Ha. destruct (claimed_occupying _ _ _ _ _ _ Hc Ha) as [_ Hsub].
  assert (occupying_runs a (started_world id a w1) ⊆ {[id]} ∪ occupying_runs a w1); [|set_solver].
  apply occupying_sub; simpl; eauto 10.
  apply leased_runs_reserve_sub. by rewrite (cl_reg _ _ _ _ _ _ Hc).
Qed.

(** A claimed run leaves the agent's queue and no other run moves. *)
Lemma claimed_queue a id mx r w w1 :
  claimed a id mx r w w1 -> run_initiatorAgentId r = Some a ->
  S (size (runs_in a queued (w_db (started_world id a w1)))) = size (runs_in a queued (w_db w)).
Proof.
  intros Hc Ha. destruct (cl_row _ _ _ _ _ _ Hc) as [Hr Hq]. unfold runs_in. simpl.
  rewrite (cl_runs _ _ _ _ _ _ Hc).
  apply (size_filter_insert_out (run_in a queued) _ _ _ r Hr); [done|]. by intros [_ ?].
Qed.

(** The loop over the real storage: what it started, and why it stopped. *)
Lemma promote_loop_spec n a mx k w o w' :
  a <> "" -> wf (w_reg w) -> promote_loop n a mx k w = (o, w') ->
  exists ids, promotions a mx ids w w' /\
    match o with
    | Throw _ => True
    | Ret m => m = k + length ids /\
        (length ids = n \/ mx <= size (occupying_runs a w') \/ runs_in a queued (w_db w') = ∅)
    end.
Proof.
  intros Hne. revert k w. induction n as [|n IH]; intros k w Hw; simpl.
  { intros [= <- <-]. exists []. split; [constructor|]. simpl. split; [lia|auto]. }
  unfold promotion_occupancy, claim_queued. simpl. unfold countOccupiedRunSlots.
  unfold mbind, M_bind. unfold gets at 1.
  destruct (mx <=? size (occupying_runs a w))%nat eqn:Hroom.
  { apply Nat.leb_le in Hroom. intros [= <- <-]. exists []. split; [constructor|].
    simpl. split; [lia|auto]. }
  destruct (db_getOldestQueuedRun a w) as [[[[id a']|]|e] w0] eqn:Ho; [..|done].
  - apply getOldest_Some in Ho as (-> & r & Hold).
    destruct (db_promoteQueuedRun a id mx w) as [[[]|e] w1] eqn:Hp.
    + apply promote_true in Hp as [r' Hc].
      assert (r' = r) as ->.
      { destruct Hold as [[Hr _]%lookup_runs_in _]. destruct (cl_row _ _ _ _ _ _ Hc). congruence. }
      simpl. rewrite reserve_run. simpl. intros Hl. apply IH in Hl as (ids & Hids & Hres); [|by eapply claimed_wf].
      exists (id :: ids). split; [by econstructor|].
      destruct o; [|done]. simpl. destruct Hres as [-> Hres]. split; [lia|].
      destruct Hres; [left; lia|auto].
    + (* a fresh capacity check and a fresh queued row: the claim cannot be lost *)
      exfalso. apply promote_false in Hp as [_ [Hmx|Hq]]; [apply Nat.leb_gt in Hroom; lia|].
      destruct Hold as [(Hr & _ & Hst)%lookup_runs_in _]. by apply (Hq r Hr).
    + apply promote_throw in Hp as ->. intros [= <- <-]. exists []. split; [constructor|done].
  - apply getOldest_None in Ho as [-> Hemp]; [|done]. intros [= <- <-].
    exists []. split; [constructor|]. simpl. split; [lia|auto].
Qed.

(** ** What a chain of promotions preserves *)

Lemma promotions_started a mx ids w w' :
  promotions a mx ids w w' -> w_started w' = w_started w ++ ((fun id => (id, a)) <$> ids).
Proof.
  induction 1 as [w|id ids r w w1 w2 Hold Hc Hp IH]; [by rewrite app_nil_r|].
  rewrite IH. simpl. rewrite (cl_started _ _ _ _ _ _ Hc). by rewrite <- app_assoc.
Qed.

Lemma promotions_capacity a mx ids w w' :
  wf (w_reg w) -> promotions a mx ids w w' ->
  size (occupying_runs a w') <= Nat.max mx (size (occupying_runs a w)).
Proof.
  intros Hw Hp. revert Hw.
  induction Hp as [w|id ids r w w1 w2 Hold Hc Hp IH]; intros Hw; [lia|].
  destruct Hold as [(_ & Ha & _)%lookup_runs_in _].
  pose proof (started_occupying _ _ _ _ _ _ Hw Hc Ha) as Hsub%subseteq_size.
  pose proof (cl_room _ _ _ _ _ _ Hc).
  pose proof (size_union_alt {[id]} (occupying_runs a w)) as Hu.
  assert (size (occupying_runs a w ∖ {[id]}) <= size (occupying_runs a w)) as Hd
    by (apply subseteq_size; set_solver).
  rewrite size_singleton in Hu. specialize (IH (claimed_wf _ _ _ _ _ _ Hc Hw)). lia.
Qed.

Lemma promotions_queue a mx ids w w' :
  promotions a mx ids w w' ->
  length ids + size (runs_in a queued (w_db w')) = size (runs_in a queued (w_db w)).
Proof.
  induction 1 as [w|id ids r w w1 w2 Hold Hc Hp IH]; [done|].
  destruct Hold as [(_ & Ha & _)%lookup_runs_in _].
  pose proof (claimed_queue _ _ _ _ _ _ Hc Ha). simpl. lia.
Qed.

(** After a claim the queued rows are the other queued rows. *)
Lemma claimed_still_queued a id mx r w w1 x rx :
  claimed a id mx r w w1 -> db_runs (w_db (started_world id a w1)) !! x = Some rx ->
  run_status rx = queued -> x <> id /\ db_runs (w_db w) !! x = Some rx.
Proof.
  intros Hc. simpl. rewrite (cl_runs _ _ _ _ _ _ Hc), lookup_insert.
  case_decide as Hx; [by intros [= <-]|]. intros ? _. split; [by intros ->|done].
Qed.

(** The rows of the runs: a started run is running under this process, every
    other row is untouched, and no run is started twice. *)
Lemma promotions_rows a mx ids w w' :
  promotions a mx ids w w' ->
  NoDup ids /\
  (forall id, id ∈ ids -> exists r, db_runs (w_db w) !! id = Some r /\
     run_initiatorAgentId r = Some a /\ run_status r = queued /\
     db_runs (w_db w') !! id = Some (promoted_row r)) /\
  (forall id, id ∉ ids -> db_runs (w_db w') !! id = db_runs (w_db w) !! id).
Proof.
  induction 1 as [w|id ids r w w1 w2 Hold Hc Hp (IH0 & IH1 & IH2)].
  { split_and!; [constructor| |done]. intros id ?%not_elem_of_nil. done. }
  destruct Hold as [(Hr & Ha & Hq)%lookup_runs_in _].
  assert (id ∉ ids) as Hnin.
  { intros (r' & Hr' & _ & Hq' & _)%IH1.
    by destruct (claimed_still_queued _ _ _ _ _ _ _ _ Hc Hr' Hq'). }
  split; [by constructor|]. split.
  - intros x [->|Hx]%elem_of_cons.
    + exists r. split_and!; [done..|]. rewrite IH2 by done. simpl.
      by rewrite (cl_runs _ _ _ _ _ _ Hc), lookup_insert_eq.
    + destruct (IH1 x Hx) as (r' & Hr' & ? & Hq' & ?). exists r'.
      by destruct (claimed_still_queued _ _ _ _ _ _ _ _ Hc Hr' Hq').
  - intros x [Hx1 Hx2]%not_elem_of_cons. rewrite IH2 by done. simpl.
    by rewrite (cl_runs _ _ _ _ _ _ Hc), lookup_insert_ne.
Qed.

(** First come, first served: creation times never decrease. *)
Lemma promotions_fifo a mx ids w w' :
  promotions a mx ids w w' ->
  forall i j x y rx ry, i < j -> ids !! i = Some x -> ids !! j = Some y ->
    db_runs (w_db w) !! x = Some rx -> db_runs (w_db w) !! y = Some ry ->
    (run_createdAt rx <= run_createdAt ry)%Z.
Proof.
  induction 1 as [w|id ids r w w1 w2 Hold Hc Hp IH]; intros i j x y rx ry Hij Hi Hj Hx Hy; [done|].
  destruct (promotions_rows _ _ _ _ _ Hp) as (_ & Hrows & _).
  assert (forall k z rz, ids !! k = Some z -> db_runs (w_db w) !! z = Some rz ->
    db_runs (w_db (started_world id a w1)) !! z = Some rz /\
    run_initiatorAgentId rz = Some a /\ run_status rz = queued) as Hback.
  { intros k z rz Hk Hz. apply list_elem_of_lookup_2 in Hk.
    destruct (Hrows z Hk) as (rz' & Hrz' & ? & Hq & _).
    destruct (claimed_still_queued _ _ _ _ _ _ _ _ Hc Hrz' Hq) as [_ ?].
    assert (rz' = rz) as -> by congruence. done. }
  destruct j as [|j]; [lia|]. simpl in Hj. destruct (Hback _ _ _ Hj Hy) as (Hy' & Hay & Hqy).
  destruct i as [|i]; simpl in Hi.
  - injection Hi as <-. destruct Hold as [Hr Hall]. pose proof Hr as (Hr' & _)%lookup_runs_in.
    assert (rx = r) as -> by congruence. apply (Hall y). by apply lookup_runs_in.
  - destruct (Hback _ _ _ Hi Hx) as (Hx' & _). apply (IH i j x y); [lia|done..].
Qed.
End Promotion.

(** ** Admission *)

Section Admission.
Context `{Instance}.

(** The run names a worktree whose removal is pending. *)
Definition removal_pending (adm : ScmWorkloadAdmission) (id : string) (d : Db) : bool :=
  match admission_source adm, column run_worktreeName (db_runs d !! id) with
  | Some _, None | Some _, Some "" | None, _ => false
  | Some src, Some name => bool_decide (is_Some (db_removals d !! workspaceRemovalId src name))
  end.

Definition write_row (id : string) (slot : SlotResult) (r : Run) (w : World) : World :=
  set_db (set_runs (insert id (admitted_row slot r))) w.

Lemma update_runs_all k f w :
  update_runs k (fun _ => true) f w =
  match db_runs (w_db w) !! k with
  | Some r => (Ret true, set_db (set_runs (insert k (f r))) w)
  | None => (Ret false, w)
  end.
Proof.
  rewrite update_runs_run. unfold update_where.
  destruct (db_runs (w_db w) !! k); simpl; [done | by destruct w as [[]]].
Qed.

Lemma removal_gate_run id adm w :
  removal_gate id adm w =
  if removal_pending adm id (w_db w)
  then (Throw (mkError "Error" "Worktree is currently being removed; retry shortly"), w)
  else (Ret tt, w).
Proof.
  unfold removal_gate, removal_pending. destruct (admission_source adm); [|done].
  unfold select, gets, mbind, M_bind, throw, mret, M_ret.
  destruct (column run_worktreeName _) as [[|c0 s0]|]; try done. by destruct (bool_decide _).
Qed.

Lemma decide_slot_run a mx w :
  decide_slot a mx w =
  (if (mx <=? size (occupying_runs a w))%nat then
     if (MAX_QUEUE_LENGTH <=? size (runs_in a queued (w_db w)))%nat
     then (Throw RunQueueFullError, w) else (Ret slot_queued, w)
   else (Ret slot_acquired, w)).
Proof.
  unfold decide_slot, countOccupiedRunSlots, select, gets, mbind, M_bind, throw, mret, M_ret.
  destruct (mx <=? _)%nat; [|done]. by destruct (MAX_QUEUE_LENGTH <=? _)%nat.
Qed.

(** The write of an admission, on every branch *)
Lemma admit_write_run a id mx adm w :
  admit_write a id mx adm w =
  if removal_pending adm id (w_db w) then
    (Throw (mkError "Error" "Worktree is currently being removed; retry shortly"), w)
  else if (mx <=? size (occupying_runs a w))%nat then
    if (MAX_QUEUE_LENGTH <=? size (runs_in a queued (w_db w)))%nat
    then (Throw RunQueueFullError, w)
    else match db_runs (w_db w) !! id with
    | None => (Throw (mkError "Error" "Run disappeared before queue admission"), w)
    | Some r => (Ret (mkAdmission slot_queued (has_lease_id adm) false),
                 write_row id slot_queued r w)
    end
  else match db_runs (w_db w) !! id with
  | None => (Throw (mkError "Error" "Run disappeared before queue admission"), w)
  | Some r =>
      let w1 := write_row id slot_acquired r w in
      if has_lease_id adm then
        match activateScmWorkloadInMutation wl_run id processInstanceId w1 with
        | (Ret true, w2) => (Ret (mkAdmission slot_acquired true true), w2)
        | (Ret false, w2) => (Throw (mkError "Error"
            "Cannot admit SCM run without its reserved durable lease"), w2)
        | (Throw e, w2) => (Throw e, w2)
        end
      else (Ret (mkAdmission slot_acquired false false), w1)
  end.
Proof.
  unfold admit_write. unfold mbind at 1, M_bind at 1.
  rewrite removal_gate_run. destruct (removal_pending adm id (w_db w)); [done|].
  unfold mbind at 1, M_bind at 1. rewrite decide_slot_run.
  destruct (mx <=? _)%nat; [destruct (MAX_QUEUE_LENGTH <=? _)%nat; [done|]|];
    unfold mbind at 1, M_bind at 1; rewrite update_runs_all;
    (destruct (db_runs (w_db w) !! id) as [r|]; [|done]); simpl; [done|].
  destruct (has_lease_id adm); simpl; [|done].
  unfold mbind, M_bind, throw, mret, M_ret.
  by destruct (activateScmWorkloadInMutation wl_run id processInstanceId _) as [[[]|] ?].
Qed.

Lemma admit_write_db_only a id mx adm : db_only (admit_write a id mx adm).
Proof.
  intros w o w'. rewrite admit_write_run. simpl.
  pose proof (activateInMutation_db_only wl_run id processInstanceId) as Hd.
  repeat case_match; intros; simplify_eq; try done;
    match goal with E : activateScmWorkloadInMutation _ _ _ _ = _ |- _ => by apply Hd in E end.
Qed.

(** The transaction's outcome, read off a successful write *)
Record admitted (a id : string) (mx : nat) (adm : ScmWorkloadAdmission) (v : Admission)
    (r : Run) (w w' : World) : Prop := {
  ad_row : db_runs (w_db w) !! id = Some r;
  ad_lease_id : adm_hasScmLease v = has_lease_id adm;
  ad_runs : db_runs (w_db w') = <[id := admitted_row (adm_slot v) r]> (db_runs (w_db w));
  ad_removal : removal_pending adm id (w_db w) = false;
  ad_slot : match adm_slot v with
    | slot_acquired => size (occupying_runs a w) < mx /\
        adm_scmLeaseActivated v = has_lease_id adm /\
        if has_lease_id adm then owned_lease wl_run id w w'
        else db_leases (w_db w') = db_leases (w_db w)
    | slot_queued => mx <= size (occupying_runs a w) /\
        size (runs_in a queued (w_db w)) < MAX_QUEUE_LENGTH /\
        db_leases (w_db w') = db_leases (w_db w)
    | slot_queue_full => False
    end
}.

Lemma admit_write_Ret a id mx adm w v w' :
  admit_write a id mx adm w = (Ret v, w') -> exists r, admitted a id mx adm v r w w'.
Proof.
  rewrite admit_write_run. destruct (removal_pending _ _ _) eqn:Hrem; [done|].
  destruct (mx <=? _)%nat eqn:Hroom; bool_to_prop.
  - destruct (MAX_QUEUE_LENGTH <=? _)%nat eqn:Hq; [done|]. bool_to_prop.
    destruct (db_runs (w_db w) !! id) as [r|] eqn:Hr; [|done]. intros [= <- <-].
    exists r. by split.
  - destruct (db_runs (w_db w) !! id) as [r|] eqn:Hr; [|done]. simpl.
    destruct (has_lease_id adm) eqn:Hlid.
    + destruct (activateScmWorkloadInMutation wl_run id processInstanceId _)
        as [[[]|] w2] eqn:Ha; [|done|done]. intros [= <- <-].
      apply activate_true in Ha as [Hown (_ & _ & _ & _ & Hruns)].
      exists r. split; simpl; auto. by rewrite Hlid.
    + intros [= <- <-]. exists r. split; simpl; auto. by rewrite Hlid.
Qed.

Lemma admit_write_full a id mx adm w w' :
  admit_write a id mx adm w = (Throw RunQueueFullError, w') ->
  mx <= size (occupying_runs a w) /\ MAX_QUEUE_LENGTH <= size (runs_in a queued (w_db w)).
Proof.
  rewrite admit_write_run.
  destruct (removal_pending _ _ _); [done|].
  destruct (mx <=? _)%nat eqn:Hroom; bool_to_prop.
  - destruct (MAX_QUEUE_LENGTH <=? _)%nat eqn:Hq; bool_to_prop; [done|]. by case_match.
  - destruct (db_runs (w_db w) !! id); [|done]. simpl. destruct (has_lease_id adm); [|done].
    rewrite activateInMutation_run. repeat case_match; intros; simplify_eq.
Qed.

(** A reservation is not occupancy. *)
Lemma occupying_reserve b t id a adm w :
  occupying_runs b (set_db (reserve_for t id a adm) w) = occupying_runs b w.
Proof.
  apply set_eq. intros x. rewrite !elem_of_occupying, !elem_of_active_lease_runs.
  destruct adm as [|src lid ex]; [done|]. simpl. unfold admission_db.
  destruct (db_leases (w_db w) !! (t, id)) eqn:Hl; [done|]. simpl.
  assert ((exists l, <[(t, id) := mkLease a src reserved None clock]> (db_leases (w_db w)) !!
      (wl_run, x) = Some l /\ lease_agentId l = b /\ lease_phase l = active /\
      is_Some (db_runs (w_db w) !! x)) <->
    (exists l, db_leases (w_db w) !! (wl_run, x) = Some l /\ lease_agentId l = b /\
      lease_phase l = active /\ is_Some (db_runs (w_db w) !! x))) as ->; [|done].
  destruct (decide ((t, id) = (wl_run, x))) as [Heq|Hne].
  - rewrite Heq in Hl |- *. rewrite lookup_insert_eq, Hl. naive_solver.
  - by rewrite lookup_insert_ne.
Qed.

Lemma reserve_for_runs t id a adm d : db_runs (reserve_for t id a adm d) = db_runs d.
Proof. destruct adm; simpl; [done|]. unfold admission_db. by case_match. Qed.

Lemma hasLease_reserve id a g : hasExecutionLease id (reserveExecutionLease id a g).2 = true.
Proof.
  unfold hasExecutionLease, reserveExecutionLease, getOrCreateExecutionLease.
  apply bool_decide_eq_true. destruct (leasesByRunId g !! id) eqn:Hg; simpl.
  - rewrite Hg. eauto.
  - rewrite lookup_insert_eq. eauto.
Qed.

Lemma admitRun_db_only a id mx : db_only (db_admitRun a id mx).
Proof.
  apply db_only_try_catch; [|eauto with db_only].
  apply admission_db_only. intros adm. apply admit_write_db_only.
Qed.

(** What [admitRun] tells the queue *)
Lemma admitRun_cases a id mx w o w' :
  db_admitRun a id mx w = (o, w') ->
  match o with
  | Throw _ => w' = w
  | Ret v =>
      w' = w /\ v = mkAdmission slot_queue_full false false /\
        mx <= size (occupying_runs a w) /\
        MAX_QUEUE_LENGTH <= size (runs_in a queued (w_db w)) \/
      exists adm r, admission_of wl_run id a (w_db w) = Some adm /\
        admitted a id mx adm v r (set_db (reserve_for wl_run id a adm) w) w'
  end.
Proof.
  intros Hrun. pose proof (admitRun_db_only a id mx _ _ _ Hrun) as Hmem. revert Hrun.
  unfold db_admitRun, try_catch.
  destruct (withScmWorkloadAdmission _ _ _ _ w) as [[v|e] w1] eqn:Hadm.
  - intros [= <- <-]. apply admission_Ret in Hadm as (_ & adm & Hof & Hk).
    apply admit_write_Ret in Hk as [r Hr]. right. eauto.
  - pose proof (admission_Throw _ _ _ _ _ _ _ Hadm) as Hdb.
    destruct (decide (e = RunQueueFullError)) as [->|Hne]; intros [= <- <-].
    + left. split; [by apply world_eq|]. split; [done|].
      assert (exists adm w2, admit_write a id mx adm (set_db (reserve_for wl_run id a adm) w)
        = (Throw RunQueueFullError, w2)) as (adm & w2 & Hk).
      { apply admission_thrown in Hadm as (_ & adm & w2 & _ & Hk); [eauto|]. by intros [? [? | ?]]. }
      apply admit_write_full in Hk as [Ho Hq]. rewrite occupying_reserve in Ho.
      unfold runs_in in Hq. simpl in Hq. rewrite reserve_for_runs in Hq. done.
    + by apply world_eq.
Qed.

(** The lease an acquired run ends up with *)
Lemma admitted_lease a id adm w w1 :
  admission_of wl_run id a (w_db w) = Some adm ->
  (if has_lease_id adm then owned_lease wl_run id (set_db (reserve_for wl_run id a adm) w) w1
   else db_leases (w_db w1) = db_leases (reserve_for wl_run id a adm (w_db w))) ->
  exists ag, db_agents (w_db w) !! a = Some ag /\
    if decide (agent_workspaceType ag = ws_scm) then
      exists l, db_leases (w_db w1) !! (wl_run, id) = Some l /\ lease_phase l = active /\
        lease_ownerInstanceId l = Some processInstanceId /\
        agent_scmSourceId ag = Some (lease_scmSourceId l)
    else db_leases (w_db w1) !! (wl_run, id) = None.
Proof.
  unfold admission_of. destruct (db_agents (w_db w) !! a) as [ag|]; [|done].
  destruct (decide (agent_workspaceType ag <> ws_scm)) as [Hs|Hs].
  { destruct (db_leases (w_db w) !! (wl_run, id)) eqn:Hl; [done|]. intros [= <-]. simpl.
    intros Hleases. exists ag. split; [done|]. rewrite decide_False by done. by rewrite Hleases. }
  apply dec_stable in Hs.
  destruct (agent_scmSourceId ag) as [[|c src]|] eqn:Hsrc; [done| |done].
  intros Hadm Hown. exists ag. split; [done|]. rewrite decide_True by done.
  assert (exists l, db_leases (reserve_for wl_run id a adm (w_db w)) !! (wl_run, id) = Some l /\
    lease_scmSourceId l = String c src /\ has_lease_id adm = true) as (l & Hl & Hls & Hhas).
  { destruct (db_leases (w_db w) !! (wl_run, id)) as [l|] eqn:Hl.
    - destruct (decide _) as [[_ Hls]|]; [|done]. injection Hadm as <-.
      exists l. unfold reserve_for, admission_db. by rewrite Hl.
    - injection Hadm as <-. eexists. unfold reserve_for, admission_db. rewrite Hl. simpl.
      rewrite lookup_insert_eq. split; [done|]. done. }
  rewrite Hhas in Hown. destruct Hown as (l0 & l' & Hl0 & -> & _ & Hs' & Hp & Ho).
  simpl in Hl0. exists l'. rewrite lookup_insert_eq. split_and!; [done..|]. congruence.
Qed.
End Admission.

Lemma promoteQueuedRuns_run `{Instance} a w :
  promoteQueuedRuns a w =
  match db_agents (w_db w) !! a with
  | Some ag => promote_loop (MAX_QUEUE_LENGTH + agent_maxConcurrency ag) a
                 (agent_maxConcurrency ag) 0 w
  | None => (Ret 0, w)
  end.
Proof.
  unfold promoteQueuedRuns, withAgentScmWorkloadLock, promoteQueuedRunsLocked, mbind, M_bind,
    getAgentMaxConcurrency, taskQueueDb, db_getAgentMaxConcurrency, select, gets.
  by destruct (db_agents (w_db w) !! a).
Qed.

(** Whatever [scheduleNext] returns, it went through a chain of promotions. *)
Lemma schedule_next_promotions `{Instance} a w o w' :
  a <> "" -> wf (w_reg w) -> scheduleNext a w = (o, w') ->
  exists mx ids, default 0 (agent_maxConcurrency <$> db_agents (w_db w) !! a) = mx /\
    promotions a mx ids w w' /\ (w_runPromotionsPaused w = true -> ids = []).
Proof.
  intros Hne Hw. unfold scheduleNext, mbind, M_bind, gets, try_catch.
  destruct (w_runPromotionsPaused w).
  { intros [= _ <-]. eexists _, []. split; [reflexivity|]. split; [constructor|done]. }
  assert (forall o1 w1, promoteQueuedRuns a w = (o1, w1) -> exists mx ids,
    default 0 (agent_maxConcurrency <$> db_agents (w_db w) !! a) = mx /\
    promotions a mx ids w w1) as Hgen.
  { intros o1 w1. rewrite promoteQueuedRuns_run.
    destruct (db_agents (w_db w) !! a) as [ag|].
    - intros Hl. apply (promote_loop_spec _ a) in Hl as (ids & Hp & _); [|done|done]. eauto.
    - intros [= _ <-]. exists 0, []. split; [done|constructor]. }
  destruct (promoteQueuedRuns a w) as [[m|e] w1] eqn:Hr; intros [= _ <-];
    destruct (Hgen _ _ eq_refl) as (mx & ids & ? & ?); exists mx, ids;
    (split; [assumption|]; split; [assumption|discriminate]).
Qed.

(** Admission, with the row it writes *)
Lemma acquire_outcome `{Instance} a id mx w o w' :
  wf (w_reg w) -> tryAcquireSlot a id mx w = (o, w') ->
  match o with
  | Throw _ => w' = w
  | Ret slot_queue_full => w' = w /\
      (w_runPromotionsPaused w = true \/
       mx <= size (occupying_runs a w) /\ MAX_QUEUE_LENGTH <= size (runs_in a queued (w_db w)))
  | Ret slot_queued =>
      w_runPromotionsPaused w = false /\ memory w' = memory w /\
      mx <= size (occupying_runs a w) /\ size (runs_in a queued (w_db w)) < MAX_QUEUE_LENGTH /\
      exists r, db_runs (w_db w) !! id = Some r /\
        db_runs (w_db w') = <[id := admitted_row slot_queued r]> (db_runs (w_db w))
  | Ret slot_acquired =>
      w_runPromotionsPaused w = false /\ size (occupying_runs a w) < mx /\
      hasExecutionLease id (w_reg w') = true /\
      (exists r, db_runs (w_db w) !! id = Some r /\
        db_runs (w_db w') = <[id := admitted_row slot_acquired r]> (db_runs (w_db w))) /\
      (exists ag, db_agents (w_db w) !! a = Some ag /\
        if decide (agent_workspaceType ag = ws_scm) then
          exists l, db_leases (w_db w') !! (wl_run, id) = Some l /\ lease_phase l = active /\
            lease_ownerInstanceId l = Some processInstanceId /\
            agent_scmSourceId ag = Some (lease_scmSourceId l)
        else db_leases (w_db w') !! (wl_run, id) = None)
  end.
Proof.
  intros Hw. unfold tryAcquireSlot, withAgentScmWorkloadLock. simpl.
  unfold mbind at 1, M_bind at 1, gets at 1.
  destruct (w_runPromotionsPaused w) eqn:Hp; [intros [= <- <-]; auto|].
  unfold mbind at 1, M_bind at 1.
  destruct (db_admitRun a id mx w) as [[v|e] w1] eqn:Hadm;
    pose proof (admitRun_cases _ _ _ _ _ _ Hadm) as Hcase;
    pose proof (admitRun_db_only _ _ _ _ _ _ Hadm) as Hmem; simpl in Hcase;
    [|intros [= <- <-]; exact Hcase].
  destruct Hcase as [(-> & -> & Ho & Hq)|(adm & r & Hof & Ha)].
  { intros [= <- <-]. auto. }
  destruct Ha as [Hr Hlid Hruns _ Hslot]. simpl in Hr, Hruns.
  rewrite reserve_for_runs in Hr, Hruns.
  rewrite occupying_reserve in Hslot. unfold runs_in in Hslot. simpl in Hslot.
  rewrite reserve_for_runs in Hslot. destruct (adm_slot v) eqn:Hv; [| |done].
  - destruct Hslot as (Hroom & Hact & Hleases). rewrite Hlid, Hact.
    rewrite decide_True by done. unfold mbind, M_bind. rewrite reserve_run.
    replace (has_lease_id adm && negb (has_lease_id adm)) with false
      by (by destruct (has_lease_id adm)).
    intros [= <- <-]. simpl. rewrite Hruns.
    split; [done|]. split; [done|]. split; [apply hasLease_reserve|]. split.
    { by exists r. }
    by eapply admitted_lease.
  - destruct Hslot as (Hroom & Hq & Hleases). rewrite decide_False by congruence.
    intros [= <- <-]. split; [done|]. split; [done|]. split; [done|]. split; [done|].
    by exists r.
Qed.

(** ** Properties *)

(** C1. Admission, on every branch: a run is acquired only while the agent has
    a free slot, and then is running under this process with its execution
    lease held and its SCM lease active under this process; it is queued only
    when the agent is at capacity with room in the queue; a refusal or an error
    changes nothing. *)
Theorem admission_outcome `{Instance} a id mx w o w' :
  wf (w_reg w) -> tryAcquireSlot a id mx w = (o, w') ->
  match o with
  | Throw _ => w' = w
  | Ret slot_queue_full => w' = w /\
      (w_runPromotionsPaused w = true \/
       mx <= size (occupying_runs a w) /\ MAX_QUEUE_LENGTH <= size (runs_in a queued (w_db w)))
  | Ret slot_queued =>
      w_runPromotionsPaused w = false /\ memory w' = memory w /\
      mx <= size (occupying_runs a w) /\ size (runs_in a queued (w_db w)) < MAX_QUEUE_LENGTH /\
      exists r r', db_runs (w_db w) !! id = Some r /\
        db_runs (w_db w') = <[id := r']> (db_runs (w_db w)) /\
        run_status r' = queued /\ run_ownerInstanceId r' = None /\ run_queuedAt r' = Some clock
  | Ret slot_acquired =>
      w_runPromotionsPaused w = false /\ size (occupying_runs a w) < mx /\
      hasExecutionLease id (w_reg w') = true /\
      (exists r r', db_runs (w_db w) !! id = Some r /\
        db_runs (w_db w') = <[id := r']> (db_runs (w_db w)) /\
        run_status r' = running /\ run_ownerInstanceId r' = Some processInstanceId /\
        run_queuedAt r' = None) /\
      (exists ag, db_agents (w_db w) !! a = Some ag /\
        if decide (agent_workspaceType ag = ws_scm) then
          exists l, db_leases (w_db w') !! (wl_run, id) = Some l /\ lease_phase l = active /\
            lease_ownerInstanceId l = Some processInstanceId /\
            agent_scmSourceId ag = Some (lease_scmSourceId l)
        else db_leases (w_db w') !! (wl_run, id) = None)
  end.
Proof.
  intros Hw Hrun. pose proof (acquire_outcome _ _ _ _ _ _ Hw Hrun) as Hout.
  destruct o as [[]|e]; [| |done..].
  - destruct Hout as (Hp & Hroom & Hl & (r & Hr & Hruns) & Hag). split_and!; try done.
    by exists r, (admitted_row slot_acquired r).
  - destruct Hout as (Hp & Hm & Hroom & Hq & r & Hr & Hruns). split_and!; try done.
    by exists r, (admitted_row slot_queued r).
Qed.

(** C2. Promotion never over-admits and never jumps the queue: [scheduleNext]
    always returns a number; the runs it started are distinct, were queued runs
    of the agent, were started oldest first and are now running under this
    process; no other row moved; and the agent occupies at most its
    concurrency limit, or what it occupied before if that was more. *)
Theorem schedule_next_safe `{Instance} a w o w' :
  a <> "" -> wf (w_reg w) -> scheduleNext a w = (o, w') ->
  (exists m, o = Ret m) /\
  exists ids, w_started w' = w_started w ++ ((fun id => (id, a)) <$> ids) /\
    (w_runPromotionsPaused w = true -> ids = []) /\
    NoDup ids /\
    (forall id, id ∈ ids -> exists r r', db_runs (w_db w) !! id = Some r /\
       run_initiatorAgentId r = Some a /\ run_status r = queued /\
       db_runs (w_db w') !! id = Some r' /\ run_status r' = running /\
       run_ownerInstanceId r' = Some processInstanceId) /\
    (forall id, id ∉ ids -> db_runs (w_db w') !! id = db_runs (w_db w) !! id) /\
    (forall i j x y rx ry, i < j -> ids !! i = Some x -> ids !! j = Some y ->
       db_runs (w_db w) !! x = Some rx -> db_runs (w_db w) !! y = Some ry ->
       (run_createdAt rx <= run_createdAt ry)%Z) /\
    size (occupying_runs a w') <=
      Nat.max (default 0 (agent_maxConcurrency <$> db_agents (w_db w) !! a))
        (size (occupying_runs a w)).
Proof.
  intros Hne Hw Hs. split.
  { revert Hs. unfold scheduleNext, mbind, M_bind, gets, try_catch.
    destruct (w_runPromotionsPaused w); [intros [= <- _]; eauto|].
    destruct (promoteQueuedRuns a w) as [[m|e] w1]; intros [= <- _]; eauto. }
  destruct (schedule_next_promotions a w o w' Hne Hw Hs) as (mx & ids & Hmx & Hp & Hpaused).
  destruct (promotions_rows _ _ _ _ _ Hp) as (Hnd & Hin & Hout).
  exists ids. split; [by eapply promotions_started|]. split; [done|]. split; [done|].
  split; [|split; [done|split; [by eapply promotions_fifo|]]].
  - intros id (r & ? & ? & ? & ?)%Hin. exists r, (promoted_row r). done.
  - rewrite Hmx. by apply (promotions_capacity a mx ids).
Qed.


(** ** Witnesses *)

Definition demo_run (st : RunStatus) (created : Z) : Run :=
  mkRun st None None None None None None None (Some "a1") None created 0 empty_usage empty_origin.

(** An agent with one slot, one run to admit and two waiting *)
Definition queue_demo : World :=
  set_db (fun _ => mkDb {[ "r1" := demo_run pending 1; "r2" := demo_run queued 3;
                           "r3" := demo_run queued 2 ]}
                     ∅ {[ "a1" := mkAgent 1 ws_temp None true "A" None None None false ]} ∅ ∅ ∅ ∅ ∅ ∅ ∅) empty_world.

Lemma admission_outcome_witness :
  hasExecutionLease "r1" (w_reg (@tryAcquireSlot (@taskQueueDb ex_instance) "a1" "r1" 1 queue_demo).2)
    = true.
Proof.
  refine (proj1 (proj2 (proj2 (@admission_outcome ex_instance "a1" "r1" 1 queue_demo
    (Ret slot_acquired) (@tryAcquireSlot (@taskQueueDb ex_instance) "a1" "r1" 1 queue_demo).2
    wf_empty _)))).
  vm_compute. reflexivity.
Defined.

Lemma schedule_next_safe_witness :
  exists m, (@scheduleNext (@taskQueueDb ex_instance) "a1" queue_demo).1 = Ret m.
Proof.
  refine (proj1 (@schedule_next_safe ex_instance "a1" queue_demo _
    (@scheduleNext (@taskQueueDb ex_instance) "a1" queue_demo).2 _ wf_empty _)); [done|].
  by destruct (scheduleNext _ _).
Defined.

