(* ===== verification/RunClaims.v ===== *)
(** * Claims on a run row

    The compare-and-set claims through which requests, sweepers and operators
    take a run over: [run-cancellation.ts], [reap-run-claim.ts],
    [orphaned-run-reaper.ts] ([claimRunForReap]) and [run-retry-in-place.ts]
    under [apps/api/src/lib]. *)
From S2P Require Import Prelude Json Schema LeaseRegistry World ScmWorkload Resume TaskQueue TaskQueueDb.

(** ** Cancellation *)

Inductive CancellableRunStatus := cancel_running | cancel_queued.

Definition cancellable (s : CancellableRunStatus) : RunStatus :=
  match s with cancel_running => running | cancel_queued => queued end.

Section Claims.
Context `{Instance}.

Definition cancelled_row (r : Run) : Run :=
  with_updatedAt clock (with_queuedAt None (with_status cancelled r)).

(** First-terminal-wins compare-and-set shared by every cancellation endpoint *)
Definition claimRunCancellation (runId : string) (expectedStatus : CancellableRunStatus)
    : M World bool :=
  withScmPathMutation (
    claimed ← update_runs runId
      (fun r => bool_decide (run_status r = cancellable expectedStatus)) cancelled_row;
    _ ← (match claimed : bool, expectedStatus with
         | true, cancel_queued => releaseReservedScmWorkloadInMutation wl_run runId
         | _, _ => mret false
         end);
    mret claimed).

(** ** The claim of the dead-instance reapers *)

Record ReapRunClaimScope := mkScope {
  scope_statuses : list RunStatus;
  scope_allowUnownedRows : bool
}.

Definition reap_reason : FailureReason := FAILURE_REASONS INSTANCE_STOPPED_DURING_EXEC.

Definition reaped_row (r : Run) : Run :=
  with_updatedAt clock
    (with_result (Some (JObj (error_object (reason_json reap_reason)))) (with_status failed r)).

(** The status and owner fence of the update *)
Definition reapable (expectedOwnerInstanceId : string) (scope : ReapRunClaimScope) (r : Run) : bool :=
  bool_decide (run_status r ∈ scope_statuses scope) &&
  (scope_allowUnownedRows scope && bool_decide (run_ownerInstanceId r = None) ||
   bool_decide (run_ownerInstanceId r = Some expectedOwnerInstanceId)).

Definition claimReapableRun (runId expectedOwnerInstanceId : string) (scope : ReapRunClaimScope)
    : M World bool :=
  withScmPathMutation (
    claimed ← update_runs runId (reapable expectedOwnerInstanceId scope) reaped_row;
    if negb claimed then mret false
    else
      _ ← db_write (set_steps (settle_steps runId (fail_step_with (reason_json reap_reason))));
      mret true).

Definition REAPABLE_RUN_STATUSES : list RunStatus := [running].

Definition claimRunForReap (runId expectedOwnerInstanceId : string) : M World bool :=
  claimReapableRun runId expectedOwnerInstanceId (mkScope REAPABLE_RUN_STATUSES false).

(** ** Retrying in place *)

Record RetryMetadataOptions := mkRetryOptions {
  opt_userId : option string;
  opt_attachments : option (list json);
  opt_attachmentConsumerId : option string;
  opt_nativeChatContext : option js_object;
  opt_queuedTurn : bool
}.

(** [...(s ? { k: s } : {})] for an optional string *)
Definition spread_string (k : string) (s : option string) (o : js_object) : js_object :=
  if str_absent s then o else obj_set_opt o k (JStr <$> s).

(** [...(prior.k ? { k: prior.k } : {})] *)
Definition inherit (k : string) (prior o : js_object) : js_object :=
  if truthy (obj_get prior k) then obj_set_opt o k (obj_get prior k) else o.

(** [...(prior.k ? { k: true } : {})] *)
Definition inherit_flag (k : string) (prior o : js_object) : js_object :=
  if truthy (obj_get prior k) then obj_set o k (JBool true) else o.

(** [retryAttempt] and [gitTriggerOrigin] are read at their declared types, a
    number and an object. *)
Definition buildRetryMetadata (previous : option js_object) (options : RetryMetadataOptions)
    : js_object :=
  let prior := default [] previous in
  let attempt := js_succ (default (JInt 0) (as_number (obj_get prior "retryAttempt"))) in
  let o := [("retryAttempt", JNum attempt)] in
  let o := spread_string "runtimeAdminRequesterUserId" (opt_userId options) o in
  let o := inherit "oauthCallerId" prior o in
  let o := inherit "oauthEngineType" prior o in
  let o := inherit_flag "oauthResetSession" prior o in
  let o := inherit_flag "nativeChatResetSession" prior o in
  let o := match opt_attachments options with
           | None | Some [] => o
           | Some l => obj_set o "attachments" (JArr l)
           end in
  let o := spread_string "attachmentConsumerId" (opt_attachmentConsumerId options) o in
  let o := obj_set_opt o "nativeChatContext" (JObj <$> opt_nativeChatContext options) in
  let o := if opt_queuedTurn options then obj_set o "queuedTurn" (JBool true) else o in
  match as_object (obj_get prior "gitTriggerOrigin") with
  | Some origin => obj_set o "gitTriggerOrigin" (JObj (obj_set origin "queued" (JBool false)))
  | None => o
  end.

Definition retried_row (metadata : js_object) (r : Run) : Run :=
  with_updatedAt clock (with_metadata (Some metadata) (with_queuedAt None (with_owner None
    (with_workDir None (with_result None (with_status pending r)))))).

Definition claimRunForRetry (runId : string) (metadata : js_object) : M World bool :=
  update_runs runId (fun r => bool_decide (run_status r = failed)) (retried_row metadata).

Definition restored_row (previous r : Run) : Run :=
  with_updatedAt clock (with_metadata (run_executionMetadata previous)
    (with_queuedAt (run_queuedAt previous) (with_owner (run_ownerInstanceId previous)
    (with_workDir (run_workDir previous) (with_result (run_result previous)
    (with_status failed r)))))).

Definition restoreFailedRun (runId : string) (previous : Run) : M World unit :=
  _ ← update_runs runId (fun _ => true) (restored_row previous); mret tt.

(** ** Lemmas *)

Lemma claimRunCancellation_Ret id st w b w' :
  claimRunCancellation id st w = (Ret b, w') ->
  if b then exists r, db_runs (w_db w) !! id = Some r /\ run_status r = cancellable st /\
              db_runs (w_db w') = <[id := cancelled_row r]> (db_runs (w_db w))
  else w' = w /\ forall r, db_runs (w_db w) !! id = Some r -> run_status r <> cancellable st.
Proof.
  unfold claimRunCancellation, withScmPathMutation. rewrite withTransaction_Ret. intros Hc.
  inv_bind Hc as (c & w1 & Hu & Hk). inv_bind Hk as (x & w2 & Hr & [= -> ->]).
  rewrite update_runs_cond in Hu.
  destruct (db_runs (w_db w) !! id) as [r|] eqn:Hrow.
  - destruct (bool_decide_reflect (run_status r = cancellable st)) as [Hst|Hst].
    + injection Hu as <- <-. exists r. split; [done|]. split; [done|].
      destruct st; [by injection Hr as _ <-|].
      unfold releaseReservedScmWorkloadInMutation, write_returning in Hr. simpl in Hr.
      repeat case_match; by simplify_eq.
    + injection Hu as <- <-. injection Hr as _ <-. split; [done|]. by intros ? [= <-].
  - injection Hu as <- <-. injection Hr as _ <-. done.
Qed.

(** The lease side of a cancellation *)
Lemma cancellation_leases id st w b w' :
  claimRunCancellation id st w = (Ret b, w') ->
  (b = true -> st = cancel_queued ->
     forall l, db_leases (w_db w') !! (wl_run, id) = Some l -> lease_phase l = active) /\
  (forall k l, db_leases (w_db w) !! k = Some l -> lease_phase l = active ->
     db_leases (w_db w') !! k = Some l).
Proof.
  unfold claimRunCancellation, withScmPathMutation. rewrite withTransaction_Ret. intros Hc.
  inv_bind Hc as (c & w1 & Hu & Hk). inv_bind Hk as (x & w2 & Hr & [= -> ->]).
  assert (db_leases (w_db w1) = db_leases (w_db w)) as HL
    by (rewrite update_runs_run in Hu; by injection Hu as _ <-).
  destruct b; [destruct st|]; try (injection Hr as _ <-; rewrite HL; done).
  unfold releaseReservedScmWorkloadInMutation, write_returning in Hr. rewrite HL in Hr.
  destruct (db_leases (w_db w) !! (wl_run, id)) as [l|] eqn:Hl; [destruct (decide _) as [Hp|Hp]|];
    injection Hr as _ <-; simpl; rewrite HL; split; try done.
  - intros _ _ l'. by rewrite lookup_delete_eq.
  - intros k l' Hk Ha. rewrite lookup_delete_ne; [done|]. intros <-. congruence.
  - intros _ _ l'. rewrite Hl. intros [= <-]. by destruct (lease_phase l).
  - intros _ _ l'. by rewrite Hl.
Qed.

Lemma claimReapableRun_run id o sc w :
  claimReapableRun id o sc w =
  match db_runs (w_db w) !! id with
  | Some r => if reapable o sc r then
      (Ret true, set_db (fun d => set_steps (settle_steps id
         (fail_step_with (reason_json reap_reason))) (set_runs (insert id (reaped_row r)) d)) w)
      else (Ret false, w)
  | None => (Ret false, w)
  end.
Proof.
  unfold claimReapableRun, withScmPathMutation, withTransaction, mbind, M_bind, db_write, modify.
  rewrite update_runs_cond. destruct (db_runs (w_db w) !! id) as [r|]; [|done].
  by destruct (reapable o sc r).
Qed.

Lemma requeue_db_only id code o : db_only (db_requeueForResume id code o).
Proof.
  unfold db_requeueForResume. apply db_only_withTransaction.
  apply db_only_bind; [eauto with db_only|]. intros cur.
  apply db_only_bind; [eauto with db_only|]. intros res.
  apply db_only_bind; [apply db_only_update_runs|]. intros b. eauto with db_only.
Qed.

(** Nothing in the requeue throws. *)
Lemma requeue_no_throw id code o w e w' : db_requeueForResume id code o w <> (Throw e, w').
Proof.
  intros [w1 [Hr _]]%withTransaction_Throw. revert Hr.
  unfold mbind, M_bind, select, gets. destruct (match code with Some "" => None | _ => code end);
    simpl; rewrite update_runs_run; destruct (update_where _ _ _ _) as [[] t]; done.
Qed.

Lemma requeue_Ret id code o w b w' :
  db_requeueForResume id code o w = (Ret b, w') ->
  if b then exists r r', db_runs (w_db w) !! id = Some r /\ run_status r = running /\
      (forall x, o = Some x -> x <> "" -> run_ownerInstanceId r = Some x) /\
      db_runs (w_db w') = <[id := r']> (db_runs (w_db w)) /\
      run_status r' = queued /\ run_ownerInstanceId r' = None /\ run_result r' = None /\
      run_initiatorAgentId r' = run_initiatorAgentId r /\
      db_heartbeats (w_db w') = db_heartbeats (w_db w)
  else w' = w.
Proof.
  unfold db_requeueForResume. rewrite withTransaction_Ret. intros Hq.
  inv_bind Hq as (cur & w1 & Hcur & Hk).
  assert (w1 = w) as -> by (repeat case_match; by injection Hcur as _ <-).
  inv_bind Hk as (res & w2 & [= <- <-] & Hk). inv_bind Hk as (u & w3 & Hu & Hk).
  rewrite update_runs_cond in Hu. destruct (db_runs (w_db w) !! id) as [r|] eqn:Hr.
  - destruct (_ && _) eqn:Hcond; injection Hu as <- <-; injection Hk as <- <-; [|done].
    bool_to_prop. simpl. eexists r, _. split; [done|]. split; [done|]. split.
    { intros x -> Hx. destruct x; [done|]. by bool_to_prop. }
    split; [done|]. repeat case_match; done.
  - injection Hu as <- <-. by injection Hk as <- <-.
Qed.
End Claims.

(** ** One winner per run *)

(** The claims that race for a live run *)
Inductive run_claim :=
| claim_cancel (st : CancellableRunStatus)
| claim_reap (owner : string) (scope : ReapRunClaimScope)
| claim_requeue (code owner : option string)
| claim_promote (agentId : string) (maxConcurrency : nat).

Definition exec_claim `{Instance} (id : string) (c : run_claim) : M World bool :=
  match c with
  | claim_cancel st => claimRunCancellation id st
  | claim_reap o sc => claimReapableRun id o sc
  | claim_requeue code o => db_requeueForResume id code o
  | claim_promote a mx => db_promoteQueuedRun a id mx
  end.

(** No sweeper puts a settled status in its scope. *)
Definition live_scope (c : run_claim) : Prop :=
  match c with
  | claim_reap _ sc => Forall (fun st => terminal st = false) (scope_statuses sc)
  | _ => True
  end.

Definition settles (c : run_claim) : bool :=
  match c with claim_cancel _ | claim_reap _ _ => true | _ => false end.

Lemma settled_row_terminal `{Instance} id c w w1 :
  settles c = true -> exec_claim id c w = (Ret true, w1) ->
  exists r, db_runs (w_db w1) !! id = Some r /\ terminal (run_status r) = true.
Proof.
  destruct c as [st|o sc| |]; intros Hs; [| |done|done]; simpl.
  - intros (r & _ & _ & Hr)%claimRunCancellation_Ret. eexists. by rewrite Hr, lookup_insert_eq.
  - rewrite claimReapableRun_run. repeat case_match; [|done|done]. intros [= <-]. simpl.
    eexists. by rewrite lookup_insert_eq.
Qed.

(** A settled run is nobody's to claim. *)
Lemma terminal_unclaimed `{Instance} id c w r b w' :
  live_scope c -> db_runs (w_db w) !! id = Some r -> terminal (run_status r) = true ->
  exec_claim id c w = (Ret b, w') -> b = false /\ w' = w.
Proof.
  intros Hsc Hr Ht. destruct c as [st|o sc|code o|a mx]; simpl.
  - intros Hc%claimRunCancellation_Ret. destruct b; [|by destruct Hc].
    destruct Hc as (r' & Hr' & Hst & _). simplify_eq. by destruct st; rewrite Hst in Ht.
  - rewrite claimReapableRun_run, Hr. unfold reapable.
    rewrite bool_decide_eq_false_2; [by intros [= <- <-]|]. intros Hin.
    simpl in Hsc. rewrite Forall_forall in Hsc. by rewrite (Hsc _ Hin) in Ht.
  - intros Hc%requeue_Ret. destruct b; [|by split].
    destruct Hc as (r' & _ & Hr' & Hst & _). simplify_eq. by rewrite Hst in Ht.
  - rewrite promote_run, Hr. destruct (_ <=? _)%nat; [by intros [= <- <-]|].
    destruct (decide _) as [Hst|]; [by rewrite Hst in Ht|by intros [= <- <-]].
Qed.

(** ** What a retry starts from *)

Definition RETRY_KEYS : list string :=
  ["retryAttempt"; "runtimeAdminRequesterUserId"; "oauthCallerId"; "oauthEngineType";
   "oauthResetSession"; "nativeChatResetSession"; "attachments"; "attachmentConsumerId";
   "nativeChatContext"; "queuedTurn"; "gitTriggerOrigin"].

Definition keys_in (ks : list string) (o : js_object) : Prop :=
  forall x, is_Some (obj_get o x) -> x ∈ ks.

Section KeysIn.
Context (ks : list string).

Lemma keys_set o k v : k ∈ ks -> keys_in ks o -> keys_in ks (obj_set o k v).
Proof.
  intros Hk Ho x. destruct (decide (x = k)) as [->|Hne]; [done|].
  rewrite obj_get_set_ne by done. apply Ho.
Qed.

Lemma keys_set_opt o k v : k ∈ ks -> keys_in ks o -> keys_in ks (obj_set_opt o k v).
Proof. destruct v; simpl; eauto using keys_set. Qed.

Lemma keys_spread o k s : k ∈ ks -> keys_in ks o -> keys_in ks (spread_string k s o).
Proof. unfold spread_string. case_match; eauto using keys_set_opt. Qed.

Lemma keys_inherit prior o k : k ∈ ks -> keys_in ks o -> keys_in ks (inherit k prior o).
Proof. unfold inherit. case_match; eauto using keys_set_opt. Qed.

Lemma keys_inherit_flag prior o k : k ∈ ks -> keys_in ks o -> keys_in ks (inherit_flag k prior o).
Proof. unfold inherit_flag. case_match; eauto using keys_set. Qed.
End KeysIn.

Create HintDb keys_in.
#[export] Hint Resolve keys_set keys_set_opt keys_spread keys_inherit keys_inherit_flag : keys_in.
#[export] Hint Extern 1 (_ ∈ RETRY_KEYS) => apply (bool_decide_unpack _); vm_compute; exact I : keys_in.
#[export] Hint Extern 1 (keys_in _ (if ?b then _ else _)) => destruct b : keys_in.
#[export] Hint Extern 1 (keys_in _ (match ?x with _ => _ end)) => destruct x : keys_in.

Lemma buildRetryMetadata_keys previous options :
  keys_in RETRY_KEYS (buildRetryMetadata previous options).
Proof.
  assert (forall v, keys_in RETRY_KEYS [("retryAttempt", v)]) as Hbase.
  { intros v x. simpl. case_decide as Heq; [subst x; intros _; auto with keys_in | by intros []]. }
  unfold buildRetryMetadata. cbv zeta. auto 30 with keys_in.
Qed.

(** Later spreads leave the count alone. *)
Lemma spread_string_other k s o x : x <> k -> obj_get (spread_string k s o) x = obj_get o x.
Proof. intros. unfold spread_string. case_match; [done|by apply obj_get_set_opt_ne]. Qed.
Lemma inherit_other k prior o x : x <> k -> obj_get (inherit k prior o) x = obj_get o x.
Proof. intros. unfold inherit. case_match; [by apply obj_get_set_opt_ne|done]. Qed.
Lemma inherit_flag_other k prior o x : x <> k -> obj_get (inherit_flag k prior o) x = obj_get o x.
Proof. intros. unfold inherit_flag. case_match; [by apply obj_get_set_ne|done]. Qed.

Lemma buildRetryMetadata_attempt previous options :
  obj_get (buildRetryMetadata previous options) "retryAttempt" =
  Some (JNum (js_succ (default (JInt 0) (as_number (meta_get previous "retryAttempt"))))).
Proof.
  assert (as_number (meta_get previous "retryAttempt") =
    as_number (obj_get (default [] previous) "retryAttempt")) as -> by by destruct previous.
  unfold buildRetryMetadata. cbv zeta.
  destruct (as_object _), (opt_queuedTurn options), (opt_attachments options) as [[]|];
    repeat first [rewrite obj_get_set_ne by done | rewrite obj_get_set_opt_ne by done
      | rewrite spread_string_other by done | rewrite inherit_other by done
      | rewrite inherit_flag_other by done]; done.
Qed.

(** ** Properties *)

(** First terminal wins: once a cancellation or a reaper has settled a run,
    every later cancellation, reap, requeue or promotion of it, from whatever
    process, reports that it lost and changes nothing. *)
Theorem first_terminal_wins (i1 i2 : Instance) id c c' w w1 w2 b w3 :
  settles c = true -> live_scope c' ->
  @exec_claim i1 id c w = (Ret true, w1) ->
  db_runs (w_db w2) !! id = db_runs (w_db w1) !! id ->
  @exec_claim i2 id c' w2 = (Ret b, w3) ->
  b = false /\ w3 = w2.
Proof.
  intros Hs Hsc Hc Heq Hc'.
  destruct (@settled_row_terminal i1 _ _ _ _ Hs Hc) as (r & Hr & Ht).
  apply (@terminal_unclaimed i2 id c' w2 r b w3); [done|congruence|done|done].
Qed.

(** A retry starts from its intent: after a successful claim the row is
    pending and carries no result, session, owner, work directory or queue
    mark, its metadata holds nothing but the allowlisted keys with the retry
    counted, and recovery would not resume the failed attempt's session. *)
Theorem retry_starts_fresh `{Instance} id options w w' :
  forall r, db_runs (w_db w) !! id = Some r ->
  claimRunForRetry id (buildRetryMetadata (run_executionMetadata r) options) w = (Ret true, w') ->
  run_status r = failed /\
  exists r', db_runs (w_db w') = <[id := r']> (db_runs (w_db w)) /\
    run_status r' = pending /\ run_result r' = None /\ run_ownerInstanceId r' = None /\
    run_workDir r' = None /\ run_queuedAt r' = None /\
    (forall k, is_Some (meta_get (run_executionMetadata r') k) -> k ∈ RETRY_KEYS) /\
    meta_get (run_executionMetadata r') "retryAttempt" =
      Some (JNum (js_succ (default (JInt 0)
        (as_number (meta_get (run_executionMetadata r) "retryAttempt"))))) /\
    resumeChatIdFromRow r' None = None.
Proof.
  intros r Hr. unfold claimRunForRetry. rewrite update_runs_cond, Hr.
  destruct (bool_decide_reflect (run_status r = failed)) as [Hst|]; [|done].
  intros [= <-]. split; [done|]. eexists. split; [done|].
  split_and!; [done..| | |].
  - intros k. apply buildRetryMetadata_keys.
  - apply buildRetryMetadata_attempt.
  - set (md := buildRetryMetadata (run_executionMetadata r) options).
    assert (obj_get md "resumePending" = None) as Hpend.
    { destruct (obj_get md "resumePending") eqn:Hg; [|done].
      assert ("resumePending" ∈ RETRY_KEYS) as Hin
        by (by apply (buildRetryMetadata_keys (run_executionMetadata r) options); eexists).
      by apply (bool_decide_pack _) in Hin. }
    unfold resumeChatIdFromRow, resumeDecisionForRow, decideResume. simpl. fold md.
    rewrite Hpend. simpl. by repeat case_match.
Qed.

(** A retry whose admission is refused is undone exactly: claiming a failed
    run and restoring it from its snapshot gives back every row as it was, but
    for the run's modification time. *)
Theorem retry_restore_roundtrip `{Instance} id metadata r w w1 o w2 :
  db_runs (w_db w) !! id = Some r ->
  claimRunForRetry id metadata w = (Ret true, w1) ->
  restoreFailedRun id r w1 = (o, w2) ->
  o = Ret tt /\ w2 = set_db (set_runs (insert id (with_updatedAt clock r))) w.
Proof.
  intros Hr. unfold claimRunForRetry, restoreFailedRun. rewrite update_runs_cond, Hr.
  destruct (bool_decide_reflect (run_status r = failed)) as [Hst|]; [|done].
  intros [= <-]. unfold mbind, M_bind. rewrite update_runs_cond. simpl.
  rewrite lookup_insert_eq. intros [= <- <-]. split; [done|].
  unfold set_db, set_runs. simpl. rewrite insert_insert_eq.
  do 3 f_equal. destruct r; simpl in *. by subst.
Qed.

(** Cancelling is exact: the claim succeeds exactly on a run in the
    expected status, touches no other run, and a cancelled queued run loses its
    reservation while an active lease stays with the process that executes. *)
Theorem cancellation_exact `{Instance} id st w b w' :
  claimRunCancellation id st w = (Ret b, w') ->
  (b = true <-> exists r, db_runs (w_db w) !! id = Some r /\ run_status r = cancellable st) /\
  (b = false -> w' = w) /\
  (b = true -> exists r r', db_runs (w_db w) !! id = Some r /\
     db_runs (w_db w') = <[id := r']> (db_runs (w_db w)) /\
     run_status r' = cancelled /\ run_queuedAt r' = None) /\
  (b = true -> st = cancel_queued ->
     forall l, db_leases (w_db w') !! (wl_run, id) = Some l -> lease_phase l = active) /\
  (forall k l, db_leases (w_db w) !! k = Some l -> lease_phase l = active ->
     db_leases (w_db w') !! k = Some l).
Proof.
  intros Hc. pose proof (claimRunCancellation_Ret _ _ _ _ _ Hc) as Hspec.
  pose proof (cancellation_leases _ _ _ _ _ Hc) as [Hres Hact].
  split_and!; [| |  | |done].
  - destruct b; [split; [|done]; intros _; destruct Hspec as (r & ? & ? & _); eauto|].
    split; [done|]. intros (r & Hr & Hst). destruct Hspec as [_ Hn]. by destruct (Hn r Hr).
  - intros ->. by destruct Hspec.
  - intros ->. destruct Hspec as (r & Hr & _ & Hruns). by exists r, (cancelled_row r).
  - intros -> ->. by apply Hres.
Qed.

(** ** Witnesses *)

Definition claims_demo (st : RunStatus) : World :=
  set_db (set_runs (fun _ => {["r1" :=
    mkRun st (Some (JObj (error_object (JStr "boom")))) (Some [("liveChatId", JStr "s1")])
      (Some "gh") None (Some "/w") (Some "i9") None (Some "a1") None 0 0 empty_usage empty_origin]})) empty_world.

Lemma first_terminal_wins_witness :
  let w1 := (@claimRunCancellation ex_instance "r1" cancel_running (claims_demo running)).2 in
  false = false /\ w1 = w1.
Proof.
  intros w1.
  apply (first_terminal_wins ex_instance ex_instance "r1" (claim_cancel cancel_running)
    (claim_reap "i9" (mkScope REAPABLE_RUN_STATUSES false)) (claims_demo running) w1 w1 false w1);
    [done | by repeat constructor | vm_compute; reflexivity | done | vm_compute; reflexivity].
Defined.

Definition no_options : RetryMetadataOptions := mkRetryOptions None None None None false.

Lemma retry_starts_fresh_witness :
  let w' := (@claimRunForRetry ex_instance "r1"
               (buildRetryMetadata (Some [("liveChatId", JStr "s1")]) no_options)
               (claims_demo failed)).2 in
  failed = failed /\
  exists r', db_runs (w_db w') = <["r1" := r']> (db_runs (w_db (claims_demo failed))) /\
    run_status r' = pending /\ run_result r' = None /\ run_ownerInstanceId r' = None /\
    run_workDir r' = None /\ run_queuedAt r' = None /\
    (forall k, is_Some (meta_get (run_executionMetadata r') k) -> k ∈ RETRY_KEYS) /\
    meta_get (run_executionMetadata r') "retryAttempt" = Some (JNum (JInt 1)) /\
    resumeChatIdFromRow r' None = None.
Proof.
  intros w'.
  apply (@retry_starts_fresh ex_instance "r1" no_options (claims_demo failed) w'
    (mkRun failed (Some (JObj (error_object (JStr "boom")))) (Some [("liveChatId", JStr "s1")])
      (Some "gh") None (Some "/w") (Some "i9") None (Some "a1") None 0 0 empty_usage empty_origin));
    vm_compute; reflexivity.
Defined.

Lemma retry_restore_roundtrip_witness :
  let r := mkRun failed (Some (JObj (error_object (JStr "boom")))) (Some [("liveChatId", JStr "s1")])
      (Some "gh") None (Some "/w") (Some "i9") None (Some "a1") None 0 0 empty_usage empty_origin in
  let w1 := (@claimRunForRetry ex_instance "r1" [] (claims_demo failed)).2 in
  let w2 := (@restoreFailedRun ex_instance "r1" r w1).2 in
  Ret tt = Ret tt /\
  w2 = set_db (set_runs (insert "r1" (with_updatedAt 100 r))) (claims_demo failed).
Proof.
  intros r w1 w2.
  apply (@retry_restore_roundtrip ex_instance "r1" [] r (claims_demo failed) w1 (Ret tt) w2);
    vm_compute; reflexivity.
Defined.

Lemma cancellation_exact_witness :
  let w' := (@claimRunCancellation ex_instance "r1" cancel_running (claims_demo running)).2 in
  true = true <-> exists r, db_runs (w_db (claims_demo running)) !! "r1" = Some r /\
    run_status r = running.
Proof.
  intros w'.
  apply (@cancellation_exact ex_instance "r1" cancel_running (claims_demo running) true w').
  vm_compute. reflexivity.
Defined.
