(* ===== verification/Liveness.v ===== *)
(** * Instance liveness

    [apps/api/src/lib/instance-heartbeat.ts] and [retry-until-success.ts]: the
    heartbeat row every process renews, its self-fence, and the rule by which
    peers judge it dead.  Times are milliseconds. *)
From S2P Require Import Prelude Json Schema LeaseRegistry World.

Definition INSTANCE_HEARTBEAT_INTERVAL_MS : Z := 30000.
Definition INSTANCE_DEAD_AFTER_MS : Z := 5 * 60000.
Definition INSTANCE_SELF_FENCE_AFTER_MS : Z := INSTANCE_DEAD_AFTER_MS - 60000.
Definition RECOVERY_GRACE_AFTER_BOOT_MS : Z := INSTANCE_DEAD_AFTER_MS.
Definition PRUNE_AFTER_MS : Z := 24 * 60 * 60000.

Abbreviation InstanceLivenessMap := (gmap string InstanceLiveness).

(** ** The rows *)

(** The upsert of [beatInstanceHeartbeat] *)
Definition beatInstanceHeartbeat (instanceId : string) (bootTime now : Z) : M World Z :=
  _ ← db_write (set_heartbeats (insert instanceId (mkLiveness bootTime now)));
  mret now.

Definition deleteInstanceHeartbeat (instanceId : string) : M World unit :=
  db_write (set_heartbeats (delete instanceId)).

Definition pruneDeadInstanceHeartbeats (instanceId : string) (now : Z) : M World unit :=
  let cutoff := (now - PRUNE_AFTER_MS)%Z in
  db_write (set_heartbeats (filter (fun kv => ~ ((heartbeatAt kv.2 < cutoff)%Z /\ kv.1 <> instanceId)))).

Definition loadInstanceLiveness : M World InstanceLivenessMap := select db_heartbeats.

(** ** The verdict on a peer *)

Definition isInstanceOwnerDead (liveness : InstanceLivenessMap) (ownerInstanceId : string)
    (markWrittenAt now : Z) : bool :=
  match liveness !! ownerInstanceId with
  | None => true
  | Some owner =>
      if (INSTANCE_DEAD_AFTER_MS <? now - heartbeatAt owner)%Z then true
      else (markWrittenAt <? startedAt owner)%Z
  end.

(** ** The renewal loop of one process *)

Record RenewalState := mkRenewal {
  inFlight : bool;
  lostOwnership : bool;
  lastSuccessAt : Z
}.

(** State after [fenceIfExpired], and its answer *)
Definition fenceIfExpired (monotonicMs : Z) (s : RenewalState) : bool * RenewalState :=
  if lostOwnership s then (true, s)
  else if (monotonicMs - lastSuccessAt s <=? INSTANCE_SELF_FENCE_AFTER_MS)%Z then (false, s)
  else (true, mkRenewal (inFlight s) true (lastSuccessAt s)).

(** [None]: the renewal loop was never started *)
Definition hasLostHeartbeatOwnership (monotonicMs : Z) (s : option RenewalState)
    : bool * option RenewalState :=
  match s with
  | None => (false, None)
  | Some s => let '(b, s') := fenceIfExpired monotonicMs s in (b, Some s')
  end.

Definition canJudgePeerLiveness (monotonicMs now bootTime : Z) (s : option RenewalState) : bool :=
  if fst (hasLostHeartbeatOwnership monotonicMs s) then false
  else (RECOVERY_GRACE_AFTER_BOOT_MS <=? now - bootTime)%Z.

(** [startInstanceHeartbeat] seeds the loop from the clock. *)
Definition renewalState (monotonicMs : Z) : RenewalState := mkRenewal false false monotonicMs.

(** The synchronous head of [beat]: [Some startedAt] when a write is issued *)
Definition beat_begin (monotonicMs : Z) (s : RenewalState) : option Z * RenewalState :=
  let '(fenced, s1) := fenceIfExpired monotonicMs s in
  if fenced then (None, s1)
  else if inFlight s1 then (None, s1)
  else (Some monotonicMs, mkRenewal true (lostOwnership s1) (lastSuccessAt s1)).

(** What follows the awaited write, and its [finally] *)
Definition beat_succeeded (monotonicMs startedAt : Z) (s : RenewalState) : RenewalState :=
  let '(fenced, s1) := fenceIfExpired monotonicMs s in
  if fenced then mkRenewal false (lostOwnership s1) (lastSuccessAt s1)
  else mkRenewal false (lostOwnership s1) startedAt.

Definition beat_failed (s : RenewalState) : RenewalState :=
  mkRenewal false (lostOwnership s) (lastSuccessAt s).

(** ** One process and its row, over time

    A write is issued, may commit, and is then reported to the process as done
    or as failed: a commit may also be reported as a failure. *)
Record Beating := mkBeating {
  b_now : Z;
  b_state : RenewalState;
  b_row : Z;                     (* heartbeat_at, as stored *)
  b_write : option (Z * bool)    (* in flight: its start, and whether it committed *)
}.

Inductive beat_step : Beating -> Beating -> Prop :=
| beat_time now now' s row wr :
    (now <= now')%Z -> beat_step (mkBeating now s row wr) (mkBeating now' s row wr)
| beat_issue now s s' row t :
    beat_begin now s = (Some t, s') ->
    beat_step (mkBeating now s row None) (mkBeating now s' row (Some (t, false)))
| beat_skip now s s' row wr :
    beat_begin now s = (None, s') ->
    beat_step (mkBeating now s row wr) (mkBeating now s' row wr)
| beat_commit now s row t b :
    beat_step (mkBeating now s row (Some (t, b))) (mkBeating now s t (Some (t, true)))
| beat_ok now s row t :
    beat_step (mkBeating now s row (Some (t, true)))
      (mkBeating now (beat_succeeded now t s) row None)
| beat_err now s row t b :
    beat_step (mkBeating now s row (Some (t, b))) (mkBeating now (beat_failed s) row None)
| beat_ask now s row wr :
    beat_step (mkBeating now s row wr) (mkBeating now (fenceIfExpired now s).2 row wr).

(** Boot: the first row was written at [row], and the loop starts at [now]. *)
Definition booted (row now : Z) : Beating := mkBeating now (renewalState now) row None.

Lemma fence_state t s b s' :
  fenceIfExpired t s = (b, s') ->
  inFlight s' = inFlight s /\ lastSuccessAt s' = lastSuccessAt s /\ lostOwnership s' = b /\
  (lostOwnership s = true -> b = true) /\
  (b = false -> s' = s /\ (t - lastSuccessAt s <= INSTANCE_SELF_FENCE_AFTER_MS)%Z).
Proof.
  unfold fenceIfExpired. destruct (lostOwnership s) eqn:Hl; [intros [= <- <-]; done|].
  destruct (_ <=? _)%Z eqn:Ht; intros [= <- <-]; bool_to_prop; simpl;
    split_and!; try done; congruence.
Qed.

(** The stored beat is never older than the last success the process credits
    itself with, by more than the boot write took. *)
Record beating_inv (delta : Z) (b : Beating) : Prop := {
  bi_row : (lastSuccessAt (b_state b) <= b_row b + delta)%Z;
  bi_past : (lastSuccessAt (b_state b) <= b_now b)%Z;
  bi_flight : inFlight (b_state b) = true <-> is_Some (b_write b);
  bi_write : forall t c, b_write b = Some (t, c) -> (t <= b_now b)%Z /\
    (lastSuccessAt (b_state b) <= t)%Z /\ (b_row b <= b_now b)%Z /\ (c = true -> b_row b = t)
}.

Lemma beat_step_inv delta b b' :
  (0 <= delta)%Z -> beat_step b b' ->
  beating_inv delta b /\ (b_row b <= b_now b)%Z -> beating_inv delta b' /\ (b_row b' <= b_now b')%Z.
Proof.
  intros Hd Hstep [[I1 I2 I3 I4] I5]. destruct Hstep; simpl in *.
  - split; [|lia]. split; simpl; [done|lia|done|]. intros t c Hw.
    destruct (I4 t c Hw) as (? & ? & ? & ?). split_and!; [lia|lia|lia|done].
  - unfold beat_begin in H. destruct (fenceIfExpired now s) as [f s1] eqn:Hf.
    apply fence_state in Hf as (F1 & F2 & F3 & F4 & F5). destruct f; [done|].
    destruct (inFlight s1); [done|]. injection H as <- <-. split; [|done].
    split; simpl; [lia|lia|by split; eauto|]. intros t' c [= <- <-]. split_and!; done || lia.
  - unfold beat_begin in H. destruct (fenceIfExpired now s) as [f s1] eqn:Hf.
    apply fence_state in Hf as (F1 & F2 & F3 & F4 & F5).
    assert (s' = s1) as -> by (destruct f, (inFlight s1); congruence).
    split; [|done]. split; simpl; rewrite ?F1, ?F2; done.
  - destruct (I4 t b eq_refl) as (? & ? & ? & ?). split; [|lia].
    split; simpl; [lia|lia|split; [by eauto|intros _; apply I3; eauto]|].
    intros t' c [= <- <-]. split_and!; done || lia.
  - destruct (I4 t true eq_refl) as (? & ? & ? & Hrow). specialize (Hrow eq_refl).
    unfold beat_succeeded. destruct (fenceIfExpired now s) as [f s1] eqn:Hf.
    apply fence_state in Hf as (F1 & F2 & F3 & F4 & F5). split; [|done].
    destruct f; split; simpl; try done; try lia.
  - split; [|done]. split; simpl; done.
  - destruct (fenceIfExpired now s) as [f s1] eqn:Hf. simpl.
    apply fence_state in Hf as (F1 & F2 & F3 & F4 & F5).
    split; [|done]. split; simpl; rewrite ?F1, ?F2; done.
Qed.

Lemma rtc_beating_inv delta row now b :
  (0 <= delta)%Z -> (row <= now <= row + delta)%Z -> rtc beat_step (booted row now) b ->
  beating_inv delta b /\ (b_row b <= b_now b)%Z.
Proof.
  intros Hd Hb Hr.
  apply (rtc_invariant beat_step (fun b => beating_inv delta b /\ (b_row b <= b_now b)%Z) _ _
           (fun x y => beat_step_inv delta x y Hd) Hr).
  split; [|simpl; lia]. split; simpl; [lia|lia| |done]. split; [done|by intros []].
Qed.

(** ** Retrying with backoff

    [retryUntilSuccess] waits [d, 2d, 4d, ...] capped at [maxDelayMs] between
    attempts and returns the first success; [outcomes] are the results of the
    successive attempts. *)
Fixpoint retry_loop {T} (outcomes : list (outcome T)) (retryDelayMs maxDelayMs : Z)
    : option T * list Z :=
  match outcomes with
  | [] => (None, [])
  | Ret a :: _ => (Some a, [])
  | Throw _ :: rest =>
      let '(r, waits) := retry_loop rest (Z.min (retryDelayMs * 2) maxDelayMs) maxDelayMs in
      (r, retryDelayMs :: waits)
  end.

Definition retryUntilSuccess {T} (outcomes : list (outcome T)) (initialDelayMs maxDelayMs : Z)
    : option T * list Z :=
  retry_loop outcomes initialDelayMs (Z.max initialDelayMs maxDelayMs).

Lemma retry_loop_waits {T} (outcomes : list (outcome T)) d mx i x :
  (0 <= d <= mx)%Z -> (retry_loop outcomes d mx).2 !! i = Some x ->
  x = Z.min (d * 2 ^ Z.of_nat i) mx.
Proof.
  revert d i. induction outcomes as [|[a|e] rest IH]; intros d i Hd; simpl; try done.
  destruct (retry_loop rest _ mx) as [r waits] eqn:Hr. simpl.
  destruct i as [|i]; simpl; intros Hi.
  - injection Hi as <-. rewrite Z.mul_1_r. lia.
  - specialize (IH (Z.min (d * 2) mx) i). rewrite Hr in IH. simpl in IH.
    rewrite (IH ltac:(lia) Hi). rewrite Nat2Z.inj_succ, Z.pow_succ_r by lia.
    pose proof (Z.pow_pos_nonneg 2 (Z.of_nat i) ltac:(lia) ltac:(lia)). nia.
Qed.

Lemma retry_loop_first {T} (fails : list JsError) (a : T) rest d mx :
  (retry_loop ((Throw <$> fails) ++ Ret a :: rest) d mx).1 = Some a /\
  length (retry_loop ((Throw <$> fails) ++ Ret a :: rest) d mx).2 = length fails.
Proof.
  revert d. induction fails as [|e fails IH]; intros d; [done|]. simpl.
  specialize (IH (Z.min (d * 2) mx)).
  destruct (retry_loop (_ ++ _) _ mx) as [r waits]. simpl in *. destruct IH. split; [done|lia].
Qed.

(** ** Properties *)


(** The self-fence is irreversible: once a process has lost ownership, no
    later beat, success or query of the renewal loop gives it back. *)
Theorem fence_irreversible (b b' : Beating) :
  rtc beat_step b b' -> lostOwnership (b_state b) = true -> lostOwnership (b_state b') = true.
Proof.
  apply (rtc_invariant beat_step (fun b => lostOwnership (b_state b) = true)). clear b b'.
  intros b b' [] Hl; simpl in *; try done;
    repeat match goal with
    | H : beat_begin _ _ = _ |- _ => unfold beat_begin, fenceIfExpired in H; rewrite Hl in H;
        repeat case_match; by simplify_eq
    end.
  - unfold beat_succeeded, fenceIfExpired. by rewrite Hl.
  - unfold fenceIfExpired. by rewrite Hl.
Qed.

(** Renewals are single flight: a beat issues a write only when none is in
    flight, in every reachable state. *)
Theorem beat_single_flight row start (b : Beating) t s' :
  (row <= start <= row + 60000)%Z -> rtc beat_step (booted row start) b ->
  beat_begin (b_now b) (b_state b) = (Some t, s') -> b_write b = None.
Proof.
  intros Hs Hr Hb.
  destruct (rtc_beating_inv 60000 row start b ltac:(lia) Hs Hr) as [[_ _ I3 _] _].
  destruct (b_write b) eqn:Hw; [|done]. exfalso.
  assert (inFlight (b_state b) = true) as Hfl by (apply I3; eauto).
  unfold beat_begin in Hb. destruct (fenceIfExpired _ _) as [f s1] eqn:Hf.
  apply fence_state in Hf as (F1 & _). destruct f; [done|]. by rewrite F1, Hfl in Hb.
Qed.

(** Backoff: the first success is returned, after one wait per failure, and
    the i-th wait is the initial delay doubled i times, capped. *)
Theorem retry_backoff {T} (fails : list JsError) (a : T) rest initialDelayMs maxDelayMs :
  (0 <= initialDelayMs)%Z ->
  let '(result, waits) :=
    retryUntilSuccess ((Throw <$> fails) ++ Ret a :: rest) initialDelayMs maxDelayMs in
  result = Some a /\ length waits = length fails /\
  forall i x, waits !! i = Some x ->
    x = Z.min (initialDelayMs * 2 ^ Z.of_nat i) (Z.max initialDelayMs maxDelayMs).
Proof.
  intros Hd. unfold retryUntilSuccess.
  pose proof (retry_loop_first fails a rest initialDelayMs (Z.max initialDelayMs maxDelayMs))
    as [H1 H2].
  pose proof (retry_loop_waits ((Throw <$> fails) ++ Ret a :: rest) initialDelayMs
    (Z.max initialDelayMs maxDelayMs)) as Hw.
  destruct (retry_loop _ _ _) as [r waits]. simpl in *. split; [done|]. split; [done|].
  intros i x. apply Hw. lia.
Qed.

(** ** Witnesses *)

Definition stalled : Beating := mkBeating 400000 (renewalState 1000) 0 None.


Lemma fence_irreversible_witness : lostOwnership (fenceIfExpired 400000 (renewalState 1000)).2 = true.
Proof.
  apply (fence_irreversible
    (mkBeating 400000 (fenceIfExpired 400000 (renewalState 1000)).2 0 None)
    (mkBeating 500000 (fenceIfExpired 400000 (renewalState 1000)).2 0 None));
    [apply rtc_once; by constructor | by vm_compute].
Defined.

Lemma beat_single_flight_witness : b_write (booted 0 1000) = None.
Proof.
  apply (beat_single_flight 0 1000 (booted 0 1000) 1000 (mkRenewal true false 1000));
    [lia | apply rtc_refl | by vm_compute].
Defined.

Lemma retry_backoff_witness :
  let '(result, waits) := retryUntilSuccess
    ((Throw <$> [mkError "Error" "x"; mkError "Error" "y"]) ++ [Ret tt]) 1000 30000 in
  result = Some tt /\ length waits = 2 /\
  forall i x, waits !! i = Some x -> x = Z.min (1000 * 2 ^ Z.of_nat i) (Z.max 1000 30000).
Proof.
  apply (retry_backoff [mkError "Error" "x"; mkError "Error" "y"] tt [] 1000 30000). lia.
Defined.
