(* ===== verification/Reaper.v ===== *)
(** * Reaping the runs of dead instances

    [apps/api/src/lib/orphaned-run-reaper.ts]: the pass a surviving replica
    makes over running rows whose owner stopped beating. *)
From S2P Require Import Prelude Json Schema LeaseRegistry World ScmWorkload Resume TaskQueue TaskQueueDb RunClaims Liveness.

Record OrphanedRunCandidate := mkOrphan {
  orphan_id : string;
  orphan_agentId : string;
  orphan_owner : option string;
  orphan_startedAt : Z
}.

Record ReapedOrphanedRun := mkReaped {
  reaped_runId : string;
  reaped_agentId : string;
  reaped_resumed : bool
}.

Record OrphanedRunReaperDeps := mkReaperDeps {
  listCandidates : M World (list OrphanedRunCandidate);
  loadLiveness : M World InstanceLivenessMap;
  canJudgePeers : M World bool;
  isRunLocallyActive : string -> M World bool;
  claimRun : string -> string -> M World bool;
  afterRunSettled : string -> M World unit;
  dep_canResume : option (string -> string -> M World bool);
  requeueRun : option (string -> string -> string -> M World bool);
  dep_now : M World Z
}.

(** Rows of the candidates: running, owned, with an agent *)
Definition listOrphanedRunCandidates : M World (list OrphanedRunCandidate) :=
  select (fun d => omap (fun '(id, r) =>
    if decide (run_status r ∈ REAPABLE_RUN_STATUSES /\ is_Some (run_ownerInstanceId r)) then
      match run_initiatorAgentId r with
      | None | Some "" => None
      | Some a => Some (mkOrphan id a (run_ownerInstanceId r) (run_updatedAt r))
      end
    else None) (map_to_list (db_runs d))).

Definition defaultReaperDeps `{Instance} (peersJudgeable : bool)
    (syncReapedRunExternalState : string -> M World unit) : OrphanedRunReaperDeps :=
  mkReaperDeps listOrphanedRunCandidates loadInstanceLiveness (mret peersJudgeable)
    (fun runId => gets (fun w => bool_decide (runId ∈ (listActiveExecutionLeases (w_reg w)).*1)))
    claimRunForReap syncReapedRunExternalState
    (Some (fun runId code => canRequeueInterruptedRun runId (Some code)))
    (Some (fun runId code owner => db_requeueForResume runId (Some code) (Some owner)))
    (mret clock).

Section Reap.
Context (deps : OrphanedRunReaperDeps).

(** Every failure of a resume means "fail it normally". *)
Definition tryResume (runId expectedOwnerInstanceId : string) : M World bool :=
  match dep_canResume deps, requeueRun deps with
  | Some canResume, Some requeueRun =>
      let code := code_name INSTANCE_STOPPED_DURING_EXEC in
      try_catch (
        can ← canResume runId code;
        if negb can then mret false
        else requeueRun runId code expectedOwnerInstanceId)
        (fun _ => mret false)
  | _, _ => mret false
  end.

(** The body of the loop under its [try] *)
Definition settle_orphan (c : OrphanedRunCandidate) (owner : string)
    (reaped : list ReapedOrphanedRun) : M World (list ReapedOrphanedRun) :=
  try_catch (
    fresh ← loadLiveness deps;
    now ← dep_now deps;
    if negb (isInstanceOwnerDead fresh owner (orphan_startedAt c) now) then mret reaped
    else
      resumed ← tryResume (orphan_id c) owner;
      if (resumed : bool)
      then mret (reaped ++ [mkReaped (orphan_id c) (orphan_agentId c) true])
      else
        claimed ← claimRun deps (orphan_id c) owner;
        if negb claimed then mret reaped
        else
          _ ← afterRunSettled deps (orphan_id c);
          mret (reaped ++ [mkReaped (orphan_id c) (orphan_agentId c) false]))
    (fun _ => mret reaped).

Definition reap_candidate (liveness : InstanceLivenessMap) (c : OrphanedRunCandidate)
    (reaped : list ReapedOrphanedRun) : M World (list ReapedOrphanedRun) :=
  match orphan_owner c with
  | None | Some "" => mret reaped
  | Some owner =>
      activeHere ← isRunLocallyActive deps (orphan_id c);
      if (activeHere : bool) then mret reaped
      else
        now ← dep_now deps;
        if negb (isInstanceOwnerDead liveness owner (orphan_startedAt c) now) then mret reaped
        else settle_orphan c owner reaped
  end.

Definition reapOrphanedRuns : M World (list ReapedOrphanedRun) :=
  judge ← canJudgePeers deps;
  if negb judge then mret []
  else
    candidates ← listCandidates deps;
    match candidates with
    | [] => mret []
    | _ =>
        liveness ← loadLiveness deps;
        fold_each candidates (reap_candidate liveness) []
    end.
End Reap.

(** ** What a pass may do to a run row *)

Section Reaped.
Context `{Instance} (sync : string -> M World unit).

(** The external bookkeeping after a settlement leaves the runs, the
    heartbeats and the leases of this process alone. *)
Hypothesis sync_frames : forall id w o w',
  sync id w = (o, w') ->
  db_runs (w_db w') = db_runs (w_db w) /\ db_heartbeats (w_db w') = db_heartbeats (w_db w) /\
  w_reg w' = w_reg w.

(** A run this process may take over: running under an owner whose heartbeat
    says it is gone, with no lease here. *)
Definition abandoned (id : string) (r : Run) (w : World) : Prop :=
  run_status r = running /\ id ∉ (listActiveExecutionLeases (w_reg w)).*1 /\
  exists owner, run_ownerInstanceId r = Some owner /\
    isInstanceOwnerDead (db_heartbeats (w_db w)) owner (run_updatedAt r) clock = true.

(** What the pass leaves of an abandoned run: queued to be resumed, or failed
    as interrupted *)
Definition settled_as (r r' : Run) : Prop :=
  run_status r' = queued /\ run_ownerInstanceId r' = None /\ run_result r' = None \/
  r' = reaped_row r.

Record pass_effect (w0 w : World) : Prop := {
  pe_heartbeats : db_heartbeats (w_db w) = db_heartbeats (w_db w0);
  pe_reg : w_reg w = w_reg w0;
  pe_rows : forall id, db_runs (w_db w) !! id = db_runs (w_db w0) !! id \/
    exists r r', db_runs (w_db w0) !! id = Some r /\
      db_runs (w_db w) !! id = Some r' /\ abandoned id r w0 /\ settled_as r r'
}.

Lemma candidate_row w cs w' c :
  listOrphanedRunCandidates w = (Ret cs, w') -> c ∈ cs ->
  w' = w /\ exists r, db_runs (w_db w) !! orphan_id c = Some r /\ run_status r = running /\
    orphan_owner c = run_ownerInstanceId r /\ orphan_startedAt c = run_updatedAt r /\
    run_initiatorAgentId r = Some (orphan_agentId c).
Proof.
  unfold listOrphanedRunCandidates, select, gets. intros [= <- <-]. rewrite list_elem_of_omap.
  intros ([id r] & Hin%elem_of_map_to_list & Hc). split; [done|].
  destruct (decide _) as [[Hst _]|]; [|done]. apply list_elem_of_singleton in Hst.
  destruct (run_initiatorAgentId r) as [[|]|] eqn:Ha; try done. injection Hc as <-. eauto 10.
Qed.

Lemma pass_refl w : pass_effect w w.
Proof. split; eauto. Qed.

(** A row the pass finds running is as the pass found it. *)
Lemma pass_running w0 w id r :
  pass_effect w0 w -> db_runs (w_db w) !! id = Some r -> run_status r = running ->
  db_runs (w_db w0) !! id = Some r.
Proof.
  intros [_ _ Hrows] Hr Hst. destruct (Hrows id) as [<-|(r0 & r1 & _ & Hr1 & _ & Hs)]; [done|].
  rewrite Hr in Hr1. injection Hr1 as <-.
  destruct Hs as [(Hq & _)|He]; [congruence|]. by rewrite He in Hst.
Qed.

(** Settling one more abandoned run *)
Lemma pass_settle w0 w w' id r r' :
  pass_effect w0 w -> db_runs (w_db w) !! id = Some r -> abandoned id r w0 -> settled_as r r' ->
  db_runs (w_db w') = <[id := r']> (db_runs (w_db w)) ->
  db_heartbeats (w_db w') = db_heartbeats (w_db w) -> w_reg w' = w_reg w ->
  pass_effect w0 w'.
Proof.
  intros Hp Hr Ha Hs Hruns Hh Hg. pose proof Hp as [P1 P2 P3].
  split; [congruence|congruence|]. intros x. rewrite Hruns.
  destruct (decide (x = id)) as [->|Hne]; [|by rewrite lookup_insert_ne].
  right. exists r, r'. rewrite lookup_insert_eq.
  split; [by eapply pass_running; [..|apply Ha]|]. done.
Qed.

(** A world that differs in neither the runs nor what liveness reads *)
Lemma pass_frame w0 w w' :
  pass_effect w0 w -> db_runs (w_db w') = db_runs (w_db w) ->
  db_heartbeats (w_db w') = db_heartbeats (w_db w) -> w_reg w' = w_reg w -> pass_effect w0 w'.
Proof. intros [P1 P2 P3] Hr Hh Hg. split; [congruence..|]. by rewrite Hr. Qed.

Lemma tryResume_cases judge id owner w o w1 :
  tryResume (defaultReaperDeps judge sync) id owner w = (o, w1) ->
  o = Ret false /\ w1 = w \/
  o = Ret true /\ db_requeueForResume id (Some (code_name INSTANCE_STOPPED_DURING_EXEC))
                    (Some owner) w = (Ret true, w1).
Proof.
  unfold tryResume, try_catch. cbn [dep_canResume requeueRun defaultReaperDeps].
  unfold canRequeueInterruptedRun, select, gets. unfold mbind at 1 2, M_bind at 1 2, mret at 1, M_ret at 1.
  destruct (match _ with Some _ => _ | None => _ end); simpl; [|intros [= <- <-]; by left].
  destruct (db_requeueForResume _ _ _ w) as [[[]|e] w2] eqn:Hq; intros [= <- <-].
  - by right.
  - left. split; [done|]. by apply requeue_Ret in Hq.
  - by apply requeue_no_throw in Hq.
Qed.

(** One candidate of the scan *)
Lemma reap_candidate_step judge w0 w c acc o w' :
  (exists r, db_runs (w_db w0) !! orphan_id c = Some r /\ run_status r = running /\
     orphan_owner c = run_ownerInstanceId r /\ orphan_startedAt c = run_updatedAt r) ->
  pass_effect w0 w ->
  reap_candidate (defaultReaperDeps judge sync) (db_heartbeats (w_db w0)) c acc w = (o, w') ->
  pass_effect w0 w' /\ exists acc', o = Ret acc' /\
    (acc' = acc \/ exists b r', acc' = acc ++ [mkReaped (orphan_id c) (orphan_agentId c) b] /\
       db_runs (w_db w') !! orphan_id c = Some r' /\
       run_status r' = if (b : bool) then queued else failed).
Proof.
  intros (r & Hr & Hst & Hown & Hat) Hp. unfold reap_candidate.
  destruct (orphan_owner c) as [[|ch ow]|] eqn:Ho;
    [intros [= <- <-]; eauto| |intros [= <- <-]; eauto].
  set (owner := String ch ow) in *. simpl. unfold mbind at 1, M_bind at 1, gets at 1.
  destruct (bool_decide_reflect (orphan_id c ∈ (listActiveExecutionLeases (w_reg w)).*1))
    as [|Hidle]; [intros [= <- <-]; eauto|].
  unfold mbind at 1, M_bind at 1, mret at 1, M_ret at 1.
  destruct (isInstanceOwnerDead (db_heartbeats (w_db w0)) owner _ _) eqn:Hdead;
    [|intros [= <- <-]; eauto]. simpl.
  assert (abandoned (orphan_id c) r w0) as Hab.
  { split; [done|]. split; [by rewrite <- (pe_reg _ _ Hp)|]. exists owner.
    rewrite <- Hown, <- Hat. done. }
  unfold settle_orphan, try_catch. cbn [loadLiveness dep_now claimRun afterRunSettled defaultReaperDeps].
  unfold loadInstanceLiveness, select, gets. unfold mbind at 1 2, M_bind at 1 2, mret at 1, M_ret at 1.
  rewrite (pe_heartbeats _ _ Hp), Hdead. simpl. unfold mbind at 1, M_bind at 1.
  destruct (tryResume _ _ _ w) as [ot w1] eqn:Htr.
  apply tryResume_cases in Htr as [[-> ->]|[-> Hq]].
  - unfold mbind at 1, M_bind at 1, claimRunForReap. rewrite claimReapableRun_run.
    destruct (db_runs (w_db w) !! orphan_id c) as [rw|] eqn:Hrw; [|intros [= <- <-]; eauto].
    destruct (reapable _ _ rw) eqn:Hreap; [|intros [= <- <-]; eauto]. simpl.
    unfold reapable in Hreap. simpl in Hreap. bool_to_prop.
    assert (rw = r) as ->.
    { assert (run_status rw = running) as Hrun by (by apply list_elem_of_singleton).
      pose proof (pass_running _ _ _ _ Hp Hrw Hrun). congruence. }
    set (w1 := set_db _ w).
    assert (pass_effect w0 w1) as Hp1.
    { eapply (pass_settle w0 w w1 _ r (reaped_row r) Hp Hrw Hab); [by right|done..]. }
    unfold mbind at 1, M_bind at 1.
    destruct (sync (orphan_id c) w1) as [[[]|e] w2] eqn:Hsync;
      apply sync_frames in Hsync as (S1 & S2 & S3); intros [= <- <-];
      (split; [by apply (pass_frame w0 w1)|]); eexists; (split; [done|]); [|by left].
    right. exists false, (reaped_row r). split; [done|]. split; [|done].
    rewrite S1. simpl. by rewrite lookup_insert_eq.
  - intros [= <- <-]. pose proof (requeue_db_only _ _ _ _ _ _ Hq) as Hmem.
    apply requeue_Ret in Hq as (rw & r' & Hrw & Hrun & _ & Hruns & Hq1 & Hq2 & Hq3 & _ & Hh).
    assert (rw = r) as -> by (pose proof (pass_running _ _ _ _ Hp Hrw Hrun); congruence).
    split.
    { eapply (pass_settle w0 w w1 _ r r' Hp Hrw Hab); [by left|done|done|by injection Hmem]. }
    eexists. split; [done|]. right. exists true, r'. split; [done|].
    rewrite Hruns, lookup_insert_eq. done.
Qed.

(** The whole pass *)
Lemma reap_pass judge w o w' :
  reapOrphanedRuns (defaultReaperDeps judge sync) w = (o, w') ->
  pass_effect w w' /\ (judge = false -> w' = w) /\ is_ret o = true.
Proof.
  unfold reapOrphanedRuns. cbn [canJudgePeers listCandidates loadLiveness defaultReaperDeps].
  unfold mbind at 1, M_bind at 1, mret at 1, M_ret at 1.
  destruct judge; [|intros [= <- <-]; auto using pass_refl]. simpl.
  unfold mbind at 1, M_bind at 1.
  destruct (listOrphanedRunCandidates w) as [[cs|e] w1] eqn:Hc; [|done].
  assert (forall c, c ∈ cs -> exists r, db_runs (w_db w) !! orphan_id c = Some r /\
    run_status r = running /\ orphan_owner c = run_ownerInstanceId r /\
    orphan_startedAt c = run_updatedAt r) as Hrows.
  { intros c Hin. destruct (candidate_row _ _ _ _ Hc Hin) as [_ (r & ? & ? & ? & ? & _)]. eauto. }
  assert (w1 = w) as -> by (by injection Hc as _ <-). clear Hc.
  destruct cs as [|c0 cs0]; [intros [= <- <-]; auto using pass_refl|].
  unfold loadInstanceLiveness, select, gets. unfold mbind at 1, M_bind at 1.
  revert Hrows. generalize (c0 :: cs0) as cs. intros cs Hrows Hf.
  assert (pass_effect w w' /\ is_ret o = true) as [? ?]; [|done].
  revert Hf. generalize (@nil ReapedOrphanedRun) as acc. pose proof (pass_refl w) as Hw. revert Hw.
  generalize w at 2 4 as v.
  induction cs as [|c cs IH]; intros v Hv acc; simpl; [by intros [= <- <-]|].
  unfold mbind, M_bind.
  destruct (reap_candidate _ _ c acc v) as [oc v1] eqn:Hc.
  apply (reap_candidate_step true w) in Hc as (Hv1 & acc' & -> & _); [|by apply Hrows; left|done].
  apply IH; [|done]. intros x Hx. apply Hrows. by right.
Qed.
End Reaped.

(** ** Properties *)

(** C40. Only abandoned runs are reaped: a pass of the reaper changes the row of
    a run only if that run was running, without a lease in this process, under
    an owner the heartbeats prove dead; such a run is then queued for resume
    with its owner cleared, or failed as interrupted.  The pass does nothing
    inside the boot grace window and never throws. *)
Theorem reap_only_abandoned `{Instance} (sync : string -> M World unit) judge w o w' :
  (forall id w o w', sync id w = (o, w') ->
     db_runs (w_db w') = db_runs (w_db w) /\ db_heartbeats (w_db w') = db_heartbeats (w_db w) /\
     w_reg w' = w_reg w) ->
  reapOrphanedRuns (defaultReaperDeps judge sync) w = (o, w') ->
  is_ret o = true /\ (judge = false -> w' = w) /\
  forall id, db_runs (w_db w') !! id = db_runs (w_db w) !! id \/
    exists r r' owner, db_runs (w_db w) !! id = Some r /\ db_runs (w_db w') !! id = Some r' /\
      run_status r = running /\ run_ownerInstanceId r = Some owner /\
      id ∉ (listActiveExecutionLeases (w_reg w)).*1 /\
      isInstanceOwnerDead (db_heartbeats (w_db w)) owner (run_updatedAt r) clock = true /\
      (run_status r' = queued /\ run_ownerInstanceId r' = None /\ run_result r' = None \/
       r' = reaped_row r).
Proof.
  intros Hsync Hr. destruct (reap_pass sync Hsync judge w o w' Hr) as ([_ _ Hrows] & Hj & Hret).
  split; [done|]. split; [done|]. intros id.
  destruct (Hrows id) as [?|(r & r' & ? & ? & (? & ? & owner & ? & ?) & ?)]; [by left|].
  right. exists r, r', owner. done.
Qed.

(** ** Witnesses *)

(** A run whose owner has no heartbeat row *)
Lemma reap_only_abandoned_witness :
  let w' := (reapOrphanedRuns (@defaultReaperDeps ex_instance true (fun _ => mret tt))
               (claims_demo running)).2 in
  (exists o, reapOrphanedRuns (@defaultReaperDeps ex_instance true (fun _ => mret tt))
     (claims_demo running) = (o, w') /\ is_ret o = true) /\
  run_status <$> db_runs (w_db w') !! "r1" = Some queued.
Proof.
  intros w'. split; [|by vm_compute].
  destruct (reapOrphanedRuns _ _) as [o w1] eqn:Hr. exists o. split; [done|].
  apply (@reap_only_abandoned ex_instance (fun _ => mret tt) true (claims_demo running) o w1);
    [by intros id w o' w'' [= _ <-] | done].
Defined.
