(* ===== verification/Recovery.v ===== *)
(** * Startup recovery over the real storage

    [recoverOnStartup] of [task-queue.ts] as [apps/api/src/index.ts] calls it:
    what a restart makes of every run the previous process left behind. *)
From S2P Require Import Prelude Json Schema LeaseRegistry World ScmWorkload Resume TaskQueue TaskQueueDb Scheduling.

(** ** The hooks of the process entry *)

Section Hooks.
Context `{Instance}.
(** Whether the database is PostgreSQL, the A2A store's [markTaskFailed], and
    what other clients write to the metadata column *)
Context (isPostgres : bool) (markTaskFailed : string -> string -> M World unit)
        (rivals : nat -> World -> World).

(** Only a single process may conclude that a lease's owner is dead. *)
Definition release_recovered (run : RunRow) : M World unit :=
  if isPostgres then mret tt
  else _ ← releaseRecoveredScmWorkload wl_run (row_id run); mret tt.

Definition sync_a2a_task (run : RunRow) (reason : FailureReason) : M World unit :=
  match row_triggerSessionId run with
  | None | Some "" => mret tt
  | Some sessionId =>
      if decide (row_triggerSource run = Some "a2a")
      then try_catch (markTaskFailed sessionId (reason_message reason)) (fun _ => mret tt)
      else mret tt
  end.

Definition startup_hooks : RecoveryHooks := {|
  onRunFailed := Some (fun run reason => _ ← sync_a2a_task run reason; release_recovered run);
  recoverInFlight := negb isPostgres;
  canResume := Some (fun runId code => canRequeueInterruptedRun runId (Some code));
  onRunRequeued := Some release_recovered;
  onBeforeRequeue := Some (markRunForResume rivals)
|}.

(** [db.select({ id: agents.id }).from(agents)] *)
Definition all_agent_ids : M World (list string) :=
  select (fun d => (map_to_list (db_agents d)).*1).

Definition startup_recovery (now pendingOrphanTimeoutMs : Z) : M World RecoveryStats :=
  recoverOnStartup startup_hooks now pendingOrphanTimeoutMs all_agent_ids.
End Hooks.

(** ** What the passes change *)

(** A row but for its metadata column *)
Definition shape (r : Run) : Run := with_metadata None r.

(** Other clients write the metadata column only. *)
Definition metadata_only (w w' : World) : Prop :=
  memory w' = memory w /\ db_agents (w_db w') = db_agents (w_db w) /\
  db_leases (w_db w') = db_leases (w_db w) /\
  forall id, shape <$> db_runs (w_db w') !! id = shape <$> db_runs (w_db w) !! id.

(** The fields no pass changes *)
Definition lineage (r : Run) : option string * Z := (run_initiatorAgentId r, run_createdAt r).

(** The runs [ids] end in a state [Q] allows for their lease and status; the
    other runs and leases, the agents and the process memory stay. *)
Record pass (ids : list string) (Q : string -> option ScmLease -> RunStatus -> Prop) (w w' : World) : Prop := {
  ps_memory : memory w' = memory w;
  ps_agents : db_agents (w_db w') = db_agents (w_db w);
  ps_kept : forall id, id ∉ ids ->
    shape <$> db_runs (w_db w') !! id = shape <$> db_runs (w_db w) !! id /\
    db_leases (w_db w') !! (wl_run, id) = db_leases (w_db w) !! (wl_run, id);
  ps_lineage : forall id, lineage <$> db_runs (w_db w') !! id = lineage <$> db_runs (w_db w) !! id;
  ps_done : forall id r, id ∈ ids -> db_runs (w_db w') !! id = Some r ->
    Q id (db_leases (w_db w') !! (wl_run, id)) (run_status r)
}.

Lemma shape_status r r' : shape r' = shape r -> run_status r' = run_status r.
Proof. intros Hs. by apply (f_equal run_status) in Hs. Qed.
Lemma shape_lineage r r' : shape r' = shape r -> lineage r' = lineage r.
Proof. intros Hs. by apply (f_equal lineage) in Hs. Qed.

Lemma shape_lookup (m m' : gmap string Run) id :
  shape <$> m' !! id = shape <$> m !! id ->
  lineage <$> m' !! id = lineage <$> m !! id /\
  (forall r, m' !! id = Some r -> exists r0, m !! id = Some r0 /\ shape r = shape r0).
Proof.
  destruct (m' !! id) as [r|], (m !! id) as [r0|]; simpl; intros Hs; try done.
  apply (inj Some) in Hs. split; [f_equal; by apply shape_lineage|]. intros ? [= <-]. eauto.
Qed.

Lemma pass_none Q w : pass [] Q w w.
Proof. split; try done. by intros ? ? ?%not_elem_of_nil. Qed.

Lemma pass_metadata Q w w' : metadata_only w w' -> pass [] Q w w'.
Proof.
  intros (? & ? & Hl & Hs). split; try done.
  - intros id _. by rewrite Hl.
  - intros id. by apply shape_lookup.
  - by intros ? ? ?%not_elem_of_nil.
Qed.

Lemma pass_app xs ys Q w w1 w' :
  pass xs Q w w1 -> pass ys Q w1 w' -> pass (xs ++ ys) Q w w'.
Proof.
  intros [Hm1 Ha1 Hk1 Hl1 Hd1] [Hm2 Ha2 Hk2 Hl2 Hd2]. split; [congruence | congruence | | |].
  - intros id [Hx Hy]%not_elem_of_app. destruct (Hk1 id Hx), (Hk2 id Hy).
    split; congruence.
  - intros id. by rewrite Hl2.
  - intros id r Hin Hr. destruct (decide (id ∈ ys)) as [Hy|Hy]; [by apply Hd2|].
    apply elem_of_app in Hin as [Hx|]; [|done]. destruct (Hk2 id Hy) as [Hs Hlease].
    apply shape_lookup in Hs as [_ Hs]. destruct (Hs r Hr) as (r0 & Hr0 & Hsh).
    rewrite Hlease, (shape_status _ _ Hsh). by apply Hd1.
Qed.

(** A loop over rows that still are as they were listed *)
Lemma pass_fold {B} (f : RunRow -> B -> M World B)
    (P Q : string -> option ScmLease -> RunStatus -> Prop) l :
  NoDup (row_id <$> l) ->
  (forall x b w, x ∈ l ->
     (forall r, db_runs (w_db w) !! row_id x = Some r ->
        P (row_id x) (db_leases (w_db w) !! (wl_run, row_id x)) (run_status r)) ->
     returns (f x b) w (fun _ => pass [row_id x] Q w)) ->
  forall b w,
    (forall x r, x ∈ l -> db_runs (w_db w) !! row_id x = Some r ->
       P (row_id x) (db_leases (w_db w) !! (wl_run, row_id x)) (run_status r)) ->
    returns (fold_each l f b) w (fun _ => pass (row_id <$> l) Q w).
Proof.
  induction l as [|x l IH]; intros Hnd Hf b w HP; simpl.
  { apply returns_ret, pass_none. }
  change (NoDup (row_id x :: (row_id <$> l))) in Hnd.
  apply NoDup_cons in Hnd as [Hnin Hnd]. apply returns_bind.
  eapply returns_mono; [apply Hf; [by left | intros r; apply HP; by left]|].
  intros b1 w1 Hp. eapply returns_mono.
  - apply IH; [done | intros y b2 w2 Hy; apply Hf; by right|].
    intros y r Hy Hr. destruct (ps_kept _ _ _ _ Hp (row_id y)) as [Hs Hlease].
    { intros Hyx%list_elem_of_singleton. apply Hnin. rewrite <- Hyx. by apply list_elem_of_fmap_2. }
    apply shape_lookup in Hs as [_ Hs]. destruct (Hs r Hr) as (r0 & Hr0 & Hsh).
    rewrite Hlease, (shape_status _ _ Hsh). apply (HP y); [by right | done].
  - intros b2 w2 Hp2. by apply (pass_app [row_id x]) with w1.
Qed.

(** A pass after another over runs it covers *)
Lemma pass_seq xs ys P Q w w1 w' :
  xs ⊆ ys -> pass xs P w w1 -> pass ys Q w1 w' -> pass ys Q w w'.
Proof.
  intros Hsub [Hm1 Ha1 Hk1 Hl1 _] [Hm2 Ha2 Hk2 Hl2 Hd2].
  split; [congruence | congruence | | |done].
  - intros id Hid. destruct (Hk2 id Hid), (Hk1 id) as [? ?]; [set_solver|]. split; congruence.
  - intros id. by rewrite Hl2.
Qed.

Lemma pass_weaken xs P Q w w' :
  (forall x l st, P x l st -> Q x l st) -> pass xs P w w' -> pass xs Q w w'.
Proof. intros HPQ [? ? ? ? Hd]. split; eauto. Qed.

Lemma pass_steps id Q f w :
  (forall r, db_runs (w_db w) !! id = Some r ->
     Q id (db_leases (w_db w) !! (wl_run, id)) (run_status r)) ->
  pass [id] Q w (set_db (set_steps f) w).
Proof. intros HQ. split; try done. by intros id' r ->%list_elem_of_singleton ?; apply HQ. Qed.

Lemma pass_update id (cond : Run -> bool) f w (Q : string -> option ScmLease -> RunStatus -> Prop) :
  (forall r, lineage (f r) = lineage r) ->
  (forall r, db_runs (w_db w) !! id = Some r ->
     Q id (db_leases (w_db w) !! (wl_run, id)) (run_status (if cond r then f r else r))) ->
  returns (update_runs id cond f) w (fun _ => pass [id] Q w).
Proof.
  intros Hf HQ. unfold returns. rewrite update_runs_cond.
  assert (forall r, db_runs (w_db w) !! id = Some r -> cond r = false -> pass [id] Q w w) as Hsame.
  { intros r Hr Hc. split; try done. intros id' r' ->%list_elem_of_singleton Hr'.
    specialize (HQ r' Hr'). assert (r' = r) as -> by congruence. by rewrite Hc in HQ. }
  destruct (db_runs (w_db w) !! id) as [r|] eqn:Hr.
  2:{ exists false, w. split; [done|]. split; try done.
      intros id' r' ->%list_elem_of_singleton. congruence. }
  destruct (cond r) eqn:Hc; [|exists false, w; by eauto].
  exists true, (set_db (set_runs (insert id (f r))) w). split; [done|]. split; try done; simpl.
  - intros x Hx. rewrite lookup_insert_ne; [done | set_solver].
  - intros x. destruct (decide (x = id)) as [->|Hx]; [|by rewrite lookup_insert_ne].
    rewrite lookup_insert_eq, Hr. simpl. by rewrite Hf.
  - intros x r' ->%list_elem_of_singleton. rewrite lookup_insert_eq. intros [= <-].
    specialize (HQ r eq_refl). by rewrite Hc in HQ.
Qed.

(** ** The operations of one run *)

Section SingleProcess.
Context `{Instance}.
Context (markTaskFailed : string -> string -> M World unit) (rivals : nat -> World -> World).

(** The A2A tasks are not in this database, and other clients write the
    metadata column only. *)
Hypothesis markTaskFailed_elsewhere : forall sessionId message w,
  (markTaskFailed sessionId message w).2 = w.
Hypothesis rivals_metadata : forall n w, metadata_only w (rivals n w).

#[local] Abbreviation hooks := (startup_hooks false markTaskFailed rivals).

Lemma released_pass id (P : RunStatus -> Prop) w :
  (forall r, db_runs (w_db w) !! id = Some r -> P (run_status r)) ->
  returns (_ ← releaseRecoveredScmWorkload wl_run id; mret tt) w
    (fun _ => pass [id] (fun _ l st => l = None /\ P st) w).
Proof.
  intros HP. apply returns_bind. unfold returns. rewrite releaseRecovered_run.
  destruct (db_leases (w_db w) !! (wl_run, id)) as [l|] eqn:Hl.
  - eexists _, _. split; [done|]. eexists _, _. split; [done|]. split; try done; simpl.
    + intros x Hx. rewrite lookup_delete_ne; [done|]. intros [= ->]. set_solver.
    + intros x r ->%list_elem_of_singleton Hr. rewrite lookup_delete_eq. auto.
  - eexists _, _. split; [done|]. eexists _, _. split; [done|]. split; try done.
    intros x r ->%list_elem_of_singleton Hr. auto.
Qed.

Lemma sync_returns run reason w (Q : unit -> World -> Prop) :
  Q tt w -> returns (sync_a2a_task markTaskFailed run reason) w Q.
Proof.
  intros HQ. unfold sync_a2a_task.
  destruct (row_triggerSessionId run) as [[|c s]|]; try (by apply returns_ret).
  destruct (decide _); [|by apply returns_ret]. unfold returns, try_catch.
  pose proof (markTaskFailed_elsewhere (String c s) (reason_message reason) w) as He.
  destruct (markTaskFailed _ _ w) as [[[]|] w1]; simpl in He; subst; by exists tt, w.
Qed.

Definition recovered_failed (_ : string) (l : option ScmLease) (st : RunStatus) : Prop := l = None /\ st = failed.
Definition recovered_requeued (_ : string) (l : option ScmLease) (st : RunStatus) : Prop :=
  l = None /\ (st = failed \/ st = queued).

Lemma applyFailure_pass run reason w :
  returns (applyFailure hooks run reason) w (fun _ => pass [row_id run] recovered_failed w).
Proof.
  unfold applyFailure. apply returns_bind. simpl. unfold db_failRunWithStructuredReason, fail_with.
  apply returns_bind, returns_modify. apply returns_bind.
  eapply returns_mono; [by apply (pass_update _ _ _ _ (fun _ _ _ => True))|]. intros b1 w1 Hp1.
  assert (pass [row_id run] (fun _ _ _ => True) w w1) as Hp
    by (eapply pass_seq; [reflexivity | by apply (pass_steps _ (fun _ _ _ => True)) | exact Hp1]).
  apply returns_ret. apply returns_bind. unfold db_updateRunStatus. simpl. apply returns_bind.
  eapply returns_mono; [by apply (pass_update _ _ _ _ (fun _ _ st => st = failed))|].
  intros b2 w2 Hp2. apply returns_ret. unfold guarded. apply returns_try_catch.
  apply returns_bind, sync_returns. eapply returns_mono.
  { apply (released_pass _ (fun st => st = failed)). intros r Hr.
    by apply (ps_done _ _ _ _ Hp2 (row_id run)); [left|]. }
  intros b3 w3 Hp3. eapply pass_seq; [reflexivity| |exact Hp3].
  eapply pass_seq; [reflexivity | exact Hp | exact Hp2].
Qed.

(** ** The running, pending and queued runs of an agent *)

Lemma markRunForResume_pass id code w :
  returns (markRunForResume rivals id code) w (fun _ => pass [] recovered_requeued w).
Proof.
  unfold markRunForResume. apply returns_bind. set (produce := fun _ => _).
  destruct (mergeExecutionMetadata rivals id produce w) as [o w'] eqn:Hrun.
  assert (forall n, pass [] recovered_requeued w (after_rivals rivals n w)) as Hn.
  { intros n. induction n as [|n IH]; [apply pass_none|]. simpl.
    apply (pass_app [] [] _ _ (after_rivals rivals n w)); [done|]. by apply pass_metadata. }
  pose proof (merge_loop_Ret rivals id produce _ 0 w _ _ Hrun) as (n & _ & Hm).
  destruct Hm as [(-> & _ & r & Hr & ->) | [-> ->]].
  - exists true. eexists. split; [done|]. apply returns_ret.
    apply (pass_app [] [] _ _ (after_rivals rivals (S n) w)); [apply Hn|].
    apply pass_metadata. set (w1 := after_rivals rivals (S n) w) in *. clearbody w1.
    split_and!; try done. simpl. intros x.
    destruct (decide (x = id)) as [->|]; [|by rewrite lookup_insert_ne].
    by rewrite lookup_insert_eq, Hr.
  - exists false. eexists. split; [done|]. by apply returns_ret.
Qed.

Lemma requeue_pass id code w :
  (forall r, db_runs (w_db w) !! id = Some r -> run_status r = running) ->
  returns (db_requeueForResume id code None) w
    (fun _ => pass [id] (fun _ _ st => st = queued) w).
Proof.
  intros Hrun. apply returns_withTransaction, returns_bind.
  apply (returns_mono _ _ (fun _ w1 => w1 = w)).
  { destruct (match code with Some "" => None | _ => code end);
      [by apply returns_gets | by apply returns_ret]. }
  intros current w1 ->. apply returns_bind, returns_gets, returns_bind.
  eapply returns_mono.
  { apply (pass_update _ _ _ _ (fun _ _ st => st = queued)).
    - intros r. by repeat case_match.
    - intros r Hr. by rewrite (bool_decide_eq_true_2 _ (Hrun r Hr)). }
  intros [|] w1 Hp; simpl; [|by apply returns_ret].
  apply returns_bind, returns_modify, returns_ret.
  eapply pass_seq; [reflexivity | exact Hp|]. apply pass_steps. intros r.
  by apply (ps_done _ _ _ _ Hp id); left.
Qed.

(** The run is resumed or failed; either way its lease is gone. *)
Lemma recover_running_pass run stats w :
  (forall r, db_runs (w_db w) !! row_id run = Some r -> run_status r = running) ->
  returns (recover_running hooks run stats) w
    (fun _ => pass [row_id run] recovered_requeued w).
Proof.
  intros Hrun. unfold recover_running.
  assert (forall st, returns (_ ← applyFailure hooks run restart_reason; mret (count_aborted st)) w
    (fun _ => pass [row_id run] recovered_requeued w)) as Hfail.
  { intros st. apply returns_bind. eapply returns_mono; [apply applyFailure_pass|].
    intros b w1 Hp. apply returns_ret. eapply pass_weaken; [|exact Hp].
    intros x l s [-> ->]. split; auto. }
  destruct (_ && _); [apply Hfail|]. simpl.
  apply returns_bind. unfold guarded at 1. apply returns_try_catch.
  unfold canRequeueInterruptedRun. apply returns_bind, returns_gets, returns_ret.
  destruct (match db_runs (w_db w) !! row_id run with Some _ => _ | None => _ end); [|apply Hfail].
  apply returns_bind. eapply returns_mono; [apply markRunForResume_pass|]. intros b1 w1 Hp1.
  apply returns_bind. eapply returns_mono.
  { apply requeue_pass. intros r Hr.
    destruct (ps_kept _ _ _ _ Hp1 (row_id run) (not_elem_of_nil _)) as [Hs _].
    apply shape_lookup in Hs as [_ Hs]. destruct (Hs r Hr) as (r0 & Hr0 & Hsh).
    rewrite (shape_status _ _ Hsh). by apply Hrun. }
  intros b2 w2 Hp2. apply returns_bind. unfold guarded. apply returns_try_catch.
  eapply returns_mono.
  { apply (released_pass _ (fun st => st = failed \/ st = queued)). intros r Hr. right.
    by apply (ps_done _ _ _ _ Hp2 (row_id run)); [left|]. }
  intros b3 w3 Hp3. apply returns_ret. eapply pass_seq; [|exact Hp1|].
  - intros x ?%elem_of_nil. done.
  - eapply pass_seq; [reflexivity | exact Hp2 | exact Hp3].
Qed.

(** The row is failed without a lease, or queued as it was in [w0]. *)
Definition recovered_queued (w0 : World) (id : string) (l : option ScmLease) (st : RunStatus)
    : Prop :=
  recovered_failed id l st \/ st = queued /\ l = db_leases (w_db w0) !! (wl_run, id).

Lemma recover_queued_pass w0 run stats w :
  (forall r, db_runs (w_db w) !! row_id run = Some r ->
     run_status r = queued /\
     db_leases (w_db w) !! (wl_run, row_id run) = db_leases (w_db w0) !! (wl_run, row_id run)) ->
  returns (recover_queued hooks run stats) w
    (fun _ => pass [row_id run] (recovered_queued w0) w).
Proof.
  intros Hq. unfold recover_queued. destruct (_ && _).
  - apply returns_bind. eapply returns_mono; [apply applyFailure_pass|].
    intros b w1 Hp. apply returns_ret. eapply pass_weaken; [|exact Hp]. by left.
  - apply returns_ret. split; try done.
    intros x r ->%list_elem_of_singleton Hr. right. by destruct (Hq r Hr).
Qed.

Lemma orphan_pass reason run stats w :
  returns (orphan hooks reason run stats) w (fun _ => pass [row_id run] recovered_failed w).
Proof.
  apply returns_bind. eapply returns_mono; [apply applyFailure_pass|].
  intros b w1 Hp. by apply returns_ret.
Qed.

(** ** Listings *)

(** [rows] lists the selected runs, each once. *)
Definition lists (sel : Run -> Prop) (rows : list RunRow) (w : World) : Prop :=
  NoDup (row_id <$> rows) /\
  forall id, id ∈ row_id <$> rows <-> exists r, db_runs (w_db w) !! id = Some r /\ sel r.

Lemma lists_fmap (f : string * Run -> RunRow) l sel w :
  (forall kv, row_id (f kv) = kv.1) -> NoDup l ->
  (forall id r, (id, r) ∈ l <-> db_runs (w_db w) !! id = Some r /\ sel r) ->
  lists sel (f <$> l) w.
Proof.
  intros Hf Hnd Hl.
  assert (row_id <$> (f <$> l) = l.*1) as Hid.
  { rewrite <- list_fmap_compose. apply list_fmap_ext. intros i kv _. apply Hf. }
  unfold lists. rewrite Hid. split.
  - apply NoDup_fmap_fst; [|done]. intros x r1 r2 [H1 _]%Hl [H2 _]%Hl. congruence.
  - intros id. rewrite list_elem_of_fmap. split.
    + intros ([x r] & -> & Hin%Hl). eauto.
    + intros (r & Hr). exists (id, r). split; [done|]. by apply Hl.
Qed.

(** The runs a pass selects change as [Q] says; nothing else does. *)
Definition settles (sel : Run -> Prop) (Q : string -> option ScmLease -> RunStatus -> Prop)
    (w w' : World) : Prop :=
  memory w' = memory w /\ db_agents (w_db w') = db_agents (w_db w) /\
  forall id, match db_runs (w_db w) !! id with
  | None => db_runs (w_db w') !! id = None
  | Some r => exists r', db_runs (w_db w') !! id = Some r' /\ lineage r' = lineage r /\
      (sel r -> Q id (db_leases (w_db w') !! (wl_run, id)) (run_status r')) /\
      (~ sel r -> shape r' = shape r /\
        db_leases (w_db w') !! (wl_run, id) = db_leases (w_db w) !! (wl_run, id))
  end.

Lemma pass_settles sel Q rows w w' :
  lists sel rows w -> pass (row_id <$> rows) Q w w' -> settles sel Q w w'.
Proof.
  intros [_ Hl] [Hm Ha Hk Hlin Hd]. split; [done|]. split; [done|]. intros id.
  pose proof (Hlin id) as Hid. specialize (Hl id).
  destruct (db_runs (w_db w) !! id) as [r|] eqn:Hr0, (db_runs (w_db w') !! id) as [r'|] eqn:Hr';
    try done. apply (inj Some) in Hid. exists r'. split; [done|]. split; [done|]. split.
  - intros Hs. apply Hd; [|done]. apply Hl. eauto.
  - intros Hs. destruct (Hk id) as [Hsh Hlease]; [|split; [|done]].
    + intros (r0 & [= <-] & ?)%Hl. done.
    + rewrite Hr', Hr0 in Hsh. by apply (inj Some) in Hsh.
Qed.

Lemma settles_loop {B} (f : RunRow -> B -> M World B) sel
    (P Q : string -> option ScmLease -> RunStatus -> Prop) rows b w :
  lists sel rows w ->
  (forall id r, db_runs (w_db w) !! id = Some r -> sel r ->
     P id (db_leases (w_db w) !! (wl_run, id)) (run_status r)) ->
  (forall x b w1,
     (forall r, db_runs (w_db w1) !! row_id x = Some r ->
        P (row_id x) (db_leases (w_db w1) !! (wl_run, row_id x)) (run_status r)) ->
     returns (f x b) w1 (fun _ => pass [row_id x] Q w1)) ->
  returns (fold_each rows f b) w (fun _ => settles sel Q w).
Proof.
  intros Hl HP Hf. eapply returns_mono.
  - apply (pass_fold f P Q); [apply Hl | by eauto|]. intros x r Hx Hr. apply HP; [done|].
    destruct (proj1 (proj2 Hl (row_id x)) (list_elem_of_fmap_2 row_id _ _ Hx)) as (r0 & Hr0 & Hs).
    congruence.
  - intros b' w'. by apply pass_settles.
Qed.

(** ** One agent *)

Definition of_agent (a : string) (st : RunStatus) (r : Run) : Prop :=
  run_initiatorAgentId r = Some a /\ run_status r = st.

(** Started again by this process *)
Definition taken (a id : string) (r' : Run) (w' : World) : Prop :=
  run_status r' = running /\ run_ownerInstanceId r' = Some processInstanceId /\
  (id, a) ∈ w_started w'.

(** What becomes of a run of an agent that exists *)
Definition fate (cutoff : Z) (a id : string) (r r' : Run) (w' : World) : Prop :=
  let released := db_leases (w_db w') !! (wl_run, id) = None in
  lineage r' = lineage r /\
  match run_status r with
  | running => taken a id r' w' \/ released /\ (run_status r' = failed \/ run_status r' = queued)
  | queued => taken a id r' w' \/ run_status r' = queued \/ released /\ run_status r' = failed
  | pending => if decide (run_createdAt r < cutoff)%Z
               then released /\ run_status r' = failed else shape r' = shape r
  | completed | failed | cancelled => shape r' = shape r
  end.

Record agent_step (cutoff : Z) (a : string) (w w' : World) : Prop := {
  as_wf : wf (w_reg w');
  as_agents : db_agents (w_db w') = db_agents (w_db w);
  as_started : w_started w ⊆ w_started w';
  as_rows : forall id, match db_runs (w_db w) !! id with
    | None => db_runs (w_db w') !! id = None
    | Some r => exists r', db_runs (w_db w') !! id = Some r' /\
        (run_initiatorAgentId r = Some a -> fate cutoff a id r r' w') /\
        (run_initiatorAgentId r <> Some a -> shape r' = shape r /\
           db_leases (w_db w') !! (wl_run, id) = db_leases (w_db w) !! (wl_run, id))
    end
}.

Lemma lists_by_status a st w :
  returns (db_getRunsByStatus a (status_name st)) w
    (fun rows w1 => w1 = w /\ lists (of_agent a st) rows w).
Proof.
  unfold db_getRunsByStatus. rewrite parseRunStatus_name. apply returns_gets. split; [done|].
  apply lists_fmap; [done | apply NoDup_map_to_list|].
  intros id r. by rewrite elem_of_map_to_list, lookup_runs_in.
Qed.

Definition old_pending (cutoff : Z) (r : Run) : Prop :=
  run_status r = pending /\ (run_createdAt r < cutoff)%Z.

Lemma lists_orphaned a cutoff w :
  lists (fun r => run_initiatorAgentId r = Some a /\ old_pending cutoff r)
    (plain_row <$> filter (fun kv => (run_createdAt kv.2 < cutoff)%Z)
       (map_to_list (runs_in a pending (w_db w)))) w.
Proof.
  apply lists_fmap; [done | apply NoDup_filter, NoDup_map_to_list|].
  intros id r. rewrite list_elem_of_filter, elem_of_map_to_list, lookup_runs_in.
  unfold old_pending. simpl. tauto.
Qed.

Lemma promotions_leases a mx ids w w' :
  promotions a mx ids w w' ->
  db_agents (w_db w') = db_agents (w_db w) /\ (wf (w_reg w) -> wf (w_reg w')) /\
  (forall id, id ∉ ids -> db_leases (w_db w') !! (wl_run, id) = db_leases (w_db w) !! (wl_run, id)).
Proof.
  induction 1 as [w|id ids r w w1 w2 Hold Hc Hp (IHa & IHw & IHl)]; [done|].
  split_and!.
  - rewrite IHa. simpl. by rewrite (cl_agents _ _ _ _ _ _ Hc).
  - intros Hw. apply IHw. by eapply claimed_wf.
  - intros x [Hx Hxs]%not_elem_of_cons. rewrite IHl by done. simpl.
    destruct (cl_leases _ _ _ _ _ _ Hc) as [(l & l' & _ & -> & _)|(_ & -> & _)]; [|done].
    rewrite lookup_insert_ne; [done|]. intros [= ->]. done.
Qed.

Lemma settles_lookup sel Q w w' id r :
  settles sel Q w w' -> db_runs (w_db w) !! id = Some r ->
  exists r', db_runs (w_db w') !! id = Some r' /\ lineage r' = lineage r /\
    (sel r -> Q id (db_leases (w_db w') !! (wl_run, id)) (run_status r')) /\
    (~ sel r -> shape r' = shape r /\
       db_leases (w_db w') !! (wl_run, id) = db_leases (w_db w) !! (wl_run, id)).
Proof. intros (_ & _ & Hs) Hr. specialize (Hs id). by rewrite Hr in Hs. Qed.

Lemma settles_none sel Q w w' id :
  settles sel Q w w' -> db_runs (w_db w) !! id = None -> db_runs (w_db w') !! id = None.
Proof. intros (_ & _ & Hs) Hr. specialize (Hs id). by rewrite Hr in Hs. Qed.

Lemma lineage_eq r r' :
  lineage r' = lineage r -> run_initiatorAgentId r' = run_initiatorAgentId r /\
    run_createdAt r' = run_createdAt r.
Proof. by intros [= ? ?]. Qed.

(** The promotion of one row *)
Lemma promotions_row a mx ids w w' id r :
  promotions a mx ids w w' -> db_runs (w_db w) !! id = Some r ->
  exists r', db_runs (w_db w') !! id = Some r' /\ lineage r' = lineage r /\
    (run_initiatorAgentId r = Some a /\ run_status r = queued /\ taken a id r' w' \/
     r' = r /\ db_leases (w_db w') !! (wl_run, id) = db_leases (w_db w) !! (wl_run, id)).
Proof.
  intros Hp Hr. destruct (promotions_rows _ _ _ _ _ Hp) as (_ & Hin & Hout).
  destruct (decide (id ∈ ids)) as [Hi|Hi].
  - destruct (Hin id Hi) as (r0 & Hr0 & Ha & Hq & Hr'). assert (r0 = r) as -> by congruence.
    exists (promoted_row r). split; [done|]. split; [done|]. left. split; [done|]. split; [done|].
    split; [done|]. split; [done|]. rewrite (promotions_started _ _ _ _ _ Hp).
    apply elem_of_app. right. apply list_elem_of_fmap. eauto.
  - exists r. rewrite Hout by done. split; [done|]. split; [done|]. right. split; [done|].
    by apply (promotions_leases _ _ _ _ _ Hp).
Qed.

(** A pass that does not select the row *)
Ltac unstep H :=
  let Hs := fresh "Hshape" in let Hl := fresh "Hlease" in let Ht := fresh "Hstatus" in
  destruct H as [Hs Hl];
    [unfold of_agent, old_pending; intros [? ?]; intuition congruence
    |pose proof (shape_status _ _ Hs) as Ht].

Section OneAgent.
Context (cutoff : Z) (a : string) (mx : nat) (ids : list string) (w w1 w2 w3 w' : World).
Hypothesis running_pass : settles (of_agent a running) recovered_requeued w w1.
Hypothesis pending_pass :
  settles (fun r => run_initiatorAgentId r = Some a /\ old_pending cutoff r) recovered_failed w1 w2.
Hypothesis queued_pass : settles (of_agent a queued) (recovered_queued w2) w2 w3.
Hypothesis promotion_pass : promotions a mx ids w3 w'.

Lemma agent_row id r :
  db_runs (w_db w) !! id = Some r ->
  exists r', db_runs (w_db w') !! id = Some r' /\
    (run_initiatorAgentId r = Some a -> fate cutoff a id r r' w') /\
    (run_initiatorAgentId r <> Some a -> shape r' = shape r /\
       db_leases (w_db w') !! (wl_run, id) = db_leases (w_db w) !! (wl_run, id)).
Proof.
  intros Hr.
  destruct (settles_lookup _ _ _ _ _ _ running_pass Hr) as (r1 & Hr1 & Hl1 & Hs1 & Hk1).
  destruct (settles_lookup _ _ _ _ _ _ pending_pass Hr1) as (r2 & Hr2 & Hl2 & Hs2 & Hk2).
  destruct (settles_lookup _ _ _ _ _ _ queued_pass Hr2) as (r3 & Hr3 & Hl3 & Hs3 & Hk3).
  destruct (promotions_row _ _ _ _ _ _ _ promotion_pass Hr3) as (r' & Hr' & Hl' & Hp).
  exists r'. split; [done|].
  assert (run_initiatorAgentId r1 = run_initiatorAgentId r /\ run_createdAt r1 = run_createdAt r /\
    run_initiatorAgentId r2 = run_initiatorAgentId r /\
    run_initiatorAgentId r3 = run_initiatorAgentId r) as (Ha1 & Hc1 & Ha2 & Ha3).
  { apply lineage_eq in Hl1 as [? ?], Hl2 as [? _], Hl3 as [? _]. split_and!; congruence. }
  split; intros Ha.
  2:{ destruct Hk1 as [Hk1 Hlease1]; [by intros [? ?]|].
      destruct Hk2 as [Hk2 Hlease2]; [intros [? ?]; congruence|].
      destruct Hk3 as [Hk3 Hlease3]; [intros [? ?]; congruence|].
      destruct Hp as [(? & _)|[-> Hlease]]; [congruence|]. split; congruence. }
  split; [congruence|].
  assert (run_status r3 <> queued -> r' = r3 /\
    db_leases (w_db w') !! (wl_run, id) = db_leases (w_db w3) !! (wl_run, id)) as Hkept
    by (intros; destruct Hp as [(_ & ? & _)|?]; [done | assumption]).
  assert (run_status r2 <> queued -> r' = r3 /\ shape r3 = shape r2 /\
    db_leases (w_db w') !! (wl_run, id) = db_leases (w_db w2) !! (wl_run, id)) as Hkept2.
  { intros Hne. unstep Hk3. destruct Hkept as [-> ->]; [congruence|]. split_and!; congruence. }
  assert (run_status r2 = queued -> taken a id r' w' \/
    (run_status r' = failed /\ db_leases (w_db w') !! (wl_run, id) = None \/
     run_status r' = queued /\
     db_leases (w_db w') !! (wl_run, id) = db_leases (w_db w2) !! (wl_run, id))) as Hqueued.
  { intros Hq. destruct Hs3 as [[Hl3n Hf]|[Hst Hl3q]]; [by split; congruence| |].
    - destruct Hkept as [-> ->]; [by rewrite Hf|]. auto.
    - destruct Hp as [(_ & _ & ?)|[-> ->]]; auto. }
  destruct (run_status r) eqn:Hst.
  - (* pending *)
    unstep Hk1. rewrite <- Hc1. case_decide as Hold.
    + destruct Hs2 as [Hl2n Hf]; [by split; [congruence|]; split; congruence|].
      destruct Hkept2 as (-> & Hsh & ->); [by rewrite Hf|].
      by rewrite (shape_status _ _ Hsh).
    + unstep Hk2. destruct Hkept2 as (-> & ? & _); congruence.
  - (* queued *)
    unstep Hk1. unstep Hk2. destruct Hqueued as [|[[? ?]|[? _]]]; [congruence|auto..].
  - (* running *)
    destruct Hs1 as [Hl1n Hf]; [done|]. unstep Hk2.
    assert (db_leases (w_db w2) !! (wl_run, id) = None) as Hl2n by congruence.
    destruct Hf as [Hf|Hf].
    + right. destruct Hkept2 as (-> & Hsh & ->); [congruence|].
      split; [done|]. left. rewrite (shape_status _ _ Hsh). congruence.
    + destruct Hqueued as [|[[? ?]|[? ->]]]; [congruence|auto..].
  - unstep Hk1. unstep Hk2. destruct Hkept2 as (-> & ? & _); congruence.
  - unstep Hk1. unstep Hk2. destruct Hkept2 as (-> & ? & _); congruence.
  - unstep Hk1. unstep Hk2. destruct Hkept2 as (-> & ? & _); congruence.
Qed.

Lemma agent_step_passes : wf (w_reg w) -> agent_step cutoff a w w'.
Proof.
  intros Hw. destruct running_pass as (Hm1 & Ha1 & _), pending_pass as (Hm2 & Ha2 & _),
    queued_pass as (Hm3 & Ha3 & _).
  injection Hm1 as Hr1 _ _ Hs1. injection Hm2 as Hr2 _ _ Hs2. injection Hm3 as Hr3 _ _ Hs3.
  destruct (promotions_leases _ _ _ _ _ promotion_pass) as (Ha4 & Hw4 & _). split.
  - apply Hw4. congruence.
  - congruence.
  - rewrite (promotions_started _ _ _ _ _ promotion_pass), Hs3, Hs2, Hs1.
    intros x ?. apply elem_of_app. by left.
  - intros id. destruct (db_runs (w_db w) !! id) as [r|] eqn:Hr; [by apply agent_row|].
    destruct (promotions_rows _ _ _ _ _ promotion_pass) as (_ & Hin & Hout).
    pose proof (settles_none _ _ _ _ _ queued_pass
      (settles_none _ _ _ _ _ pending_pass (settles_none _ _ _ _ _ running_pass Hr))) as Hnone.
    rewrite Hout; [done|]. intros (? & ? & _)%Hin. congruence.
Qed.
End OneAgent.

Lemma schedule_next_returns a w :
  a <> "" -> wf (w_reg w) ->
  returns (scheduleNext a) w (fun _ w' => exists mx ids, promotions a mx ids w w').
Proof.
  intros Ha Hw. destruct (scheduleNext a w) as [o w'] eqn:Hs.
  destruct (schedule_next_promotions _ _ _ _ Ha Hw Hs) as (mx & ids & _ & Hp & _).
  assert (is_ret o = true) as Ho.
  { revert Hs. unfold scheduleNext, mbind, M_bind, gets, try_catch.
    destruct (w_runPromotionsPaused w); [by intros [= <- _]|].
    by destruct (promoteQueuedRuns a w) as [[m|e] w1]; intros [= <- _]. }
  destruct o as [n|e]; [|done]. exists n, w'. eauto.
Qed.

Lemma recover_agent_step cutoff a stats w :
  a <> "" -> wf (w_reg w) ->
  returns (recover_agent hooks cutoff a stats) w (fun _ => agent_step cutoff a w).
Proof.
  intros Hne Hw. unfold recover_agent. simpl. apply returns_bind, returns_bind.
  eapply returns_mono; [apply (lists_by_status a running)|]. intros rows ? [-> Hl].
  apply returns_bind. eapply returns_mono.
  { apply (settles_loop _ _ (fun _ _ st => st = running) recovered_requeued _ _ _ Hl).
    - by intros id r _ [_ ?].
    - intros x b w1 Hx. by apply recover_running_pass. }
  intros st1 w1 H1. apply returns_bind, returns_gets, returns_bind. eapply returns_mono.
  { apply (settles_loop _ _ (fun _ _ _ => True) recovered_failed _ _ _ (lists_orphaned a cutoff w1));
      [done|]. intros x b w2 _. apply orphan_pass. }
  intros st2 w2 H2. apply returns_bind.
  eapply returns_mono; [apply (lists_by_status a queued)|]. intros rows2 ? [-> Hl2].
  eapply returns_mono.
  { apply (settles_loop _ _ (fun id l st => st = queued /\ l = db_leases (w_db w2) !! (wl_run, id))
      (recovered_queued w2) _ _ _ Hl2).
    - by intros id r _ [_ ?].
    - intros x b w3 Hx. by apply recover_queued_pass. }
  intros st3 w3 H3. apply returns_bind.
  assert (w_reg w3 = w_reg w) as Hreg.
  { destruct H1 as ([= ? _ _ _] & _), H2 as ([= ? _ _ _] & _), H3 as ([= ? _ _ _] & _). congruence. }
  eapply returns_mono; [apply schedule_next_returns; [done | by rewrite Hreg]|].
  intros n w' (mx & ids & Hp). apply returns_ret.
  by apply (agent_step_passes cutoff a mx ids w w1 w2 w3 w').
Qed.

(** ** All agents, then the runs of deleted ones *)

Definition same_run (id : string) (r r' : Run) (w w' : World) : Prop :=
  shape r' = shape r /\ db_leases (w_db w') !! (wl_run, id) = db_leases (w_db w) !! (wl_run, id).

Lemma same_run_trans id r r1 r2 w w1 w2 :
  same_run id r r1 w w1 -> same_run id r1 r2 w1 w2 -> same_run id r r2 w w2.
Proof. intros [? ?] [? ?]. split; congruence. Qed.

Lemma fate_source c a id r r1 r' w' :
  shape r1 = shape r -> fate c a id r1 r' w' -> fate c a id r r' w'.
Proof.
  intros Hs. unfold fate. rewrite (shape_status _ _ Hs), (shape_lineage _ _ Hs).
  destruct (lineage_eq _ _ (shape_lineage _ _ Hs)) as [_ ->]. rewrite Hs. done.
Qed.

Lemma fate_target c a id r r1 r2 w1 w2 :
  same_run id r1 r2 w1 w2 -> w_started w1 ⊆ w_started w2 ->
  fate c a id r r1 w1 -> fate c a id r r2 w2.
Proof.
  intros [Hs Hl] Hst [Hlin Hf]. split; [by rewrite (shape_lineage _ _ Hs)|]. revert Hf.
  rewrite Hl, (shape_status _ _ Hs), Hs.
  assert (taken a id r1 w1 -> taken a id r2 w2) as Ht.
  { intros (? & ? & ?). split; [by rewrite (shape_status _ _ Hs)|]. split; [|by apply Hst].
    apply (f_equal run_ownerInstanceId) in Hs. simpl in Hs. congruence. }
  destruct (run_status r); tauto.
Qed.

(** The agents but those in [rest] have been recovered. *)
Record progress (cutoff : Z) (w0 : World) (rest : list string) (w : World) : Prop := {
  pg_wf : wf (w_reg w);
  pg_agents : db_agents (w_db w) = db_agents (w_db w0);
  pg_rest : NoDup rest /\ forall a, a ∈ rest -> is_Some (db_agents (w_db w0) !! a);
  pg_rows : forall id, match db_runs (w_db w0) !! id with
    | None => db_runs (w_db w) !! id = None
    | Some r => exists r', db_runs (w_db w) !! id = Some r' /\
        forall oa, run_initiatorAgentId r = oa ->
        match oa with
        | Some a =>
            if decide (is_Some (db_agents (w_db w0) !! a) /\ a ∉ rest)
            then fate cutoff a id r r' w else same_run id r r' w0 w
        | None => same_run id r r' w0 w
        end
    end
}.

Lemma progress_step cutoff w0 a rest w w1 :
  progress cutoff w0 (a :: rest) w -> agent_step cutoff a w w1 -> progress cutoff w0 rest w1.
Proof.
  intros [Hwf Hag [Hnd Hrest] Hrows] [Hwf1 Hag1 Hst Hrows1].
  apply NoDup_cons in Hnd as [Hnin Hnd].
  split; [done | congruence | split; [done | intros b ?; apply Hrest; by right]|].
  intros id. specialize (Hrows id). specialize (Hrows1 id).
  destruct (db_runs (w_db w0) !! id) as [r|]; [|by rewrite Hrows in Hrows1].
  destruct Hrows as (r' & Hr' & Hrow). rewrite Hr' in Hrows1.
  destruct Hrows1 as (r2 & Hr2 & Hmine & Hother). exists r2. split; [done|].
  intros oa Hoa. specialize (Hrow oa Hoa).
  assert (run_initiatorAgentId r' = oa) as Hoa'.
  { destruct oa as [b|]; [case_decide|]; [destruct Hrow as [Hl _]|destruct Hrow as [Hl%shape_lineage _]..];
      apply lineage_eq in Hl as [? _]; congruence. }
  destruct oa as [b|].
  2:{ eapply same_run_trans; [done|]. apply Hother. congruence. }
  destruct (decide (b = a)) as [->|Hne].
  - rewrite decide_False in Hrow by (intros [_ Hn]; apply Hn; by left).
    rewrite decide_True by (split; [apply Hrest; by left|done]).
    apply (fate_source _ _ _ _ r'); [apply Hrow|]. by apply Hmine.
  - assert (same_run id r' r2 w w1) as Hsame by (apply Hother; congruence).
    case_decide as Hd.
    + rewrite decide_True by (destruct Hd; split; [done|set_solver]).
      by eapply fate_target.
    + rewrite decide_False by (intros [? ?]; apply Hd; split; [done|set_solver]).
      by eapply same_run_trans.
Qed.

(** What becomes of any run *)
Definition recovered (cutoff : Z) (w : World) (id : string) (r r' : Run) (w' : World) : Prop :=
  let released_failed := db_leases (w_db w') !! (wl_run, id) = None /\ run_status r' = failed in
  match run_initiatorAgentId r with
  | None => same_run id r r' w w'
  | Some a =>
      if decide (is_Some (db_agents (w_db w) !! a)) then fate cutoff a id r r' w'
      else match run_status r with
           | pending => if decide (run_createdAt r < cutoff)%Z then released_failed
                        else same_run id r r' w w'
           | queued => released_failed
           | _ => same_run id r r' w w'
           end
  end.

Lemma agents_recovered cutoff w0 stats :
  db_agents (w_db w0) !! "" = None -> wf (w_reg w0) ->
  returns (fold_each (map_to_list (db_agents (w_db w0))).*1 (recover_agent hooks cutoff) stats) w0
    (fun _ => progress cutoff w0 [] ).
Proof.
  intros Hne Hwf. apply (returns_fold _ (progress cutoff w0)).
  - intros a rest b w Hp.
    assert (is_Some (db_agents (w_db w0) !! a)) as [ag Hag] by (apply (pg_rest _ _ _ _ Hp); by left).
    eapply returns_mono; [apply recover_agent_step|].
    + intros ->. congruence.
    + by eapply pg_wf.
    + intros b' w'. by apply progress_step.
  - split; [done | done | split; [apply NoDup_fst_map_to_list|] |].
    + intros a ([x ag] & -> & Hin%elem_of_map_to_list)%list_elem_of_fmap. by exists ag.
    + intros id. destruct (db_runs (w_db w0) !! id) as [r|]; [|done]. exists r. split; [done|].
      intros [a|] _; [|done]. rewrite decide_False; [done|].
      intros [[ag Hag] Hn]. apply Hn. apply list_elem_of_fmap. exists (a, ag).
      split; [done|]. by apply elem_of_map_to_list.
Qed.

Definition dangling_pending (d : Db) (cutoff : Z) (r : Run) : Prop :=
  old_pending cutoff r /\ agent_deleted d r.
Definition dangling_queued (d : Db) (r : Run) : Prop := run_status r = queued /\ agent_deleted d r.

Lemma lists_dangling_pending cutoff w :
  returns (db_getDanglingPendingRuns cutoff) w
    (fun rows w1 => w1 = w /\ lists (dangling_pending (w_db w) cutoff) rows w).
Proof.
  apply returns_gets. split; [done|]. apply lists_fmap; [done | apply NoDup_filter, NoDup_map_to_list|].
  intros id r. rewrite list_elem_of_filter, elem_of_map_to_list.
  unfold dangling_pending, old_pending. simpl. tauto.
Qed.

Lemma lists_dangling_queued w :
  returns db_getDanglingQueuedRuns w
    (fun rows w1 => w1 = w /\ lists (dangling_queued (w_db w)) rows w).
Proof.
  apply returns_gets. split; [done|]. apply lists_fmap; [done | apply NoDup_filter, NoDup_map_to_list|].
  intros id r. rewrite list_elem_of_filter, elem_of_map_to_list. unfold dangling_queued. simpl. tauto.
Qed.

(** The passes over the runs of deleted agents, after the agents' own *)
Section Dangling.
Context (cutoff : Z) (w w1 w2 w' : World) (id : string) (r r1 r2 r' : Run).
Hypothesis agents_kept : db_agents (w_db w1) = db_agents (w_db w).
Hypothesis pending_pass : settles (dangling_pending (w_db w1) cutoff) recovered_failed w1 w2.
Hypothesis queued_pass : settles (dangling_queued (w_db w2)) recovered_failed w2 w'.
Hypothesis row1 : db_runs (w_db w1) !! id = Some r1.
Hypothesis row2 : db_runs (w_db w2) !! id = Some r2.
Hypothesis row' : db_runs (w_db w') !! id = Some r'.

Lemma pending_pass_row :
  lineage r2 = lineage r1 /\
  (dangling_pending (w_db w1) cutoff r1 ->
     recovered_failed id (db_leases (w_db w2) !! (wl_run, id)) (run_status r2)) /\
  (~ dangling_pending (w_db w1) cutoff r1 -> same_run id r1 r2 w1 w2).
Proof.
  destruct (settles_lookup _ _ _ _ _ _ pending_pass row1) as (x & Hx & ?). by simplify_eq.
Qed.

Lemma queued_pass_row :
  lineage r' = lineage r2 /\
  (dangling_queued (w_db w2) r2 ->
     recovered_failed id (db_leases (w_db w') !! (wl_run, id)) (run_status r')) /\
  (~ dangling_queued (w_db w2) r2 -> same_run id r2 r' w2 w').
Proof.
  destruct (settles_lookup _ _ _ _ _ _ queued_pass row2) as (x & Hx & ?). by simplify_eq.
Qed.

Lemma dangling_started : w_started w' = w_started w1.
Proof.
  destruct pending_pass as ([= _ _ _ ?] & _), queued_pass as ([= _ _ _ ?] & _). congruence.
Qed.

Lemma deleted_iff a d x :
  run_initiatorAgentId x = Some a -> agent_deleted d x <-> db_agents d !! a = None.
Proof. intros Hx. unfold agent_deleted. by rewrite Hx. Qed.

(** A run that belongs to no deleted agent is left alone. *)
Lemma undeleted_kept : ~ agent_deleted (w_db w1) r1 -> same_run id r1 r' w1 w'.
Proof.
  intros Hn. destruct pending_pass_row as (_ & _ & Hk2), queued_pass_row as (_ & _ & Hk').
  assert (same_run id r1 r2 w1 w2) as H12 by (apply Hk2; by intros [_ ?]).
  eapply same_run_trans; [exact H12|]. apply Hk'. intros [_ Hd]. apply Hn. revert Hd.
  unfold agent_deleted. destruct pending_pass as (_ & -> & _).
  by rewrite (proj1 (lineage_eq _ _ (shape_lineage _ _ (proj1 H12)))).
Qed.

(** A waiting run of a deleted agent is failed, any other one left alone. *)
Lemma deleted_outcome :
  agent_deleted (w_db w1) r1 -> same_run id r r1 w w1 ->
  let released_failed := recovered_failed id (db_leases (w_db w') !! (wl_run, id)) (run_status r') in
  match run_status r with
  | pending => if decide (run_createdAt r < cutoff)%Z then released_failed
               else same_run id r r' w w'
  | queued => released_failed
  | _ => same_run id r r' w w'
  end.
Proof.
  intros Hd H01. destruct pending_pass_row as (Hl2 & Hs2 & Hk2), queued_pass_row as (_ & Hs' & Hk').
  pose proof (shape_status _ _ (proj1 H01)) as Hst1.
  destruct (lineage_eq _ _ (shape_lineage _ _ (proj1 H01))) as [_ Hc1].
  assert (agent_deleted (w_db w2) r2) as Hd2.
  { revert Hd. unfold agent_deleted. destruct pending_pass as (_ & -> & _).
    by rewrite (proj1 (lineage_eq _ _ Hl2)). }
  assert (~ old_pending cutoff r1 -> same_run id r r2 w w2 /\ run_status r2 = run_status r) as Hkeep.
  { intros Hn. assert (same_run id r r2 w w2) as H02.
    { eapply same_run_trans; [exact H01|]. apply Hk2. by intros [? _]. }
    split; [done|]. apply (shape_status _ _ (proj1 H02)). }
  assert (run_status r <> queued -> ~ old_pending cutoff r1 -> same_run id r r' w w') as Hneither.
  { intros Hn1 Hn2. destruct (Hkeep Hn2) as [H02 Hst2].
    eapply same_run_trans; [exact H02|]. apply Hk'. intros [? _]. congruence. }
  destruct (run_status r) eqn:Hst;
    try (apply Hneither; [congruence | intros [? _]; congruence]).
  - case_decide as Hold; [|apply Hneither; [congruence | intros [_ ?]; rewrite Hc1 in *; done]].
    destruct Hs2 as [Hl Hf]; [split; [by split; [congruence | rewrite Hc1] | done]|].
    destruct Hk' as [Hsh ->]; [intros [? _]; congruence|].
    split; [done|]. by rewrite (shape_status _ _ Hsh).
  - destruct Hkeep as [_ Hst2]; [intros [? _]; congruence|]. by apply Hs'.
Qed.
End Dangling.

Lemma recovered_row cutoff w w1 w2 w' id r :
  progress cutoff w [] w1 ->
  settles (dangling_pending (w_db w1) cutoff) recovered_failed w1 w2 ->
  settles (dangling_queued (w_db w2)) recovered_failed w2 w' ->
  db_runs (w_db w) !! id = Some r ->
  exists r', db_runs (w_db w') !! id = Some r' /\ recovered cutoff w id r r' w'.
Proof.
  intros [_ Hag _ Hrows] Hpend Hqueue Hr. specialize (Hrows id). rewrite Hr in Hrows.
  destruct Hrows as (r1 & Hr1 & Hrow). specialize (Hrow _ eq_refl).
  destruct (settles_lookup _ _ _ _ _ _ Hpend Hr1) as (r2 & Hr2 & _).
  destruct (settles_lookup _ _ _ _ _ _ Hqueue Hr2) as (r' & Hr' & _).
  exists r'. split; [done|]. unfold recovered.
  assert (run_initiatorAgentId r1 = run_initiatorAgentId r) as Hi.
  { destruct (run_initiatorAgentId r) as [a|] eqn:Ha; [case_decide|];
      [destruct Hrow as [Hl _]|destruct Hrow as [Hl%shape_lineage _]..];
      apply lineage_eq in Hl as [? _]; congruence. }
  pose proof (undeleted_kept _ _ _ _ _ _ _ _ Hpend Hqueue Hr1 Hr2 Hr') as Hkept.
  destruct (run_initiatorAgentId r) as [a|].
  2:{ eapply same_run_trans; [exact Hrow|]. apply Hkept. unfold agent_deleted. rewrite Hi. tauto. }
  pose proof (deleted_iff _ (w_db w1) _ Hi) as Hdel. rewrite Hag in Hdel.
  destruct (decide (is_Some (db_agents (w_db w) !! a))) as [Hag1|Hag1].
  - rewrite decide_True in Hrow by (split; [done | apply not_elem_of_nil]).
    eapply fate_target; [apply Hkept| |exact Hrow].
    + intros Hd%Hdel. rewrite Hd in Hag1. by destruct Hag1.
    + rewrite (dangling_started _ _ _ _ Hpend Hqueue). reflexivity.
  - rewrite decide_False in Hrow by tauto. apply eq_None_not_Some in Hag1.
    apply (deleted_outcome _ _ _ _ _ _ _ _ _ _ Hpend Hqueue Hr1 Hr2 Hr'); [by apply Hdel | done].
Qed.

(** C4. Startup recovery of a single process always completes, and accounts for
    every run.  Of an agent that exists: an interrupted run has lost its checkout
    lease and is failed or back in the queue, unless this process has already
    started it again, under its own name; a run pending for too long is failed;
    a queued run is started, failed or still queued; a finished run keeps its
    row.  Of a deleted agent, the waiting runs are failed.  No other run changes
    but for its metadata, and none appears or goes. *)
Theorem recovery_settles_runs now timeout w :
  db_agents (w_db w) !! "" = None -> wf (w_reg w) ->
  exists stats w', startup_recovery false markTaskFailed rivals now timeout w = (Ret stats, w') /\
  forall id, match db_runs (w_db w) !! id with
  | None => db_runs (w_db w') !! id = None
  | Some r => exists r', db_runs (w_db w') !! id = Some r' /\
      recovered (now - timeout) w id r r' w'
  end.
Proof.
  intros Hne Hwf.
  assert (returns (startup_recovery false markTaskFailed rivals now timeout) w
    (fun _ w' => forall id, match db_runs (w_db w) !! id with
     | None => db_runs (w_db w') !! id = None
     | Some r => exists r', db_runs (w_db w') !! id = Some r' /\
         recovered (now - timeout) w id r r' w'
     end)) as (stats & w' & Hrun & Hrows); [|by exists stats, w'].
  apply returns_bind, returns_gets, returns_bind.
  eapply returns_mono; [by apply agents_recovered|]. intros st1 w1 Hprog.
  apply returns_bind. eapply returns_mono; [apply lists_dangling_pending|].
  intros rows ? [-> Hl]. apply returns_bind. eapply returns_mono.
  { apply (settles_loop _ _ (fun _ _ _ => True) recovered_failed _ _ _ Hl); [done|].
    intros x b w2 _. apply orphan_pass. }
  intros st2 w2 Hpend. apply returns_bind.
  eapply returns_mono; [apply lists_dangling_queued|]. intros rows2 ? [-> Hl2].
  eapply returns_mono.
  { apply (settles_loop _ _ (fun _ _ _ => True) recovered_failed _ _ _ Hl2); [done|].
    intros x b w3 _. apply orphan_pass. }
  intros st3 w' Hqueue id. destruct (db_runs (w_db w) !! id) as [r|] eqn:Hr.
  - by apply (recovered_row _ _ w1 w2).
  - pose proof (pg_rows _ _ _ _ Hprog id) as Hn. rewrite Hr in Hn.
    exact (settles_none _ _ _ _ _ Hqueue (settles_none _ _ _ _ _ Hpend Hn)).
Qed.
End SingleProcess.

(** ** Two gaps *)

(** A queued run of an SCM agent without its lease is never promoted, and as
    long as it is the oldest nothing else of the agent's queue is. *)
Lemma unleased_run_blocks_queue `{Instance} a id ag w :
  a <> "" -> db_getOldestQueuedRun a w = (Ret (Some (id, a)), w) ->
  db_agents (w_db w) !! a = Some ag -> agent_workspaceType ag = ws_scm ->
  db_leases (w_db w) !! (wl_run, id) = None ->
  scheduleNext a w = (Ret 0, w).
Proof.
  intros Hne Hold Hag Hscm Hl. unfold scheduleNext, try_catch, mbind, M_bind, gets.
  destruct (w_runPromotionsPaused w); [done|].
  rewrite promoteQueuedRuns_run, Hag.
  assert (exists o, promote_loop (MAX_QUEUE_LENGTH + agent_maxConcurrency ag) a
    (agent_maxConcurrency ag) 0 w = (o, w) /\ (o = Ret 0 \/ is_ret o = false)) as (o & -> & Ho).
  2:{ destruct Ho as [-> | Ho]; [done|]. by destruct o. }
  generalize (MAX_QUEUE_LENGTH + agent_maxConcurrency ag) as n. intros [|n]; [by exists (Ret 0); auto|].
  simpl. unfold promotion_occupancy, claim_queued. simpl. unfold countOccupiedRunSlots.
  unfold mbind, M_bind. unfold gets at 1.
  destruct (_ <=? _)%nat eqn:Hroom; [by exists (Ret 0); auto|]. rewrite Hold.
  destruct (getOldest_Some _ _ _ _ _ Hold) as [_ (r & [(Hr & _ & Hq)%lookup_runs_in _])].
  rewrite promote_run, Hroom, Hr, decide_True by done. cbv zeta.
  rewrite activateInMutation_run. destruct hasLostHeartbeatOwnership; [by eexists; auto|].
  simpl. rewrite Hl, Hag. rewrite decide_True by (simpl; congruence). eexists; auto.
Qed.

(** ** Witnesses *)

Definition startup : M World RecoveryStats :=
  @startup_recovery ex_instance false (fun _ _ => mret tt) (fun _ w => w) 100 10.

(** A run in session [s1] of agent [a1], which works in source [s1], was
    interrupted, another waits for its slot, and a third, of an agent that was
    deleted, is queued. *)
Definition interrupted_run : Run :=
  with_owner (Some "i0") (with_status running (resume_demo_run [("liveChatId", JStr "s1")])).

Definition restart_demo : World :=
  set_db (fun _ =>
    set_leases (fun _ => {[ (wl_run, "r1") := mkLease "a1" "s1" active (Some "i0") 0;
                            (wl_run, "r2") := mkLease "a1" "s1" reserved None 0 ]})
      (set_sources (fun _ => {[ "s1" := ex_source ]})
        (set_runs (fun _ => {[ "r1" := interrupted_run;
                               "r2" := with_queuedAt (Some 5%Z) (demo_run queued 5);
                               "r3" := with_queuedAt (Some 6%Z) (mkRun queued None None None None
                                         None None None (Some "a0") None 6 0 empty_usage empty_origin) ]})
          (mkDb ∅ ∅ {[ "a1" := mkAgent 1 ws_scm (Some "s1") true "A" None None None false ]}
             ∅ ∅ ∅ ∅ ∅ ∅ ∅)))) empty_world.

Lemma recovery_settles_runs_witness :
  exists stats w', startup restart_demo = (Ret stats, w') /\
    (run_status <$> db_runs (w_db w') !! "r3") = Some failed /\
    db_leases (w_db w') !! (wl_run, "r3") = None.
Proof.
  destruct (@recovery_settles_runs ex_instance (fun _ _ => (mret tt : M World unit)) (fun _ w => w)
    ltac:(done) ltac:(done) 100 10 restart_demo ltac:(done) wf_empty) as (stats & w' & Hrun & Hrows).
  exists stats, w'. split; [exact Hrun|]. specialize (Hrows "r3").
  destruct Hrows as (r' & -> & Hrec). vm_compute in Hrec. destruct Hrec as [Hl Hf].
  split; [|exact Hl]. simpl. by f_equal.
Defined.

(** An interrupted run of an SCM agent is requeued without the lease its
    promotion needs: it can never start again, and the run behind it waits for
    ever. *)
Lemma resumed_scm_run_stuck :
  let w' := (startup restart_demo).2 in
  run_status <$> db_runs (w_db w') !! "r1" = Some queued /\
  db_leases (w_db w') !! (wl_run, "r1") = None /\
  run_status <$> db_runs (w_db w') !! "r2" = Some queued /\
  is_Some (db_leases (w_db w') !! (wl_run, "r2")) /\
  @scheduleNext (@taskQueueDb ex_instance) "a1" w' = (Ret 0, w').
Proof. split_and!; try (by vm_compute). vm_compute. eauto. Qed.

(** The port is open before recovery begins: a run this process has admitted
    meanwhile is among the running rows, and is failed while it executes. *)
Lemma live_run_failed :
  let w1 := (@tryAcquireSlot (@taskQueueDb ex_instance) "a1" "r1" 1 queue_demo).2 in
  let w' := (startup w1).2 in
  run_ownerInstanceId <$> db_runs (w_db w1) !! "r1" = Some (Some "i1") /\
  hasExecutionLease "r1" (w_reg w') = true /\
  run_status <$> db_runs (w_db w') !! "r1" = Some failed.
Proof. split_and!; by vm_compute. Qed.
