(* ===== verification/RunExecute.v ===== *)
(** * Executing a run on request

    [POST /runs/:id/execute] of [apps/api/src/routes/runs.ts], up to the point
    where the worker is started: the checks, the admission transaction with its
    capacity test and status claim, the execution lease and the activation of
    the run's SCM lease. *)
From S2P Require Import Prelude Json Schema LeaseRegistry World ScmWorkload Resume TaskQueue TaskQueueDb Scheduling Reaper.

Definition RunAdmissionLostError : JsError := mkError "RunAdmissionLostError" "".
Definition RunAtCapacityError : JsError := mkError "RunAtCapacityError" "".

Record ExecuteRequest := mkExecute {
  exec_runId : string;
  exec_agentId : option string;      (* the body's override *)
  exec_context : option string;
  exec_stepId : string               (* createId('rst') *)
}.

Inductive ExecuteResponse :=
| execute_not_found                              (* 404 *)
| execute_forbidden                              (* 403 *)
| execute_conflict (status : option RunStatus)   (* 409 *)
| execute_no_agent                               (* 400 *)
| execute_agent_inactive                         (* 400 *)
| execute_queue_full                             (* 429 *)
| execute_failed (publicError : string)          (* 500 *)
| execute_started (hasScmLease : bool).

Definition EXECUTABLE : list RunStatus := [pending; queued].

Section Execute.
Context `{Instance}.
(** Who may read a run, and the settlement of a run that cannot start
    ([finishRunError] of RunLifecycle.v) *)
Context (visibilityFilter : Run -> bool) (finishRunError : JsError -> M World string).

(** The claim of the status compare-and-set: it does not set the owner. *)
Definition executed_row (r : Run) : Run :=
  with_updatedAt clock (with_queuedAt None (with_status running r)).

Definition execution_step (req : ExecuteRequest) (agentId : string) (run : Run) : RunStep :=
  mkStep (exec_runId req) 1
    (Some (obj_set_opt [("intent", JStr (origin_intent (run_origin run)))] "context"
             (JStr <$> exec_context req)))
    None step_running None (Some agentId).

(** The write inside the admission transaction *)
Definition admit_execution (req : ExecuteRequest) (agentId : string) (agent : Agent) (run : Run)
    (scmAdmission : ScmWorkloadAdmission) : M World bool :=
  occupied ← countOccupiedRunSlots agentId;
  if (agent_maxConcurrency agent <=? occupied)%nat then throw RunAtCapacityError
  else
    updated ← update_runs (exec_runId req)
      (fun r => visibilityFilter r && bool_decide (run_status r ∈ EXECUTABLE)) executed_row;
    if negb updated then throw RunAdmissionLostError
    else
      _ ← db_write (set_steps (insert (exec_stepId req) (execution_step req agentId run)));
      mret (has_lease_id scmAdmission).

Definition current_status (runId : string) : M World (option RunStatus) :=
  select (fun d => run_status <$> db_runs d !! runId).

(** The [try] around the admission: a response, or whether the claim was won *)
Definition claim_execution (req : ExecuteRequest) (agentId : string) (agent : Agent) (run : Run)
    : M World (ExecuteResponse + option bool) :=
  try_catch (
    hasScmLease ← withScmWorkloadAdmission wl_run (exec_runId req) agentId
                    (admit_execution req agentId agent run);
    mret (inr (Some hasScmLease)))
    (fun error =>
       if decide (error = RunAtCapacityError) then
         current ← current_status (exec_runId req);
         mret (inl (match current with
                    | Some s => if decide (s ∈ EXECUTABLE) then execute_queue_full
                                else execute_conflict (Some s)
                    | None => execute_queue_full
                    end))
       else if decide (error = RunAdmissionLostError) then mret (inr None)
       else throw error).

(** What follows a won claim *)
Definition begin_execution (req : ExecuteRequest) (agentId : string) (hasScmLease : bool)
    : M World ExecuteResponse :=
  _ ← reserve (exec_runId req) agentId;
  try_catch (
    _ ← (if hasScmLease then activateScmWorkload wl_run (exec_runId req) processInstanceId
         else mret tt);
    mret (execute_started hasScmLease))
    (fun error => publicError ← finishRunError error; mret (execute_failed publicError)).

(** From the admission to the start, for the [run] and the [agent] the request
    has read before *)
Definition launch_execution (req : ExecuteRequest) (agentId : string) (agent : Agent) (run : Run)
    : M World ExecuteResponse :=
  claimed ← claim_execution req agentId agent run;
  match claimed with
  | inl response => mret response
  | inr None =>
      latest ← current_status (exec_runId req);
      mret (execute_conflict latest)
  | inr (Some hasScmLease) => begin_execution req agentId hasScmLease
  end.

End Execute.

(** The whole handler; who may change a run and write an agent *)
Section Request.
Context `{Instance}.
Context (visibilityFilter : Run -> bool) (finishRunError : JsError -> M World string)
        (canMutateRun : Run -> bool) (requireAgentWrite : string -> M World Agent).

Definition executeRun (req : ExecuteRequest) : M World ExecuteResponse :=
  run ← select (fun d => match db_runs d !! exec_runId req with
                         | Some r => if visibilityFilter r then Some r else None
                         | None => None
                         end);
  match run with
  | None => mret execute_not_found
  | Some run =>
      if negb (canMutateRun run) then mret execute_forbidden
      else if decide (run_status run ∈ [running; completed; failed; cancelled])
      then mret (execute_conflict (Some (run_status run)))
      else
        match (if str_absent (exec_agentId req) then run_initiatorAgentId run
               else exec_agentId req) with
        | None | Some "" => mret execute_no_agent
        | Some agentId =>
            agent ← requireAgentWrite agentId;
            if negb (agent_active agent) then mret execute_agent_inactive
            else
              launch_execution visibilityFilter finishRunError req agentId agent run
        end
  end.
End Request.

(** ** What a launch does *)

Section Launch.
Context `{Instance}.
Context (visibilityFilter : Run -> bool) (finishRunError : JsError -> M World string).
#[local] Abbreviation admit_execution := (admit_execution visibilityFilter).
#[local] Abbreviation claim_execution := (claim_execution visibilityFilter).
#[local] Abbreviation launch_execution := (launch_execution visibilityFilter finishRunError).
#[local] Abbreviation begin_execution := (begin_execution finishRunError).


(** The database and the memory once the claim is won *)
Definition launched (req : ExecuteRequest) (agentId : string) (run r : Run)
    (adm : ScmWorkloadAdmission) (w : World) : World :=
  set_reg (fun g => (reserveExecutionLease (exec_runId req) (Some agentId) g).2)
    (set_db (fun d => set_steps (insert (exec_stepId req) (execution_step req agentId run))
       (set_runs (insert (exec_runId req) (executed_row r))
          (reserve_for wl_run (exec_runId req) agentId adm d))) w).

(** What a claim needs: a row still visible and executable, a free slot and a
    binding the admission accepts *)
Record claimable (req : ExecuteRequest) (agentId : string) (agent : Agent) (r : Run)
    (adm : ScmWorkloadAdmission) (w : World) : Prop := {
  cb_row : db_runs (w_db w) !! exec_runId req = Some r;
  cb_visible : visibilityFilter r = true;
  cb_status : run_status r ∈ EXECUTABLE;
  cb_room : size (occupying_runs agentId w) < agent_maxConcurrency agent;
  cb_alive : hasLostHeartbeatOwnership = false;
  cb_admitted : admission_of wl_run (exec_runId req) agentId (w_db w) = Some adm
}.

Lemma admit_execution_run req agentId agent run adm w :
  admit_execution req agentId agent run adm w =
  if (agent_maxConcurrency agent <=? size (occupying_runs agentId w))%nat
  then (Throw RunAtCapacityError, w)
  else match db_runs (w_db w) !! exec_runId req with
  | Some r =>
      if visibilityFilter r && bool_decide (run_status r ∈ EXECUTABLE) then
        (Ret (has_lease_id adm),
         set_db (fun d => set_steps (insert (exec_stepId req) (execution_step req agentId run))
           (set_runs (insert (exec_runId req) (executed_row r)) d)) w)
      else (Throw RunAdmissionLostError, w)
  | None => (Throw RunAdmissionLostError, w)
  end.
Proof.
  unfold admit_execution, countOccupiedRunSlots, gets, db_write, modify, throw, mbind, M_bind,
    mret, M_ret.
  destruct (_ <=? _)%nat; [done|]. rewrite update_runs_cond.
  destruct (db_runs (w_db w) !! exec_runId req) as [r|]; [|done].
  by destruct (visibilityFilter r && _).
Qed.

Lemma admit_execution_db_only req agentId agent run adm :
  db_only (admit_execution req agentId agent run adm).
Proof.
  intros w out w'. rewrite admit_execution_run. repeat case_match; intros; by simplify_eq.
Qed.

(** A won claim, and nothing else, is [launched] before the lease. *)
Lemma claim_execution_run req agentId agent run w o w' :
  claim_execution req agentId agent run w = (o, w') ->
  match o with
  | Ret (inr (Some b)) => exists r adm, claimable req agentId agent r adm w /\
      b = has_lease_id adm /\
      w' = set_db (fun d => set_steps (insert (exec_stepId req) (execution_step req agentId run))
             (set_runs (insert (exec_runId req) (executed_row r))
                (reserve_for wl_run (exec_runId req) agentId adm d))) w
  | Ret (inr None) => w' = w /\
      ~ (exists r, db_runs (w_db w) !! exec_runId req = Some r /\
         visibilityFilter r = true /\ run_status r ∈ EXECUTABLE)
  | Ret (inl response) => w' = w /\
      agent_maxConcurrency agent <= size (occupying_runs agentId w) /\
      response = match db_runs (w_db w) !! exec_runId req with
                 | Some r => if decide (run_status r ∈ EXECUTABLE) then execute_queue_full
                             else execute_conflict (Some (run_status r))
                 | None => execute_queue_full
                 end
  | Throw e => w' = w /\ refusal e
  end.
Proof.
  unfold claim_execution, try_catch.
  destruct ((withScmWorkloadAdmission _ _ _ _ ≫= _) w) as [[v|e] w1] eqn:Hm.
  - intros [= <- <-]. inv_bind Hm as (b & w2 & Hadm & [= <- <-]).
    apply admission_Ret in Hadm as (Hlost & adm & Hof & Hk).
    rewrite admit_execution_run, occupying_reserve in Hk.
    destruct (_ <=? _)%nat eqn:Hroom; [done|]. apply Nat.leb_gt in Hroom.
    simpl in Hk. rewrite reserve_for_runs in Hk.
    destruct (db_runs (w_db w) !! exec_runId req) as [r|] eqn:Hr; [|done].
    destruct (visibilityFilter r) eqn:Hv; [|done].
    destruct (bool_decide _) eqn:Hs; [|done]. apply bool_decide_eq_true in Hs.
    injection Hk as <- <-. exists r, adm. split; [done|]. split; [done|]. by destruct w.
  - assert (exists w2, withScmWorkloadAdmission wl_run (exec_runId req) agentId
      (admit_execution req agentId agent run) w = (Throw e, w2) /\ w1 = w2) as (w2 & Hadm & <-).
    { unfold mbind, M_bind in Hm.
      destruct (withScmWorkloadAdmission _ _ _ _ w) as [[?|?] ?]; [done|]. naive_solver. }
    assert (w1 = w) as ->.
    { apply world_eq; [by eapply admission_Throw|].
      by refine (admission_db_only _ _ _ _ _ _ _ _ Hadm); intros; apply admit_execution_db_only. }
    intros Hrun.
    assert (refusal e \/ ~ refusal e) as [Href|Hown].
    { destruct (decide (e = ScmWorkloadAdmissionError (err_message e) \/
                        e = ScmWorkloadLeaseConflictError (err_message e))) as [He|He].
      - left. by exists (err_message e).
      - right. intros [m [-> | ->]]; apply He; [by left | by right]. }
    { assert (e <> RunAtCapacityError /\ e <> RunAdmissionLostError) as [Hc Hl].
      { split; intros ->; by destruct Href as [? [? | ?]]. }
      rewrite !decide_False in Hrun by done. by injection Hrun as <- <-. }
    apply admission_thrown in Hadm as (_ & adm & w2 & Hof & Hk); [|done].
    rewrite admit_execution_run, occupying_reserve in Hk. simpl in Hk.
    rewrite reserve_for_runs in Hk.
    destruct (_ <=? _)%nat eqn:Hroom.
    + apply Nat.leb_le in Hroom. injection Hk as <- _. rewrite decide_True in Hrun by done.
      unfold current_status, select, gets, mbind, M_bind, mret, M_ret in Hrun.
      injection Hrun as <- <-. split; [done|]. split; [done|].
      by destruct (db_runs (w_db w) !! exec_runId req).
    + assert (e = RunAdmissionLostError) as ->.
      { destruct (db_runs (w_db w) !! exec_runId req) as [r|]; [|congruence].
        destruct (_ && _); congruence. }
      rewrite decide_False, decide_True in Hrun by done.
      injection Hrun as <- <-. split; [done|]. intros (r & Hr & Hv & Hs).
      rewrite Hr, Hv, bool_decide_eq_true_2 in Hk; done.
Qed.

(** What a launch ends with *)
Definition launch_ends (req : ExecuteRequest) (agentId : string) (agent : Agent) (run : Run)
    (w : World) (o : outcome ExecuteResponse) (w' : World) : Prop :=
  let executable := exists r, db_runs (w_db w) !! exec_runId req = Some r /\
    visibilityFilter r = true /\ run_status r ∈ EXECUTABLE in
  match o with
  | Ret (execute_started b) => exists r adm,
      claimable req agentId agent r adm w /\ b = has_lease_id adm /\
      db_runs (w_db w') = <[exec_runId req := executed_row r]> (db_runs (w_db w)) /\
      db_steps (w_db w') !! exec_stepId req = Some (execution_step req agentId run) /\
      hasExecutionLease (exec_runId req) (w_reg w') = true /\
      (b = true -> exists l, db_leases (w_db w') !! (wl_run, exec_runId req) = Some l /\
         lease_phase l = active /\ lease_ownerInstanceId l = Some processInstanceId)
  | Ret execute_queue_full => w' = w /\
      agent_maxConcurrency agent <= size (occupying_runs agentId w)
  | Ret (execute_conflict s) => w' = w /\ ~ executable /\
      s = run_status <$> db_runs (w_db w) !! exec_runId req
  | Ret (execute_failed publicError) => exists r adm e,
      claimable req agentId agent r adm w /\
      (activateScmWorkload wl_run (exec_runId req) processInstanceId
         (launched req agentId run r adm w)).1 = Throw e /\
      finishRunError e (launched req agentId run r adm w) = (Ret publicError, w')
  | Ret _ => False
  | Throw e => w' = w /\ refusal e \/
      exists r adm e1, claimable req agentId agent r adm w /\
        finishRunError e1 (launched req agentId run r adm w) = (Throw e, w')
  end.

Lemma activated_runs t id o d : db_runs (activated_db t id o d) = db_runs d.
Proof. done. Qed.

Lemma begin_execution_ends req agentId agent run r adm w o w' :
  claimable req agentId agent r adm w ->
  begin_execution req agentId (has_lease_id adm)
    (set_db (fun d => set_steps (insert (exec_stepId req) (execution_step req agentId run))
       (set_runs (insert (exec_runId req) (executed_row r))
          (reserve_for wl_run (exec_runId req) agentId adm d))) w) = (o, w') ->
  launch_ends req agentId agent run w o w'.
Proof.
  intros Hc. unfold begin_execution. rewrite (bind_run _ _ _ _ _ (reserve_run _ _ _)).
  change (set_reg _ _) with (launched req agentId run r adm w).
  assert (db_runs (w_db (launched req agentId run r adm w)) =
    <[exec_runId req := executed_row r]> (db_runs (w_db w))) as Hruns
    by (simpl; by rewrite reserve_for_runs).
  assert (db_steps (w_db (launched req agentId run r adm w)) !! exec_stepId req =
    Some (execution_step req agentId run)) as Hstep by (simpl; by rewrite lookup_insert_eq).
  assert (hasExecutionLease (exec_runId req) (w_reg (launched req agentId run r adm w)) = true)
    as Hlease by apply hasLease_reserve.
  set (w1 := launched _ _ _ _ _ _) in *. unfold try_catch, mbind, M_bind, mret, M_ret.
  destruct (has_lease_id adm) eqn:Hadm.
  2:{ intros [= <- <-]. exists r, adm. rewrite Hadm. done. }
  destruct (activateScmWorkload _ _ _ w1) as [[[]|e] w2] eqn:Ha.
  - intros [= <- <-]. exists r, adm. rewrite Hadm. split; [done|]. split; [done|].
    apply activateScmWorkload_Ret in Ha as (l & Hl & _ & [(Hp & Ho & ->) | (_ & _ & ->)]).
    + split_and!; [done..|]. intros _. by exists l.
    + split; [done|]. split; [done|]. split; [done|]. intros _.
      clearbody w1. eexists. simpl. by rewrite lookup_alter_eq, Hl.
  - pose proof (activateScmWorkload_Throw _ _ _ _ _ _ Ha) as ->.
    destruct (finishRunError e w1) as [[m|e1] w3] eqn:Hf; intros [= <- <-].
    + exists r, adm, e. fold w1. by rewrite Ha.
    + right. by exists r, adm, e.
Qed.

End Launch.

(** A run started on request is running with no owner recorded: as long as its
    row stays so, no pass over the runs of dead instances considers it. *)
Lemma executed_run_unseen `{Instance} r id w l w' :
  run_ownerInstanceId r = None ->
  db_runs (w_db w) !! id = Some (executed_row r) ->
  listOrphanedRunCandidates w = (Ret l, w') -> id ∉ orphan_id <$> l.
Proof.
  unfold listOrphanedRunCandidates, select, gets. intros Ho Hr [= <- _] Hin.
  apply list_elem_of_fmap in Hin as (c & -> & Hc).
  apply list_elem_of_omap in Hc as ([i ri] & Hi%elem_of_map_to_list & Hsome).
  destruct (decide _) as [[_ [o Hown]]|]; [|done].
  assert (ri = executed_row r) as ->.
  { repeat case_match; simplify_eq; simpl in *; congruence. }
  simpl in Hown. congruence.
Qed.

(** ** Two requests for one run *)

Definition ex_launch (step : string) : M World ExecuteResponse :=
  @launch_execution ex_instance (fun _ => true) (fun _ => mret "failed")
    (mkExecute "r1" None None step) "a1" (mkAgent 1 ws_temp None true "A" None None None false)
    (demo_run pending 1).

