(* ===== verification/WorkspaceRemoval.v ===== *)
(** * Removing a source's worktrees

    [apps/api/src/lib/scm-workspace-removal.ts], its retry boundary
    [workspace-cleanup-retry.ts], and the claim of a worktree by a run
    ([resolveWorkDir] of [agent-helpers.ts]).

    A remover commits a reservation row before it touches the disk, and a run
    commits its work directory before it uses the disk; both decisions are made
    under the SCM mutation lock.  [Host] is one process: the world it sees, the
    reservation writes it still owes, and the worktrees it has removed.  Between
    two of its mutations other processes may do anything to the database
    ([others]). *)
From Stdlib Require Import Ascii.
From S2P Require Import Prelude Json Schema LeaseRegistry World ScmWorkload Liveness.

(** ** Errors *)

Definition BLOCKED : string := "WorkspaceRemovalBlockedError".
Definition HANDED_OFF : string := "WorkspaceRemovalHandedOffError".
Definition EXHAUSTED : string := "WorkspaceCleanupExhaustedError".

Definition WorkspaceRemovalBlockedError (msg : string) : JsError := mkError BLOCKED msg.
Definition WorkspaceRemovalHandedOffError (reservationId : string) (cause : JsError) : JsError :=
  mkErrorCause HANDED_OFF ("Workspace removal handed off to the reconciler: " +:+ reservationId)
    (Some cause).
Definition WorkspaceCleanupExhaustedError (cause : JsError) : JsError :=
  mkErrorCause EXHAUSTED "Workspace cleanup did not succeed within its attempt budget" (Some cause).

(** ** Bounded cleanup retries *)

Section Retry.
Context {S : Type} (wait : Z -> M S unit).

Definition DEFAULT_RETRY_DELAY_MS : Z := 1000.
Definition DEFAULT_MAX_RETRY_DELAY_MS : Z := 30000.
Definition DEFAULT_MAX_ATTEMPTS : nat := 6.

Record WorkspaceCleanupRetryOptions := mkRetryOpts {
  opt_retryDelayMs : option Z;
  opt_maxRetryDelayMs : option Z;
  opt_maxAttempts : option nat
}.

Definition default_retry : WorkspaceCleanupRetryOptions := mkRetryOpts None None None.

(** The loop with [left] attempts after this one *)
Fixpoint cleanup_loop (cleanup : M S unit) (maxRetryDelayMs : Z) (left : nat) (delayMs : Z)
    : M S unit :=
  try_catch cleanup (fun error =>
    if instanceof error HANDED_OFF then throw error
    else match left with
         | O => throw (WorkspaceCleanupExhaustedError error)
         | Datatypes.S left' =>
             _ ← wait delayMs;
             cleanup_loop cleanup maxRetryDelayMs left' (Z.min (delayMs * 2) maxRetryDelayMs)
         end).

Definition retryWorkspaceCleanup (cleanup : M S unit) (options : WorkspaceCleanupRetryOptions)
    : M S unit :=
  let retryDelayMs := default DEFAULT_RETRY_DELAY_MS (opt_retryDelayMs options) in
  let maxRetryDelayMs := Z.max retryDelayMs
    (default DEFAULT_MAX_RETRY_DELAY_MS (opt_maxRetryDelayMs options)) in
  let maxAttempts := Nat.max 1 (default DEFAULT_MAX_ATTEMPTS (opt_maxAttempts options)) in
  cleanup_loop cleanup maxRetryDelayMs (maxAttempts - 1) retryDelayMs.

Definition findHandoffSignal (error : JsError) : option JsError :=
  if instanceof error HANDED_OFF then Some error
  else if instanceof error EXHAUSTED then
    match err_cause error with
    | Some cause => if instanceof cause HANDED_OFF then Some cause else None
    | None => None
    end
  else None.

Definition cleanupWorkspaceOrHandOff (cleanup : M S unit) (options : WorkspaceCleanupRetryOptions)
    : M S unit :=
  try_catch (retryWorkspaceCleanup cleanup options) (fun error =>
    match findHandoffSignal error with
    | None => throw error
    | Some _ => mret tt
    end).
End Retry.

(** ** One process *)

(** A worktree deleted from disk, and whether its branch was kept *)
Record DiskRemoval := mkDisk { disk_root : string; disk_name : string; disk_keepBranches : bool }.

(** What the [n]-th observation of the process meets: whether its mutation or
    its file removal fails, what other processes did before it, and the next
    random token. *)
Class Surroundings := {
  mutation_fault : nat -> option JsError;
  removal_fault : nat -> option JsError;
  others : nat -> Db -> Db;
  randomUUID : nat -> string;
  defaultWorkspacesPath : string -> string;
  storedRootError : string -> option JsError;   (* assertStoredScmWorkspacesRoot *)
  peersJudgeable : bool                          (* canJudgePeerLiveness() *)
}.

Record Host := mkHost {
  h_world : World;
  h_tick : nat;
  h_releases : gmap string string;    (* pendingReservationReleases: id -> attemptToken *)
  h_handoffs : gmap string string;    (* pendingReservationHandoffs *)
  h_disk : list DiskRemoval;          (* oldest first *)
  h_waits : list Z
}.

Definition h_db (h : Host) : Db := w_db (h_world h).
Definition set_world (f : World -> World) (h : Host) : Host :=
  mkHost (f (h_world h)) (h_tick h) (h_releases h) (h_handoffs h) (h_disk h) (h_waits h).
Definition tick (h : Host) : Host :=
  mkHost (h_world h) (S (h_tick h)) (h_releases h) (h_handoffs h) (h_disk h) (h_waits h).
Definition set_releases (f : gmap string string -> gmap string string) (h : Host) : Host :=
  mkHost (h_world h) (h_tick h) (f (h_releases h)) (h_handoffs h) (h_disk h) (h_waits h).
Definition set_handoffs (f : gmap string string -> gmap string string) (h : Host) : Host :=
  mkHost (h_world h) (h_tick h) (h_releases h) (f (h_handoffs h)) (h_disk h) (h_waits h).
Definition add_disk (e : DiskRemoval) (h : Host) : Host :=
  mkHost (h_world h) (h_tick h) (h_releases h) (h_handoffs h) (h_disk h ++ [e]) (h_waits h).
Definition add_wait (ms : Z) (h : Host) : Host :=
  mkHost (h_world h) (h_tick h) (h_releases h) (h_handoffs h) (h_disk h) (h_waits h ++ [ms]).

Definition delay (ms : Z) : M Host unit := modify (add_wait ms).

(** [node:path]'s [join] of a normalised root and a worktree name *)
Definition join (root name : string) : string := root +:+ "/" +:+ name.

(** The class [A-Za-z0-9_-] *)
Definition base64url_char (c : Ascii.ascii) : bool :=
  let n := Ascii.nat_of_ascii c in
  ((65 <=? n) && (n <=? 90) || (97 <=? n) && (n <=? 122) || (48 <=? n) && (n <=? 57) ||
   (n =? 95) || (n =? 45))%nat.

Fixpoint all_chars (p : Ascii.ascii -> bool) (s : string) : bool :=
  match s with EmptyString => true | String c s' => p c && all_chars p s' end.

(** [isPerAgentWorkspaceName]: a prefix and exactly sixteen base64url characters *)
Definition isPerAgentWorkspaceName (name : string) : bool :=
  match name with
  | String "a" (String "g" (String "e" (String "n" (String "t" (String "-" rest))))) =>
      (String.length rest =? 16)%nat && all_chars base64url_char rest
  | _ => false
  end.

Definition on_world {A} (m : M World A) : M Host A := fun h =>
  let '(o, w) := m (h_world h) in (o, set_world (fun _ => w) h).

Record ScmHandle := mkScm { scm_localPath : string; scm_wsRoot : string }.

Section Removal.
Context `{Instance, Surroundings}.

(** One SCM mutation: the others have moved on, then it commits or fails *)
Definition mutation {A} (m : M World A) : M Host A := fun h =>
  let h1 := set_world (set_db (others (h_tick h))) (tick h) in
  match mutation_fault (h_tick h) with
  | Some e => (Throw e, h1)
  | None => on_world (withScmPathMutation m) h1
  end.

Definition newToken : M Host string := fun h => (Ret (randomUUID (h_tick h)), tick h).

(** [createScmSource] and the constructor of [GitScmSource] *)
Definition createScmSource {S} (sourceId : string) (source : ScmSource) : M S (option ScmHandle) :=
  match source_type source with
  | src_git =>
      match storedRootError sourceId with
      | Some e => throw e
      | None => mret (Some (mkScm (source_localPath source)
          (match source_workspacesPath source with
           | None | Some "" => defaultWorkspacesPath sourceId
           | Some p => p
           end)))
      end
  | src_p4 => mret None
  end.

Definition disk_remove (scm : ScmHandle) (name : string) (keepBranches : bool) : M Host unit :=
  fun h => match removal_fault (h_tick h) with
           | Some e => (Throw e, tick h)
           | None => (Ret tt, tick (add_disk (mkDisk (scm_wsRoot scm) name keepBranches) h))
           end.

(** [scm.removeWorkspace]: the re-check inside the mutex, then the disk *)
Definition scm_removeWorkspace (scm : ScmHandle) (name : string) (keepBranches : bool)
    (beforeRemove : M Host unit) : M Host unit :=
  _ ← beforeRemove; disk_remove scm name keepBranches.

(** ** The decision *)

Definition findPendingWorkspaceRemoval (sourceId : string) (name : option string) (d : Db)
    : option (string * string) :=
  match name with
  | None =>
      head (omap (fun '(id, r) =>
        if decide (removal_scmSourceId r = sourceId) then Some (id, removal_workspaceName r)
        else None) (map_to_list (db_removals d)))
  | Some n =>
      (fun r => (workspaceRemovalId sourceId n, removal_workspaceName r)) <$>
        db_removals d !! workspaceRemovalId sourceId n
  end.

Record SourceWorkspaceRemovalState := mkRemovalState {
  srs_pending : nat;
  srs_live : option (string * string)
}.

(** Rows of a source's reservations *)
Definition removals_of (sourceId : string) (d : Db) : list (string * WorkspaceRemoval) :=
  filter (fun kv => removal_scmSourceId kv.2 = sourceId) (map_to_list (db_removals d)).

Definition owned_live (liveness : InstanceLivenessMap) (now : Z) (kv : string * WorkspaceRemoval)
    : bool :=
  match removal_ownerInstanceId kv.2 with
  | None => false
  | Some owner =>
      negb (isInstanceOwnerDead liveness owner (removal_attemptStartedAt kv.2) now)
  end.

Definition inspectSourceWorkspaceRemovals (sourceId : string) : M World SourceWorkspaceRemovalState :=
  rows ← select (removals_of sourceId);
  let owned := List.filter (fun kv => bool_decide (is_Some (removal_ownerInstanceId kv.2))) rows in
  let pending := length rows in
  match owned with
  | [] => mret (mkRemovalState pending None)
  | first :: _ =>
      if negb peersJudgeable
      then mret (mkRemovalState pending (Some (first.1, removal_workspaceName first.2)))
      else
        liveness ← loadInstanceLiveness;
        mret (mkRemovalState pending
          ((fun kv => (kv.1, removal_workspaceName kv.2)) <$>
             List.find (owned_live liveness clock) owned))
  end.

Definition releaseSourceWorkspaceRemovals (sourceId : string) : M World (list string) :=
  released ← select (removals_of sourceId);
  _ ← db_write (set_removals (filter (fun kv => removal_scmSourceId kv.2 <> sourceId)));
  mret ((fun kv => removal_workspaceName kv.2) <$> released).

Definition OCCUPYING : list RunStatus := [running; pending; queued].

(** A run the status machine still tracks in [wsPath] *)
Definition occupying_run (wsPath : string) (excluding : option (WorkloadType * string))
    (kv : string * Run) : bool :=
  bool_decide (run_workDir kv.2 = Some wsPath) && bool_decide (run_status kv.2 ∈ OCCUPYING) &&
  bool_decide (excluding <> Some (wl_run, kv.1)).

(** The leases of the source's other workloads *)
Definition relevant_lease (sourceId : string) (excluding : option (WorkloadType * string))
    (kv : WorkloadType * string * ScmLease) : bool :=
  bool_decide (lease_scmSourceId kv.2 = sourceId) && bool_decide (excluding <> Some kv.1).

Definition findWorkspaceRemovalBlocker (sourceId : string) (scm : ScmHandle) (name : string)
    (excluding : option (WorkloadType * string)) (d : Db) : option string :=
  let wsPath := join (scm_wsRoot scm) name in
  match db_sources d !! sourceId with
  | None => Some "SCM source is no longer available"
  | Some current =>
      if source_deletionRequested current then Some "SCM source is no longer available"
      else
        let currentWsRoot := default (defaultWorkspacesPath sourceId) (source_workspacesPath current) in
        if decide (source_localPath current <> scm_localPath scm \/ currentWsRoot <> scm_wsRoot scm)
        then Some "SCM source paths changed while removing the workspace; retry"
        else if existsb (occupying_run wsPath excluding) (map_to_list (db_runs d))
        then Some "Workspace is occupied by a running or pending run"
        else
          let relevantLeases :=
            List.filter (relevant_lease sourceId excluding) (map_to_list (db_leases d)) in
          if existsb (fun kv => bool_decide (kv.1.1 = wl_evaluation) &&
                                bool_decide (name = "eval-" +:+ kv.1.2)) relevantLeases
          then Some "Workspace is occupied by a running evaluation"
          else
            let leasedRuns := omap (fun kv => if decide (kv.1.1 = wl_run)
                                              then db_runs d !! kv.1.2 else None) relevantLeases in
            match List.find (fun r => bool_decide (run_workDir r = Some wsPath) ||
                                      bool_decide (run_workDir r = None)) leasedRuns with
            | None => None
            | Some r =>
                Some (if decide (run_workDir r = None)
                      then "Workspace may be claimed by an admitted run that has not started yet"
                      else "Workspace is occupied by a run that has not finished cleanup")
            end
  end.

(** ** The guarded removal *)

Record OwnedScmWorkload := mkOwned {
  owned_type : WorkloadType;
  owned_workloadId : string;
  owned_ownerInstanceId : string
}.

Record GuardedRemovalInput := mkGuarded {
  in_sourceId : string;
  in_name : string;
  in_scm : ScmHandle;
  in_ownedWorkload : option OwnedScmWorkload;
  in_keepBranches : bool
}.

Definition validateOwnedCleanup (sourceId : string) (workload : OwnedScmWorkload)
    : M World (WorkloadType * string) :=
  if decide (owned_ownerInstanceId workload <> processInstanceId) then
    throw (WorkspaceRemovalBlockedError "Workspace cleanup is owned by another process instance")
  else
    lease ← select (fun d => db_leases d !! (owned_type workload, owned_workloadId workload));
    match lease with
    | Some l =>
        if decide (lease_scmSourceId l = sourceId /\ lease_phase l = active /\
                   lease_ownerInstanceId l = Some (owned_ownerInstanceId workload))
        then mret (owned_type workload, owned_workloadId workload)
        else throw (WorkspaceRemovalBlockedError "Workspace cleanup no longer owns an active workload")
    | None =>
        throw (WorkspaceRemovalBlockedError "Workspace cleanup no longer owns an active workload")
    end.

(** The workload the decision leaves out *)
Definition excluded_workload (input : GuardedRemovalInput) : M World (option (WorkloadType * string)) :=
  match in_ownedWorkload input with
  | Some workload => identity ← validateOwnedCleanup (in_sourceId input) workload; mret (Some identity)
  | None => mret None
  end.

Definition decide_removal (input : GuardedRemovalInput) : M World (option string) :=
  excludingWorkload ← excluded_workload input;
  select (findWorkspaceRemovalBlocker (in_sourceId input) (in_scm input) (in_name input)
            excludingWorkload).

Definition reservation_of (input : GuardedRemovalInput) (attemptToken : string) : WorkspaceRemoval :=
  mkRemoval (in_sourceId input) (in_name input) (Some processInstanceId) attemptToken clock.

Definition input_id (input : GuardedRemovalInput) : string :=
  workspaceRemovalId (in_sourceId input) (in_name input).

(** The reserving mutation *)
Definition reserve_removal (input : GuardedRemovalInput) (attemptToken : string) : M World unit :=
  blocked ← decide_removal input;
  match blocked with
  | Some reason => throw (WorkspaceRemovalBlockedError reason)
  | None =>
      existing ← select (fun d => db_removals d !! input_id input);
      match existing with
      | Some _ =>
          throw (WorkspaceRemovalBlockedError "A removal of this workspace is already in progress")
      | None => db_write (set_removals (insert (input_id input) (reservation_of input attemptToken)))
      end
  end.

(** Writes fenced by the exact attempt *)
Definition fenced (id attemptToken : string) (d : Db) : bool :=
  match db_removals d !! id with
  | Some row => bool_decide (removal_attemptToken row = attemptToken)
  | None => false
  end.

Definition handOffWorkspaceRemoval (reservationId attemptToken : string) : M Host bool :=
  mutation (
    hit ← select (fenced reservationId attemptToken);
    if (hit : bool) then
      _ ← db_write (set_removals (alter (fun row =>
        mkRemoval (removal_scmSourceId row) (removal_workspaceName row) None
          (removal_attemptToken row) (removal_attemptStartedAt row)) reservationId));
      mret true
    else mret false).

Definition releaseWorkspaceRemovalReservation (reservationId attemptToken : string) : M Host unit :=
  mutation (
    hit ← select (fenced reservationId attemptToken);
    if (hit : bool) then db_write (set_removals (delete reservationId)) else mret tt).

Definition queueWorkspaceRemovalHandoff (reservationId attemptToken : string) : M Host unit :=
  modify (set_handoffs (insert reservationId attemptToken)).

Definition disownOrQueueRetry (reservationId attemptToken : string) : M Host unit :=
  try_catch (_ ← handOffWorkspaceRemoval reservationId attemptToken; mret tt)
    (fun _ => queueWorkspaceRemovalHandoff reservationId attemptToken).

(** The re-check right before the disk *)
Definition recheck (input : GuardedRemovalInput) : M Host unit :=
  blocked ← mutation (decide_removal input);
  match blocked with
  | Some reason => throw (WorkspaceRemovalBlockedError reason)
  | None => mret tt
  end.

Definition remove_once (input : GuardedRemovalInput) : M Host unit :=
  scm_removeWorkspace (in_scm input) (in_name input) (in_keepBranches input) (recheck input).

(** The [try] body: whether the reservation was handed off, and how it ends *)
Definition attempt_removal (input : GuardedRemovalInput) (attemptToken : string)
    : M Host (bool * outcome unit) :=
  let reservationId := input_id input in
  match in_ownedWorkload input with
  | Some _ =>
      result ← capture (retryWorkspaceCleanup delay (remove_once input) default_retry);
      match result with
      | Ret _ => mret (false, Ret tt)
      | Throw error =>
          if instanceof error EXHAUSTED then
            _ ← disownOrQueueRetry reservationId attemptToken;
            mret (true, Throw (WorkspaceRemovalHandedOffError reservationId error))
          else mret (false, Throw error)
      end
  | None =>
      result ← capture (remove_once input);
      match result with
      | Ret _ => mret (false, Ret tt)
      | Throw error =>
          if instanceof error BLOCKED then mret (false, Throw error)
          else
            _ ← disownOrQueueRetry reservationId attemptToken;
            mret (true, Throw error)
      end
  end.

(** The [finally] *)
Definition release_or_queue (reservationId attemptToken : string) : M Host unit :=
  try_catch (releaseWorkspaceRemovalReservation reservationId attemptToken)
    (fun _ => modify (set_releases (insert reservationId attemptToken))).

Definition removeSourceWorkspaceGuardedCore (input : GuardedRemovalInput) : M Host unit :=
  if World.hasLostHeartbeatOwnership then
    throw (WorkspaceRemovalBlockedError
      "This instance lost its liveness lease and is no longer removing workspaces")
  else
    attemptToken ← newToken;
    _ ← mutation (reserve_removal input attemptToken);
    '(handedOff, result) ← attempt_removal input attemptToken;
    _ ← (if (handedOff : bool) then mret tt else release_or_queue (input_id input) attemptToken);
    settle result.

Definition removeSourceWorkspaceGuarded (sourceId name : string) (scm : ScmHandle)
    (keepBranches : bool) : M Host unit :=
  removeSourceWorkspaceGuardedCore (mkGuarded sourceId name scm None keepBranches).

Definition removeOwnedSourceWorkspaceGuarded (sourceId name : string) (scm : ScmHandle)
    (workload : OwnedScmWorkload) : M Host unit :=
  removeSourceWorkspaceGuardedCore (mkGuarded sourceId name scm (Some workload) false).

(** ** Owed writes *)

Definition settle_pending (write : string -> string -> M Host unit)
    (get : Host -> gmap string string)
    (set : (gmap string string -> gmap string string) -> Host -> Host)
    (p : string * string) (settled : list string) : M Host (list string) :=
  let '(reservationId, attemptToken) := p in
  try_catch (
    _ ← write reservationId attemptToken;
    _ ← modify (fun h => if decide (get h !! reservationId = Some attemptToken)
                         then set (delete reservationId) h else h);
    mret (if decide (reservationId ∈ settled) then settled else settled ++ [reservationId]))
    (fun _ => mret settled).

Definition retryPendingWorkspaceRemovalReleases : M Host (list string) :=
  releases ← gets (fun h => map_to_list (h_releases h));
  settled ← fold_each releases
    (settle_pending releaseWorkspaceRemovalReservation h_releases set_releases) [];
  handoffs ← gets (fun h => map_to_list (h_handoffs h));
  fold_each handoffs
    (settle_pending (fun id tok => _ ← handOffWorkspaceRemoval id tok; mret tt)
       h_handoffs set_handoffs) settled.

Definition clearWorkspaceRemovalsOnStartup : M Host nat :=
  mutation (
    cleared ← select (fun d => size (db_removals d));
    _ ← db_write (set_removals (fun _ => ∅));
    mret cleared).
End Removal.

(** ** The rows of one attempt *)

Definition own_rows (tok : string) (d : Db) : gmap string WorkspaceRemoval :=
  filter (fun kv => removal_attemptToken kv.2 = tok) (db_removals d).

Lemma own_rows_lookup tok d id row :
  own_rows tok d !! id = Some row <->
  db_removals d !! id = Some row /\ removal_attemptToken row = tok.
Proof. unfold own_rows. by rewrite map_lookup_filter_Some. Qed.

Lemma fenced_own id tok d : fenced id tok d = true <-> is_Some (own_rows tok d !! id).
Proof.
  unfold fenced. split.
  - destruct (db_removals d !! id) as [row|] eqn:Hr; [|done]. intros Ht. bool_to_prop.
    exists row. by apply own_rows_lookup.
  - intros [row [-> ->]%own_rows_lookup]. by apply bool_decide_eq_true.
Qed.

Lemma own_rows_insert tok id row d :
  db_removals d !! id = None ->
  own_rows tok (set_removals (insert id row) d) =
  if decide (removal_attemptToken row = tok) then <[id := row]> (own_rows tok d) else own_rows tok d.
Proof.
  intros Hn. unfold own_rows. simpl. case_decide.
  - by rewrite map_filter_insert_True.
  - rewrite map_filter_insert_False by done. by rewrite delete_id.
Qed.

Lemma own_rows_delete tok id d :
  own_rows tok (set_removals (delete id) d) = delete id (own_rows tok d).
Proof. unfold own_rows. simpl. by rewrite map_filter_delete. Qed.

(** A disowned row keeps its token. *)
Definition disowned (row : WorkspaceRemoval) : WorkspaceRemoval :=
  mkRemoval (removal_scmSourceId row) (removal_workspaceName row) None
    (removal_attemptToken row) (removal_attemptStartedAt row).

Lemma own_rows_disown tok id d :
  own_rows tok (set_removals (alter disowned id) d) = alter disowned id (own_rows tok d).
Proof.
  apply map_eq. intros i. apply option_eq. intros row. rewrite own_rows_lookup. simpl.
  destruct (decide (id = i)) as [<-|Hne].
  - rewrite !lookup_alter_eq. rewrite !fmap_Some. setoid_rewrite own_rows_lookup.
    split; [intros [(x & Hx & ->) Ht]|intros (x & [Hx Ht] & ->)]; eauto.
  - rewrite !lookup_alter_ne by done. by rewrite own_rows_lookup.
Qed.

(** Everything of a process but its database *)
Definition side (h : Host) : gmap string string * gmap string string * list DiskRemoval :=
  (h_releases h, h_handoffs h, h_disk h).

Section Outcomes.
Context `{Instance, Surroundings}.

(** Other processes respect a live attempt: they neither change nor forge its
    row. *)
Definition respected (tok : string) : Prop :=
  forall n d, own_rows tok (others n d) = own_rows tok d.

(** Faults of the database and the disk are none of the protocol's errors. *)
Definition ordinary (e : JsError) : Prop :=
  instanceof e BLOCKED = false /\ instanceof e HANDED_OFF = false /\ instanceof e EXHAUSTED = false.
Definition ordinary_faults : Prop :=
  forall n e, mutation_fault n = Some e \/ removal_fault n = Some e -> ordinary e.

(** [createScmSource] changes nothing. *)
Lemma createScmSource_run {S} id s (st : S) o st' :
  createScmSource id s st = (o, st') -> st' = st.
Proof. unfold createScmSource. repeat case_match; by intros [= _ <-]. Qed.

Lemma excluded_workload_run input w o w' :
  excluded_workload input w = (o, w') ->
  w' = w /\ forall e, o = Throw e -> instanceof e BLOCKED = true.
Proof.
  unfold excluded_workload, validateOwnedCleanup, mbind, M_bind, select, gets, throw, mret, M_ret.
  destruct (in_ownedWorkload input); [|intros Hx; injection Hx as <- <-; split; [done|intros e' He; discriminate He]].
  repeat case_match; intros; simplify_eq; (split; [done|]); intros e' He; try discriminate He;
    by injection He as <-.
Qed.

Lemma decide_removal_run input w o w' :
  decide_removal input w = (o, w') ->
  w' = w /\ forall e, o = Throw e -> instanceof e BLOCKED = true.
Proof.
  unfold decide_removal. intros Hd. run_bind Hd as x w1 Hx e.
  - apply excluded_workload_run in Hx as [-> _].
    unfold select, gets in Hd. injection Hd as <- <-. split; [done|]. intros e' He. discriminate He.
  - apply excluded_workload_run in Hx as [-> Hb]. subst o. split; [done|].
    intros e' He. injection He as <-. by apply Hb.
Qed.

(** What a mutation does: nothing of ours when it fails, else its own writes *)
Lemma mutation_inv {A} (m : M World A) h o h' :
  mutation m h = (o, h') ->
  side h' = side h /\ h_tick h' = S (h_tick h) /\
  ((exists e, mutation_fault (h_tick h) = Some e /\ o = Throw e /\
              h_db h' = others (h_tick h) (h_db h)) \/
   (mutation_fault (h_tick h) = None /\
    exists w w', w_db w = others (h_tick h) (h_db h) /\ withScmPathMutation m w = (o, w') /\
                 h_db h' = w_db w')).
Proof.
  unfold mutation. destruct (mutation_fault (h_tick h)) as [e|] eqn:Hf.
  - intros [= <- <-]. split; [done|]. split; [done|]. left. by exists e.
  - unfold on_world. simpl. destruct (withScmPathMutation m _) as [o1 w1] eqn:Hm.
    intros [= <- <-]. split; [done|]. split; [done|]. right. split; [done|].
    eexists _, w1. split; [|split; [exact Hm|reflexivity]]. reflexivity.
Qed.

(** A mutation that only reads *)
Lemma mutation_read {A} (m : M World A) tok h o h' :
  respected tok -> (forall w o w', m w = (o, w') -> w' = w) ->
  mutation m h = (o, h') ->
  side h' = side h /\ h_tick h' = S (h_tick h) /\ own_rows tok (h_db h') = own_rows tok (h_db h).
Proof.
  intros Hr Hm (Hs & Ht & [(e & _ & _ & ->)|(_ & w & w' & Hw & Hrun & ->)])%mutation_inv;
    (split; [done|]); (split; [done|]); [by rewrite Hr|].
  assert (w_db w' = w_db w) as ->; [|by rewrite Hw, Hr].
  unfold withScmPathMutation, withTransaction in Hrun. destruct (m w) as [[a|e] w1] eqn:Hmw;
    injection Hrun as <- <-; apply Hm in Hmw; by subst.
Qed.

Lemma recheck_run tok input h o h' :
  respected tok -> ordinary_faults -> recheck input h = (o, h') ->
  side h' = side h /\ own_rows tok (h_db h') = own_rows tok (h_db h) /\ h_tick h <= h_tick h' /\
  forall e, o = Throw e -> instanceof e HANDED_OFF = false /\ instanceof e EXHAUSTED = false.
Proof.
  intros Hr Hord. unfold recheck. intros Hc. run_bind Hc as b h1 Hb e.
  - apply (mutation_read _ tok) in Hb as (Hs & Ht & Ho); [|done|by intros ??? []%decide_removal_run].
    destruct b as [reason|]; injection Hc as <- <-;
      (split; [done|]); (split; [done|]); (split; [lia|]); intros ? [=]; by subst.
  - pose proof Hb as Hb2.
    apply (mutation_read _ tok) in Hb as (Hs & Ht & Ho); [|done|by intros ??? []%decide_removal_run].
    split; [done|]. split; [done|]. split; [lia|]. intros e' He. subst o. injection He as <-.
    apply mutation_inv in Hb2 as (_ & _ & [(e2 & Hf & He & _)|(_ & w & w' & _ & Hrun & _)]).
    + injection He as ->. by destruct (Hord (h_tick h) e2) as (_ & ? & ?); [by left|].
    + apply withTransaction_Throw in Hrun as (w1 & Hd & _).
      apply decide_removal_run in Hd as [_ Hd]. specialize (Hd e eq_refl).
      unfold instanceof in *. apply String.eqb_eq in Hd. by rewrite Hd.
Qed.

Lemma remove_once_run tok input h o h' :
  respected tok -> ordinary_faults -> remove_once input h = (o, h') ->
  own_rows tok (h_db h') = own_rows tok (h_db h) /\ h_tick h <= h_tick h' /\
  h_releases h' = h_releases h /\ h_handoffs h' = h_handoffs h /\
  match o with
  | Ret _ => h_disk h' = h_disk h ++
      [mkDisk (scm_wsRoot (in_scm input)) (in_name input) (in_keepBranches input)]
  | Throw e => h_disk h' = h_disk h /\ instanceof e HANDED_OFF = false /\
               instanceof e EXHAUSTED = false
  end.
Proof.
  intros Hr Hord. unfold remove_once, scm_removeWorkspace. intros Hc. run_bind Hc as u h1 Hu e.
  - apply (recheck_run tok) in Hu as ([= Hs1 Hs2 Hs3] & Ho & Ht & _); [|done..].
    unfold disk_remove in Hc. destruct (removal_fault _) as [e|] eqn:Hf; injection Hc as <- <-;
      unfold h_db, tick, add_disk in *; simpl; (split; [done|]); (split; [lia|]);
      rewrite Hs1, Hs2, Hs3; (split; [done|]); (split; [done|]); [|done].
    split; [done|]. by destruct (Hord (h_tick h1) e) as (_ & ? & ?); [by right|].
  - apply (recheck_run tok) in Hu as ([= Hs1 Hs2 Hs3] & Ho & Ht & Hi); [|done..]. subst o.
    split; [done|]. split; [lia|]. repeat (split; [done|]). by apply Hi.
Qed.
End Outcomes.

(** What a cleanup keeps between its attempts, it keeps over the loop. *)
Lemma cleanup_loop_rule {S} (wait : Z -> M S unit) (I Q : S -> Prop) (R : JsError -> S -> Prop)
    (cleanup : M S unit) (maxDelay : Z) :
  (forall s o s', I s -> cleanup s = (o, s') ->
     match o with
     | Ret _ => Q s'
     | Throw e => if instanceof e HANDED_OFF then R e s' else I s'
     end) ->
  (forall ms s o s', I s -> wait ms s = (o, s') -> o = Ret tt /\ I s') ->
  forall left d s o s', I s -> cleanup_loop wait cleanup maxDelay left d s = (o, s') ->
  match o with
  | Ret _ => Q s'
  | Throw e =>
      if instanceof e HANDED_OFF then R e s'
      else (exists cause, e = WorkspaceCleanupExhaustedError cause /\
              instanceof cause HANDED_OFF = false) /\ I s'
  end.
Proof.
  intros Hc Hw. induction left as [|left IH]; intros d s o s' Hs; simpl; unfold try_catch;
    destruct (cleanup s) as [[u|e] s1] eqn:Hrun; specialize (Hc _ _ _ Hs Hrun); simpl in Hc.
  1,3: by intros [= <- <-].
  all: destruct (instanceof e HANDED_OFF) eqn:Hh.
  1,3: intros [= <- <-]; by rewrite Hh.
  - intros [= <- <-]. split; [by exists e|done].
  - intros Hl. run_bind Hl as u s2 Hu e2.
    + apply Hw in Hu as [_ Hs2]; [|done]. by eapply IH.
    + by apply Hw in Hu as [? _].
Qed.

Section MainOutcome.
Context `{Instance, Surroundings}.
Context (tok id : string) (Hresp : respected tok).

(** The worktree of the attempt is still held by its reservation, which the
    reconciler may adopt or this process will disown. *)
Definition guarded_by (h : Host) : Prop :=
  exists row, own_rows tok (h_db h) = {[id := row]} /\
    (removal_ownerInstanceId row = None \/ h_handoffs h !! id = Some tok).

(** The reservation is gone, or its deletion is owed. *)
Definition cleared (h : Host) : Prop :=
  own_rows tok (h_db h) = ∅ \/ h_releases h !! id = Some tok.

Lemma reserve_removal_run input h o h' :
  ordinary_faults -> input_id input = id -> own_rows tok (h_db h) = ∅ ->
  mutation (reserve_removal input tok) h = (o, h') ->
  side h' = side h /\ h_tick h' = S (h_tick h) /\
  match o with
  | Ret _ => own_rows tok (h_db h') = {[id := reservation_of input tok]}
  | Throw e => own_rows tok (h_db h') = ∅ /\ instanceof e HANDED_OFF = false /\
               (instanceof e BLOCKED = false -> ordinary e)
  end.
Proof.
  intros Hord Hid Hown (Hs & Ht & Hcase)%mutation_inv. split; [done|]. split; [done|].
  destruct Hcase as [(e & Hf & -> & Hdb)|(_ & w & w' & Hw & Hrun & Hdb)].
  { rewrite Hdb, Hresp, Hown. destruct (Hord (h_tick h) e) as (?&?&?); [by left|]. done. }
  rewrite Hdb. assert (own_rows tok (w_db w) = ∅) as Hw0 by by rewrite Hw, Hresp.
  unfold withScmPathMutation, withTransaction in Hrun.
  destruct (reserve_removal input tok w) as [o1 w1] eqn:Hr.
  unfold reserve_removal in Hr. run_bind Hr as b w2 Hb e.
  - apply decide_removal_run in Hb as [-> _]. destruct b as [reason|].
    + injection Hr as <- <-. injection Hrun as <- <-. done.
    + unfold mbind, M_bind, select, gets in Hr.
      destruct (db_removals (w_db w) !! input_id input) as [row|] eqn:Hl.
      * injection Hr as <- <-. injection Hrun as <- <-. done.
      * injection Hr as <- <-. injection Hrun as <- <-. simpl.
        rewrite own_rows_insert by done. rewrite Hw0, Hid. by rewrite decide_True.
  - apply decide_removal_run in Hb as [-> Hbl]. subst o1. injection Hrun as <- <-. simpl.
    split; [done|]. specialize (Hbl e eq_refl). unfold instanceof in *.
    split; [|by rewrite Hbl]. apply String.eqb_eq in Hbl. by rewrite Hbl.
Qed.

Lemma disown_run h o h' row :
  own_rows tok (h_db h) = {[id := row]} ->
  disownOrQueueRetry id tok h = (o, h') ->
  o = Ret tt /\ h_disk h' = h_disk h /\ h_releases h' = h_releases h /\
  h_tick h' = S (h_tick h) /\ guarded_by h'.
Proof.
  intros Hown. unfold disownOrQueueRetry, try_catch.
  destruct ((_ ← handOffWorkspaceRemoval id tok; mret tt) h) as [o1 h1] eqn:Hr.
  run_bind Hr as b h2 Hb e.
  - apply mutation_inv in Hb as ([= Hs1 Hs2 Hs3] & Ht & [(e & _ & ? & _)|(_ & w & w' & Hw & Hrun & Hdb)]);
      [done|]. injection Hr as <- <-. intros [= <- <-].
    split; [done|]. split; [done|]. split; [done|]. split; [done|].
    assert (own_rows tok (w_db w) = {[id := row]}) as Hw0 by by rewrite Hw, Hresp.
    revert Hrun. unfold withScmPathMutation, withTransaction, mbind, M_bind, select, gets.
    rewrite (proj2 (fenced_own id tok (w_db w))); [|by rewrite Hw0, lookup_singleton_eq].
    intros [= <- <-]. exists (disowned row). unfold h_db in *. rewrite Hdb. simpl.
    rewrite own_rows_disown, Hw0. split; [|by left].
    apply map_eq. intros i. destruct (decide (i = id)) as [->|Hne].
    + by rewrite lookup_alter_eq, !lookup_singleton_eq.
    + by rewrite lookup_alter_ne, !lookup_singleton_ne by done.
  - subst o1. intros [= <- <-]. pose proof Hb as Hb2.
    apply mutation_inv in Hb as ([= Hs1 Hs2 Hs3] & Ht & Hcase).
    split; [done|]. split; [done|]. split; [done|]. split; [done|].
    exists row. simpl. split; [|right; by rewrite lookup_insert_eq].
    destruct Hcase as [(e2 & _ & _ & Hdb)|(_ & w & w' & Hw & Hrun & Hdb)];
      unfold h_db in *; simpl in *; rewrite Hdb; [by rewrite Hresp|].
    apply withTransaction_Throw in Hrun as (w1 & _ & ->). simpl. by rewrite Hw, Hresp.
Qed.

Lemma release_run h o h' row :
  own_rows tok (h_db h) = {[id := row]} ->
  release_or_queue id tok h = (o, h') ->
  o = Ret tt /\ h_disk h' = h_disk h /\ h_tick h' = S (h_tick h) /\ cleared h'.
Proof.
  intros Hown. unfold release_or_queue, try_catch.
  destruct (releaseWorkspaceRemovalReservation id tok h) as [[u|e] h1] eqn:Hr.
  - apply mutation_inv in Hr as ([= Hs1 Hs2 Hs3] & Ht & [(e & _ & ? & _)|(_ & w & w' & Hw & Hrun & Hdb)]);
      [done|]. intros [= <- <-]. destruct u. split; [done|]. split; [done|]. split; [done|]. left.
    assert (own_rows tok (w_db w) = {[id := row]}) as Hw0 by by rewrite Hw, Hresp.
    revert Hrun. unfold withScmPathMutation, withTransaction, mbind, M_bind, select, gets.
    rewrite (proj2 (fenced_own id tok (w_db w))); [|by rewrite Hw0, lookup_singleton_eq].
    intros [= <-]. rewrite Hdb. simpl. rewrite own_rows_delete, Hw0. by rewrite delete_singleton_eq.
  - apply mutation_inv in Hr as ([= Hs1 Hs2 Hs3] & Ht & _). intros [= <- <-].
    split; [done|]. split; [done|]. split; [done|]. right. simpl. by rewrite lookup_insert_eq.
Qed.

(** How an attempt with a committed reservation ends, before its [finally] *)
Lemma attempt_run input h handedOff result h' row :
  ordinary_faults -> input_id input = id -> own_rows tok (h_db h) = {[id := row]} ->
  attempt_removal input tok h = (Ret (handedOff, result), h') ->
  h_tick h <= h_tick h' /\
  match result with
  | Ret _ => handedOff = false /\ own_rows tok (h_db h') = {[id := row]} /\
      h_disk h' = h_disk h ++
        [mkDisk (scm_wsRoot (in_scm input)) (in_name input) (in_keepBranches input)]
  | Throw e => h_disk h' = h_disk h /\
      if handedOff then guarded_by h' /\ instanceof e BLOCKED = false
      else own_rows tok (h_db h') = {[id := row]} /\ instanceof e BLOCKED = true
  end.
Proof.
  intros Hord Hid Hown. unfold attempt_removal. rewrite Hid.
  destruct (in_ownedWorkload input) as [wl|]; intros Hr; inv_bind Hr as (res & h1 & Hc & Hk);
    unfold capture in Hc.
  - destruct (retryWorkspaceCleanup _ _ _ _) as [o h2] eqn:Hl. injection Hc as <- <-.
    assert (match o with
      | Ret _ => h_tick h <= h_tick h2 /\ own_rows tok (h_db h2) = {[id := row]} /\
          h_disk h2 = h_disk h ++
            [mkDisk (scm_wsRoot (in_scm input)) (in_name input) (in_keepBranches input)]
      | Throw e => if instanceof e HANDED_OFF then False else
          (exists cause, e = WorkspaceCleanupExhaustedError cause /\
             instanceof cause HANDED_OFF = false) /\
          (h_tick h <= h_tick h2 /\ own_rows tok (h_db h2) = {[id := row]} /\
           h_disk h2 = h_disk h)
      end) as Hloop.
    { revert Hl. unfold retryWorkspaceCleanup.
      apply (cleanup_loop_rule delay
        (fun s => h_tick h <= h_tick s /\ own_rows tok (h_db s) = {[id := row]} /\ h_disk s = h_disk h)
        (fun s => h_tick h <= h_tick s /\ own_rows tok (h_db s) = {[id := row]} /\
           h_disk s = h_disk h ++
             [mkDisk (scm_wsRoot (in_scm input)) (in_name input) (in_keepBranches input)])
        (fun _ _ => False)); [| |done].
      - intros s o1 s1 (Hs1 & Hs2 & Hs3) Ho.
        apply (remove_once_run tok) in Ho as (Ho1 & Ho2 & _ & _ & Ho3); [|done..].
        destruct o1 as [u|e]; [by rewrite Ho1, Ho3, Hs3; split; [lia|]|].
        destruct Ho3 as (Ho3 & -> & _). by rewrite Ho1, Ho3; split; [lia|].
      - intros ms s o1 s1 Hs [= <- <-]. done. }
    destruct o as [u|e].
    + injection Hk as <- <- <-. destruct Hloop as (? & ? & ?). done.
    + destruct (instanceof e HANDED_OFF); [done|]. destruct Hloop as ((cause & -> & _) & Ht & Ho & Hd).
      simpl in Hk. inv_bind Hk as (u & h3 & Hdis & Hk). injection Hk as <- <- <-.
      apply (disown_run _ _ _ row) in Hdis as (_ & Hd2 & _ & Ht2 & Hg); [|done].
      split; [lia|]. by rewrite Hd2.
  - destruct (remove_once input h) as [o h2] eqn:Hl. injection Hc as <- <-.
    apply (remove_once_run tok) in Hl as (Ho & Ht & _ & _ & Hm); [|done..].
    destruct o as [u|e].
    + injection Hk as <- <- <-. by rewrite Ho.
    + destruct Hm as (Hd & _ & _). destruct (instanceof e BLOCKED) eqn:Hb.
      * injection Hk as <- <- <-. by rewrite Ho, Hb.
      * inv_bind Hk as (u & h3 & Hdis & Hk). injection Hk as <- <- <-.
        apply (disown_run _ _ _ row) in Hdis as (_ & Hd2 & _ & Ht2 & Hg); [|by rewrite Ho].
        split; [lia|]. by rewrite Hd2.
Qed.
End MainOutcome.

(** ** What an attempt leaves to the others *)

Section Frames.
Context `{Instance, Surroundings}.
Context (t : string) (Hresp : respected t).

(** [m] leaves the rows of attempt [t] alone. *)
Definition framed {A} (m : M Host A) : Prop := forall h o h',
  m h = (o, h') -> own_rows t (h_db h') = own_rows t (h_db h) /\ h_tick h <= h_tick h'.

Lemma framed_bind {A B} (m : M Host A) (k : A -> M Host B) :
  framed m -> (forall a, framed (k a)) -> framed (m ≫= k).
Proof.
  intros Hm Hk h o h' Hr. run_bind Hr as a h1 Ha e.
  - apply Hm in Ha as [Ha1 Ha2]. apply Hk in Hr as [Hr1 Hr2]. split; [congruence|lia].
  - by apply Hm in Ha.
Qed.
Lemma framed_ret {A} (a : A) : framed (mret a).
Proof. by intros h o h' [= _ <-]. Qed.
Lemma framed_throw {A} e : framed (throw e : M Host A).
Proof. by intros h o h' [= _ <-]. Qed.
Lemma framed_settle {A} (r : outcome A) : framed (settle r).
Proof. by intros h o h' [= _ <-]. Qed.
Lemma framed_modify f : (forall h, h_world (f h) = h_world h /\ h_tick (f h) = h_tick h) ->
  framed (modify f).
Proof. intros Hf h o h' [= _ <-]. unfold h_db. destruct (Hf h) as [-> ->]. done. Qed.
Lemma framed_try_catch {A} (m : M Host A) k :
  framed m -> (forall e, framed (k e)) -> framed (try_catch m k).
Proof.
  intros Hm Hk h o h'. unfold try_catch. destruct (m h) as [[a|e] h1] eqn:Hr.
  - intros [= _ <-]. by eapply Hm.
  - intros Hr2. apply Hm in Hr as [??]. apply Hk in Hr2 as [??]. split; [congruence|lia].
Qed.
Lemma framed_capture {A} (m : M Host A) : framed m -> framed (capture m).
Proof.
  intros Hm h o h'. unfold capture. destruct (m h) as [r h1] eqn:Hr. intros [= _ <-].
  by eapply Hm.
Qed.

Lemma framed_mutation {A} (m : M World A) :
  (forall w o w', m w = (o, w') -> own_rows t (w_db w') = own_rows t (w_db w)) ->
  framed (mutation m).
Proof.
  intros Hm h o h' (_ & Ht & [(e & _ & _ & ->)|(_ & w & w' & Hw & Hrun & ->)])%mutation_inv;
    (split; [|lia]); [by rewrite Hresp|].
  unfold withScmPathMutation, withTransaction in Hrun. destruct (m w) as [[a|e] w1] eqn:Hmw;
    injection Hrun as <- <-; [|simpl; by rewrite Hw, Hresp].
  apply Hm in Hmw. by rewrite Hmw, Hw, Hresp.
Qed.

Lemma framed_cleanup_loop cleanup maxDelay left d :
  framed cleanup -> framed (cleanup_loop delay cleanup maxDelay left d).
Proof.
  intros Hc. revert d. induction left as [|left IH]; intros d; simpl;
    (apply framed_try_catch; [done|]); intros e; destruct (instanceof e HANDED_OFF);
    try apply framed_throw.
  apply framed_bind; [by apply framed_modify|]. intros _. apply IH.
Qed.

Lemma framed_fenced_write tok id f :
  t <> tok -> (forall d, own_rows t (set_removals f d) = own_rows t d \/
                is_Some (own_rows t d !! id)) ->
  forall w o w', (hit ← select (fenced id tok);
    if (hit : bool) then _ ← db_write (set_removals f); mret true else mret false) w = (o, w') ->
    own_rows t (w_db w') = own_rows t (w_db w).
Proof.
  intros Hne Hf w o w'. unfold mbind, M_bind, select, gets.
  destruct (fenced id tok (w_db w)) eqn:Hfc; intros [= _ <-]; [|done]. simpl.
  destruct (Hf (w_db w)) as [->|[row Hrow]]; [done|].
  apply fenced_own in Hfc as [row' Hrow'].
  apply own_rows_lookup in Hrow as [Hr1 Ht1]. apply own_rows_lookup in Hrow' as [Hr2 Ht2]. congruence.
Qed.

Lemma disown_others tok id : t <> tok -> framed (handOffWorkspaceRemoval id tok).
Proof.
  intros Hne. apply framed_mutation, framed_fenced_write; [done|]. intros d.
  rewrite own_rows_disown. destruct (own_rows t d !! id) eqn:Hl; [by right|left].
  by apply alter_id'.
Qed.
End Frames.

Create HintDb framed.
#[export] Hint Resolve framed_bind framed_ret framed_throw framed_settle framed_try_catch
  framed_capture framed_cleanup_loop disown_others : framed.
#[export] Hint Extern 1 (framed _ (modify _)) => by apply framed_modify : framed.
#[export] Hint Extern 1 (framed _ (if ?b then _ else _)) => destruct b : framed.
#[export] Hint Extern 1 (framed _ (match ?x with _ => _ end)) => destruct x : framed.

Section FramedOperations.
Context `{Instance, Surroundings}.
Context (t : string) (Hresp : respected t).

Lemma release_others tok id : t <> tok -> framed t (releaseWorkspaceRemovalReservation id tok).
Proof.
  intros Hne. apply framed_mutation; [done|]. intros w o w'.
  unfold mbind, M_bind, select, gets. destruct (fenced id tok (w_db w)) eqn:Hf; intros [= _ <-]; [|done].
  simpl. rewrite own_rows_delete. apply delete_id.
  apply fenced_own in Hf as [row [Hr Ht]%own_rows_lookup].
  apply eq_None_not_Some. intros [row' [Hr' Ht']%own_rows_lookup]. congruence.
Qed.

Lemma read_others {A} (m : M World A) : (forall w o w', m w = (o, w') -> w' = w) -> framed t (mutation m).
Proof. intros Hm. apply framed_mutation; [done|]. intros w o w' Hr. by apply Hm in Hr as ->. Qed.

Lemma reserve_others input tok : t <> tok -> framed t (mutation (reserve_removal input tok)).
Proof.
  intros Hne. apply framed_mutation; [done|]. intros w o w' Hr.
  unfold reserve_removal in Hr. run_bind Hr as b w1 Hb e.
  - apply decide_removal_run in Hb as [-> _]. destruct b as [reason|]; [by injection Hr as <- <-|].
    unfold mbind, M_bind, select, gets in Hr.
    destruct (db_removals (w_db w) !! input_id input) eqn:Hl; injection Hr as <- <-; [done|].
    simpl. rewrite own_rows_insert by done. rewrite decide_False; [done|]. simpl. congruence.
  - by apply decide_removal_run in Hb as [-> _].
Qed.

Lemma newToken_framed : framed t newToken.
Proof. intros h o h' [= _ <-]. simpl. split; [done|lia]. Qed.

Lemma disk_remove_framed scm name keepBranches : framed t (disk_remove scm name keepBranches).
Proof.
  intros h o h'. unfold disk_remove. destruct (removal_fault _); intros [= _ <-];
    (split; [done|simpl; lia]).
Qed.

Lemma remove_once_framed input : framed t (remove_once input).
Proof.
  unfold remove_once, scm_removeWorkspace, recheck.
  apply framed_bind; [|intros _; apply disk_remove_framed].
  apply framed_bind; [apply read_others; by intros ??? []%decide_removal_run|].
  eauto with framed.
Qed.

Lemma disownOrQueue_framed id tok : t <> tok -> framed t (disownOrQueueRetry id tok).
Proof. intros. unfold disownOrQueueRetry, queueWorkspaceRemovalHandoff. eauto with framed. Qed.

Lemma release_or_queue_framed id tok : t <> tok -> framed t (release_or_queue id tok).
Proof.
  intros. unfold release_or_queue. apply framed_try_catch; [by apply release_others|].
  eauto with framed.
Qed.

Lemma attempt_framed input tok : t <> tok -> framed t (attempt_removal input tok).
Proof.
  intros. pose proof (remove_once_framed input). pose proof (disownOrQueue_framed (input_id input) tok).
  unfold attempt_removal, retryWorkspaceCleanup. destruct (in_ownedWorkload input);
    (apply framed_bind; [eauto with framed|]); intros [u|e]; eauto 8 with framed.
Qed.

(** A guarded removal concerns its own attempt only. *)
Lemma guarded_framed input h o h' :
  t <> randomUUID (h_tick h) ->
  removeSourceWorkspaceGuardedCore input h = (o, h') ->
  own_rows t (h_db h') = own_rows t (h_db h) /\ (h' = h \/ h_tick h < h_tick h').
Proof.
  intros Hne. unfold removeSourceWorkspaceGuardedCore. destruct World.hasLostHeartbeatOwnership.
  { intros [= _ <-]. auto. }
  unfold mbind at 1, M_bind at 1, newToken. intros Hr.
  assert (own_rows t (h_db h') = own_rows t (h_db (tick h)) /\ h_tick (tick h) <= h_tick h')
    as [-> Hle]; [|split; [done|simpl in Hle; right; lia]].
  revert Hr. apply framed_bind; [by apply reserve_others|]. intros _.
  apply framed_bind; [by apply attempt_framed|]. intros [handedOff result].
  apply framed_bind; [destruct handedOff; [apply framed_ret|by apply release_or_queue_framed]|].
  intros _. apply framed_settle.
Qed.
End FramedOperations.

Section Guarantees.
Context `{Instance, Surroundings}.

Lemma disown_total id tok h : exists h', disownOrQueueRetry id tok h = (Ret tt, h').
Proof.
  unfold disownOrQueueRetry, try_catch.
  destruct ((_ ← handOffWorkspaceRemoval id tok; mret tt) h) as [[[]|e] h1]; by eexists.
Qed.

Lemma release_total id tok h : exists h', release_or_queue id tok h = (Ret tt, h').
Proof.
  unfold release_or_queue, try_catch.
  destruct (releaseWorkspaceRemovalReservation id tok h) as [[[]|e] h1]; by eexists.
Qed.

Lemma attempt_total input tok h : exists r h', attempt_removal input tok h = (Ret r, h').
Proof.
  unfold attempt_removal. destruct (in_ownedWorkload input);
    unfold mbind, M_bind, capture.
  - destruct (retryWorkspaceCleanup _ _ _ h) as [[u|e] h1]; [by eexists _, _|].
    destruct (instanceof e EXHAUSTED); [|by eexists _, _].
    destruct (disown_total (input_id input) tok h1) as [h2 ->]. by eexists _, _.
  - destruct (remove_once _ h) as [[u|e] h1]; [by eexists _, _|].
    destruct (instanceof e BLOCKED); [by eexists _, _|].
    destruct (disown_total (input_id input) tok h1) as [h2 ->]. by eexists _, _.
Qed.

(** How a guarded removal ends, on every path *)
Lemma guarded_outcome input h o h' :
  let tok := randomUUID (h_tick h) in
  let id := input_id input in
  ordinary_faults -> respected tok -> own_rows tok (h_db h) = ∅ ->
  removeSourceWorkspaceGuardedCore input h = (o, h') ->
  match o with
  | Ret _ => cleared tok id h' /\ h_disk h' = h_disk h ++
      [mkDisk (scm_wsRoot (in_scm input)) (in_name input) (in_keepBranches input)]
  | Throw e =>
      h_disk h' = h_disk h /\
      (instanceof e HANDED_OFF = true -> guarded_by tok id h') /\
      (instanceof e BLOCKED = true -> cleared tok id h') /\
      (ordinary e -> guarded_by tok id h' \/ own_rows tok (h_db h') = ∅ /\ side h' = side h)
  end.
Proof.
  intros tok id Hord Hresp Hown. unfold removeSourceWorkspaceGuardedCore.
  destruct World.hasLostHeartbeatOwnership.
  { intros [= <- <-]. split; [done|]. split; [done|]. split; [by left|]. intros [Hb _]. by vm_compute in Hb. }
  unfold mbind at 1, M_bind at 1, newToken. intros Hr. run_bind Hr as u h1 Hu e.
  - apply (reserve_removal_run tok id) in Hu as ([= Hs1 Hs2 Hs3] & Ht1 & Hown1); [|done..].
    destruct (attempt_removal input tok h1) as [[[handedOff result]|e] h2] eqn:Ha.
    2: { by destruct (attempt_total input tok h1) as (r & h3 & Hr3); rewrite Hr3 in Ha. }
    rewrite (bind_run _ _ _ _ _ Ha) in Hr.
    apply (attempt_run tok id Hresp _ _ _ _ _ (reservation_of input tok)) in Ha as [Ht2 Ha]; [|done..].
    destruct result as [u2|e].
    + destruct Ha as (-> & Hown2 & Hd2). destruct (release_total id tok h2) as [h3 Hrel].
      rewrite (bind_run _ _ _ _ _ Hrel) in Hr. injection Hr as <- <-.
      apply (release_run tok id Hresp _ _ _ (reservation_of input tok)) in Hrel as (_ & Hd3 & _ & Hcl);
        [|done]. split; [done|]. by rewrite Hd3, Hd2, Hs3.
    + destruct Ha as [Hd2 Ha]. destruct handedOff.
      * injection Hr as <- <-. destruct Ha as [Hg Hb]. rewrite Hd2, Hs3, Hb.
        split; [done|]. split; [done|]. split; [intros [=]|by left].
      * destruct Ha as [Hown2 Hb]. destruct (release_total id tok h2) as [h3 Hrel].
        rewrite (bind_run _ _ _ _ _ Hrel) in Hr. injection Hr as <- <-.
        apply (release_run tok id Hresp _ _ _ (reservation_of input tok)) in Hrel as (_ & Hd3 & _ & Hcl);
          [|done]. rewrite Hd3, Hd2, Hs3. split; [done|]. split; [|split; [done|]].
        -- intros Hh. unfold instanceof in *. apply String.eqb_eq in Hb. by rewrite Hb in Hh.
        -- intros [Hb' _]. by rewrite Hb in Hb'.
  - subst o. apply (reserve_removal_run tok id) in Hu as ([= Hs1 Hs2 Hs3] & Ht1 & Hown1 & Hh & _); [|done..].
    rewrite Hh. split; [done|]. split; [done|]. split; [by left|]. intros _. right.
    split; [done|]. unfold side. by rewrite Hs1, Hs2, Hs3.
Qed.
End Guarantees.

(** ** Properties *)

(** A worktree removal ends in exactly one of these ways, whatever the other
    processes do and whatever fails: it returned, the worktree is gone and its
    reservation deleted or that deletion owed; it was refused, nothing was
    deleted and the reservation is gone or its deletion owed; or the disk was
    left alone and the reservation still holds every counter-party off, given
    back to the reconciler or about to be.  A handed-off error is raised only
    while the reservation is held.  No other attempt's reservation is touched. *)
Theorem guarded_removal_outcome `{Instance, Surroundings} input h o h' :
  let tok := randomUUID (h_tick h) in
  let id := input_id input in
  ordinary_faults -> respected tok -> own_rows tok (h_db h) = ∅ ->
  removeSourceWorkspaceGuardedCore input h = (o, h') ->
  (forall t, t <> tok -> respected t -> own_rows t (h_db h') = own_rows t (h_db h)) /\
  match o with
  | Ret _ => cleared tok id h' /\ h_disk h' = h_disk h ++
      [mkDisk (scm_wsRoot (in_scm input)) (in_name input) (in_keepBranches input)]
  | Throw e =>
      h_disk h' = h_disk h /\
      (instanceof e HANDED_OFF = true -> guarded_by tok id h') /\
      (instanceof e BLOCKED = true -> cleared tok id h') /\
      (ordinary e -> guarded_by tok id h' \/ own_rows tok (h_db h') = ∅ /\ side h' = side h)
  end.
Proof.
  intros tok id Hord Hresp Hown Hr. split; [|by apply (guarded_outcome input h o h')].
  intros t Hne Ht. by apply (guarded_framed t Ht input h o h').
Qed.

(** ** Witnesses *)

Definition ex_faulty (removals : list (nat * JsError)) : Surroundings :=
  Build_Surroundings (fun _ => None)
    (fun n => snd <$> List.find (fun p => Nat.eqb p.1 n) removals)
    (fun _ d => d) (fun n => "t" +:+ pretty.pretty n) (fun id => "/ws/" +:+ id) (fun _ => None) true.

Definition ex_scm_handle : ScmHandle := mkScm "/scm/main" "/ws/s1".

Definition removal_demo_world : World :=
  set_db (set_sources (fun _ => {["s1" := ex_source]})) empty_world.
Definition removal_demo : Host := mkHost removal_demo_world 0 ∅ ∅ [] [].

(** A manual removal whose worktree is busy *)
Definition busy_demo : outcome unit * Host :=
  @removeSourceWorkspaceGuarded ex_instance (ex_faulty [(3, mkError "Error" "EBUSY")])
    "s1" "w1" ex_scm_handle true removal_demo.

Lemma ex_faulty_ordinary : @ordinary_faults (ex_faulty [(3, mkError "Error" "EBUSY")]).
Proof.
  intros n e [?|He]; [done|]. simpl in He. destruct n as [|[|[|[|n]]]]; simpl in He; try done.
  by injection He as <-.
Qed.

Lemma guarded_removal_outcome_witness :
  busy_demo.1 = Throw (mkError "Error" "EBUSY") /\
  (forall t, t <> "t0" -> own_rows t (h_db busy_demo.2) = own_rows t (h_db removal_demo)) /\
  (guarded_by "t0" "s1:w1" busy_demo.2 \/
   own_rows "t0" (h_db busy_demo.2) = ∅ /\ side busy_demo.2 = side removal_demo).
Proof.
  pose proof (@guarded_removal_outcome ex_instance (ex_faulty [(3, mkError "Error" "EBUSY")])
    (mkGuarded "s1" "w1" ex_scm_handle None true) removal_demo busy_demo.1 busy_demo.2
    ex_faulty_ordinary (fun _ _ => eq_refl) eq_refl) as Hw.
  specialize (Hw ltac:(vm_compute; reflexivity)).
  assert (busy_demo.1 = Throw (mkError "Error" "EBUSY")) as Ho by (vm_compute; reflexivity).
  rewrite Ho in Hw. destruct Hw as (Hfr & _ & _ & _ & Hord).
  split; [exact Ho|]. split; [intros t Ht; apply Hfr; [exact Ht|done]|]. apply Hord. by vm_compute.
Defined.
