(* ===== verification/RemovalReconciler.v ===== *)
(** * Finishing the removals nobody is finishing

    [apps/api/src/lib/scm-workspace-removal-reconciler.ts]: each tick adopts the
    reservations without a live owner and removes their worktrees, releases
    them as obsolete, or disowns them for the next tick. *)
From S2P Require Import Prelude Json Schema LeaseRegistry World ScmWorkload Liveness WorkspaceRemoval.

Inductive ReconciledRemovalOutcome := rec_removed | rec_obsolete | rec_retry.

Record ReconciledRemoval := mkReconciled {
  rec_reservationId : string;
  rec_outcome : ReconciledRemovalOutcome
}.

Record AbandonedCandidate := mkCandidate {
  cand_id : string;
  cand_scmSourceId : string;
  cand_workspaceName : string;
  cand_ownerInstanceId : option string;
  cand_attemptToken : string;
  cand_attemptStartedAt : Z
}.

Record WorkspaceRemovalReconcilerDeps := mkReconcilerDeps {
  dep_listAbandonedCandidates : M Host (list AbandonedCandidate);
  dep_loadLiveness : M Host InstanceLivenessMap;
  dep_canJudgePeers : M Host bool;
  dep_adopt : string -> string -> string -> M Host bool;
  dep_findBlocker : string -> string -> M Host (option string);
  dep_removeWorkspace : string -> string -> M Host unit;
  dep_release : string -> string -> M Host unit;
  dep_handOff : string -> string -> M Host bool;
  dep_newToken : M Host string;
  dep_now : M Host Z
}.

(** [if (row.ownerInstanceId)] *)
Definition named_owner (o : option string) : option string :=
  match o with Some "" => None | _ => o end.

Section Defaults.
Context `{Instance, Surroundings}.

Definition listAbandonedCandidates : M Host (list AbandonedCandidate) :=
  mutation (select (fun d => (fun '(id, r) =>
    mkCandidate id (removal_scmSourceId r) (removal_workspaceName r) (removal_ownerInstanceId r)
      (removal_attemptToken r) (removal_attemptStartedAt r)) <$> map_to_list (db_removals d))).

Definition adopted (nextToken : string) (row : WorkspaceRemoval) : WorkspaceRemoval :=
  mkRemoval (removal_scmSourceId row) (removal_workspaceName row) (Some processInstanceId)
    nextToken clock.

(** The callback of [adopt]'s transaction *)
Definition adopt_row (reservationId expectedToken nextToken : string) : M World bool :=
  row ← select (fun d => if fenced reservationId expectedToken d
                         then db_removals d !! reservationId else None);
  match row with
  | None => mret false
  | Some r =>
      stale ← (match named_owner (removal_ownerInstanceId r) with
               | None => mret true
               | Some owner =>
                   liveness ← loadInstanceLiveness;
                   mret (isInstanceOwnerDead liveness owner (removal_attemptStartedAt r) clock)
               end);
      if negb stale then mret false
      else
        write_returning (fun d =>
          let '(b, t) := update_where reservationId
            (fun r => bool_decide (removal_attemptToken r = expectedToken)) (adopted nextToken)
            (db_removals d) in
          (b, set_removals (fun _ => t) d))
  end.

Definition adopt (reservationId expectedToken nextToken : string) : M Host bool :=
  mutation (adopt_row reservationId expectedToken nextToken).

Definition findBlocker (scmSourceId workspaceName : string) : M Host (option string) :=
  mutation (
    source ← select (fun d => db_sources d !! scmSourceId);
    match source with
    | None => mret (Some "SCM source is no longer available")
    | Some s =>
        scm ← createScmSource scmSourceId s;
        match scm with
        | None => mret (Some "SCM source no longer supports workspaces")
        | Some handle => select (findWorkspaceRemovalBlocker scmSourceId handle workspaceName None)
        end
    end).

Definition removeWorkspace (scmSourceId workspaceName : string) : M Host unit :=
  source ← mutation (select (fun d => db_sources d !! scmSourceId));
  match source with
  | None => mret tt
  | Some s =>
      scm ← createScmSource scmSourceId s;
      match scm with
      | None => mret tt
      | Some handle => scm_removeWorkspace handle workspaceName false (mret tt)
      end
  end.

Definition defaultDeps : WorkspaceRemovalReconcilerDeps :=
  mkReconcilerDeps listAbandonedCandidates (mutation loadInstanceLiveness) (mret peersJudgeable)
    adopt findBlocker removeWorkspace releaseWorkspaceRemovalReservation handOffWorkspaceRemoval
    newToken (mret clock).
End Defaults.

Section Pass.
Context (deps : WorkspaceRemovalReconcilerDeps).

(** After the adoption: whether the reservation is settled, and the outcome *)
Definition settle_adopted (c : AbandonedCandidate) (nextToken : string)
    : M Host (bool * option ReconciledRemovalOutcome) :=
  blocker ← dep_findBlocker deps (cand_scmSourceId c) (cand_workspaceName c);
  match blocker with
  | Some _ =>
      _ ← dep_release deps (cand_id c) nextToken;
      mret (true, Some rec_obsolete)
  | None =>
      removal ← capture (dep_removeWorkspace deps (cand_scmSourceId c) (cand_workspaceName c));
      match removal with
      | Throw _ => mret (false, Some rec_retry)
      | Ret _ =>
          _ ← dep_release deps (cand_id c) nextToken;
          mret (true, Some rec_removed)
      end
  end.

(** [catch] and [finally] around it *)
Definition settle_or_disown (c : AbandonedCandidate) (nextToken : string)
    (reconciled : list ReconciledRemoval) : M Host (list ReconciledRemoval) :=
  '(reservationSettled, result) ← try_catch (settle_adopted c nextToken)
    (fun _ => mret (false, None));
  _ ← (if (reservationSettled : bool) then mret tt
       else try_catch (_ ← dep_handOff deps (cand_id c) nextToken; mret tt) (fun _ => mret tt));
  mret (match result with
        | Some r => reconciled ++ [mkReconciled (cand_id c) r]
        | None => reconciled
        end).

Definition reconcile_candidate (canJudgePeers : bool) (liveness : InstanceLivenessMap) (now : Z)
    (c : AbandonedCandidate) (reconciled : list ReconciledRemoval) : M Host (list ReconciledRemoval) :=
  let skip := match named_owner (cand_ownerInstanceId c) with
              | None => false
              | Some owner =>
                  negb canJudgePeers ||
                  negb (isInstanceOwnerDead liveness owner (cand_attemptStartedAt c) now)
              end in
  if skip then mret reconciled
  else
    nextToken ← dep_newToken deps;
    won ← capture (dep_adopt deps (cand_id c) (cand_attemptToken c) nextToken);
    match won with
    | Ret true => settle_or_disown c nextToken reconciled
    | Ret false | Throw _ => mret reconciled
    end.

Definition reconcileAbandonedWorkspaceRemovals : M Host (list ReconciledRemoval) :=
  candidates ← dep_listAbandonedCandidates deps;
  match candidates with
  | [] => mret []
  | _ =>
      canJudgePeers ← dep_canJudgePeers deps;
      liveness ← (if (canJudgePeers : bool) then dep_loadLiveness deps else mret ∅);
      now ← dep_now deps;
      fold_each candidates (reconcile_candidate canJudgePeers liveness now) []
  end.
End Pass.

(** ** Lemmas *)

Section Lemmas.
Context `{Instance, Surroundings}.

(** The reservation of the candidate has no live owner. *)
Definition abandoned (c : AbandonedCandidate) (d : Db) : Prop :=
  exists row, db_removals d !! cand_id c = Some row /\
    removal_attemptToken row = cand_attemptToken c /\
    forall owner, named_owner (removal_ownerInstanceId row) = Some owner ->
      isInstanceOwnerDead (db_heartbeats d) owner (removal_attemptStartedAt row) clock = true.

Lemma adopt_row_run c nt w b w' :
  adopt_row (cand_id c) (cand_attemptToken c) nt w = (Ret b, w') ->
  if b then abandoned c (w_db w) /\ exists row, db_removals (w_db w) !! cand_id c = Some row /\
      w_db w' = set_removals (insert (cand_id c) (adopted nt row)) (w_db w)
  else w' = w.
Proof.
  unfold adopt_row, mbind, M_bind, select, gets, fenced.
  destruct (db_removals (w_db w) !! cand_id c) as [row|] eqn:Hrow; [|by intros [= <- <-]].
  destruct (bool_decide_reflect (removal_attemptToken row = cand_attemptToken c)) as [Ht|];
    [|by intros [= <- <-]].
  unfold loadInstanceLiveness, select, gets, mret, M_ret.
  assert (forall stale : bool, (stale = true -> abandoned c (w_db w)) ->
    (if negb stale then fun s : World => (Ret false, s)
     else write_returning (fun d =>
          let '(b, t) := update_where (cand_id c)
            (fun r => bool_decide (removal_attemptToken r = cand_attemptToken c)) (adopted nt)
            (db_removals d) in (b, set_removals (fun _ => t) d))) w = (Ret b, w') ->
    if b then abandoned c (w_db w) /\ exists r, Some row = Some r /\
      w_db w' = set_removals (insert (cand_id c) (adopted nt r)) (w_db w) else w' = w) as Hgen.
  { intros [] Hab; simpl; [|by intros [= <- <-]].
    unfold write_returning, update_where. rewrite Hrow, bool_decide_eq_true_2 by done.
    intros [= <- <-]. split; [by apply Hab|]. by exists row. }
  destruct (named_owner (removal_ownerInstanceId row)) as [owner|] eqn:Ho; apply Hgen.
  - intros Hd. exists row. split; [done|]. split; [done|]. rewrite Ho. by intros o [= <-].
  - intros _. exists row. split; [done|]. split; [done|]. rewrite Ho. by intros o [=].
Qed.

Lemma adopt_run c nt h o h' :
  respected nt -> own_rows nt (h_db h) = ∅ ->
  adopt (cand_id c) (cand_attemptToken c) nt h = (o, h') ->
  side h' = side h /\
  match o with
  | Ret true => abandoned c (others (h_tick h) (h_db h)) /\
       exists row, own_rows nt (h_db h') = {[cand_id c := row]}
  | _ => own_rows nt (h_db h') = ∅
  end.
Proof.
  intros Hresp Hown (Hs & _ & Hcase)%mutation_inv. split; [done|].
  destruct Hcase as [(e & _ & -> & ->)|(_ & w & w' & Hw & Hrun & ->)].
  { by rewrite Hresp. }
  assert (own_rows nt (w_db w) = ∅) as Hw0 by by rewrite Hw, Hresp.
  destruct o as [b|e].
  - apply withTransaction_Ret, adopt_row_run in Hrun. destruct b.
    + rewrite <- Hw. destruct Hrun as (Ha & row & Hrow & ->).
      split; [done|]. exists (adopted nt row). unfold own_rows in *. simpl.
      rewrite map_filter_insert_True by done. by rewrite Hw0.
    + by subst.
  - apply withTransaction_Throw in Hrun as (w1 & _ & ->).
    simpl. done.
Qed.

Lemma findBlocker_run nt src name h o h' :
  respected nt -> findBlocker src name h = (o, h') ->
  side h' = side h /\ own_rows nt (h_db h') = own_rows nt (h_db h) /\ h_tick h <= h_tick h'.
Proof.
  intros Hresp Hf. apply (mutation_read _ nt) in Hf as (? & -> & ?); [split_and!; [done..|lia]|done|].
  clear. intros w o w' Hr. unfold mbind at 1, M_bind at 1, select, gets in Hr.
  destruct (db_sources (w_db w) !! src) as [s|]; [|by injection Hr as _ <-].
  run_bind Hr as scm w1 Hs e; apply createScmSource_run in Hs as ->; [|done].
  by destruct scm; injection Hr as _ <-.
Qed.

Lemma removeWorkspace_run nt src name h o h' :
  respected nt -> removeWorkspace src name h = (o, h') ->
  own_rows nt (h_db h') = own_rows nt (h_db h) /\ h_tick h <= h_tick h' /\
  exists ds, h_disk h' = h_disk h ++ ds /\ length ds <= 1 /\
    Forall (fun e => disk_name e = name /\ disk_keepBranches e = false) ds /\
    (is_ret o = false -> ds = []).
Proof.
  intros Hresp Hr. unfold removeWorkspace in Hr.
  assert (forall h1, side h1 = side h -> own_rows nt (h_db h1) = own_rows nt (h_db h) ->
    h_tick h <= h_tick h1 ->
    own_rows nt (h_db h1) = own_rows nt (h_db h) /\ h_tick h <= h_tick h1 /\
    exists ds, h_disk h1 = h_disk h ++ ds /\ length ds <= 1 /\
      Forall (fun e => disk_name e = name /\ disk_keepBranches e = false) ds /\
      (is_ret o = false -> ds = [])) as Hnone.
  { intros h1 [= _ _ Hd] ? ?. split; [done|]. split; [done|]. exists [].
    rewrite app_nil_r, Hd. split_and!; [done|simpl; lia|constructor|done]. }
  run_bind Hr as s h1 Hs e;
    (apply (mutation_read _ nt) in Hs as (Hs1 & Hs2 & Hs3); [|done|by intros ??? [= _ <-]]);
    [|apply Hnone; [done..|lia]].
  destruct s as [s|]; [|injection Hr as <- <-; apply Hnone; [done..|lia]].
  run_bind Hr as scm h2 Hc e; apply createScmSource_run in Hc as ->; [|apply Hnone; [done..|lia]].
  destruct scm as [handle|]; [|injection Hr as <- <-; apply Hnone; [done..|lia]].
  unfold scm_removeWorkspace, mbind, M_bind, mret, M_ret, disk_remove in Hr.
  destruct (removal_fault _); injection Hr as <- <-.
  - apply (Hnone (tick h1)); [done..|simpl; lia].
  - split; [done|]. split; [simpl; lia|]. unfold side in Hs1. injection Hs1 as _ _ Hd.
    eexists. split; [simpl; by rewrite Hd|].
    split; [done|]. split; [by repeat constructor|done].
Qed.

(** The release of an adopted reservation *)
Lemma release_adopted nt id row h o h' :
  respected nt -> own_rows nt (h_db h) = {[id := row]} ->
  releaseWorkspaceRemovalReservation id nt h = (o, h') ->
  side h' = side h /\ h_tick h <= h_tick h' /\
  own_rows nt (h_db h') = if is_ret o then ∅ else {[id := row]}.
Proof.
  intros Hresp Hown (Hs & -> & Hcase)%mutation_inv. split; [done|]. split; [lia|].
  destruct Hcase as [(e & _ & -> & ->)|(_ & w & w' & Hw & Hrun & ->)]; [by rewrite Hresp|].
  assert (own_rows nt (w_db w) = {[id := row]}) as Hw0 by by rewrite Hw, Hresp.
  revert Hrun. unfold withScmPathMutation, withTransaction, mbind, M_bind, select, gets.
  rewrite (proj2 (fenced_own id nt (w_db w))); [|by rewrite Hw0, lookup_singleton_eq].
  intros [= <- <-]. simpl. rewrite own_rows_delete, Hw0. by rewrite delete_singleton_eq.
Qed.
End Lemmas.

Section Candidate.
Context `{Instance, Surroundings}.
Context (c : AbandonedCandidate) (nt : string) (Hresp : respected nt).

(** Worktrees removed in between, each together with its branch *)
Definition removed_by (h h' : Host) (ds : list DiskRemoval) : Prop :=
  h_disk h' = h_disk h ++ ds /\ length ds <= 1 /\
  Forall (fun e => disk_name e = cand_workspaceName c /\ disk_keepBranches e = false) ds.

Lemma removed_none h h' : h_disk h' = h_disk h -> removed_by h h' [].
Proof. intros Hd. unfold removed_by. rewrite app_nil_r. split_and!; [done|simpl; lia|constructor]. Qed.

Lemma settle_adopted_run row h o h' :
  own_rows nt (h_db h) = {[cand_id c := row]} ->
  settle_adopted defaultDeps c nt h = (o, h') ->
  h_tick h <= h_tick h' /\ exists ds, removed_by h h' ds /\
  match o with
  | Ret (true, Some rec_obsolete) => own_rows nt (h_db h') = ∅ /\ ds = []
  | Ret (true, Some rec_removed) => own_rows nt (h_db h') = ∅
  | Ret (false, Some rec_retry) => own_rows nt (h_db h') = {[cand_id c := row]} /\ ds = []
  | Throw _ => own_rows nt (h_db h') = {[cand_id c := row]}
  | _ => False
  end.
Proof.
  intros Hown Hr. unfold settle_adopted in Hr. run_bind Hr as b h1 Hb e;
    (apply (findBlocker_run nt) in Hb as ([= _ _ Hd1] & Ho1 & Ht1); [|done]); rewrite Hown in Ho1.
  2: { subst o. split; [done|]. exists []. split; [by apply removed_none|done]. }
  destruct b as [reason|].
  - run_bind Hr as u h2 Hrel e; (eapply (release_adopted nt) in Hrel as ([= _ _ Hd2] & Ht2 & Ho2);
      [|done|done]); (split; [try (injection Hr as <- <-); lia|]); exists [].
    + injection Hr as <- <-. simpl in Ho2. split; [apply removed_none; congruence|done].
    + subst o. split; [apply removed_none; congruence|done].
  - apply capture_inv in Hr as (r & h2 & Hrm & Hr). simpl in Hrm.
    apply (removeWorkspace_run nt) in Hrm as (Ho2 & Ht2 & ds & Hd2 & Hlen & Hall & Hnone); [|done].
    rewrite Ho1 in Ho2. rewrite Hd1 in Hd2. destruct r as [u|e].
    + assert (removed_by h h2 ds) as Hby by done.
      run_bind Hr as u2 h3 Hrel e; (eapply (release_adopted nt) in Hrel as ([= _ _ Hd3] & Ht3 & Ho3);
        [|done|done]); [injection Hr as <- <-|subst o]; (split; [lia|]); exists ds;
        (split; [|done]); unfold removed_by in *; by rewrite Hd3.
    + injection Hr as <- <-. split; [lia|]. exists ds. split; [unfold removed_by; split_and!; [congruence|done..]|].
      split; [done|by apply Hnone].
Qed.

(** The reservation of the adopted attempt, still there: disowned, unless the
    last write failed *)
Definition readoptable (h : Host) : Prop :=
  exists row, own_rows nt (h_db h) = {[cand_id c := row]} /\
    (removal_ownerInstanceId row = None \/ is_Some (mutation_fault (pred (h_tick h)))).

Lemma handOff_run row h r h' :
  own_rows nt (h_db h) = {[cand_id c := row]} ->
  try_catch (_ ← handOffWorkspaceRemoval (cand_id c) nt; mret tt) (fun _ => mret tt) h = (r, h') ->
  r = Ret tt /\ h_disk h' = h_disk h /\ h_tick h <= h_tick h' /\ readoptable h'.
Proof.
  intros Hown. unfold try_catch.
  destruct ((_ ← handOffWorkspaceRemoval (cand_id c) nt; mret tt) h) as [o1 h1] eqn:Hr.
  run_bind Hr as b h2 Hb e;
    apply mutation_inv in Hb as ([= _ _ Hd] & Ht & [(e' & Hf & He & Hdb)|(_ & w & w' & Hw & Hrun & Hdb)]);
    try done.
  - injection Hr as <- <-. intros [= <- <-]. split_and!; [done..|lia|].
    assert (own_rows nt (w_db w) = {[cand_id c := row]}) as Hw0 by by rewrite Hw, Hresp.
    revert Hrun. unfold withScmPathMutation, withTransaction, mbind, M_bind, select, gets.
    rewrite (proj2 (fenced_own (cand_id c) nt (w_db w))); [|by rewrite Hw0, lookup_singleton_eq].
    intros [= <- <-]. exists (disowned row). rewrite Hdb. simpl. rewrite own_rows_disown, Hw0.
    split; [|by left]. apply map_eq. intros i. destruct (decide (i = cand_id c)) as [->|Hne].
    + by rewrite lookup_alter_eq, !lookup_singleton_eq.
    + by rewrite lookup_alter_ne, !lookup_singleton_ne by done.
  - subst o1. intros [= <- <-]. split_and!; [done..|lia|]. exists row.
    rewrite Hdb, Hresp. split; [done|]. right. rewrite Ht. simpl. by rewrite Hf.
  - subst o1. exfalso. apply withTransaction_Throw in Hrun as (w1 & Hrun & _). revert Hrun.
    unfold mbind, M_bind, select, gets. by destruct (fenced _ _ _).
Qed.

(** What one tick does with a reservation *)
Lemma candidate_outcome canJudgePeers liveness now reconciled h o h' :
  nt = randomUUID (h_tick h) -> own_rows nt (h_db h) = ∅ ->
  reconcile_candidate defaultDeps canJudgePeers liveness now c reconciled h = (o, h') ->
  exists l ds, o = Ret (reconciled ++ l) /\ removed_by h h' ds /\
    (l = [] /\ ds = [] /\ own_rows nt (h_db h') = ∅ \/
     abandoned c (others (S (h_tick h)) (h_db h)) /\
     (l = [mkReconciled (cand_id c) rec_removed] /\ own_rows nt (h_db h') = ∅ \/
      l = [mkReconciled (cand_id c) rec_obsolete] /\ ds = [] /\ own_rows nt (h_db h') = ∅ \/
      (l = [] \/ l = [mkReconciled (cand_id c) rec_retry] /\ ds = []) /\ readoptable h')).
Proof.
  intros Hnt Hown Hr. unfold reconcile_candidate in Hr.
  assert (forall h1, side h1 = side h -> own_rows nt (h_db h1) = ∅ ->
    exists l ds, Ret reconciled = Ret (reconciled ++ l) /\ removed_by h h1 ds /\
    (l = [] /\ ds = [] /\ own_rows nt (h_db h1) = ∅ \/
     abandoned c (others (S (h_tick h)) (h_db h)) /\
     (l = [mkReconciled (cand_id c) rec_removed] /\ own_rows nt (h_db h1) = ∅ \/
      l = [mkReconciled (cand_id c) rec_obsolete] /\ ds = [] /\ own_rows nt (h_db h1) = ∅ \/
      (l = [] \/ l = [mkReconciled (cand_id c) rec_retry] /\ ds = []) /\ readoptable h1))) as Hskip.
  { intros h1 [= _ _ Hd] Ho. exists [], []. rewrite app_nil_r.
    split; [done|]. split; [by apply removed_none|by left]. }
  destruct (match named_owner (cand_ownerInstanceId c) with Some _ => _ | None => _ end).
  { injection Hr as <- <-. by apply Hskip. }
  unfold mbind at 1, M_bind at 1 in Hr. simpl in Hr. rewrite <- Hnt in Hr.
  apply capture_inv in Hr as (r & h1 & Ha & Hr).
  apply adopt_run in Ha as (Hs1 & Ha); [|done..]. simpl in Ha, Hr.
  destruct r as [[]|e]; [|injection Hr as <- <-; by apply Hskip..].
  destruct Ha as [Hab [row Hrow]]. unfold side in Hs1. injection Hs1 as _ _ Hd1.
  unfold settle_or_disown in Hr.
  assert (exists settled result h2, try_catch (settle_adopted defaultDeps c nt)
      (fun _ => mret (false, None)) h1 = (Ret (settled, result), h2) /\
    exists ds, removed_by h1 h2 ds /\
    match settled, result with
    | true, Some rec_obsolete => own_rows nt (h_db h2) = ∅ /\ ds = []
    | true, Some rec_removed => own_rows nt (h_db h2) = ∅
    | false, Some rec_retry => own_rows nt (h_db h2) = {[cand_id c := row]} /\ ds = []
    | false, None => own_rows nt (h_db h2) = {[cand_id c := row]}
    | _, _ => False
    end) as (settled & result & h2 & Hset & ds & Hds & Hcase).
  { unfold try_catch. destruct (settle_adopted defaultDeps c nt h1) as [o2 h2] eqn:Hsa.
    apply (settle_adopted_run row) in Hsa as (_ & ds & Hds & Hcase); [|done].
    destruct o2 as [[s res]|e]; eexists _, _, h2; (split; [done|]); exists ds;
      (split; [done|]); [|done]. by destruct s, res as [[]|]. }
  rewrite (bind_run _ _ _ _ _ Hset) in Hr.
  destruct Hds as (Hd2 & Hds). rewrite Hd1 in Hd2. simpl in Hr.
  destruct settled.
  - injection Hr as <- <-. destruct result as [[]|]; try done.
    + eexists _, ds. split; [done|]. split; [done|]. right. auto.
    + destruct Hcase. eexists _, ds. split; [done|]. split; [done|]. right. auto 6.
  - run_bind Hr as u h3 Hh e; apply (handOff_run row) in Hh as (Hu & Hd3 & _ & Hre);
      try (by destruct result as [[]|]; try done; destruct Hcase); try done.
    injection Hr as <- <-. destruct result as [[]|]; try done.
    + destruct Hcase as [_ ->]. eexists _, []. split; [done|].
      split; [split; [congruence|done]|]. right. split; [done|]. right. right. auto.
    + exists [], ds. rewrite app_nil_r. split; [done|].
      split; [split; [congruence|done]|]. right. auto 6.
Qed.
End Candidate.

(** ** Properties *)

(** One reconciler tick over a reservation never throws, and touches it only
    if at that moment its row is unowned or its owner is provably dead.  Then it
    removed the worktree or found the reservation obsolete and deleted it; or
    the reservation is still there and disowned, so the next tick can adopt it,
    unless the very last database write failed.  An obsolete or failed removal
    leaves the disk alone. *)
Theorem reconciler_tick `{Instance, Surroundings} c canJudgePeers liveness now reconciled h o h' :
  let nt := randomUUID (h_tick h) in
  respected nt -> own_rows nt (h_db h) = ∅ ->
  reconcile_candidate defaultDeps canJudgePeers liveness now c reconciled h = (o, h') ->
  exists l ds, o = Ret (reconciled ++ l) /\ removed_by c h h' ds /\
    (l = [] /\ ds = [] /\ own_rows nt (h_db h') = ∅ \/
     abandoned c (others (S (h_tick h)) (h_db h)) /\
     (l = [mkReconciled (cand_id c) rec_removed] /\ own_rows nt (h_db h') = ∅ \/
      l = [mkReconciled (cand_id c) rec_obsolete] /\ ds = [] /\ own_rows nt (h_db h') = ∅ \/
      (l = [] \/ l = [mkReconciled (cand_id c) rec_retry] /\ ds = []) /\ readoptable c nt h')).
Proof. intros nt Hresp. by apply candidate_outcome. Qed.

(** ** The branch of a per-Agent worktree

    The manual route removes a per-Agent worktree with [keepBranches], because
    its branch may be the only copy of unpushed work.  When that removal fails,
    the reservation does not record the flag, and the reconciler deletes the
    worktree together with its branch. *)
Lemma reconciler_drops_the_branch :
  exists (s1 s2 : Surroundings) (h1 h2 : Host),
    @removeSourceWorkspaceGuarded ex_instance s1 "s1" "agent-AAAAAAAAAAAAAAAA" ex_scm_handle true
      removal_demo = (Throw (mkError "Error" "EBUSY"), h1) /\
    h_disk h1 = [] /\
    @reconcileAbandonedWorkspaceRemovals (@defaultDeps ex_instance s2) h1 =
      (Ret [mkReconciled "s1:agent-AAAAAAAAAAAAAAAA" rec_removed], h2) /\
    h_disk h2 = [mkDisk "/ws/s1" "agent-AAAAAAAAAAAAAAAA" false].
Proof.
  exists (ex_faulty [(3, mkError "Error" "EBUSY")]), (ex_faulty []).
  eexists _, _. split; [vm_compute; reflexivity|]. split; [reflexivity|].
  split; [vm_compute; reflexivity|reflexivity].
Qed.

(** ** Witnesses *)

Definition orphan_row : WorkspaceRemoval := mkRemoval "s1" "w1" None "old" 0.
Definition orphan_demo : Host :=
  set_world (set_db (set_removals (fun _ => {["s1:w1" := orphan_row]}))) removal_demo.
Definition orphan_candidate : AbandonedCandidate := mkCandidate "s1:w1" "s1" "w1" None "old" 0.
Definition orphan_tick : outcome (list ReconciledRemoval) * Host :=
  @reconcile_candidate (@defaultDeps ex_instance (ex_faulty [])) true ∅ 100 orphan_candidate []
    orphan_demo.

Lemma reconciler_tick_witness :
  orphan_tick.1 = Ret [mkReconciled "s1:w1" rec_removed] /\
  exists l ds, orphan_tick.1 = Ret ([] ++ l) /\
    removed_by orphan_candidate orphan_demo orphan_tick.2 ds.
Proof.
  split; [vm_compute; reflexivity|].
  destruct (@reconciler_tick ex_instance (ex_faulty []) orphan_candidate true ∅ 100 [] orphan_demo
    orphan_tick.1 orphan_tick.2) as (l & ds & Hl & Hd & _);
    [by intros n d|vm_compute; reflexivity|by rewrite <- surjective_pairing|].
  exists l, ds. split; [exact Hl|exact Hd].
Defined.
