(* ===== verification/RemovalProtocol.v ===== *)
(** * Removers against occupants

    The interleaving of every process's worktree removals with the runs that
    claim worktrees ([resolveWorkDir] of [apps/api/src/lib/agent-helpers.ts]).
    Each database mutation is one step, made by the process's own code; between
    the re-check and the end of the file removal everything else may happen.

    A process judged dead by its heartbeat has fenced itself and stopped
    (Liveness.v), so adopting its reservation ends its attempt. *)
From S2P Require Import Prelude Json Schema LeaseRegistry World ScmWorkload Liveness WorkspaceRemoval RemovalReconciler.

Definition with_runs_workDir (wsPath : string) (r : Run) : Run := with_workDir (Some wsPath) r.

(** The transaction of [resolveWorkDir] that claims an explicit worktree *)
Definition claimWorktree (scmSourceId name wsRoot runId : string) : M World unit :=
  let wsPath := join wsRoot name in
  withTransaction (
    occupied ← select (fun d =>
      existsb (occupying_run wsPath (Some (wl_run, runId))) (map_to_list (db_runs d)));
    if (occupied : bool) then
      throw (mkError "WorktreeOccupiedError"
        ("Worktree '" +:+ wsPath +:+ "' is occupied by a running or pending run"))
    else
      pendingRemoval ← select (findPendingWorkspaceRemoval scmSourceId (Some name));
      match pendingRemoval with
      | Some _ => throw (mkError "Error"
          ("Worktree '" +:+ name +:+ "' is currently being removed; retry shortly"))
      | None =>
          _ ← update_runs runId (fun _ => true) (with_runs_workDir wsPath);
          mret tt
      end).

(** ** The interleaving *)

(** A file removal in progress is [at_removing]. *)
Record Attempt := mkAttempt {
  at_source : string;
  at_name : string;
  at_removing : option string       (* the root it is deleting under *)
}.

(** A run using the worktree it claimed *)
Record Occupant := mkOccupant { oc_source : string; oc_name : string; oc_root : string }.

Record Proto := mkProto {
  pr_db : Db;
  pr_attempts : gmap string Attempt;      (* by attempt token *)
  pr_occupants : gmap string Occupant     (* by run *)
}.

Definition attempt_id (a : Attempt) : string := workspaceRemovalId (at_source a) (at_name a).

(** A computation of one process on the shared database *)
Definition runs_to {A} (m : M World A) (d : Db) (o : outcome A) (d' : Db) : Prop :=
  exists w w', w_db w = d /\ m w = (o, w') /\ w_db w' = d'.

(** What the rest of the system keeps: reservations are written by the steps
    below only; a run in its worktree keeps its row, work directory and lease
    until it has left. *)
Definition keeps_occupants (occ : gmap string Occupant) (d d' : Db) : Prop :=
  db_removals d' = db_removals d /\
  forall r o, occ !! r = Some o ->
    (forall row, db_runs d !! r = Some row ->
       exists row', db_runs d' !! r = Some row' /\ run_workDir row' = run_workDir row) /\
    (forall l, db_leases d !! (wl_run, r) = Some l ->
       exists l', db_leases d' !! (wl_run, r) = Some l' /\
         lease_scmSourceId l' = lease_scmSourceId l).

Section Steps.
Context `{Surroundings}.

Inductive proto_step : relation Proto :=
(** [removeSourceWorkspaceGuardedCore]: the reserving mutation *)
| st_reserve (i : Instance) input tok d att occ d' :
    att !! tok = None -> own_rows tok d = ∅ ->
    runs_to (withScmPathMutation (reserve_removal input tok)) d (Ret tt) d' ->
    proto_step (mkProto d att occ)
      (mkProto d' (<[tok := mkAttempt (in_sourceId input) (in_name input) None]> att) occ)
(** [beforeRemove] lets the file removal begin; an owner cleans up after its
    own run has ended *)
| st_recheck (i : Instance) input tok a d att occ d' :
    att !! tok = Some a -> at_source a = in_sourceId input -> at_name a = in_name input ->
    (forall wl, in_ownedWorkload input = Some wl -> owned_type wl = wl_run ->
       occ !! owned_workloadId wl = None) ->
    runs_to (withScmPathMutation (decide_removal input)) d (Ret None) d' ->
    proto_step (mkProto d att occ)
      (mkProto d' (<[tok := mkAttempt (at_source a) (at_name a)
                              (Some (scm_wsRoot (in_scm input)))]> att) occ)
(** the reconciler's [findBlocker] lets it begin *)
| st_find_blocker (i : Instance) tok a handle d att occ :
    att !! tok = Some a ->
    findWorkspaceRemovalBlocker (at_source a) handle (at_name a) None d = None ->
    proto_step (mkProto d att occ)
      (mkProto d (<[tok := mkAttempt (at_source a) (at_name a) (Some (scm_wsRoot handle))]> att) occ)
(** the file removal ends, well or badly *)
| st_stop tok a d att occ :
    att !! tok = Some a ->
    proto_step (mkProto d att occ)
      (mkProto d (<[tok := mkAttempt (at_source a) (at_name a) None]> att) occ)
(** the attempt ends: it releases its reservation, disowns it, or only owes
    one of the two writes *)
| st_release tok a d att occ :
    att !! tok = Some a -> at_removing a = None -> fenced (attempt_id a) tok d = true ->
    proto_step (mkProto d att occ)
      (mkProto (set_removals (delete (attempt_id a)) d) (delete tok att) occ)
| st_disown tok a d att occ :
    att !! tok = Some a -> at_removing a = None -> fenced (attempt_id a) tok d = true ->
    proto_step (mkProto d att occ)
      (mkProto (set_removals (alter disowned (attempt_id a)) d) (delete tok att) occ)
| st_owe tok a d att occ :
    att !! tok = Some a -> at_removing a = None ->
    proto_step (mkProto d att occ) (mkProto d (delete tok att) occ)
(** an owed write of an ended attempt *)
| st_pending tok id f d att occ :
    att !! tok = None -> fenced id tok d = true -> f = delete id \/ f = alter disowned id ->
    proto_step (mkProto d att occ) (mkProto (set_removals f d) att occ)
(** a reconciler adopts the row of a disowned or dead attempt *)
| st_adopt (i : Instance) c tok d att occ d' :
    att !! tok = None -> own_rows tok d = ∅ -> cand_attemptToken c <> tok ->
    cand_id c = workspaceRemovalId (cand_scmSourceId c) (cand_workspaceName c) ->
    runs_to (withScmPathMutation (adopt_row (cand_id c) (cand_attemptToken c) tok)) d (Ret true) d' ->
    proto_step (mkProto d att occ)
      (mkProto d' (<[tok := mkAttempt (cand_scmSourceId c) (cand_workspaceName c) None]>
                     (delete (cand_attemptToken c) att)) occ)
(** a run holding the source's lease claims a worktree *)
| st_claim src name root r row l d att occ d' :
    db_runs d !! r = Some row -> db_leases d !! (wl_run, r) = Some l -> lease_scmSourceId l = src ->
    runs_to (claimWorktree src name root r) d (Ret tt) d' -> occ !! r = None ->
    proto_step (mkProto d att occ) (mkProto d' att (<[r := mkOccupant src name root]> occ))
(** its execution is over *)
| st_leave r d att occ :
    proto_step (mkProto d att occ) (mkProto d att (delete r occ))
(** everything else *)
| st_other d d' att occ :
    keeps_occupants occ d d' -> proto_step (mkProto d att occ) (mkProto d' att occ).

(** ** The invariant *)

Record proto_ok (p : Proto) : Prop := {
  po_held : forall tok a, pr_attempts p !! tok = Some a ->
    fenced (attempt_id a) tok (pr_db p) = true;
  po_occupant : forall r o, pr_occupants p !! r = Some o ->
    (exists row, db_runs (pr_db p) !! r = Some row /\
       run_workDir row = Some (join (oc_root o) (oc_name o))) /\
    (exists l, db_leases (pr_db p) !! (wl_run, r) = Some l /\ lease_scmSourceId l = oc_source o);
  po_apart : forall tok a root r o,
    pr_attempts p !! tok = Some a -> at_removing a = Some root ->
    pr_occupants p !! r = Some o -> o <> mkOccupant (at_source a) (at_name a) root
}.

Lemma fenced_runs_only id tok d d' :
  db_removals d' = db_removals d -> fenced id tok d' = fenced id tok d.
Proof. unfold fenced. by intros ->. Qed.

(** No blocker: nobody else's leased run sits in the worktree. *)
Lemma no_blocker_no_occupant src handle name excl d r row l :
  findWorkspaceRemovalBlocker src handle name excl d = None ->
  db_runs d !! r = Some row -> run_workDir row = Some (join (scm_wsRoot handle) name) ->
  db_leases d !! (wl_run, r) = Some l -> lease_scmSourceId l = src ->
  excl = Some (wl_run, r).
Proof.
  unfold findWorkspaceRemovalBlocker. intros Hb Hrow Hdir Hl Hsrc.
  destruct (db_sources d !! src); [|done]. destruct (source_deletionRequested s); [done|].
  case_decide; [done|]. destruct (existsb _ (map_to_list (db_runs d))); [done|].
  destruct (existsb _ _); [done|].
  destruct (List.find _ _) as [r0|] eqn:Hf; [done|].
  apply dec_stable. intros Hne.
  assert (row ∈ omap (fun kv => if decide (kv.1.1 = wl_run) then db_runs d !! kv.1.2 else None)
    (List.filter (relevant_lease src excl) (map_to_list (db_leases d)))) as Hin.
  { apply list_elem_of_omap. exists (wl_run, r, l). simpl. split; [|done].
    apply list_elem_of_In, filter_In. split; [by apply list_elem_of_In, elem_of_map_to_list|].
    unfold relevant_lease. simpl. rewrite Hsrc, !bool_decide_eq_true_2 by done. done. }
  apply list_elem_of_In in Hin. apply (find_none _ _ Hf) in Hin.
  rewrite Hdir, bool_decide_eq_true_2 in Hin by done. done.
Qed.

Lemma fenced_insert id row tok d :
  fenced id tok (set_removals (insert id row) d) = bool_decide (removal_attemptToken row = tok).
Proof. unfold fenced. simpl. by rewrite lookup_insert_eq. Qed.

Lemma fenced_insert_ne id id' row tok d :
  id <> id' -> fenced id' tok (set_removals (insert id row) d) = fenced id' tok d.
Proof. intros Hne. unfold fenced. simpl. by rewrite lookup_insert_ne. Qed.

(** A row carries one token. *)
Lemma fenced_unique id tok tok' d :
  fenced id tok d = true -> fenced id tok' d = true -> tok = tok'.
Proof.
  unfold fenced. destruct (db_removals d !! id); [|done]. intros ??. bool_to_prop. congruence.
Qed.

Lemma fenced_delete id id' tok tok' d :
  fenced id tok d = true -> tok' <> tok -> fenced id' tok' d = true ->
  fenced id' tok' (set_removals (delete id) d) = true.
Proof.
  intros H1 Hne H2. destruct (decide (id = id')) as [->|Hid].
  { by destruct Hne; eapply fenced_unique. }
  unfold fenced in *. simpl. by rewrite lookup_delete_ne.
Qed.

Lemma fenced_disown id id' tok' d :
  fenced id' tok' (set_removals (alter disowned id) d) = fenced id' tok' d.
Proof.
  unfold fenced. simpl. destruct (decide (id = id')) as [->|Hid].
  - rewrite lookup_alter_eq. by destruct (db_removals d !! id').
  - by rewrite lookup_alter_ne.
Qed.

(** ** What the mutations commit *)

Lemma committed {A} (m : M World A) w a w' :
  withTransaction m w = (Ret a, w') -> m w = (Ret a, w').
Proof. apply withTransaction_Ret. Qed.

Lemma reserve_commits (i : Instance) input tok d d' :
  runs_to (withScmPathMutation (reserve_removal input tok)) d (Ret tt) d' ->
  db_removals d !! input_id input = None /\
  d' = set_removals (insert (input_id input) (reservation_of input tok)) d.
Proof.
  intros (w & w' & <- & Hr%committed & <-). unfold reserve_removal in Hr.
  inv_bind Hr as (b & w1 & Hb & Hr). apply decide_removal_run in Hb as [-> _].
  destruct b; [done|]. unfold mbind, M_bind, select, gets in Hr.
  destruct (db_removals (w_db w) !! input_id input); [done|]. by injection Hr as <-.
Qed.

Lemma decide_commits (i : Instance) input d d' :
  runs_to (withScmPathMutation (decide_removal input)) d (Ret None) d' ->
  d' = d /\ exists excl,
    findWorkspaceRemovalBlocker (in_sourceId input) (in_scm input) (in_name input) excl d = None /\
    forall k, excl = Some k -> exists wl, in_ownedWorkload input = Some wl /\
      k = (owned_type wl, owned_workloadId wl).
Proof.
  intros (w & w' & <- & Hr%committed & <-).
  destruct (decide_removal_run _ _ _ _ Hr) as [-> _]. split; [done|].
  unfold decide_removal in Hr. inv_bind Hr as (excl & w1 & He & Hr).
  destruct (excluded_workload_run _ _ _ _ He) as [-> _]. unfold select, gets in Hr.
  injection Hr as Hr. exists excl. split; [done|]. intros k ->.
  unfold excluded_workload in He. destruct (in_ownedWorkload input) as [wl|]; [|done].
  exists wl. split; [done|]. inv_bind He as (idt & w2 & Hv & He). injection He as -> _.
  unfold validateOwnedCleanup, mbind, M_bind, select, gets in Hv.
  case_decide; [done|]. destruct (db_leases _ !! _); [|done]. case_decide; [|done].
  by injection Hv as <- _.
Qed.

Lemma adopt_commits (i : Instance) c tok d d' :
  runs_to (withScmPathMutation (adopt_row (cand_id c) (cand_attemptToken c) tok)) d (Ret true) d' ->
  exists row, abandoned c d /\ db_removals d !! cand_id c = Some row /\
    removal_attemptToken row = cand_attemptToken c /\
    d' = set_removals (insert (cand_id c) (adopted tok row)) d.
Proof.
  intros (w & w' & <- & Hr%committed & <-). apply adopt_row_run in Hr as (Ha & row & Hrow & ->).
  exists row. split; [done|]. split; [done|]. split; [|done].
  destruct Ha as (row' & Hrow' & Ht & _). congruence.
Qed.

Lemma claim_commits src name root r d d' :
  runs_to (claimWorktree src name root r) d (Ret tt) d' ->
  db_removals d !! workspaceRemovalId src name = None /\
  db_removals d' = db_removals d /\ db_leases d' = db_leases d /\
  forall r' row, db_runs d !! r' = Some row -> db_runs d' !! r' =
    Some (if decide (r' = r) then with_runs_workDir (join root name) row else row).
Proof.
  intros (w & w' & <- & Hr%committed & <-).
  unfold mbind, M_bind, select, gets in Hr. destruct (existsb _ _); [done|].
  unfold findPendingWorkspaceRemoval in Hr.
  destruct (db_removals (w_db w) !! workspaceRemovalId src name); [done|]. simpl in Hr.
  rewrite update_runs_run in Hr. injection Hr as <-. simpl. split; [done|]. split; [done|].
  split; [done|]. intros r' row Hrow. unfold update_where. case_decide as Hd.
  - subst. rewrite Hrow. simpl. by rewrite lookup_insert_eq.
  - destruct (db_runs (w_db w) !! r) as [row2|]; simpl; [|done]. by rewrite lookup_insert_ne.
Qed.

(** ** Every step keeps it *)

(** Steps that write no run or lease keep the occupants' rows. *)
Lemma occupant_frame d d' att occ :
  db_runs d' = db_runs d -> db_leases d' = db_leases d ->
  proto_ok (mkProto d att occ) ->
  forall r o, occ !! r = Some o ->
    (exists row, db_runs d' !! r = Some row /\
       run_workDir row = Some (join (oc_root o) (oc_name o))) /\
    (exists l, db_leases d' !! (wl_run, r) = Some l /\ lease_scmSourceId l = oc_source o).
Proof. intros -> -> Hok. apply (po_occupant _ Hok). Qed.

(** A file removal that passed its check starts in an empty worktree. *)
Lemma start_removing tok a src name handle excl d att occ :
  proto_ok (mkProto d att occ) -> att !! tok = Some a -> at_source a = src -> at_name a = name ->
  findWorkspaceRemovalBlocker src handle name excl d = None ->
  (forall r, excl = Some (wl_run, r) -> occ !! r = None) ->
  proto_ok (mkProto d (<[tok := mkAttempt (at_source a) (at_name a) (Some (scm_wsRoot handle))]> att) occ).
Proof.
  intros Hok Ha <- <- Hb Hex. split; simpl.
  - intros t b. rewrite lookup_insert_Some.
    intros [[<- <-]|[_ Hb']]; [by apply (po_held _ Hok tok a)|by apply (po_held _ Hok)].
  - apply (po_occupant _ Hok).
  - intros t b root r o. rewrite lookup_insert_Some. intros [[<- <-]|[_ Hb']] Hrem Hocc.
    + simpl in *. injection Hrem as <-. intros ->.
      destruct (po_occupant _ Hok _ _ Hocc) as [(row & Hrow & Hdir) (l & Hl & Hsrc)]. simpl in *.
      rewrite (Hex r) in Hocc; [done|]. by eapply no_blocker_no_occupant.
    + by eapply (po_apart _ Hok).
Qed.

Lemma proto_step_ok p p' : proto_step p p' -> proto_ok p -> proto_ok p'.
Proof.
  intros [i input tok d att occ d' Hn Hown Hrun
    |i input tok a d att occ d' Ha Hs Hnm Hex Hrun
    |i tok a handle d att occ Ha Hb
    |tok a d att occ Ha|tok a d att occ Ha Hrm Hf|tok a d att occ Ha Hrm Hf
    |tok a d att occ Ha Hrm|tok id f d att occ Hn Hf Hff
    |i c tok d att occ d' Hn Hown Hne Hid Hrun
    |src name root r row l d att occ d' Hrow Hl Hsrc Hrun Hocc
    |r d att occ|d d' att occ [Hrem Hkeep]] Hok.
  - apply reserve_commits in Hrun as [Hnone ->]. split; simpl.
    + intros t b. rewrite lookup_insert_Some. intros [[<- <-]|[Ht Hb]].
      * change (attempt_id _) with (input_id input). rewrite fenced_insert. by apply bool_decide_eq_true.
      * pose proof (po_held _ Hok _ _ Hb) as Hfb. rewrite fenced_insert_ne; [done|].
        intros Heq. unfold fenced in Hfb. simpl in Hfb. by rewrite <- Heq, Hnone in Hfb.
    + by eapply occupant_frame.
    + intros t b rt r o. rewrite lookup_insert_Some. intros [[<- <-]|[_ Hb]]; [done|].
      by eapply (po_apart _ Hok).
  - apply decide_commits in Hrun as (-> & excl & Hb & Hexcl). eapply start_removing; try done.
    intros r ->. destruct (Hexcl _ eq_refl) as (wl & Hwl & [= Hty ->]). by apply Hex.
  - by eapply start_removing.
  - split; simpl; [|apply (po_occupant _ Hok)|].
    + intros t b. rewrite lookup_insert_Some.
      intros [[<- <-]|[_ Hb']]; [by apply (po_held _ Hok tok a)|by apply (po_held _ Hok)].
    + intros t b rt r o. rewrite lookup_insert_Some. intros [[<- <-]|[_ Hb]]; [done|].
      by eapply (po_apart _ Hok).
  - split; simpl; [|by eapply occupant_frame|].
    + intros t b [Ht Hb]%lookup_delete_Some. eapply fenced_delete; [done|done|by apply (po_held _ Hok)].
    + intros t b rt r o [_ Hb]%lookup_delete_Some. by eapply (po_apart _ Hok).
  - split; simpl; [|by eapply occupant_frame|].
    + intros t b [Ht Hb]%lookup_delete_Some. rewrite fenced_disown. by apply (po_held _ Hok).
    + intros t b rt r o [_ Hb]%lookup_delete_Some. by eapply (po_apart _ Hok).
  - split; simpl; [|apply (po_occupant _ Hok)|].
    + intros t b [_ Hb]%lookup_delete_Some. by apply (po_held _ Hok).
    + intros t b rt r o [_ Hb]%lookup_delete_Some. by eapply (po_apart _ Hok).
  - split; simpl; [|by eapply occupant_frame|apply (po_apart _ Hok)].
    intros t b Hb. destruct Hff as [->| ->].
    + eapply fenced_delete; [done| |by apply (po_held _ Hok)]. intros ->. congruence.
    + rewrite fenced_disown. by apply (po_held _ Hok).
  - apply adopt_commits in Hrun as (row & _ & Hrow & Htok & ->). split; simpl.
    + intros t b. rewrite lookup_insert_Some. intros [[<- <-]|[Ht [Hc Hb]%lookup_delete_Some]].
      * unfold attempt_id. simpl. rewrite <- Hid, fenced_insert. by apply bool_decide_eq_true.
      * pose proof (po_held _ Hok _ _ Hb) as Hfb. rewrite fenced_insert_ne; [done|].
        intros Heq. destruct Hc. symmetry. eapply fenced_unique; [exact Hfb|]. unfold fenced. simpl.
        rewrite <- Heq, Hrow. by apply bool_decide_eq_true.
    + by eapply occupant_frame.
    + intros t b rt r o. rewrite lookup_insert_Some.
      intros [[<- <-]|[_ [_ Hb]%lookup_delete_Some]]; [done|]. by eapply (po_apart _ Hok).
  - apply claim_commits in Hrun as (Hnone & Hrem & Hls & Hruns). split; simpl.
    + intros t b Hb. rewrite (fenced_runs_only _ _ d) by done. by apply (po_held _ Hok).
    + intros r' o. rewrite lookup_insert_Some. intros [[<- <-]|[Hne Ho]].
      * split; [|rewrite Hls; eauto]. eexists. rewrite (Hruns _ _ Hrow), decide_True by done. done.
      * destruct (po_occupant _ Hok _ _ Ho) as [(row' & Hrow' & Hdir) Hlease]. simpl in *.
        split; [|by rewrite Hls]. eexists. rewrite (Hruns _ _ Hrow'), decide_False by done. done.
    + intros t b rt r' o Hb Hrm. rewrite lookup_insert_Some. intros [[<- <-]|[_ Ho]].
      * intros [= -> -> ->]. pose proof (po_held _ Hok _ _ Hb) as Hfb. unfold fenced in Hfb.
        simpl in Hfb. change (attempt_id b) with (workspaceRemovalId (at_source b) (at_name b)) in Hfb.
        by rewrite Hnone in Hfb.
      * by eapply (po_apart _ Hok).
  - split; simpl; [apply (po_held _ Hok)| |].
    + intros r' o [_ Ho]%lookup_delete_Some. by apply (po_occupant _ Hok).
    + intros t b rt r' o Hb Hrm [_ Ho]%lookup_delete_Some. by eapply (po_apart _ Hok).
  - split; simpl; [|intros r o Ho|apply (po_apart _ Hok)].
    + intros t b Hb. rewrite (fenced_runs_only _ _ d) by done. by apply (po_held _ Hok).
    + destruct (Hkeep _ _ Ho) as [Hr Hl].
      destruct (po_occupant _ Hok _ _ Ho) as [(row & Hrow & Hdir) (l & Hl1 & Hsrc)]. simpl in *.
      destruct (Hr _ Hrow) as (row' & ? & ?). destruct (Hl _ Hl1) as (l' & ? & ?).
      split; eexists; (split; [done|congruence]).
Qed.
End Steps.

(** ** Properties *)


(** ** Witnesses *)

(** A run in its worktree while another worktree of the source is removed *)
Definition proto_demo_db : Db :=
  set_leases (fun _ => {[(wl_run, "r1") := mkLease "a1" "s1" active (Some "i1") 0]})
    (set_runs (fun _ => {["r1" := mkRun running None None None None None (Some "i1") None (Some "a1")
       None 0 0 empty_usage empty_origin]})
      (set_sources (fun _ => {["s1" := ex_source]}) empty_db)).
Definition proto_demo_claimed : Db :=
  w_db (claimWorktree "s1" "w2" "/ws/s1" "r1" (set_db (fun _ => proto_demo_db) empty_world)).2.
Definition proto_demo_input : GuardedRemovalInput := mkGuarded "s1" "w1" ex_scm_handle None false.
Definition proto_demo_reserved : Db :=
  w_db (@reserve_removal ex_instance (ex_faulty []) proto_demo_input "t0"
    (set_db (fun _ => proto_demo_claimed) empty_world)).2.
Definition proto_demo_occupants : gmap string Occupant := {["r1" := mkOccupant "s1" "w2" "/ws/s1"]}.
Definition proto_demo : Proto :=
  mkProto proto_demo_reserved
    (<["t0" := mkAttempt "s1" "w1" (Some "/ws/s1")]> {["t0" := mkAttempt "s1" "w1" None]})
    proto_demo_occupants.

(** A mutation that returns, run on a concrete database *)
Lemma runs_to_here {A} (m : M World A) d a :
  (m (set_db (fun _ => d) empty_world)).1 = Ret a ->
  runs_to m d (Ret a) (w_db (m (set_db (fun _ => d) empty_world)).2).
Proof.
  intros Ha. set (w := set_db (fun _ => d) empty_world) in *. exists w, (m w).2.
  split; [done|]. split; [|done]. rewrite <- Ha. by destruct (m w).
Qed.

Lemma proto_demo_reachable : rtc (@proto_step (ex_faulty [])) (mkProto proto_demo_db ∅ ∅) proto_demo.
Proof.
  apply (rtc_l _ _ (mkProto proto_demo_claimed ∅ proto_demo_occupants)).
  { apply (@st_claim (ex_faulty []) "s1" "w2" "/ws/s1" "r1"
      (mkRun running None None None None None (Some "i1") None (Some "a1") None 0 0 empty_usage empty_origin)
      (mkLease "a1" "s1" active (Some "i1") 0)); [done|done|done| |done].
    apply runs_to_here. vm_compute. reflexivity. }
  apply (rtc_l _ _ (mkProto proto_demo_reserved {["t0" := mkAttempt "s1" "w1" None]} proto_demo_occupants)).
  { apply (@st_reserve (ex_faulty []) ex_instance proto_demo_input "t0"); [done|vm_compute; reflexivity|].
    eexists (set_db (fun _ => proto_demo_claimed) empty_world), _. split; [reflexivity|].
    split; [vm_compute; reflexivity|vm_compute; reflexivity]. }
  apply rtc_once.
  apply (@st_recheck (ex_faulty []) ex_instance proto_demo_input "t0" (mkAttempt "s1" "w1" None));
    [done|done|done|done|].
  eexists (set_db (fun _ => proto_demo_reserved) empty_world), _. split; [reflexivity|].
  split; [vm_compute; reflexivity|vm_compute; reflexivity].
Qed.

