(* ===== verification/EvaluationQueue.v ===== *)
(** * The evaluation queue

    [apps/api/src/engine/evaluation-queue.ts] and [evaluation-queue-db.ts]: one
    evaluation task per agent at a time, promotion in creation order, and
    recovery after a restart. *)
From stdpp Require Import sorting.
From S2P Require Import Prelude Json Schema LeaseRegistry World ScmWorkload Resume TaskQueue.

Definition EVALUATION_MAX_QUEUE_LENGTH : nat := 50.
Definition EVALUATION_RESTART_REASON : string := "Interrupted by a server restart".

Record EvaluationTaskRow := mkTaskRow { etask_id : string; etask_agentId : string }.

Class EvaluationQueueDb := {
  countTasksByStatus : string -> string -> M World nat;
  getMaxConcurrency : nat;
  updateTaskStatus : string -> string -> M World unit;
  tryTransitionTaskStatus : string -> string -> string -> M World bool;
  getOldestQueuedTask : string -> M World (option EvaluationTaskRow);
  getTasksByStatus : string -> M World (list EvaluationTaskRow);
  failTask : string -> string -> M World unit;
  getAgentIdsWithQueuedTasks : M World (list string);
  claimQueuedTasks : string -> M World (list EvaluationTaskRow)
}.

Inductive EvaluationSlotResult := eval_acquired | eval_queued | eval_queue_full.

Definition pauseEvaluationQueuePromotions : M World unit := modify (set_evalPaused true).

Section Queue.
Context {db : EvaluationQueueDb}.

(** Runs under the per-agent lock [eval-slot:<agentId>] *)
Definition tryAcquireEvaluationSlot (agentId taskId : string) : M World EvaluationSlotResult :=
  paused ← gets w_evalPromotionsPaused;
  if (paused : bool) then mret eval_queue_full
  else
    running ← countTasksByStatus agentId "running";
    acquired ← (if (running <? getMaxConcurrency)%nat
                then tryTransitionTaskStatus taskId "pending" "running"
                else mret false);
    if (acquired : bool) then mret eval_acquired
    else
      queued ← countTasksByStatus agentId "queued";
      if (EVALUATION_MAX_QUEUE_LENGTH <=? queued)%nat then mret eval_queue_full
      else _ ← updateTaskStatus taskId "queued"; mret eval_queued.

Definition scheduleNextEvaluation (agentId : string) : M World nat :=
  paused ← gets w_evalPromotionsPaused;
  if (paused : bool) then mret 0
  else
    try_catch (
      claimed ← claimQueuedTasks agentId;
      _ ← for_each claimed (fun task => onExecute (etask_id task) (etask_agentId task));
      mret (length claimed))
      (fun _ => mret 0).

Record EvaluationRecoveryStats := mkEvalStats {
  eval_runningAborted : nat;
  eval_pendingAborted : nat;
  eval_queuedPromoted : nat
}.

Definition abort_task (onTaskFailed : option (EvaluationTaskRow -> M World unit))
    (task : EvaluationTaskRow) (aborted : nat) : M World nat :=
  _ ← failTask (etask_id task) EVALUATION_RESTART_REASON;
  _ ← (match onTaskFailed with
       | Some hook => guarded tt (hook task)
       | None => mret tt
       end);
  mret (S aborted).

Definition recoverEvaluationsOnStartup (recoverInFlight : bool)
    (onTaskFailed : option (EvaluationTaskRow -> M World unit)) : M World EvaluationRecoveryStats :=
  aborted ← (if recoverInFlight then
               runningTasks ← getTasksByStatus "running";
               runningAborted ← fold_each runningTasks (abort_task onTaskFailed) 0;
               pendingTasks ← getTasksByStatus "pending";
               pendingAborted ← fold_each pendingTasks (abort_task onTaskFailed) 0;
               mret (runningAborted, pendingAborted)
             else mret (0, 0));
  agentIds ← getAgentIdsWithQueuedTasks;
  queuedPromoted ← fold_each agentIds (fun agentId n =>
    promoted ← scheduleNextEvaluation agentId; mret (n + promoted)) 0;
  mret (mkEvalStats aborted.1 aborted.2 queuedPromoted).
End Queue.

(** ** The storage *)

Definition EVALUATION_MAX_CONCURRENCY : nat := 1.

Definition task_in (a : string) (st : RunStatus) (kv : string * EvaluationTask) : Prop :=
  task_agentId kv.2 = a /\ task_status kv.2 = st.
#[export] Instance task_in_dec a st kv : Decision (task_in a st kv).
Proof. unfold task_in. apply _. Defined.

Definition tasks_in (a : string) (st : RunStatus) (d : Db) : gmap string EvaluationTask :=
  filter (task_in a st) (db_tasks d).

Definition task_older (x y : string * EvaluationTask) : Prop :=
  (task_createdAt x.2 <= task_createdAt y.2)%Z.
#[export] Instance task_older_dec x y : Decision (task_older x y).
Proof. unfold task_older. apply _. Defined.

(** [orderBy(asc(createdAt)).limit(n)] *)
Definition queued_tasks (a : string) (n : nat) (d : Db) : list (string * EvaluationTask) :=
  take n (merge_sort task_older (map_to_list (tasks_in a queued d))).

Definition task_row (kv : string * EvaluationTask) : EvaluationTaskRow :=
  mkTaskRow kv.1 (task_agentId kv.2).

Section Storage.
Context `{Instance}.

Definition with_task_status (st : RunStatus) (t : EvaluationTask) : EvaluationTask :=
  mkTask (task_agentId t) st (task_error t) (task_createdAt t) clock (task_finishedAt t).

Definition update_tasks (k : string) (cond : EvaluationTask -> bool)
    (f : EvaluationTask -> EvaluationTask) : M World bool :=
  write_returning (fun d =>
    let '(b, t) := update_where k cond f (db_tasks d) in (b, set_tasks (fun _ => t) d)).

Definition edb_countTasksByStatus (agentId status : string) : M World nat :=
  match parseRunStatus status with
  | None => mret 0
  | Some st => select (fun d => size (tasks_in agentId st d))
  end.

(** One conditional update per selected row *)
Definition claim_task (kv : string * EvaluationTask) (claimed : list EvaluationTaskRow)
    : M World (list EvaluationTaskRow) :=
  updated ← update_tasks kv.1 (fun t => bool_decide (task_status t = queued))
              (with_task_status running);
  mret (if (updated : bool) then claimed ++ [task_row kv] else claimed).

Definition edb_claimQueuedTasks (agentId : string) : M World (list EvaluationTaskRow) :=
  withScmPathMutation (
    running ← select (fun d => size (tasks_in agentId running d));
    if (EVALUATION_MAX_CONCURRENCY <=? running)%nat then mret []
    else
      queued ← select (queued_tasks agentId (EVALUATION_MAX_CONCURRENCY - running));
      fold_each queued claim_task []).

Definition edb_updateTaskStatus (taskId status : string) : M World unit :=
  match parseRunStatus status with
  | None => mret tt
  | Some st => _ ← update_tasks taskId (fun _ => true) (with_task_status st); mret tt
  end.

Definition edb_tryTransitionTaskStatus (taskId from to_ : string) : M World bool :=
  match parseRunStatus from, parseRunStatus to_ with
  | Some fromStatus, Some toStatus =>
      update_tasks taskId (fun t => bool_decide (task_status t = fromStatus))
        (with_task_status toStatus)
  | _, _ => mret false
  end.

Definition edb_getOldestQueuedTask (agentId : string) : M World (option EvaluationTaskRow) :=
  select (fun d => task_row <$> head (queued_tasks agentId 1 d)).

Definition edb_getTasksByStatus (status : string) : M World (list EvaluationTaskRow) :=
  match parseRunStatus status with
  | None => mret []
  | Some st => select (fun d => task_row <$>
      filter (fun kv => task_status kv.2 = st) (map_to_list (db_tasks d)))
  end.

Definition failed_task (reason : string) (t : EvaluationTask) : EvaluationTask :=
  mkTask (task_agentId t) failed (Some reason) (task_createdAt t) clock (Some clock).

Definition failed_result (taskId reason : string) (r : EvaluationResult) : EvaluationResult :=
  if decide (result_taskId r = taskId /\ (result_status r = pending \/ result_status r = running))
  then mkResult (result_taskId r) failed (Some reason) clock else r.

Definition edb_failTask (taskId reason : string) : M World unit :=
  _ ← update_tasks taskId (fun _ => true) (failed_task reason);
  db_write (set_results (fmap (failed_result taskId reason))).

Definition edb_getAgentIdsWithQueuedTasks : M World (list string) :=
  select (fun d => elements (list_to_set (omap (fun '(_, t) =>
    if decide (task_status t = queued) then Some (task_agentId t) else None)
    (map_to_list (db_tasks d))) : gset string)).

#[export] Instance evaluationQueueDb : EvaluationQueueDb := {|
  countTasksByStatus := edb_countTasksByStatus;
  getMaxConcurrency := EVALUATION_MAX_CONCURRENCY;
  updateTaskStatus := edb_updateTaskStatus;
  tryTransitionTaskStatus := edb_tryTransitionTaskStatus;
  getOldestQueuedTask := edb_getOldestQueuedTask;
  getTasksByStatus := edb_getTasksByStatus;
  failTask := edb_failTask;
  getAgentIdsWithQueuedTasks := edb_getAgentIdsWithQueuedTasks;
  claimQueuedTasks := edb_claimQueuedTasks
|}.
End Storage.

(** ** Lemmas *)

#[export] Instance task_older_total : Total task_older.
Proof. intros x y. unfold task_older. lia. Qed.
#[export] Instance task_older_trans : Transitive task_older.
Proof. intros x y z. unfold task_older. lia. Qed.

Lemma lookup_tasks_in a st d id t :
  tasks_in a st d !! id = Some t <->
  db_tasks d !! id = Some t /\ task_agentId t = a /\ task_status t = st.
Proof. unfold tasks_in. rewrite map_lookup_filter_Some. done. Qed.

(** The oldest queued task of an agent *)
Definition oldest_task (a id : string) (t : EvaluationTask) (d : Db) : Prop :=
  tasks_in a queued d !! id = Some t /\
  forall id' t', tasks_in a queued d !! id' = Some t' -> (task_createdAt t <= task_createdAt t')%Z.

Lemma queued_tasks_one a d :
  queued_tasks a 1 d = [] /\ tasks_in a queued d = ∅ \/
  exists id t, queued_tasks a 1 d = [(id, t)] /\ oldest_task a id t d.
Proof.
  unfold queued_tasks.
  pose proof (merge_sort_Permutation task_older (map_to_list (tasks_in a queued d))) as Hperm.
  pose proof (StronglySorted_merge_sort task_older (map_to_list (tasks_in a queued d))) as Hsort.
  destruct (merge_sort _ _) as [|[id t] rest]; simpl.
  - left. split; [done|]. apply Permutation_nil_l in Hperm. by apply map_to_list_empty_iff.
  - right. exists id, t. split; [by destruct rest|]. split.
    + apply elem_of_map_to_list. rewrite <- Hperm. by left.
    + intros id' t' Hin%elem_of_map_to_list. rewrite <- Hperm in Hin.
      apply StronglySorted_inv in Hsort as [_ Hall]. rewrite Forall_forall in Hall.
      apply elem_of_cons in Hin as [Heq|Hin]; [injection Heq as -> ->; lia|].
      by apply (Hall _ Hin).
Qed.

Section Lemmas.
Context `{Instance}.

Lemma update_tasks_cond k cond f w :
  update_tasks k cond f w =
  match db_tasks (w_db w) !! k with
  | Some t => if cond t then (Ret true, set_db (set_tasks (insert k (f t))) w) else (Ret false, w)
  | None => (Ret false, w)
  end.
Proof.
  unfold update_tasks, write_returning, update_where.
  destruct (db_tasks (w_db w) !! k) as [t|]; [destruct (cond t)|]; simpl; by destruct w as [[]].
Qed.

Lemma claimQueuedTasks_run a w :
  (edb_claimQueuedTasks a w = (Ret [], w) /\
   (1 <= size (tasks_in a running (w_db w)) \/ tasks_in a queued (w_db w) = ∅)) \/
  exists id t, oldest_task a id t (w_db w) /\ size (tasks_in a running (w_db w)) = 0 /\
    edb_claimQueuedTasks a w =
      (Ret [mkTaskRow id a], set_db (set_tasks (insert id (with_task_status running t))) w).
Proof.
  unfold edb_claimQueuedTasks, withScmPathMutation, withTransaction, select, gets.
  unfold mbind at 1 3, M_bind at 1 3. unfold EVALUATION_MAX_CONCURRENCY.
  destruct (1 <=? size (tasks_in a running (w_db w)))%nat eqn:Hrun; bool_to_prop; [auto|].
  assert (size (tasks_in a running (w_db w)) = 0) as Hz by lia. rewrite Hz. simpl.
  unfold mbind at 1 2, M_bind at 1 2.
  destruct (queued_tasks_one a (w_db w)) as [[-> Hq]|(id & t & -> & Hold)]; [auto|].
  right. exists id, t. split; [done|]. split; [done|].
  pose proof (proj1 Hold) as (Ht & Ha & Hst)%lookup_tasks_in.
  simpl. unfold mbind, M_bind, claim_task. simpl. unfold mbind, M_bind.
  rewrite update_tasks_cond, Ht. rewrite bool_decide_eq_true_2 by done. simpl.
  unfold task_row. simpl. by rewrite Ha.
Qed.

(** A claimed task is the agent's only running one. *)
Lemma claimed_task_running a id t w :
  oldest_task a id t (w_db w) -> size (tasks_in a running (w_db w)) = 0 ->
  tasks_in a running (set_tasks (insert id (with_task_status running t)) (w_db w)) =
    {[id := with_task_status running t]}.
Proof.
  intros [(Ht & Ha & Hst)%lookup_tasks_in _] Hz. apply map_size_empty_inv in Hz.
  unfold tasks_in in *. simpl. rewrite map_filter_insert_True by done. rewrite Hz.
  by rewrite insert_empty.
Qed.

Lemma scheduleNextEvaluation_none a w :
  w_evalPromotionsPaused w = false -> edb_claimQueuedTasks a w = (Ret [], w) ->
  scheduleNextEvaluation a w = (Ret 0, w).
Proof.
  intros Hp Hc. unfold scheduleNextEvaluation, gets, mbind, M_bind, try_catch. rewrite Hp.
  simpl. by rewrite Hc.
Qed.

Lemma scheduleNextEvaluation_one a id w w1 :
  w_evalPromotionsPaused w = false -> edb_claimQueuedTasks a w = (Ret [mkTaskRow id a], w1) ->
  scheduleNextEvaluation a w = (Ret 1, (onExecute id a w1).2).
Proof.
  intros Hp Hc. unfold scheduleNextEvaluation, gets, mbind, M_bind, try_catch. rewrite Hp.
  simpl. by rewrite Hc.
Qed.

Lemma tryAcquireEvaluationSlot_run a id w :
  tryAcquireEvaluationSlot a id w =
  if w_evalPromotionsPaused w then (Ret eval_queue_full, w) else
  match (if (size (tasks_in a running (w_db w)) <? EVALUATION_MAX_CONCURRENCY)%nat
         then update_tasks id (fun t => bool_decide (task_status t = pending))
                (with_task_status running) w
         else (Ret false, w)) with
  | (Ret true, w1) => (Ret eval_acquired, w1)
  | (Ret false, w1) =>
      if (EVALUATION_MAX_QUEUE_LENGTH <=? size (tasks_in a queued (w_db w1)))%nat
      then (Ret eval_queue_full, w1)
      else let '(o, w2) := update_tasks id (fun _ => true) (with_task_status queued) w1 in
           match o with Ret _ => (Ret eval_queued, w2) | Throw e => (Throw e, w2) end
  | (Throw e, w1) => (Throw e, w1)
  end.
Proof.
  unfold tryAcquireEvaluationSlot, gets. unfold mbind at 1, M_bind at 1.
  destruct (w_evalPromotionsPaused w); [done|]. unfold mbind, M_bind.
  unfold countTasksByStatus, getMaxConcurrency, evaluationQueueDb, edb_countTasksByStatus.
  change (parseRunStatus "running") with (Some running).
  change (parseRunStatus "queued") with (Some queued). unfold select, gets. cbv beta iota.
  destruct (_ <? _)%nat; unfold mret, M_ret;
    [destruct (tryTransitionTaskStatus id "pending" "running" w) as [o w1] eqn:E|].
  - change (update_tasks id (fun t => bool_decide (task_status t = pending))
      (with_task_status running) w = (o, w1)) in E. rewrite E.
    destruct o as [[]|]; [done| |done].
    destruct (_ <=? _)%nat; [done|].
    unfold updateTaskStatus, edb_updateTaskStatus, mbind, M_bind.
    change (parseRunStatus "queued") with (Some queued). cbv beta iota.
    by destruct (update_tasks _ _ _ w1) as [[] ?].
  - destruct (_ <=? _)%nat; [done|].
    unfold updateTaskStatus, edb_updateTaskStatus, mbind, M_bind.
    change (parseRunStatus "queued") with (Some queued). cbv beta iota.
    by destruct (update_tasks _ _ _ w) as [[] ?].
Qed.
End Lemmas.

(** *** One scheduling pass as a step *)

Definition saturated (a : string) (w : World) : Prop :=
  tasks_in a queued (w_db w) = ∅ \/ tasks_in a running (w_db w) <> ∅.

Section Recovery.
Context `{Instance}.

Lemma schedule_step a w :
  (scheduleNextEvaluation a w = (Ret 0, w) /\
   (w_evalPromotionsPaused w = true \/ 1 <= size (tasks_in a running (w_db w)) \/
    tasks_in a queued (w_db w) = ∅)) \/
  exists id t, w_evalPromotionsPaused w = false /\ oldest_task a id t (w_db w) /\
    size (tasks_in a running (w_db w)) = 0 /\
    scheduleNextEvaluation a w =
      (Ret 1, add_started (id, a) (set_db (set_tasks (insert id (with_task_status running t))) w)).
Proof.
  destruct (w_evalPromotionsPaused w) eqn:Hp.
  { left. split; [|auto]. unfold scheduleNextEvaluation, gets, mbind, M_bind. by rewrite Hp. }
  destruct (claimQueuedTasks_run a w) as [[Hc Hwhy]|(id & t & Hold & Hz & Hc)].
  - left. split; [by apply scheduleNextEvaluation_none|]. by right.
  - right. exists id, t. do 3 (split; [done|]). by rewrite (scheduleNextEvaluation_one _ _ _ _ Hp Hc).
Qed.

Lemma tasks_in_insert_other a b st id t t' w :
  db_tasks (w_db w) !! id = Some t -> task_agentId t = b -> task_agentId t' = b -> a <> b ->
  tasks_in a st (set_tasks (insert id t') (w_db w)) = tasks_in a st (w_db w).
Proof.
  intros Ht Hb Hb' Hab. unfold tasks_in, task_in. simpl.
  rewrite map_filter_insert_False by (simpl; intros [? _]; congruence).
  rewrite map_filter_delete, delete_id; [done|].
  apply map_lookup_filter_None. right. intros x Hx [? _]. simpl in *. congruence.
Qed.

Definition keeps_settled (w w' : World) : Prop := forall id t,
  db_tasks (w_db w) !! id = Some t -> task_status t <> queued -> db_tasks (w_db w') !! id = Some t.

Definition running_started (w : World) : Prop := forall id t,
  db_tasks (w_db w) !! id = Some t -> task_status t = running ->
  (id, task_agentId t) ∈ w_started w.

Definition queue_pass (done_ : list string) (w0 w : World) : Prop :=
  keeps_settled w0 w /\ running_started w /\
  w_evalPromotionsPaused w = w_evalPromotionsPaused w0 /\
  (forall id t', db_tasks (w_db w) !! id = Some t' -> exists t,
     db_tasks (w_db w0) !! id = Some t /\ task_agentId t' = task_agentId t /\
     (task_status t' = pending -> task_status t = pending)) /\
  (w_evalPromotionsPaused w0 = false -> forall a,
     a ∈ done_ \/ tasks_in a queued (w_db w0) = ∅ -> saturated a w).

Lemma saturated_step a b w w' o :
  scheduleNextEvaluation b w = (o, w') -> saturated a w -> saturated a w'.
Proof.
  destruct (schedule_step b w) as [[-> _]|(id & t & _ & Hold & Hz & ->)]; intros [= <- <-]; [done|].
  intros Hsat. destruct (decide (a = b)) as [->|Hne].
  - right. simpl. rewrite (claimed_task_running b id t w) by done. apply map_non_empty_singleton.
  - pose proof (proj1 Hold) as (Ht & Ha & _)%lookup_tasks_in. unfold saturated. simpl.
    by rewrite !(tasks_in_insert_other a b _ id t) by done.
Qed.

Lemma saturated_here a w o w' :
  w_evalPromotionsPaused w = false -> scheduleNextEvaluation a w = (o, w') -> saturated a w'.
Proof.
  intros Hp. destruct (schedule_step a w) as [[-> Hwhy]|(id & t & _ & Hold & Hz & ->)];
    intros [= <- <-].
  - destruct Hwhy as [?|[Hr|Hq]]; [congruence| |by left].
    right. intros He. rewrite He, map_size_empty in Hr. lia.
  - right. simpl. rewrite (claimed_task_running a id t w) by done. apply map_non_empty_singleton.
Qed.

Lemma queue_pass_step done_ a w0 w o w' :
  queue_pass done_ w0 w -> scheduleNextEvaluation a w = (o, w') ->
  queue_pass (a :: done_) w0 w' /\ is_ret o = true.
Proof.
  intros (Hk & Hrs & Hp & Hold0 & Hsat) Hs.
  assert (forall b, w_evalPromotionsPaused w0 = false ->
    b ∈ a :: done_ \/ tasks_in b queued (w_db w0) = ∅ -> saturated b w') as Hsat'.
  { intros b Hp0 Hb. destruct (decide (b = a)) as [->|Hne].
    - eapply saturated_here; [|done]. congruence.
    - eapply saturated_step; [done|]. apply Hsat; [done|].
      destruct Hb as [[?|?]%elem_of_cons|?]; [done|by left|by right]. }
  destruct (schedule_step a w) as [[He _]|(id & t & Hp1 & Hold & _ & He)]; rewrite He in Hs;
    injection Hs as <- <-; (split; [|done]); [by split_and!; auto|].
  pose proof (proj1 Hold) as (Ht & Ha & Hst)%lookup_tasks_in.
  split_and!; [| |done| |auto].
  - intros i x Hi Hx. simpl. rewrite lookup_insert_ne; [by apply Hk|].
    intros <-. specialize (Hk _ _ Hi Hx). congruence.
  - intros i x. simpl. rewrite elem_of_app, list_elem_of_singleton.
    destruct (decide (i = id)) as [->|Hne].
    + rewrite lookup_insert_eq. intros [= <-] _. right. simpl. by rewrite Ha.
    + rewrite lookup_insert_ne by done. left. by apply Hrs.
  - intros i x. simpl. destruct (decide (i = id)) as [->|Hne].
    + rewrite lookup_insert_eq. intros [= <-].
      destruct (Hold0 _ _ Ht) as (t0 & ? & ? & ?). exists t0. done.
    + rewrite lookup_insert_ne by done. apply Hold0.
Qed.

Lemma promote_agents_run l done_ w0 w n o w' :
  queue_pass done_ w0 w ->
  fold_each l (fun agentId n => promoted ← scheduleNextEvaluation agentId; mret (n + promoted)) n w
    = (o, w') ->
  is_ret o = true /\ queue_pass (rev l ++ done_) w0 w'.
Proof.
  revert done_ w n. induction l as [|a l IH]; intros done_ w n Hq; simpl; [by intros [= <- <-]|].
  unfold mbind, M_bind. destruct (scheduleNextEvaluation a w) as [oa wa] eqn:Ha.
  destruct (queue_pass_step _ _ _ _ _ _ Hq Ha) as [Hq' Hr]. destruct oa as [k|]; [|done].
  simpl. intros Hf. destruct (IH _ _ _ Hq' Hf) as [? Hend]. split; [done|].
  by rewrite <- app_assoc.
Qed.

(** *** The aborted tasks *)

Definition aborted_in (st : RunStatus) (t : EvaluationTask) : EvaluationTask :=
  if decide (task_status t = st) then failed_task EVALUATION_RESTART_REASON t else t.

Context (hook : option (EvaluationTaskRow -> M World unit)).
Context (hook_frame : forall h row w o w', hook = Some h -> h row w = (o, w') ->
  db_tasks (w_db w') = db_tasks (w_db w) /\
  w_evalPromotionsPaused w' = w_evalPromotionsPaused w).

Lemma failTask_run id w : exists w',
  failTask id EVALUATION_RESTART_REASON w = (Ret tt, w') /\
  db_tasks (w_db w') = alter (failed_task EVALUATION_RESTART_REASON) id (db_tasks (w_db w)) /\
  w_evalPromotionsPaused w' = w_evalPromotionsPaused w.
Proof.
  simpl. unfold edb_failTask, mbind, M_bind. rewrite update_tasks_cond.
  destruct (db_tasks (w_db w) !! id) as [t|] eqn:E; (eexists; split; [done|]; split; [|done]); simpl.
  - apply map_eq. intros j. destruct (decide (j = id)) as [->|].
    + by rewrite lookup_insert_eq, lookup_alter_eq, E.
    + by rewrite lookup_insert_ne, lookup_alter_ne.
  - apply map_eq. intros j. destruct (decide (j = id)) as [->|].
    + by rewrite lookup_alter_eq, E.
    + by rewrite lookup_alter_ne.
Qed.

Lemma abort_task_run row n w o w' :
  abort_task hook row n w = (o, w') ->
  o = Ret (S n) /\
  db_tasks (w_db w') = alter (failed_task EVALUATION_RESTART_REASON) (etask_id row) (db_tasks (w_db w)) /\
  w_evalPromotionsPaused w' = w_evalPromotionsPaused w.
Proof.
  intros Ha. unfold abort_task, mbind, M_bind in Ha.
  destruct (failTask_run (etask_id row) w) as (w1 & Hf & Ht & Hp). rewrite Hf in Ha.
  rewrite <- Ht, <- Hp. destruct hook as [h|] eqn:Hh; [|by injection Ha as <- <-].
  unfold guarded, try_catch in Ha. destruct (h row w1) as [oh w2] eqn:Hrow.
  destruct (hook_frame h row w1 oh w2 eq_refl Hrow) as [<- <-].
  by destruct oh; injection Ha as <- <-.
Qed.

Lemma abort_all_run rows n w o w' :
  fold_each rows (abort_task hook) n w = (o, w') ->
  is_ret o = true /\ w_evalPromotionsPaused w' = w_evalPromotionsPaused w /\
  forall id, db_tasks (w_db w') !! id =
    if decide (id ∈ etask_id <$> rows)
    then failed_task EVALUATION_RESTART_REASON <$> db_tasks (w_db w) !! id
    else db_tasks (w_db w) !! id.
Proof.
  revert n w. induction rows as [|row rows IH]; intros n w; simpl; [by intros [= <- <-]|].
  unfold mbind, M_bind. destruct (abort_task hook row n w) as [oa w1] eqn:Ha.
  apply abort_task_run in Ha as (-> & Ht & Hp). intros (? & Hp' & Hl)%IH.
  split; [done|]. split; [congruence|]. intros id. rewrite Hl, Ht.
  destruct (decide (id = etask_id row)) as [->|Hne].
  - rewrite lookup_alter_eq, (decide_True (P:=etask_id row ∈ _ :: _)) by (by left).
    destruct (decide _); [|done]. by destruct (db_tasks (w_db w) !! _).
  - rewrite lookup_alter_ne by done.
    destruct (decide (id ∈ _)) as [?|?]; [by rewrite decide_True by (by right)|].
    rewrite decide_False; [done|]. by intros [?|?]%elem_of_cons.
Qed.

Lemma abort_phase_run status st w rows w0 n o w' :
  parseRunStatus status = Some st ->
  edb_getTasksByStatus status w = (Ret rows, w0) ->
  fold_each rows (abort_task hook) n w0 = (o, w') ->
  is_ret o = true /\ w_evalPromotionsPaused w' = w_evalPromotionsPaused w /\
  db_tasks (w_db w') = aborted_in st <$> db_tasks (w_db w).
Proof.
  intros Hst. unfold edb_getTasksByStatus. rewrite Hst. unfold select, gets. intros [= <- <-].
  intros (Hr & Hp & Hl)%abort_all_run. do 2 (split; [done|]).
  apply map_eq. intros id. rewrite Hl, lookup_fmap. unfold aborted_in.
  assert (id ∈ etask_id <$> (task_row <$> filter (fun kv => task_status kv.2 = st)
      (map_to_list (db_tasks (w_db w)))) <->
    exists t, db_tasks (w_db w) !! id = Some t /\ task_status t = st) as Hin.
  { rewrite <- list_fmap_compose, list_elem_of_fmap. split.
    - intros ([k t] & -> & [? ?%elem_of_map_to_list]%list_elem_of_filter). eauto.
    - intros (t & ? & ?). exists (id, t). split; [done|].
      apply list_elem_of_filter. by rewrite elem_of_map_to_list. }
  destruct (db_tasks (w_db w) !! id) as [t|] eqn:Ht; simpl; [|by destruct (decide _)].
  destruct (decide (task_status t = st)) as [Heq|Hne].
  - rewrite decide_True; [done|]. apply Hin. eauto.
  - rewrite decide_False; [done|]. intros (t' & [= <-] & ?)%Hin. done.
Qed.

Lemma saturated_outside w agents w1 :
  edb_getAgentIdsWithQueuedTasks w = (Ret agents, w1) ->
  forall a, a ∈ agents \/ tasks_in a queued (w_db w) = ∅.
Proof.
  intros [= <- _] a.
  destruct (decide (tasks_in a queued (w_db w) = ∅)) as [|Hne]; [by right|left].
  apply map_choose in Hne as (id & t & (Ht & Ha & Hst)%lookup_tasks_in).
  apply elem_of_elements, elem_of_list_to_set, list_elem_of_omap. exists (id, t).
  split; [by apply elem_of_map_to_list|]. simpl. by rewrite decide_True, Ha.
Qed.

(** The table handed to the promotion loop *)
Definition recovered_tasks (w : World) : gmap string EvaluationTask :=
  aborted_in pending <$> (aborted_in running <$> db_tasks (w_db w)).

Lemma recovered_status w id t :
  recovered_tasks w !! id = Some t -> task_status t <> running /\ task_status t <> pending.
Proof.
  unfold recovered_tasks. rewrite !lookup_fmap. destruct (db_tasks (w_db w) !! id) as [x|]; [|done].
  simpl. intros [= <-]. unfold aborted_in. repeat (case_decide; simpl in *); split; congruence.
Qed.

Lemma recover_run w o w' :
  recoverEvaluationsOnStartup true hook w = (o, w') ->
  is_ret o = true /\ exists w1 agents, db_tasks (w_db w1) = recovered_tasks w /\
    w_evalPromotionsPaused w1 = w_evalPromotionsPaused w /\
    (forall a, a ∈ rev agents ++ [] \/ tasks_in a queued (w_db w1) = ∅) /\
    queue_pass (rev agents ++ []) w1 w'.
Proof.
  intros Hr. unfold recoverEvaluationsOnStartup in Hr. unfold mbind, M_bind, mret, M_ret in Hr.
  unfold getTasksByStatus, getAgentIdsWithQueuedTasks, evaluationQueueDb in Hr.
  destruct (edb_getTasksByStatus "running" w) as [o1 w1] eqn:H1. destruct o1; [|done].
  destruct (fold_each a (abort_task hook) 0 w1) as [o2 w2] eqn:H2.
  destruct (abort_phase_run "running" running _ _ _ _ _ _ eq_refl H1 H2) as (Hr2 & Hp2 & Ht2).
  destruct o2; [|done].
  destruct (edb_getTasksByStatus "pending" w2) as [o3 w3] eqn:H3. destruct o3; [|done].
  destruct (fold_each a1 (abort_task hook) 0 w3) as [o4 w4] eqn:H4.
  destruct (abort_phase_run "pending" pending _ _ _ _ _ _ eq_refl H3 H4) as (Hr4 & Hp4 & Ht4).
  destruct o4; [|done]. cbv beta iota in Hr.
  destruct (edb_getAgentIdsWithQueuedTasks w4) as [o5 w5] eqn:H5.
  destruct o5 as [agents|]; [|done]. pose proof (saturated_outside _ _ _ H5) as Hout.
  assert (w5 = w4) as -> by (by injection H5 as _ <-).
  destruct (fold_each agents _ 0 w4) as [o6 w6] eqn:H6.
  apply (promote_agents_run _ [] w4) in H6 as [Hr6 Hq].
  - destruct o6; [|done]. injection Hr as <- <-. split; [done|]. exists w4, agents.
    split; [unfold recovered_tasks; by rewrite Ht4, Ht2|]. split; [congruence|].
    split; [|done]. intros b. rewrite app_nil_r, <- Permutation_rev. apply Hout.
  - assert (forall id t, db_tasks (w_db w4) !! id = Some t -> task_status t <> running) as Hnr.
    { intros id t. rewrite Ht4, Ht2. apply recovered_status. }
    split; [by intros ???|]. split; [by intros id t Hl ?%(Hnr _ _ Hl)|]. split; [done|].
    split; [eauto|]. intros _ b [Hb%elem_of_nil|Hb]; [done|by left].
Qed.
End Recovery.

(** ** Properties *)

(** One evaluation per agent: a scheduling pass starts the agent's oldest
    queued task exactly when promotions are not paused, none of its tasks runs
    and one is queued; it then is the only running one, and otherwise nothing
    changes. *)
Theorem evaluation_one_at_a_time `{Instance} a w :
  (scheduleNextEvaluation a w = (Ret 0, w) /\
   (w_evalPromotionsPaused w = true \/ 1 <= size (tasks_in a running (w_db w)) \/
    tasks_in a queued (w_db w) = ∅)) \/
  exists id t w', scheduleNextEvaluation a w = (Ret 1, w') /\
    w_evalPromotionsPaused w = false /\ oldest_task a id t (w_db w) /\
    tasks_in a running (w_db w) = ∅ /\
    w_started w' = w_started w ++ [(id, a)] /\
    db_tasks (w_db w') = <[id := with_task_status running t]> (db_tasks (w_db w)) /\
    tasks_in a running (w_db w') = {[id := with_task_status running t]}.
Proof.
  destruct (schedule_step a w) as [?|(id & t & Hp & Hold & Hz & He)]; [by left|].
  right. eexists id, t, _. do 3 (split; [done|]). split; [by apply map_size_empty_inv|].
  do 2 (split; [done|]). by apply (claimed_task_running a id t w).
Qed.

(** Admission of an evaluation, on every branch: a pending task is acquired
    exactly when none of the agent's tasks runs, and is then the agent's only
    running one. *)
Theorem evaluation_admission `{Instance} a id t w o w' :
  db_tasks (w_db w) !! id = Some t -> task_agentId t = a -> task_status t = pending ->
  tryAcquireEvaluationSlot a id w = (o, w') ->
  match o with
  | Ret eval_acquired => tasks_in a running (w_db w) = ∅ /\
      tasks_in a running (w_db w') = {[id := with_task_status running t]}
  | Ret eval_queued => tasks_in a running (w_db w) <> ∅ /\
      size (tasks_in a queued (w_db w)) < EVALUATION_MAX_QUEUE_LENGTH /\
      db_tasks (w_db w') = <[id := with_task_status queued t]> (db_tasks (w_db w))
  | Ret eval_queue_full => w' = w /\ (w_evalPromotionsPaused w = true \/
      tasks_in a running (w_db w) <> ∅ /\
      EVALUATION_MAX_QUEUE_LENGTH <= size (tasks_in a queued (w_db w)))
  | Throw _ => False
  end.
Proof.
  intros Ht Ha Hst. rewrite tryAcquireEvaluationSlot_run.
  destruct (w_evalPromotionsPaused w) eqn:Hp; [intros [= <- <-]; auto|].
  destruct (size (tasks_in a running (w_db w)) <? EVALUATION_MAX_CONCURRENCY)%nat eqn:Hrun;
    unfold EVALUATION_MAX_CONCURRENCY in Hrun; bool_to_prop.
  - rewrite update_tasks_cond, Ht. rewrite bool_decide_eq_true_2 by done.
    intros [= <- <-]. assert (tasks_in a running (w_db w) = ∅) as Hemp
      by (apply map_size_empty_inv; lia).
    split; [done|]. unfold tasks_in in *. simpl. rewrite map_filter_insert_True by done.
    by rewrite Hemp, insert_empty.
  - assert (tasks_in a running (w_db w) <> ∅) as Hne
      by (intros He; rewrite He, map_size_empty in Hrun; lia).
    destruct (EVALUATION_MAX_QUEUE_LENGTH <=? _)%nat eqn:Hq; bool_to_prop;
      [intros [= <- <-]; auto|].
    rewrite update_tasks_cond, Ht. intros [= <- <-]. done.
Qed.

(** A task cancelled while its submission waits for the slot lock comes
    back: the conditional acquisition fails, and the unconditional write of the
    queued branch overwrites the cancellation. *)
Theorem cancelled_submission_requeued `{Instance} a id t w :
  db_tasks (w_db w) !! id = Some t -> task_agentId t = a -> task_status t = cancelled ->
  w_evalPromotionsPaused w = false ->
  size (tasks_in a queued (w_db w)) < EVALUATION_MAX_QUEUE_LENGTH ->
  exists w', tryAcquireEvaluationSlot a id w = (Ret eval_queued, w') /\
    db_tasks (w_db w') !! id = Some (with_task_status queued t).
Proof.
  intros Ht Ha Hst Hp Hq. rewrite tryAcquireEvaluationSlot_run, Hp.
  rewrite update_tasks_cond, Ht, bool_decide_eq_false_2 by (by rewrite Hst).
  assert (forall b : bool, (if b then (Ret false, w) else (Ret false, w)) = (Ret false, w))
    as -> by (by intros []).
  destruct (EVALUATION_MAX_QUEUE_LENGTH <=? _)%nat eqn:Hq'; bool_to_prop; [lia|].
  rewrite update_tasks_cond, Ht. eexists. split; [done|]. simpl.
  by rewrite lookup_insert_eq.
Qed.

(** Recovery of evaluations after a restart: it never throws; every task a
    dead process left running or pending is failed with the restart reason; no
    task stays pending, every task running afterwards was started by the
    recovery; and, unless promotions are paused, no agent with a queued task is
    left idle. *)
Theorem evaluation_recovery `{Instance} (hook : option (EvaluationTaskRow -> M World unit)) w o w' :
  (forall h row w o w', hook = Some h -> h row w = (o, w') ->
     db_tasks (w_db w') = db_tasks (w_db w) /\
     w_evalPromotionsPaused w' = w_evalPromotionsPaused w) ->
  recoverEvaluationsOnStartup true hook w = (o, w') ->
  is_ret o = true /\
  (forall id t, db_tasks (w_db w) !! id = Some t ->
     task_status t = running \/ task_status t = pending ->
     db_tasks (w_db w') !! id = Some (failed_task EVALUATION_RESTART_REASON t)) /\
  (forall id t, db_tasks (w_db w') !! id = Some t -> task_status t <> pending /\
     (task_status t = running -> (id, task_agentId t) ∈ w_started w')) /\
  (w_evalPromotionsPaused w = false -> forall a, saturated a w').
Proof.
  intros Hhook Hr.
  destruct (recover_run hook Hhook w o w' Hr)
    as (Hret & w1 & agents & Ht & Hp & Hout & (Hk & Hrs & _ & Hold & Hsat)).
  split; [done|]. split; [|split].
  - intros id t Hid Hst. apply Hk; [|done]. rewrite Ht. unfold recovered_tasks.
    rewrite !lookup_fmap, Hid. simpl. f_equal. unfold aborted_in.
    destruct Hst as [Hst|Hst]; rewrite Hst; simpl; by rewrite ?Hst.
  - intros id t Hid. split; [|by apply Hrs]. intros Hpend.
    destruct (Hold _ _ Hid) as (t0 & Ht0 & _ & Hst). rewrite Ht in Ht0.
    apply recovered_status in Ht0 as [_ Hn]. by apply Hn, Hst.
  - intros Hp0 a. apply Hsat; [congruence|]. apply Hout.
Qed.

(** ** Witnesses *)

Definition demo_task (st : RunStatus) (created : Z) : EvaluationTask :=
  mkTask "a1" st None created created None.

Definition eval_demo (st : RunStatus) : World :=
  set_db (set_tasks (fun _ => {["t1" := demo_task st 1; "t2" := demo_task queued 2]})) empty_world.

Lemma evaluation_admission_witness :
  tasks_in "a1" running (w_db (@tryAcquireEvaluationSlot (@evaluationQueueDb ex_instance)
    "a1" "t1" (eval_demo pending)).2) =
    {["t1" := @with_task_status ex_instance running (demo_task pending 1)]}.
Proof.
  refine (proj2 (@evaluation_admission ex_instance "a1" "t1" (demo_task pending 1)
    (eval_demo pending) (Ret eval_acquired) _ _ _ _ _)); vm_compute; reflexivity.
Defined.

Lemma cancelled_submission_requeued_witness :
  exists w', @tryAcquireEvaluationSlot (@evaluationQueueDb ex_instance) "a1" "t1"
      (eval_demo cancelled) = (Ret eval_queued, w') /\
    db_tasks (w_db w') !! "t1" =
      Some (@with_task_status ex_instance queued (demo_task cancelled 1)).
Proof.
  apply (@cancelled_submission_requeued ex_instance); [done..|]. apply Nat.ltb_lt. by vm_compute.
Defined.

Lemma evaluation_recovery_witness :
  let w' := (@recoverEvaluationsOnStartup (@evaluationQueueDb ex_instance) true None
               (eval_demo running)).2 in
  db_tasks (w_db w') !! "t1" =
    Some (@failed_task ex_instance EVALUATION_RESTART_REASON (demo_task running 1)) /\
  saturated "a1" w' /\ w_started w' = [("t2", "a1")].
Proof.
  intros w'. destruct (@recoverEvaluationsOnStartup (@evaluationQueueDb ex_instance) true None
    (eval_demo running)) as [o w1] eqn:Hr.
  destruct (@evaluation_recovery ex_instance None (eval_demo running) o w1
    (fun h row w o w' H => match H in _ = x return match x with Some _ => _ | None => True end
                           with eq_refl => I end) Hr) as (_ & Hf & _ & Hs).
  split; [apply (Hf "t1" (demo_task running 1)); [done|by left]|].
  split; [by apply Hs|]. change (w_started (o, w1).2 = [("t2", "a1")]). rewrite <- Hr.
  by vm_compute.
Defined.
