(* ===== verification/LeaseSweeper.v ===== *)
(** * Sweeping the SCM leases nobody will release

    [apps/api/src/lib/scm-lease-sweeper.ts]: the pass that fails the workloads
    of dead instances, and the pass that deletes leases whose workload is over,
    leaving a removal reservation for the worktree each of them protected. *)
From S2P Require Import Prelude Json Schema LeaseRegistry World ScmWorkload Resume TaskQueue TaskQueueDb RunClaims Liveness WorkspaceRemoval EvaluationQueue.

Record ReleasedScmWorkload := mkReleased {
  rel_type : WorkloadType;
  rel_workloadId : string;
  rel_agentId : string
}.

Definition TERMINAL_STATUSES : list RunStatus := [completed; failed; cancelled].

Section Sweep.
Context `{Instance}.
(** [canJudgePeerLiveness()], the evaluations registered in this process, and
    the token [randomUUID] gives each reservation *)
Context (canJudgePeers : bool) (isScmEvaluationWorkloadRegistered : string -> bool)
        (reservationToken : string -> string).

Definition isWorkloadLocallyActive (identity : WorkloadType * string) : M World bool :=
  match identity.1 with
  | wl_run => gets (fun w => bool_decide (identity.2 ∈ (listActiveExecutionLeases (w_reg w)).*1))
  | wl_evaluation => mret (isScmEvaluationWorkloadRegistered identity.2)
  end.

(** [insert ... onConflictDoNothing] of an unowned reservation *)
Definition reserveEphemeralWorktreeRemoval (scmSourceId workspaceName : string) : M World bool :=
  write_returning (fun d =>
    let id := workspaceRemovalId scmSourceId workspaceName in
    match db_removals d !! id with
    | Some _ => (false, d)
    | None => (true, set_removals (insert id
        (mkRemoval scmSourceId workspaceName None (reservationToken id) clock)) d)
    end).

Definition isWorkloadTerminal (identity : WorkloadType * string) : M World bool :=
  status ← select (fun d => match identity.1 with
    | wl_run => run_status <$> db_runs d !! identity.2
    | wl_evaluation => task_status <$> db_tasks d !! identity.2
    end);
  match status with
  | None => mret true
  | Some s => mret (bool_decide (s ∈ TERMINAL_STATUSES))
  end.

Definition ephemeralWorktreeName (identity : WorkloadType * string) : M World (option string) :=
  match identity.1 with
  | wl_evaluation => mret (Some ("eval-" +:+ identity.2))
  | wl_run =>
      config ← select (fun d => db_runs d !! identity.2 ≫= run_worktreeConfig);
      mret (match config with
            | Some c => if decide (wt_cleanup c = cleanup_ephemeral) then Some (wt_name c) else None
            | None => None
            end)
  end.

Definition isLeaseOwnerDead (lease : ScmLease) (liveness : InstanceLivenessMap) (now : Z) : bool :=
  match lease_ownerInstanceId lease with
  | None | Some "" => true
  | Some owner => isInstanceOwnerDead liveness owner (lease_updatedAt lease) now
  end.

(** One iteration over the leases *)
Definition sweep_lease (liveness : InstanceLivenessMap) (now : Z)
    (row : WorkloadType * string * ScmLease) (released : list ReleasedScmWorkload)
    : M World (list ReleasedScmWorkload) :=
  let '(identity, lease) := row in
  let foreign := bool_decide (lease_ownerInstanceId lease <> Some processInstanceId) in
  if bool_decide (lease_phase lease = active) && foreign &&
     (negb canJudgePeers || negb (isLeaseOwnerDead lease liveness now))
  then mret released
  else
    here ← isWorkloadLocallyActive identity;
    if (here : bool) then mret released
    else
      over ← isWorkloadTerminal identity;
      if negb over then mret released
      else
        _ ← (if foreign then
               workspaceName ← ephemeralWorktreeName identity;
               match workspaceName with
               | None | Some "" => mret tt
               | Some name => _ ← reserveEphemeralWorktreeRemoval (lease_scmSourceId lease) name; mret tt
               end
             else mret tt);
        _ ← db_write (set_leases (delete identity));
        mret (released ++ [mkReleased identity.1 identity.2 (lease_agentId lease)]).

Definition sweepOrphanedScmWorkloadLeases : M World (list ReleasedScmWorkload) :=
  withScmPathMutation (
    liveness ← (if canJudgePeers then loadInstanceLiveness else mret ∅);
    leases ← select (fun d => map_to_list (db_leases d));
    fold_each leases (sweep_lease liveness clock) []).

(** ** Workloads of dead instances *)

Definition INSTANCE_STOPPED_EVALUATION_REASON : string :=
  "Interrupted: the owning server instance stopped".
Definition REAPABLE_RUN_STATUSES : list RunStatus := [running; pending; queued].
Definition REAPABLE_EVALUATION_STATUSES : list RunStatus := [running; pending; queued].

Definition claimRunForReap (runId expectedOwnerInstanceId : string) : M World bool :=
  claimReapableRun runId expectedOwnerInstanceId (mkScope REAPABLE_RUN_STATUSES true).

Definition claimEvaluationForReap (taskId : string) : M World bool :=
  withScmPathMutation (
    claimed ← update_tasks taskId
      (fun t => bool_decide (task_status t ∈ REAPABLE_EVALUATION_STATUSES))
      (failed_task INSTANCE_STOPPED_EVALUATION_REASON);
    if negb claimed then mret false
    else
      _ ← db_write (set_results (fmap (failed_result taskId INSTANCE_STOPPED_EVALUATION_REASON)));
      mret true).

Context (afterRunSettled : string -> M World unit).

Definition reap_lease (liveness : InstanceLivenessMap) (now : Z)
    (row : WorkloadType * string * ScmLease) (reaped : list ReleasedScmWorkload)
    : M World (list ReleasedScmWorkload) :=
  let '(identity, lease) := row in
  match lease_ownerInstanceId lease with
  | None | Some "" => mret reaped
  | Some ownerInstanceId =>
      here ← isWorkloadLocallyActive identity;
      if (here : bool) then mret reaped
      else if negb (isLeaseOwnerDead lease liveness now) then mret reaped
      else
        over ← isWorkloadTerminal identity;
        if (over : bool) then mret reaped
        else
          fresh ← loadInstanceLiveness;
          if negb (isLeaseOwnerDead lease fresh clock) then mret reaped
          else
            claimed ← (match identity.1 with
                       | wl_run =>
                           won ← claimRunForReap identity.2 ownerInstanceId;
                           if (won : bool)
                           then _ ← afterRunSettled identity.2; mret true
                           else mret false
                       | wl_evaluation => claimEvaluationForReap identity.2
                       end);
            mret (if (claimed : bool)
                  then reaped ++ [mkReleased identity.1 identity.2 (lease_agentId lease)]
                  else reaped)
  end.

Definition failScmWorkloadsOfDeadInstances : M World (list ReleasedScmWorkload) :=
  if negb canJudgePeers then mret []
  else
    leases ← select (fun d => map_to_list (db_leases d));
    let activePeerLeases := List.filter (fun kv =>
      bool_decide (lease_phase kv.2 = active) &&
      match lease_ownerInstanceId kv.2 with None | Some "" => false | Some _ => true end) leases in
    match activePeerLeases with
    | [] => mret []
    | _ =>
        liveness ← loadInstanceLiveness;
        fold_each activePeerLeases (reap_lease liveness clock) []
    end.
End Sweep.

(** ** The sweep, lease by lease *)

Section SweepLemmas.
Context `{Instance}.
Context (judge : bool) (registered : string -> bool) (token : string -> string).

Definition activeHere (k : WorkloadType * string) (w : World) : bool :=
  match k.1 with
  | wl_run => bool_decide (k.2 ∈ (listActiveExecutionLeases (w_reg w)).*1)
  | wl_evaluation => registered k.2
  end.

(** The workload's row is gone or settled. *)
Definition over (k : WorkloadType * string) (d : Db) : bool :=
  match (match k.1 with
         | wl_run => run_status <$> db_runs d !! k.2
         | wl_evaluation => task_status <$> db_tasks d !! k.2
         end) with
  | None => true
  | Some s => terminal s
  end.

Definition foreign (l : ScmLease) : bool :=
  bool_decide (lease_ownerInstanceId l <> Some processInstanceId).

(** A lease nobody will release *)
Definition sweepable (liveness : InstanceLivenessMap) (w : World)
    (k : WorkloadType * string) (l : ScmLease) : bool :=
  negb (bool_decide (lease_phase l = active) && foreign l &&
        (negb judge || negb (isLeaseOwnerDead l liveness clock))) &&
  negb (activeHere k w) && over k (w_db w).

(** The worktree the workload leaves behind *)
Definition leftWorktree (k : WorkloadType * string) (d : Db) : option string :=
  match k.1 with
  | wl_evaluation => Some ("eval-" +:+ k.2)
  | wl_run =>
      match db_runs d !! k.2 ≫= run_worktreeConfig with
      | Some c => if decide (wt_cleanup c = cleanup_ephemeral /\ wt_name c <> "")
                  then Some (wt_name c) else None
      | None => None
      end
  end.

Lemma isWorkloadTerminal_run k w : isWorkloadTerminal k w = (Ret (over k (w_db w)), w).
Proof.
  unfold isWorkloadTerminal, over, mbind at 1, M_bind at 1, select, gets.
  destruct (match k.1 with wl_run => _ | wl_evaluation => _ end) as [s|]; [|done].
  by destruct s.
Qed.

Lemma isWorkloadLocallyActive_run k w :
  isWorkloadLocallyActive registered k w = (Ret (activeHere k w), w).
Proof. unfold isWorkloadLocallyActive, activeHere. by destruct k.1. Qed.

(** What a reservation write keeps, and what it ensures *)
Record marks (w w' : World) : Prop := {
  mk_runs : db_runs (w_db w') = db_runs (w_db w);
  mk_tasks : db_tasks (w_db w') = db_tasks (w_db w);
  mk_heartbeats : db_heartbeats (w_db w') = db_heartbeats (w_db w);
  mk_reg : w_reg w' = w_reg w;
  mk_removals : forall id row, db_removals (w_db w) !! id = Some row ->
                  db_removals (w_db w') !! id = Some row
}.

Lemma marks_refl w : marks w w.
Proof. by split. Qed.
Lemma marks_trans w1 w2 w3 : marks w1 w2 -> marks w2 w3 -> marks w1 w3.
Proof. intros [? ? ? ? ?] [? ? ? ? ?]. split; [congruence..|auto]. Qed.

Lemma reserve_mark src name w : exists b w',
  reserveEphemeralWorktreeRemoval token src name w = (Ret b, w') /\ marks w w' /\
  db_leases (w_db w') = db_leases (w_db w) /\
  is_Some (db_removals (w_db w') !! workspaceRemovalId src name).
Proof.
  unfold reserveEphemeralWorktreeRemoval, write_returning.
  destruct (db_removals (w_db w) !! workspaceRemovalId src name) eqn:Hr.
  - eexists _, _. split; [done|]. split; [by split|]. split; [done|]. simpl. by rewrite Hr.
  - eexists _, _. split; [done|]. split; [|split; [done|simpl; by rewrite lookup_insert_eq]].
    split; try done. simpl. intros id row Hid. rewrite lookup_insert_ne; [done|]. congruence.
Qed.

Lemma sweep_lease_run liveness k l released w :
  exists w', sweep_lease judge registered token liveness clock (k, l) released w =
    (Ret (if sweepable liveness w k l
          then released ++ [mkReleased k.1 k.2 (lease_agentId l)] else released), w') /\
  if sweepable liveness w k l
  then marks w w' /\ db_leases (w_db w') = delete k (db_leases (w_db w)) /\
       (foreign l = true -> forall name, leftWorktree k (w_db w) = Some name ->
          is_Some (db_removals (w_db w') !! workspaceRemovalId (lease_scmSourceId l) name))
  else w' = w.
Proof.
  unfold sweep_lease, sweepable. change (bool_decide (lease_ownerInstanceId l <> _)) with (foreign l).
  destruct (bool_decide (lease_phase l = active) && foreign l && _); [by eexists|].
  rewrite (bind_run _ _ _ _ _ (isWorkloadLocallyActive_run k w)).
  destruct (activeHere k w); [by eexists|].
  rewrite (bind_run _ _ _ _ _ (isWorkloadTerminal_run k w)).
  destruct (over k (w_db w)); [|by eexists]. simpl.
  assert (exists w1, (if foreign l then
      workspaceName ← ephemeralWorktreeName k;
      match workspaceName with
      | None | Some "" => mret tt
      | Some name => _ ← reserveEphemeralWorktreeRemoval token (lease_scmSourceId l) name; mret tt
      end else mret tt) w = (Ret tt, w1) /\ marks w w1 /\
    db_leases (w_db w1) = db_leases (w_db w) /\
    (foreign l = true -> forall name, leftWorktree k (w_db w) = Some name ->
       is_Some (db_removals (w_db w1) !! workspaceRemovalId (lease_scmSourceId l) name)))
    as (w1 & Hm & Hmk & Hls & Hres).
  { destruct (foreign l); [|exists w; split; [done|split; [apply marks_refl|by split]]].
    assert (ephemeralWorktreeName k w = (Ret (match k.1 with
      | wl_evaluation => Some ("eval-" +:+ k.2)
      | wl_run => match db_runs (w_db w) !! k.2 ≫= run_worktreeConfig with
          | Some c => if decide (wt_cleanup c = cleanup_ephemeral) then Some (wt_name c) else None
          | None => None end end), w)) as He by (unfold ephemeralWorktreeName; by destruct k.1).
    rewrite (bind_run _ _ _ _ _ He). unfold leftWorktree.
    destruct (match k.1 with wl_run => _ | wl_evaluation => _ end) as [nm|] eqn:Hn.
    - destruct nm as [|ch nm].
      + exists w. split; [done|]. split; [apply marks_refl|]. split; [done|]. intros _ name Hl.
        destruct k.1; [|done]. destruct (_ ≫= run_worktreeConfig) as [c|]; [|done].
        destruct (decide (wt_cleanup c = cleanup_ephemeral)); [|done]. injection Hn as Hn.
        rewrite decide_False in Hl by naive_solver. done.
      + destruct (reserve_mark (lease_scmSourceId l) (String ch nm) w) as (b & w1 & Hr & Hmk & Hls & Hs).
        exists w1. rewrite (bind_run _ _ _ _ _ Hr). split; [done|]. split; [done|]. split; [done|].
        intros _ name Hl. destruct k.1.
        * destruct (_ ≫= run_worktreeConfig) as [c|]; [|done].
          destruct (decide (wt_cleanup c = cleanup_ephemeral)); [|done]. injection Hn as Hn.
          destruct (decide (_ /\ _)); [|done]. injection Hl as <-. by rewrite Hn.
        * rewrite Hn in Hl. by injection Hl as <-.
    - exists w. split; [done|]. split; [apply marks_refl|]. split; [done|]. intros _ name Hl.
      destruct k.1; [|done]. destruct (_ ≫= run_worktreeConfig) as [c|]; [|done].
      destruct (decide (wt_cleanup c = cleanup_ephemeral)) as [|Hc]; [done|]. rewrite decide_False in Hl by naive_solver. done. }
  rewrite (bind_run _ _ _ _ _ Hm). eexists. split; [done|]. simpl.
  split; [|split; [by rewrite Hls|done]]. destruct Hmk as [? ? ? ? ?]. by split.
Qed.

Lemma sweepable_marks liveness w w' k l :
  marks w w' -> sweepable liveness w' k l = sweepable liveness w k l.
Proof.
  intros [Hr Ht _ Hg _]. unfold sweepable, activeHere, over. by rewrite Hr, Ht, Hg.
Qed.

Lemma leftWorktree_marks w w' k : marks w w' -> leftWorktree k (w_db w') = leftWorktree k (w_db w).
Proof. intros [Hr _ _ _ _]. unfold leftWorktree. by rewrite Hr. Qed.

(** The whole pass *)
Lemma sweep_fold liveness ls : forall released w,
  NoDup ls.*1 -> exists out w',
  fold_each ls (sweep_lease judge registered token liveness clock) released w = (Ret out, w') /\
  marks w w' /\
  (forall k l, (k, l) ∈ ls -> db_leases (w_db w') !! k =
     if sweepable liveness w k l then None else db_leases (w_db w) !! k) /\
  (forall k, k ∉ ls.*1 -> db_leases (w_db w') !! k = db_leases (w_db w) !! k) /\
  (forall k l name, (k, l) ∈ ls -> sweepable liveness w k l = true -> foreign l = true ->
     leftWorktree k (w_db w) = Some name ->
     is_Some (db_removals (w_db w') !! workspaceRemovalId (lease_scmSourceId l) name)) /\
  out = released ++ omap (fun '(k, l) => if sweepable liveness w k l
     then Some (mkReleased k.1 k.2 (lease_agentId l)) else None) ls.
Proof.
  induction ls as [|[k l] ls IH]; intros released w Hnd; simpl.
  - exists released, w. rewrite app_nil_r. split; [done|]. split; [apply marks_refl|].
    split; [by intros ?? ?%not_elem_of_nil|]. split; [done|].
    by split; [intros ??? ?%not_elem_of_nil|].
  - apply NoDup_cons in Hnd as [Hk Hnd]. simpl in Hk.
    destruct (sweep_lease_run liveness k l released w) as (w1 & Hrun & Hone).
    rewrite (bind_run _ _ _ _ _ Hrun).
    assert (marks w w1) as Hm1.
    { destruct (sweepable liveness w k l); [apply Hone|subst; apply marks_refl]. }
    destruct (IH (if sweepable liveness w k l then released ++ [mkReleased k.1 k.2 (lease_agentId l)]
      else released) w1 Hnd) as (out & w' & Hout & Hm & Hin & Hnin & Hres & ->).
    eexists _, w'. split; [exact Hout|]. split; [by eapply marks_trans|].
    assert (forall k2, k2 <> k -> db_leases (w_db w1) !! k2 = db_leases (w_db w) !! k2) as Hother.
    { intros k2 Hne. destruct (sweepable liveness w k l); [|by subst].
      destruct Hone as (_ & -> & _). by rewrite lookup_delete_ne. }
    split; [|split; [|split]].
    + intros k2 l2 [[= -> ->]|Hin2]%elem_of_cons.
      * rewrite (Hnin _ Hk). destruct (sweepable liveness w k l); [|by subst].
        destruct Hone as (_ & -> & _). by rewrite lookup_delete_eq.
      * rewrite (Hin _ _ Hin2), (sweepable_marks _ _ _ _ _ Hm1).
        destruct (sweepable liveness w k2 l2); [done|]. apply Hother. intros ->.
        apply Hk. apply list_elem_of_fmap. by exists (k, l2).
    + intros k2 [Hne Hn2]%not_elem_of_cons. rewrite (Hnin _ Hn2). by apply Hother.
    + intros k2 l2 name [[= -> ->]|Hin2]%elem_of_cons Hsw Hf Hl.
      * rewrite Hsw in Hone. destruct Hone as (_ & _ & Hr). destruct (Hr Hf _ Hl) as [row Hrow].
        rewrite (mk_removals _ _ Hm _ _ Hrow). by eexists.
      * apply (Hres k2 l2); [done| |done|].
        -- by rewrite (sweepable_marks _ _ _ _ _ Hm1).
        -- by rewrite (leftWorktree_marks _ _ _ Hm1).
    + assert (forall ls0 : list (WorkloadType * string * ScmLease),
        omap (fun '(k, l) => if sweepable liveness w1 k l
          then Some (mkReleased k.1 k.2 (lease_agentId l)) else None) ls0 =
        omap (fun '(k, l) => if sweepable liveness w k l
          then Some (mkReleased k.1 k.2 (lease_agentId l)) else None) ls0) as ->.
      { intros ls0. apply list_omap_ext. induction ls0 as [|[k3 l3] ls0 IH0]; constructor; [|done].
        by rewrite (sweepable_marks _ _ _ _ _ Hm1). }
      destruct (sweepable liveness w k l); [|done]. by rewrite <- app_assoc.
Qed.
End SweepLemmas.

(** ** What reaping may do *)

Section ReapLemmas.
Context `{Instance}.
Context (registered : string -> bool) (sync : string -> M World unit).
Hypothesis sync_frames : forall id w o w', sync id w = (o, w') ->
  db_runs (w_db w') = db_runs (w_db w) /\ db_tasks (w_db w') = db_tasks (w_db w) /\
  db_leases (w_db w') = db_leases (w_db w) /\
  db_heartbeats (w_db w') = db_heartbeats (w_db w) /\ w_reg w' = w_reg w.

(** The workload is leased by an instance that is provably dead, and does not
    execute here. *)
Definition lease_abandoned (k : WorkloadType * string) (w : World) : Prop :=
  exists l owner, db_leases (w_db w) !! k = Some l /\ lease_phase l = active /\
    lease_ownerInstanceId l = Some owner /\
    isInstanceOwnerDead (db_heartbeats (w_db w)) owner (lease_updatedAt l) clock = true /\
    activeHere registered k w = false.

Record reap_effect (w0 w : World) : Prop := {
  re_heartbeats : db_heartbeats (w_db w) = db_heartbeats (w_db w0);
  re_leases : db_leases (w_db w) = db_leases (w_db w0);
  re_reg : w_reg w = w_reg w0;
  re_runs : forall id, db_runs (w_db w) !! id = db_runs (w_db w0) !! id \/
    lease_abandoned (wl_run, id) w0 /\ exists r, db_runs (w_db w0) !! id = Some r /\
      terminal (run_status r) = false /\ db_runs (w_db w) !! id = Some (reaped_row r);
  re_tasks : forall id, db_tasks (w_db w) !! id = db_tasks (w_db w0) !! id \/
    lease_abandoned (wl_evaluation, id) w0 /\ exists t, db_tasks (w_db w0) !! id = Some t /\
      terminal (task_status t) = false /\
      db_tasks (w_db w) !! id = Some (failed_task INSTANCE_STOPPED_EVALUATION_REASON t)
}.

Lemma reap_refl w : reap_effect w w.
Proof. split; auto. Qed.

Lemma reap_frame w0 w w' :
  reap_effect w0 w -> db_runs (w_db w') = db_runs (w_db w) -> db_tasks (w_db w') = db_tasks (w_db w) ->
  db_leases (w_db w') = db_leases (w_db w) -> db_heartbeats (w_db w') = db_heartbeats (w_db w) ->
  w_reg w' = w_reg w -> reap_effect w0 w'.
Proof. intros [? ? ? Hr Ht] E1 E2 ? ? ?. split; [congruence..| |]; [by rewrite E1|by rewrite E2]. Qed.

Lemma reapable_live statuses st :
  statuses = REAPABLE_RUN_STATUSES -> st ∈ statuses -> terminal st = false.
Proof.
  intros ->. unfold REAPABLE_RUN_STATUSES. rewrite !elem_of_cons.
  intros [->|[->|[->|Hin]]]; [done..|]. by apply not_elem_of_nil in Hin.
Qed.

Lemma reap_run w0 w id owner b w' :
  reap_effect w0 w -> lease_abandoned (wl_run, id) w0 ->
  claimRunForReap id owner w = (Ret b, w') -> reap_effect w0 w'.
Proof.
  intros Hp Hab. unfold claimRunForReap. rewrite claimReapableRun_run.
  destruct (db_runs (w_db w) !! id) as [r|] eqn:Hr; [|by intros [= <- <-]].
  destruct (reapable _ _ r) eqn:Hre; [|by intros [= <- <-]]. intros [= <- <-].
  unfold reapable in Hre. simpl in Hre. bool_to_prop.
  assert (terminal (run_status r) = false) as Hlive by by eapply reapable_live.
  destruct Hp as [? ? ? Hruns Htasks]. split; [done..| |exact Htasks].
  simpl. intros x. destruct (decide (x = id)) as [->|Hne]; [|rewrite lookup_insert_ne by done; apply Hruns].
  right. split; [done|]. rewrite lookup_insert_eq.
  destruct (Hruns id) as [E|(_ & r0 & _ & _ & E)].
  - exists r. by rewrite <- E.
  - rewrite Hr in E. by injection E as ->.
Qed.

Lemma reap_evaluation w0 w id o w' :
  reap_effect w0 w -> lease_abandoned (wl_evaluation, id) w0 ->
  claimEvaluationForReap id w = (o, w') -> reap_effect w0 w' /\ is_ret o = true.
Proof.
  intros Hp Hab. unfold claimEvaluationForReap, withScmPathMutation, withTransaction, mbind, M_bind.
  rewrite update_tasks_cond. destruct (db_tasks (w_db w) !! id) as [t|] eqn:Ht; [|by intros [= <- <-]].
  destruct (bool_decide_reflect (task_status t ∈ REAPABLE_EVALUATION_STATUSES)) as [Hin|];
    [|by intros [= <- <-]]. intros [= <- <-]. split; [|done].
  assert (terminal (task_status t) = false) as Hlive by by eapply (reapable_live _ _ eq_refl).
  destruct Hp as [? ? ? Hruns Htasks]. split; [done..|exact Hruns|].
  simpl. intros x. destruct (decide (x = id)) as [->|Hne]; [|rewrite lookup_insert_ne by done; apply Htasks].
  right. split; [done|]. rewrite lookup_insert_eq.
  destruct (Htasks id) as [E|(_ & t0 & _ & _ & E)].
  - exists t. by rewrite <- E.
  - rewrite Ht in E. by injection E as ->.
Qed.

Lemma reap_lease_effect w0 k l reaped w o w' :
  db_leases (w_db w0) !! k = Some l -> lease_phase l = active ->
  reap_effect w0 w ->
  reap_lease registered sync (db_heartbeats (w_db w0)) clock (k, l) reaped w = (o, w') ->
  reap_effect w0 w'.
Proof.
  intros Hl Hph Hp. unfold reap_lease.
  destruct (lease_ownerInstanceId l) as [[|ch ow]|] eqn:Ho; [by intros [= <- <-]| |by intros [= <- <-]].
  rewrite (bind_run _ _ _ _ _ (isWorkloadLocallyActive_run registered k w)).
  destruct (activeHere registered k w) eqn:Hact; [by intros [= <- <-]|].
  destruct (isLeaseOwnerDead l _ _) eqn:Hd; [|by intros [= <- <-]]. simpl.
  rewrite (bind_run _ _ _ _ _ (isWorkloadTerminal_run k w)).
  destruct (over k (w_db w)); [by intros [= <- <-]|].
  unfold mbind at 1, M_bind at 1, loadInstanceLiveness, select, gets.
  destruct (negb _); [by intros [= <- <-]|].
  assert (lease_abandoned k w0) as Hab.
  { exists l, (String ch ow). unfold isLeaseOwnerDead in Hd. rewrite Ho in Hd.
    split_and!; try done. revert Hact. unfold activeHere. by rewrite (re_reg _ _ Hp). }
  destruct k as [[] id]; simpl; intros Hr.
  - run_bind Hr as c w1 Hc e.
    + run_bind Hc as won w2 Hw e.
      * pose proof (reap_run _ _ _ _ _ _ Hp Hab Hw) as Hp2. destruct won.
        -- run_bind Hc as u w3 Hs e; apply sync_frames in Hs as (?&?&?&?&?);
             [injection Hc as <- <-|done]. injection Hr as <- <-. by eapply reap_frame.
        -- injection Hc as <- <-. by injection Hr as <- <-.
      * done.
    + run_bind Hc as won w2 Hw e2.
      * pose proof (reap_run _ _ _ _ _ _ Hp Hab Hw) as Hp2. destruct won; [|done].
        run_bind Hc as u w3 Hs e2; apply sync_frames in Hs as (?&?&?&?&?); [done|].
        by eapply reap_frame.
      * unfold claimRunForReap in Hw. rewrite claimReapableRun_run in Hw. by repeat case_match.
  - run_bind Hr as c w1 Hc e; apply (reap_evaluation w0) in Hc as [Hp2 Hret]; try done.
    by injection Hr as <- <-.
Qed.
End ReapLemmas.

(** ** Properties *)

(** The lease sweep is exact and leaves no worktree unguarded: it deletes
    exactly the leases whose workload is over, does not execute here, and is not
    actively held by another process that may be alive; and before the lease of
    a workload of another process disappears, the ephemeral worktree it
    protected has a removal reservation, an existing one being kept. *)
Theorem sweep_guards_worktrees `{Instance} judge registered token w o w' :
  sweepOrphanedScmWorkloadLeases judge registered token w = (o, w') ->
  let liveness := if judge then db_heartbeats (w_db w) else ∅ in
  is_ret o = true /\
  (forall k, db_leases (w_db w') !! k =
     match db_leases (w_db w) !! k with
     | Some l => if sweepable judge registered liveness w k l then None else Some l
     | None => None
     end) /\
  (forall k l name, db_leases (w_db w) !! k = Some l ->
     sweepable judge registered liveness w k l = true ->
     lease_ownerInstanceId l <> Some processInstanceId -> leftWorktree k (w_db w) = Some name ->
     is_Some (db_removals (w_db w') !! workspaceRemovalId (lease_scmSourceId l) name)) /\
  marks w w'.
Proof.
  intros Hr liveness. unfold sweepOrphanedScmWorkloadLeases, withScmPathMutation in Hr.
  unfold withTransaction in Hr.
  assert (forall w0 : World, (if judge then loadInstanceLiveness else mret ∅) w0 =
    (Ret (if judge then db_heartbeats (w_db w0) else ∅), w0)) as Hlv by (by destruct judge).
  rewrite (bind_run _ _ _ _ _ (Hlv w)) in Hr. unfold mbind at 1, M_bind at 1, select, gets in Hr.
  destruct (sweep_fold judge registered token liveness (map_to_list (db_leases (w_db w))) [] w)
    as (out & w1 & Hf & Hm & Hin & Hnin & Hres & _); [apply NoDup_fst_map_to_list|].
  fold liveness in Hr. rewrite Hf in Hr. injection Hr as <- <-.
  split; [done|]. split; [|split; [|done]].
  - intros k. destruct (db_leases (w_db w) !! k) as [l|] eqn:Hl.
    + rewrite (Hin k l); [|by apply elem_of_map_to_list]. by rewrite Hl.
    + rewrite Hnin; [done|]. intros Hk. apply list_elem_of_fmap in Hk as ([k2 l2] & -> & Hk2).
      apply elem_of_map_to_list in Hk2. simpl in Hl. congruence.
  - intros k l name Hl Hs Hf2 Hlw. apply (Hres k l name); [by apply elem_of_map_to_list|done| |done].
    by apply bool_decide_eq_true.
Qed.

(** Only the workloads of dead instances are failed: a pass changes a run or
    an evaluation only if it was unfinished, leased by an instance the heartbeats
    prove dead, and not executing in this process; it then reads as interrupted.
    Leases stay for the sweep, and inside the boot grace window nothing happens. *)
Theorem dead_instance_workloads `{Instance} judge registered (sync : string -> M World unit) w o w' :
  (forall id w o w', sync id w = (o, w') ->
     db_runs (w_db w') = db_runs (w_db w) /\ db_tasks (w_db w') = db_tasks (w_db w) /\
     db_leases (w_db w') = db_leases (w_db w) /\
     db_heartbeats (w_db w') = db_heartbeats (w_db w) /\ w_reg w' = w_reg w) ->
  failScmWorkloadsOfDeadInstances judge registered sync w = (o, w') ->
  reap_effect registered w w' /\ (judge = false -> w' = w).
Proof.
  intros Hsync Hr. unfold failScmWorkloadsOfDeadInstances in Hr.
  destruct judge; [|by injection Hr as _ <-; split; [apply reap_refl|]]. simpl in Hr.
  unfold mbind at 1, M_bind at 1, select at 1, gets at 1 in Hr.
  assert (forall kv, kv ∈ List.filter (fun kv => bool_decide (lease_phase kv.2 = active) &&
      match lease_ownerInstanceId kv.2 with None | Some "" => false | Some _ => true end)
      (map_to_list (db_leases (w_db w))) ->
    db_leases (w_db w) !! kv.1 = Some kv.2 /\ lease_phase kv.2 = active) as Hls.
  { intros [k l] [Hin Hp]%list_elem_of_In%filter_In. bool_to_prop.
    apply list_elem_of_In, elem_of_map_to_list in Hin. done. }
  destruct (List.filter _ _) as [|kv0 ls] eqn:Hfl; [by injection Hr as _ <-; split; [apply reap_refl|]|].
  split; [|done]. unfold mbind at 1, M_bind at 1, loadInstanceLiveness, select, gets in Hr.
  revert Hr. apply (fold_each_invariant (reap_effect registered w)); [|apply reap_refl].
  intros [k l] b s os s' Hin Hp Hs. destruct (Hls _ Hin) as [Hl Hph].
  by eapply (reap_lease_effect registered sync Hsync w k l).
Qed.

(** ** A per-Agent worktree

    Run-end cleanup never touches a per-Agent worktree, even when a sticky
    configuration names one as ephemeral.  The sweep does not look at the name:
    it hands the worktree of a dead instance to the reconciler. *)
Lemma sweep_reserves_per_agent_worktree :
  exists w released w',
    isPerAgentWorkspaceName "agent-AAAAAAAAAAAAAAAA" = true /\
    @sweepOrphanedScmWorkloadLeases ex_instance true (fun _ => false) (fun _ => "t") w =
      (Ret released, w') /\
    db_removals (w_db w) = ∅ /\
    is_Some (db_removals (w_db w') !! workspaceRemovalId "s1" "agent-AAAAAAAAAAAAAAAA").
Proof.
  exists (set_db (fun _ =>
    set_leases (fun _ => {[(wl_run, "r1") := mkLease "a1" "s1" active (Some "i9") 0]})
     (set_runs (fun _ => {["r1" := mkRun failed None None None None None (Some "i9")
       (Some (mkWorktree "agent-AAAAAAAAAAAAAAAA" cleanup_ephemeral)) (Some "a1") None 0 0
       empty_usage empty_origin]}) empty_db)) empty_world).
  eexists _, _. split; [reflexivity|]. split; [vm_compute; reflexivity|]. split; [reflexivity|].
  vm_compute. by eexists.
Qed.

(** ** Witnesses *)

Definition sweep_demo : World :=
  set_db (fun _ =>
    set_leases (fun _ => {[(wl_run, "r1") := mkLease "a1" "s1" active (Some "i9") 0]})
     (set_runs (fun _ => {["r1" := mkRun running None None None None None (Some "i9")
       (Some (mkWorktree "w1" cleanup_ephemeral)) (Some "a1") None 0 0 empty_usage empty_origin]}) empty_db))
    empty_world.
Definition reap_demo : outcome (list ReleasedScmWorkload) * World :=
  @failScmWorkloadsOfDeadInstances ex_instance true (fun _ => false) (fun _ => mret tt) sweep_demo.
Definition swept_demo : outcome (list ReleasedScmWorkload) * World :=
  @sweepOrphanedScmWorkloadLeases ex_instance true (fun _ => false) (fun _ => "t") reap_demo.2.

Lemma dead_instance_workloads_witness :
  run_status <$> db_runs (w_db reap_demo.2) !! "r1" = Some failed /\
  @reap_effect ex_instance (fun _ => false) sweep_demo reap_demo.2.
Proof.
  split; [vm_compute; reflexivity|].
  apply (@dead_instance_workloads ex_instance true (fun _ => false) (fun _ => mret tt) sweep_demo
    reap_demo.1 reap_demo.2); [|by rewrite <- surjective_pairing].
  intros id w o w' Hs. by injection Hs as _ <-.
Defined.

Lemma sweep_guards_worktrees_witness :
  db_leases (w_db swept_demo.2) !! (wl_run, "r1") = None /\
  is_Some (db_removals (w_db swept_demo.2) !! workspaceRemovalId "s1" "w1").
Proof.
  destruct (@sweep_guards_worktrees ex_instance true (fun _ => false) (fun _ => "t") reap_demo.2
    swept_demo.1 swept_demo.2 (eq_sym (eq_sym (surjective_pairing _)))) as (_ & Hl & Hr & _).
  split; [rewrite Hl; vm_compute; reflexivity|].
  apply (Hr (wl_run, "r1") (mkLease "a1" "s1" active (Some "i9") 0) "w1");
    [vm_compute; reflexivity|vm_compute; reflexivity|done|vm_compute; reflexivity].
Defined.
