(* ===== verification/SourceDeletion.v ===== *)
(** * Deleting an SCM source

    [DELETE /scm-sources/:id] of [apps/api/src/routes/scm-sources.ts] and the
    startup resumption of [lib/p4-sync.ts].  A deletion is first requested in a
    transaction, then the source's storage is reclaimed, then the row goes;
    between the phases every other handler of every process may run. *)
From S2P Require Import Prelude Json Schema LeaseRegistry World ScmWorkload AgentBinding WorkspaceRemoval LeaseSweeper.

(** ** The handler *)

Inductive Reservation :=
| reserved_no_more                                  (* neither row nor reason *)
| reserved_referenced (names : list string)
| reserved_workload (workload : WorkloadType * string * string)
| reserved_removal (removal : string * string)
| reserved_row (row : ScmSource) (released : list string).

Definition requested_source (s : ScmSource) : ScmSource :=
  mkSource (source_name s) (source_localPath s) (source_workspacesPath s) (source_type s)
    (source_syncStatus s) (source_codegraphIndexing s) true (source_initialSyncCompletedAt s)
    false (source_userId s).

(** Agents that name the source, whatever their workspace *)
Definition references_of (id : string) (d : Db) : list (string * Agent) :=
  filter (fun kv => agent_scmSourceId kv.2 = Some id) (map_to_list (db_agents d)).

(** [delete(scmSources).where(id and deletionRequestedAt is not null)]; agents,
    leases and removal reservations refer to a source without a cascade. *)
Definition source_unreferenced (id : string) (d : Db) : Prop :=
  map_Forall (fun _ a => agent_scmSourceId a <> Some id) (db_agents d) /\
  map_Forall (fun _ l => lease_scmSourceId l <> id) (db_leases d) /\
  map_Forall (fun _ r => removal_scmSourceId r <> id) (db_removals d).
#[export] Instance source_unreferenced_dec id d : Decision (source_unreferenced id d).
Proof. unfold source_unreferenced. apply _. Defined.

Definition delete_source_row (id : string) : M World (option ScmSource) := fun w =>
  match db_sources (w_db w) !! id with
  | Some row =>
      if source_deletionRequested row then
        if decide (source_unreferenced id (w_db w))
        then (Ret (Some row), set_db (set_sources (delete id)) w)
        else (Throw FOREIGN_KEY, w)
      else (Ret None, w)
  | None => (Ret None, w)
  end.

(** What [isolateManagedScmStorage] and its [commit] come to *)
Inductive Reclaim := reclaim_blocked (peers : list string) | reclaim_failed (e : JsError)
  | reclaim_done (paths : list string).

Inductive DeletionResponse :=
| deletion_not_found            (* 404 *)
| deletion_busy                 (* 409: the checkout is in use here *)
| deletion_refused (r : Reservation)     (* 409 *)
| deletion_pending              (* 503, retryable *)
| deletion_lost                 (* 409 *)
| deletion_done (row : ScmSource) (reclaimed : list string).

Section Deletion.
Context `{Instance, Surroundings}.

(** Phase one *)
Definition requestDeletion (owner : option string) (id : string) : M World Reservation :=
  withScmPathMutation (
    lockedReferences ← select (references_of id);
    if decide (lockedReferences <> [])
    then mret (reserved_referenced ((fun kv => agent_name kv.2) <$> lockedReferences))
    else
      activeWorkload ← findDurableScmSourceWorkload id;
      match activeWorkload with
      | Some workload => mret (reserved_workload workload)
      | None =>
          removals ← inspectSourceWorkspaceRemovals id;
          match srs_live removals with
          | Some live => mret (reserved_removal live)
          | None =>
              updated ← write_returning (fun d =>
                let '(b, t) := update_where id
                  (fun s => owned_by owner s && bool_decide (source_syncStatus s <> sync_syncing) &&
                     negb (source_codegraphIndexing s) && negb (source_deletionRequested s))
                  requested_source (db_sources d) in (b, set_sources (fun _ => t) d));
              row ← select (fun d => db_sources d !! id);
              match updated : bool, row with
              | true, Some row =>
                  released ← (if (0 <? srs_pending removals)%nat
                              then releaseSourceWorkspaceRemovals id else mret []);
                  mret (reserved_row row released)
              | _, _ => mret reserved_no_more
              end
          end
      end).

(** The last phase *)
Definition finalizeDeletion (id : string) : M World (option ScmSource) :=
  withScmPathMutation (delete_source_row id).

(** [busyCheckouts] is this process's; [reclaim] the work on the file system. *)
Definition deleteSource (owner : option string) (isCheckoutBusy : bool)
    (reclaim : ScmSource -> M World Reclaim) (id : string) : M World DeletionResponse :=
  source ← select (visible_source owner id);
  match source with
  | None => mret deletion_not_found
  | Some source =>
      if isCheckoutBusy then mret deletion_busy
      else
        reservation ← requestDeletion owner id;
        let reclaim_row := match reservation with
          | reserved_row row _ => Some row
          | reserved_no_more => if source_deletionRequested source then Some source else None
          | _ => None
          end in
        match reclaim_row with
        | None => mret (deletion_refused reservation)
        | Some pendingSource =>
            isolated ← reclaim pendingSource;
            match isolated with
            | reclaim_blocked _ | reclaim_failed _ => mret deletion_pending
            | reclaim_done paths =>
                deleted ← finalizeDeletion id;
                mret (match deleted with
                      | Some row => deletion_done row paths
                      | None => deletion_lost
                      end)
            end
        end
  end.

(** One iteration of the startup resumption, under its [try] *)
Definition resume_deletion (reclaim : ScmSource -> M World Reclaim) (kv : string * ScmSource)
    : M World unit :=
  try_catch (
    isolated ← reclaim kv.2;
    match isolated with
    | reclaim_blocked _ => mret tt
    | reclaim_failed e => throw e
    | reclaim_done _ => _ ← finalizeDeletion kv.1; mret tt
    end) (fun _ => mret tt).

Definition resumePendingDeletions (reclaim : ScmSource -> M World Reclaim) : M World unit :=
  pendingDeletions ← select (fun d =>
    filter (fun kv => source_deletionRequested kv.2 = true) (map_to_list (db_sources d)));
  for_each pendingDeletions (resume_deletion reclaim).

(** The claim of [POST /scm-sources/:id/sync] *)
Definition claimManualSync (owner : option string) (id : string) : M World bool :=
  write_returning (fun d =>
    let '(b, t) := update_where id
      (fun s => owned_by owner s && bool_decide (source_syncStatus s <> sync_syncing) &&
         negb (source_codegraphIndexing s) && negb (source_deletionRequested s))
      (with_syncStatus sync_syncing) (db_sources d) in (b, set_sources (fun _ => t) d)).
End Deletion.

(** ** The deletion among everything else *)

(** Every process sees one database.  [dl_pending] are the sources some process
    has seen marked for deletion, [dl_reclaimed] those whose storage is gone. *)
Record Deletions := mkDeletions {
  dl_world : World;
  dl_pending : gset string;
  dl_reclaimed : gset string
}.

(** A handler that has no business with bindings: no agent changes, leases keep
    their agent and source, source rows keep their mark, and no worktree of a
    marked source is reserved for removal. *)
Record unrelated (w w' : World) : Prop := {
  un_agents : db_agents (w_db w') = db_agents (w_db w);
  un_leases : forall k l', db_leases (w_db w') !! k = Some l' ->
    exists l, db_leases (w_db w) !! k = Some l /\ lease_agentId l = lease_agentId l' /\
      lease_scmSourceId l = lease_scmSourceId l';
  un_sources : forall s, source_deletionRequested <$> db_sources (w_db w') !! s =
    source_deletionRequested <$> db_sources (w_db w) !! s;
  un_calm : forall s row', db_sources (w_db w') !! s = Some row' ->
    source_deletionRequested row' = true -> source_syncStatus row' = sync_syncing ->
    exists row, db_sources (w_db w) !! s = Some row /\ source_syncStatus row = sync_syncing;
  un_removals : forall id r, db_removals (w_db w') !! id = Some r ->
    db_removals (w_db w) !! id = Some r \/ open_source (removal_scmSourceId r) (w_db w)
}.

Inductive dl_step : Deletions -> Deletions -> Prop :=
| dl_unrelated w w' P R : unrelated w w' -> dl_step (mkDeletions w P R) (mkDeletions w' P R)
| dl_admit (i : Instance) w P R T t id a (k : ScmWorkloadAdmission -> M World T) o w' :
    (forall adm w0 o0 w0', k adm w0 = (o0, w0') -> unrelated w0 w0') ->
    withScmWorkloadAdmission t id a k w = (o, w') ->
    dl_step (mkDeletions w P R) (mkDeletions w' P R)
| dl_activate (i : Instance) w P R t id o r w' :
    activateScmWorkload t id o w = (r, w') ->
    dl_step (mkDeletions w P R) (mkDeletions w' P R)
| dl_release (i : Instance) w P R t id o r w' :
    releaseScmWorkload t id o w = (r, w') ->
    dl_step (mkDeletions w P R) (mkDeletions w' P R)
| dl_createAgent w P R owner id row o w' :
    createAgent owner id row w = (o, w') ->
    dl_step (mkDeletions w P R) (mkDeletions w' P R)
| dl_patchAgent w P R evals owner id existing p o w' :
    patchAgent evals owner id existing p w = (o, w') ->
    dl_step (mkDeletions w P R) (mkDeletions w' P R)
| dl_cloneAgent w P R owner id agent row o w' :
    cloneAgent owner id agent row w = (o, w') ->
    dl_step (mkDeletions w P R) (mkDeletions w' P R)
| dl_importAgent w P R owner id ws ref row o w' :
    importAgent owner id ws ref row w = (o, w') ->
    dl_step (mkDeletions w P R) (mkDeletions w' P R)
| dl_deleteAgent (i : Instance) w P R evals id existing o w' :
    deleteAgent evals id existing w = (o, w') ->
    dl_step (mkDeletions w P R) (mkDeletions w' P R)
| dl_sync (i : Instance) w P R roots src pre o w' :
    acquireSync roots src pre w = (o, w') ->
    dl_step (mkDeletions w P R) (mkDeletions w' P R)
| dl_manual_sync w P R owner src o w' :
    claimManualSync owner src w = (o, w') ->
    dl_step (mkDeletions w P R) (mkDeletions w' P R)
| dl_sync_end w P R snapshot ok cancelled codegraph now src row :
    (* a running sync holds its claim *)
    db_sources (w_db w) !! src = Some row -> source_syncStatus row = sync_syncing ->
    dl_step (mkDeletions w P R)
      (mkDeletions (finish_sync snapshot ok cancelled codegraph now src w) P R)
| dl_createSource w P R id row :
    (* ids are never used again *)
    id ∉ P -> db_sources (w_db w) !! id = None -> source_deletionRequested row = false ->
    dl_step (mkDeletions w P R) (mkDeletions (set_db (set_sources (insert id row)) w) P R)
| dl_request (i : Instance) (s : Surroundings) w P R owner id o w' :
    id <> "" -> requestDeletion owner id w = (o, w') ->
    dl_step (mkDeletions w P R)
      (mkDeletions w' (match o with Ret (reserved_row _ _) => {[id]} ∪ P | _ => P end) R)
| dl_observe w P R id row :
    (* a second request, or a restarted process, finds the mark *)
    id <> "" -> db_sources (w_db w) !! id = Some row -> source_deletionRequested row = true ->
    dl_step (mkDeletions w P R) (mkDeletions w ({[id]} ∪ P) R)
| dl_reclaim w P R id : id ∈ P -> dl_step (mkDeletions w P R) (mkDeletions w P ({[id]} ∪ R))
| dl_finalize w P R id o w' :
    id ∈ P -> finalizeDeletion id w = (o, w') ->
    dl_step (mkDeletions w P R) (mkDeletions w' P R).

(** The invariant: bindings and leases keep to open sources; a marked source is
    not syncing; removals keep to open sources; what some process saw marked is
    marked or gone. *)
Record settled (c : Deletions) : Prop := {
  st_anchored : anchored (w_db (dl_world c));
  st_calm : forall s row, db_sources (w_db (dl_world c)) !! s = Some row ->
    source_deletionRequested row = true -> source_syncStatus row <> sync_syncing;
  st_removals : forall id r, db_removals (w_db (dl_world c)) !! id = Some r ->
    open_source (removal_scmSourceId r) (w_db (dl_world c));
  st_pending : forall s, s ∈ dl_pending c ->
    s <> "" /\ ~ open_source s (w_db (dl_world c));
  st_reclaimed : dl_reclaimed c ⊆ dl_pending c
}.

Lemma open_source_iff s d :
  open_source s d <-> source_deletionRequested <$> db_sources d !! s = Some false.
Proof.
  unfold open_source. split.
  - intros (row & -> & Hr). simpl. congruence.
  - destruct (db_sources d !! s) as [row|]; [|done]. intros [= Hr]. eauto.
Qed.

Lemma unrelated_settled w w' P R :
  unrelated w w' -> settled (mkDeletions w P R) -> settled (mkDeletions w' P R).
Proof.
  intros [Ha Hl Hs Hc Hr] [[Al Ab] C Rm Pd Rc].
  assert (forall s, open_source s (w_db w') <-> open_source s (w_db w)) as Ho.
  { intros s. rewrite !open_source_iff. by rewrite Hs. }
  split; simpl in *; [split| | | |done].
  - intros k l' Hk. destruct (Hl _ _ Hk) as (l & Hl0 & Hag & Hsrc).
    destruct (Al _ _ Hl0) as (a & ? & ?). exists a. rewrite Ha, <- Hag, <- Hsrc. done.
  - intros id a s. rewrite Ha, Ho. apply Ab.
  - intros s row Hrow Hd Hst. destruct (Hc _ _ Hrow Hd Hst) as (row0 & Hrow0 & Hst0).
    specialize (Hs s). rewrite Hrow, Hrow0 in Hs. simpl in Hs. injection Hs as Hs.
    apply (C s row0 Hrow0); [congruence|done].
  - intros id r Hid. rewrite Ho. destruct (Hr _ _ Hid); eauto.
  - intros s Hp. rewrite Ho. eauto.
Qed.

Lemma unrelated_refl w : unrelated w w.
Proof. split; eauto. Qed.

(** Only the lease table changes, and no lease is new. *)
Lemma unrelated_leases f w :
  (forall k l', f (db_leases (w_db w)) !! k = Some l' ->
     exists l, db_leases (w_db w) !! k = Some l /\ lease_agentId l = lease_agentId l' /\
       lease_scmSourceId l = lease_scmSourceId l') ->
  unrelated w (set_db (set_leases f) w).
Proof. intros Hf. split; simpl; eauto. Qed.

Lemma unrelated_delete_lease k w : unrelated w (set_db (set_leases (delete k)) w).
Proof. apply unrelated_leases. intros k' l [_ Hk]%lookup_delete_Some. eauto. Qed.

(** Only one source row changes: its mark stays, and it is not set syncing
    while marked. *)
Lemma unrelated_source src f w :
  (forall row, source_deletionRequested (f row) = source_deletionRequested row) ->
  (forall row, db_sources (w_db w) !! src = Some row -> source_deletionRequested row = true ->
     source_syncStatus (f row) = sync_syncing -> source_syncStatus row = sync_syncing) ->
  unrelated w (set_db (set_sources (alter f src)) w).
Proof.
  intros Hd Hst. split; simpl; eauto.
  - intros s. destruct (decide (s = src)) as [->|Hne].
    + rewrite lookup_alter_eq. destruct (db_sources (w_db w) !! src); simpl; congruence.
    + by rewrite lookup_alter_ne.
  - intros s row'. destruct (decide (s = src)) as [->|Hne].
    + rewrite lookup_alter_eq. intros (row & Hrow & ->)%fmap_Some. rewrite Hd.
      intros. exists row. eauto.
    + rewrite lookup_alter_ne by done. eauto.
Qed.

Lemma unrelated_trans w1 w2 w3 : unrelated w1 w2 -> unrelated w2 w3 -> unrelated w1 w3.
Proof.
  intros [A1 L1 S1 C1 R1] [A2 L2 S2 C2 R2]. split.
  - congruence.
  - intros k l3 Hl. destruct (L2 _ _ Hl) as (l2 & Hl2 & ? & ?).
    destruct (L1 _ _ Hl2) as (l1 & ? & ? & ?). exists l1. split; [done|]. split; congruence.
  - intros s. by rewrite S2.
  - intros s row3 H3 Hd Hst. destruct (C2 _ _ H3 Hd Hst) as (row2 & Hr2 & Hst2).
    apply (C1 _ _ Hr2); [|done]. specialize (S2 s). rewrite H3, Hr2 in S2. simpl in S2. congruence.
  - intros id r Hid. destruct (R2 _ _ Hid) as [Hid2|Ho].
    + by apply R1.
    + right. rewrite open_source_iff in *. by rewrite <- S1.
Qed.

(** ** The operations that are unrelated to deletion *)

Section Unrelated.
Context `{Instance}.

Lemma activate_unrelated t id o r w w' : activateScmWorkload t id o w = (r, w') -> unrelated w w'.
Proof.
  destruct r as [[]|e]; [|intros ->%activateScmWorkload_Throw; apply unrelated_refl].
  intros (l & Hl & _ & [(_ & _ & ->)|(_ & _ & ->)])%activateScmWorkload_Ret; [apply unrelated_refl|].
  apply unrelated_leases. intros k l'. destruct (decide (k = (t, id))) as [->|Hne].
  - rewrite lookup_alter_eq. intros (l0 & ? & ->)%fmap_Some. by exists l0.
  - rewrite lookup_alter_ne by done. eauto.
Qed.

Lemma release_unrelated t id o r w w' : releaseScmWorkload t id o w = (r, w') -> unrelated w w'.
Proof.
  rewrite releaseScmWorkload_run.
  destruct (db_leases (w_db w) !! (t, id)); [case_decide|]; intros [= _ <-];
    auto using unrelated_refl, unrelated_delete_lease.
Qed.

(** A claim is taken only on an unmarked row. *)
Lemma claim_unrelated (cond : ScmSource -> bool) src (w w' : World) b :
  (forall s, cond s = true -> source_deletionRequested s = false) ->
  write_returning (fun d => let '(b, t) := update_where src cond (with_syncStatus sync_syncing)
    (db_sources d) in (b, set_sources (fun _ => t) d)) w = (Ret b, w') ->
  unrelated w w'.
Proof.
  intros Hcond. unfold write_returning, update_where.
  destruct (db_sources (w_db w) !! src) as [row|] eqn:Hrow; [destruct (cond row) eqn:Hc|];
    intros [= _ <-]; try (destruct w as [[]]; apply unrelated_refl).
  apply Hcond in Hc. split; simpl; eauto.
  - intros s. destruct (decide (s = src)) as [->|Hne];
      [by rewrite lookup_insert_eq, Hrow|by rewrite lookup_insert_ne].
  - intros s row'. rewrite lookup_insert. case_decide; [|eauto].
    intros [= <-]. simpl. congruence.
Qed.

Lemma manual_sync_unrelated owner src o w w' :
  claimManualSync owner src w = (o, w') -> unrelated w w'.
Proof.
  intros Hc. destruct o as [b|e]; [|].
  - eapply claim_unrelated; [|exact Hc]. intros s Hs. cbv beta in Hs. by bool_to_prop.
  - exfalso. revert Hc. unfold claimManualSync, write_returning.
    by destruct (update_where _ _ _ _).
Qed.

Lemma acquireClaim_unrelated src pre o w w' : acquireClaim src pre w = (o, w') -> unrelated w w'.
Proof.
  unfold acquireClaim. destruct pre; [intros [= _ <-]; apply unrelated_refl|].
  intros [(b & w1 & Hb & Hk)|(e & Hb & _)]%bind_inv.
  - assert (w' = w1) as -> by (destruct b; by injection Hk).
    eapply claim_unrelated; [|exact Hb]. intros s Hs. cbv beta in Hs. by bool_to_prop.
  - exfalso. revert Hb. unfold write_returning. by destruct (update_where _ _ _ _).
Qed.

Lemma acquireClaim_db_only src pre : db_only (acquireClaim src pre).
Proof. unfold acquireClaim. destruct pre; eauto 8 with db_only. Qed.

Lemma acquireSync_unrelated roots src pre o w w' :
  acquireSync roots src pre w = (o, w') -> unrelated w w'.
Proof.
  unfold acquireSync, withScmPathMutation.
  set (body := _ ≫= _ : M World SyncAcquisition).
  assert (forall o w', body w = (o, w') -> unrelated w w') as Hbody.
  { intros o1 w1 [(row & w2 & Hrow & Hk)|(e & Hrow & _)]%bind_inv;
      apply acquireClaim_unrelated in Hrow; [|done].
    eapply unrelated_trans; [done|]. destruct row as [row|];
      [|destruct pre; injection Hk as _ <-; apply unrelated_refl].
    destruct (source_deletionRequested row); [injection Hk as _ <-; apply unrelated_refl|].
    destruct (existsb _ _); [injection Hk as _ <-; apply unrelated_refl|].
    revert Hk. unfold findSharedCheckoutScmWorkload, mbind at 1, M_bind at 1, select, gets.
    destruct (match scan_leases _ _ with inl _ => _ | inr _ => _ end) as [occ|];
      intros [= _ <-]; [by apply unrelated_source|apply unrelated_refl]. }
  destruct o as [res|e].
  - rewrite withTransaction_Ret. apply Hbody.
  - intros Ht. apply withTransaction_Throw_id in Ht as ->; [apply unrelated_refl|].
    unfold body. apply db_only_bind; [apply acquireClaim_db_only|].
    intros [row|]; [|apply db_only_ret].
    destruct (source_deletionRequested row); [apply db_only_ret|].
    destruct (existsb _ _); [apply db_only_ret|].
    apply db_only_bind; [apply db_only_gets|]. intros [occ|]; [|apply db_only_ret].
    apply db_only_bind; [apply db_only_write|]. intros _. apply db_only_ret.
Qed.
End Unrelated.

Lemma finish_sync_unrelated snapshot ok cancelled codegraph now src row w :
  db_sources (w_db w) !! src = Some row -> source_syncStatus row = sync_syncing ->
  unrelated w (finish_sync snapshot ok cancelled codegraph now src w).
Proof. intros Hrow Hst. apply unrelated_source; [done|]. naive_solver. Qed.

(** ** The steps that are related keep the invariant too *)

Lemma agent_write_settled id w w' P R :
  agent_write id w w' -> settled (mkDeletions w P R) -> settled (mkDeletions w' P R).
Proof.
  intros Hw [A C Rm Pd Rc]. pose proof (anchored_write _ _ _ Hw A) as A'.
  by destruct Hw; split.
Qed.

Section Settled.
Context `{Instance}.

Lemma deleteAgent_settled evals id existing o w w' P R :
  deleteAgent evals id existing w = (o, w') ->
  settled (mkDeletions w P R) -> settled (mkDeletions w' P R).
Proof.
  intros Hd [A C Rm Pd Rc]. pose proof (anchored_deleteAgent _ _ _ _ _ _ Hd A) as A'.
  pose proof (deletion_result _ _ _ _ _ _ A Hd) as Hr.
  assert (w' = w \/ w' = set_db (without_agent id) w) as [-> | ->]; [|by split..].
  destruct o as [[row| | | | | |]|]; try done; try (left; by destruct Hr as [-> _]).
  destruct Hr as (? & _ & _ & _ & _ & ->). by right.
Qed.

Lemma reserve_settled t id a adm w P R :
  admission_of t id a (w_db w) = Some adm ->
  settled (mkDeletions w P R) -> settled (mkDeletions (set_db (reserve_for t id a adm) w) P R).
Proof.
  intros Hadm Hs. destruct adm as [|src lid ex]; [by destruct w|].
  unfold set_db, reserve_for, admission_db.
  destruct (db_leases (w_db w) !! (t, id)) as [l|] eqn:Hl; [by destruct w|].
  destruct Hs as [[Al Ab] C Rm Pd Rc]. split; simpl; try done. split; [|exact Ab]. simpl. intros k l.
  rewrite lookup_insert. case_decide; [|by apply Al]. intros [= <-]. simpl.
  unfold admission_of in Hadm. rewrite Hl in Hadm.
  destruct (db_agents (w_db w) !! a) as [ag|] eqn:Hag; [|done]. exists ag. split; [done|].
  apply bound_to_iff. destruct (decide (agent_workspaceType ag <> ws_scm)) as [|Hws%dec_stable]; [done|].
  destruct (agent_scmSourceId ag) as [[|c s]|]; by simplify_eq.
Qed.

Lemma admission_settled {T} t id a (k : ScmWorkloadAdmission -> M World T) o w w' P R :
  (forall adm w0 o0 w0', k adm w0 = (o0, w0') -> unrelated w0 w0') ->
  withScmWorkloadAdmission t id a k w = (o, w') ->
  settled (mkDeletions w P R) -> settled (mkDeletions w' P R).
Proof.
  intros Hk Hadm Hs. destruct o as [v|e].
  - apply admission_Ret in Hadm as (_ & adm & Hof & Hrun).
    eapply unrelated_settled; [by eapply Hk|]. by eapply reserve_settled.
  - apply admission_Throw in Hadm. destruct Hs as [A C Rm Pd Rc].
    split; simpl in *; by rewrite ?Hadm.
Qed.

Lemma createSource_settled id row w P R :
  id ∉ P -> db_sources (w_db w) !! id = None -> source_deletionRequested row = false ->
  settled (mkDeletions w P R) ->
  settled (mkDeletions (set_db (set_sources (insert id row)) w) P R).
Proof.
  intros Hid Hnone Hrow [[Al Ab] C Rm Pd Rc].
  assert (forall s, open_source s (w_db w) ->
    open_source s (set_sources (insert id row) (w_db w))) as Ho.
  { intros s (r & Hr & ?). exists r. simpl. rewrite lookup_insert_ne by congruence. done. }
  split; simpl; [split| | | |done].
  - exact Al.
  - intros. by eapply Ho, Ab.
  - intros s r. rewrite lookup_insert. case_decide; [intros [= <-]; congruence|]. apply C.
  - intros k r Hk. by eapply Ho, Rm.
  - intros s Hs. destruct (Pd s Hs) as [? Hno]. split; [done|]. intros (r & Hr & Hd). simpl in Hr.
    rewrite lookup_insert_ne in Hr by (intros ->; done). apply Hno. by exists r.
Qed.

Lemma finalize_settled id o w w' P R :
  id ∈ P -> finalizeDeletion id w = (o, w') ->
  settled (mkDeletions w P R) -> settled (mkDeletions w' P R).
Proof.
  intros Hid Hf Hs. assert (w' = w \/ source_unreferenced id (w_db w) /\
    w' = set_db (set_sources (delete id)) w) as [->|[Hun ->]]; [|done|].
  { revert Hf. unfold finalizeDeletion, withScmPathMutation, withTransaction, delete_source_row.
    destruct (_ !! id) as [row|]; [|intros [= _ <-]; auto].
    destruct (source_deletionRequested row); [|intros [= _ <-]; auto].
    case_decide; intros [= _ <-]; rewrite ?set_db_id; auto. }
  destruct Hs as [[Al Ab] C Rm Pd Rc]. destruct (Pd _ Hid) as [_ Hno].
  assert (forall s, open_source s (w_db w) -> open_source s (set_sources (delete id) (w_db w))) as Ho.
  { intros s Hop. assert (s <> id) by (intros ->; done). destruct Hop as (r & Hr & ?).
    exists r. simpl. by rewrite lookup_delete_ne by done. }
  split; simpl; [split| | | |done].
  - exact Al.
  - intros. by eapply Ho, Ab.
  - intros s r [_ Hr]%lookup_delete_Some. by eapply C.
  - intros k r Hk. by eapply Ho, Rm.
  - intros s Hs. destruct (Pd s Hs) as [? Hns]. split; [done|]. intros (r & Hr & Hd). simpl in Hr.
    apply lookup_delete_Some in Hr as [_ Hr]. apply Hns. by exists r.
Qed.
End Settled.

(** ** The request *)

Section Request.
Context `{Instance, Surroundings}.

Lemma inspect_run id w : exists st,
  inspectSourceWorkspaceRemovals id w = (Ret st, w) /\
  srs_pending st = length (removals_of id (w_db w)).
Proof.
  unfold inspectSourceWorkspaceRemovals, mbind at 1, M_bind at 1, select, gets.
  destruct (List.filter _ _) as [|kv rows]; [by eexists|].
  destruct (negb peersJudgeable); by eexists.
Qed.

Lemma durable_source_run id w : exists r,
  findDurableScmSourceWorkload id w = (Ret r, w) /\
  (r = None -> forall k l, db_leases (w_db w) !! k = Some l -> lease_scmSourceId l <> id).
Proof.
  eexists. split; [done|]. intros Hh [t k] l Hl Hs.
  pose proof (head_omap_None _ _ Hh ((t, k), l)) as Hn. simpl in Hn.
  rewrite decide_True in Hn by done. by discriminate Hn; apply elem_of_map_to_list.
Qed.

Lemma no_reference id d :
  references_of id d = [] -> forall k a, db_agents d !! k = Some a -> agent_scmSourceId a <> Some id.
Proof.
  intros Hr k a Ha Hs. assert ((k, a) ∈ references_of id d) as Hin.
  { apply list_elem_of_filter. split; [done|]. by apply elem_of_map_to_list. }
  rewrite Hr in Hin. by apply not_elem_of_nil in Hin.
Qed.

(** The database after a successful request *)
Definition requested_db (id : string) (row : ScmSource) (d : Db) : Db :=
  set_removals (filter (fun kv => removal_scmSourceId kv.2 <> id))
    (set_sources (insert id row) d).

Lemma releaseRemovals_run id w :
  exists r, (if (0 <? length (removals_of id (w_db w)))%nat
             then releaseSourceWorkspaceRemovals id else mret []) w =
    (Ret r, set_db (set_removals (filter (fun kv => removal_scmSourceId kv.2 <> id))) w).
Proof.
  destruct (0 <? _)%nat eqn:Hp; bool_to_prop; [by eexists|].
  eexists. unfold mret, M_ret. f_equal.
  assert (filter (fun kv => removal_scmSourceId kv.2 <> id) (db_removals (w_db w)) =
          db_removals (w_db w)) as Hf.
  { apply map_filter_id. intros k r Hk Hs. simpl in Hs.
    assert ((k, r) ∈ removals_of id (w_db w)) as Hin.
    { apply list_elem_of_filter. split; [done|]. by apply elem_of_map_to_list. }
    destruct (removals_of id (w_db w)); [by apply not_elem_of_nil in Hin|simpl in Hp; lia]. }
  unfold set_db, set_removals. rewrite Hf. by destruct w as [[]].
Qed.

Lemma requestDeletion_run owner id w : exists r,
  requestDeletion owner id w =
    (Ret r, match r with
            | reserved_row row _ => set_db (requested_db id row) w
            | _ => w
            end) /\
  forall row released, r = reserved_row row released ->
    exists s, db_sources (w_db w) !! id = Some s /\ row = requested_source s /\
      source_deletionRequested s = false /\ source_syncStatus s <> sync_syncing /\
      source_codegraphIndexing s = false /\ owned_by owner s = true /\
      references_of id (w_db w) = [] /\
      (forall k l, db_leases (w_db w) !! k = Some l -> lease_scmSourceId l <> id).
Proof.
  unfold requestDeletion, withScmPathMutation, withTransaction.
  unfold mbind at 1, M_bind at 1, select at 1, gets at 1.
  case_decide as Href; [by eexists (reserved_referenced _)|].
  destruct (durable_source_run id w) as (r & Hr & Hno). rewrite (bind_run _ _ _ _ _ Hr).
  destruct r as [x|]; [by exists (reserved_workload x)|]. specialize (Hno eq_refl).
  destruct (inspect_run id w) as (st & Hst & Hpend). rewrite (bind_run _ _ _ _ _ Hst).
  destruct (srs_live st) as [live|]; [by exists (reserved_removal live)|]. rewrite Hpend.
  unfold mbind at 1, M_bind at 1, write_returning, update_where.
  destruct (db_sources (w_db w) !! id) as [s|] eqn:Hs.
  2: { exists reserved_no_more. split; [|done]. by destruct w as [[]]. }
  destruct (_ && negb (source_deletionRequested s)) eqn:Hc.
  2: { exists reserved_no_more. split; [|done]. by destruct w as [[]]. }
  bool_to_prop. unfold mbind at 1, M_bind at 1, select, gets. simpl. rewrite lookup_insert_eq.
  set (w1 := set_db _ w).
  destruct (releaseRemovals_run id w1) as (rel & Hrel).
  change (removals_of id (w_db w)) with (removals_of id (w_db w1)).
  rewrite (bind_run _ _ _ _ _ Hrel). exists (reserved_row (requested_source s) rel).
  split; [done|]. intros ? ? [= <- <-]. exists s. done.
Qed.

Lemma request_settled owner id o w w' P R :
  id <> "" -> requestDeletion owner id w = (o, w') ->
  settled (mkDeletions w P R) ->
  settled (mkDeletions w' (match o with Ret (reserved_row _ _) => {[id]} ∪ P | _ => P end) R).
Proof.
  intros Hid Hr Hs. destruct (requestDeletion_run owner id w) as (r & Hrun & Hrow).
  rewrite Hrun in Hr. injection Hr as <- <-.
  destruct r as [| | | |row released]; try done.
  destruct (Hrow _ _ eq_refl) as (s & Hsrc & -> & Hd & Hst & Hcg & _ & Href & Hno).
  destruct Hs as [[Al Ab] C Rm Pd Rc].
  assert (forall x, x <> id -> open_source x (w_db w) ->
    open_source x (requested_db id (requested_source s) (w_db w))) as Ho.
  { intros x Hx (r & Hr & ?). exists r. simpl. by rewrite lookup_insert_ne. }
  split; simpl; [split| | | |set_solver].
  - exact Al.
  - intros k a x Ha Hb. eapply Ho; [|by eapply Ab]. intros ->.
    apply bound_to_iff in Hb as (_ & Hb & _). by eapply (no_reference id).
  - intros x r. rewrite lookup_insert. case_decide; [|apply C]. intros [= <-] _. done.
  - intros k r [Hk Hne]%map_lookup_filter_Some. simpl in Hne. eapply Ho; [done|by eapply Rm].
  - intros x [->%elem_of_singleton|Hx]%elem_of_union.
    + split; [done|]. intros (r & Hr & Hdr). simpl in Hr. rewrite lookup_insert_eq in Hr.
      injection Hr as <-. done.
    + destruct (Pd _ Hx) as [? Hn]. split; [done|]. intros (r & Hr & Hdr). simpl in Hr.
      rewrite lookup_insert in Hr. case_decide; [injection Hr as <-; done|].
      apply Hn. by exists r.
Qed.
End Request.

Lemma dl_step_settled c c' : dl_step c c' -> settled c -> settled c'.
Proof.
  destruct 1 as [w w' P R Hu|i w P R T t id a k o w' Hk Hr|i w P R t id o r w' Hr
    |i w P R t id o r w' Hr|w P R owner id row o w' Hr|w P R evals owner id ex p o w' Hr
    |w P R owner id ag row o w' Hr|w P R owner id ws ref row o w' Hr
    |i w P R evals id ex o w' Hr|i w P R roots src pre o w' Hr|w P R owner src o w' Hr
    |w P R snap ok cn cg now src row Hrow Hst|w P R id row Hid Hn Hrow
    |i s w P R owner id o w' Hid Hr|w P R id row Hid Hrow Hd|w P R id Hid|w P R id o w' Hid Hr];
    intros Hs.
  - by eapply unrelated_settled.
  - by eapply admission_settled.
  - by eapply unrelated_settled; [eapply activate_unrelated|].
  - by eapply unrelated_settled; [eapply release_unrelated|].
  - by eapply agent_write_settled; [eapply createAgent_write|].
  - by eapply agent_write_settled; [eapply patchAgent_write|].
  - by eapply agent_write_settled; [eapply cloneAgent_write|].
  - by eapply agent_write_settled; [eapply importAgent_write|].
  - by eapply deleteAgent_settled.
  - by eapply unrelated_settled; [eapply acquireSync_unrelated|].
  - by eapply unrelated_settled; [eapply manual_sync_unrelated|].
  - by eapply unrelated_settled; [eapply finish_sync_unrelated|].
  - by eapply createSource_settled.
  - by eapply request_settled.
  - destruct Hs as [A C Rm Pd Rc]. split; try done; simpl in *; [|set_solver].
    intros x [->%elem_of_singleton|Hx]%elem_of_union; [|auto]. split; [done|].
    intros (r & Hr & Hdr). congruence.
  - destruct Hs as [A C Rm Pd Rc]. split; try done. simpl in *. set_solver.
  - by eapply finalize_settled.
Qed.

(** ** Properties *)


(** ** The handlers are paths of the protocol *)

Section Paths.
Context `{Instance, Surroundings}.
Context (reclaim : ScmSource -> M World Reclaim).
(** The file system is not the database. *)
Hypothesis reclaim_unrelated : forall row w o w', reclaim row w = (o, w') -> unrelated w w'.

Lemma reclaim_step row w o w' P R :
  reclaim row w = (o, w') -> dl_step (mkDeletions w P R) (mkDeletions w' P R).
Proof. intros Hr. apply dl_unrelated. by eapply reclaim_unrelated. Qed.

Definition reclaim_then_finalize (id : string) (row : ScmSource) : M World DeletionResponse :=
  isolated ← reclaim row;
  match isolated with
  | reclaim_blocked _ | reclaim_failed _ => mret deletion_pending
  | reclaim_done paths =>
      deleted ← finalizeDeletion id;
      mret (match deleted with
            | Some row => deletion_done row paths
            | None => deletion_lost
            end)
  end.

Lemma finalize_steps id row w P R o w' :
  id ∈ P -> reclaim_then_finalize id row w = (o, w') ->
  exists R', rtc dl_step (mkDeletions w P R) (mkDeletions w' P R') /\
    match o with
    | Ret (deletion_done _ _) | Ret deletion_lost => id ∈ R'
    | _ => True
    end.
Proof.
  intros Hid [(iso & w1 & Hr & Hk)|(e & Hr & ->)]%bind_inv.
  2: { exists R. split; [|done]. eapply rtc_once, reclaim_step, Hr. }
  destruct iso as [peers|e|paths];
    [injection Hk as <- <-; exists R; split; [eapply rtc_once, reclaim_step, Hr|done]..|].
  exists ({[id]} ∪ R).
  assert (dl_step (mkDeletions w1 P ({[id]} ∪ R)) (mkDeletions w' P ({[id]} ∪ R))) as Hfin.
  { apply bind_inv in Hk as [(del & w2 & Hf & Hk)|(e & Hf & _)];
      [injection Hk as _ <-|]; by eapply dl_finalize. }
  split; [|destruct o as [[]|]; set_solver].
  eapply rtc_l; [eapply reclaim_step, Hr|]. eapply rtc_l; [by apply dl_reclaim|].
  by apply rtc_once.
Qed.

Lemma deleteSource_steps owner busy id w P R o w' :
  id <> "" -> deleteSource owner busy reclaim id w = (o, w') ->
  exists P' R', rtc dl_step (mkDeletions w P R) (mkDeletions w' P' R') /\
    match o with
    | Ret (deletion_done _ _) | Ret deletion_lost => id ∈ R'
    | _ => True
    end.
Proof.
  intros Hid. unfold deleteSource, mbind at 1, M_bind at 1, select, gets, visible_source.
  destruct (db_sources (w_db w) !! id) as [source|] eqn:Hsrc;
    [|intros [= <- <-]; by exists P, R].
  destruct (owned_by owner source); [|intros [= <- <-]; by exists P, R].
  destruct busy; [intros [= <- <-]; by exists P, R|].
  destruct (requestDeletion_run owner id w) as (r & Hrun & _).
  rewrite (bind_run _ _ _ _ _ Hrun).
  pose proof (dl_request _ _ w P R owner id _ _ Hid Hrun) as Hstep. simpl in Hstep.
  destruct r as [|ns|x|x|row rel];
    try (intros [= <- <-]; eexists _, _; split; [by apply rtc_once|done]).
  - destruct (source_deletionRequested source) eqn:Hd;
      [|intros [= <- <-]; eexists _, _; split; [by apply rtc_once|done]].
    intros Hk. apply (finalize_steps id source _ ({[id]} ∪ P) R) in Hk as (R' & Hsteps & Ho);
      [|set_solver].
    exists ({[id]} ∪ P), R'. split; [|done]. eapply rtc_l; [|exact Hsteps].
    by eapply dl_observe.
  - intros Hk. apply (finalize_steps id row _ ({[id]} ∪ P) R) in Hk as (R' & Hsteps & Ho);
      [|set_solver].
    exists ({[id]} ∪ P), R'. split; [|done]. by eapply rtc_l.
Qed.
End Paths.

(** ** A gap: inert references *)

(** An agent with a temporary workspace may come to name a source that is
    already marked; it works in no checkout, but the row cannot go while it
    does: the deletion fails after the storage is gone. *)
Lemma inert_reference_blocks id a s w :
  db_agents (w_db w) !! a = Some s -> agent_scmSourceId s = Some id ->
  (exists row, db_sources (w_db w) !! id = Some row /\ source_deletionRequested row = true) ->
  finalizeDeletion id w = (Throw FOREIGN_KEY, w).
Proof.
  intros Ha Hs (row & Hrow & Hd).
  unfold finalizeDeletion, withScmPathMutation, withTransaction, delete_source_row.
  rewrite Hrow, Hd, decide_False; [by rewrite set_db_id|].
  intros [Hno _]. by eapply (Hno a s).
Qed.

(** ** Witnesses *)

Definition quiet_surroundings : Surroundings :=
  Build_Surroundings (fun _ => None) (fun _ => None) (fun _ d => d) (fun _ => "t")
    (fun s => "/ws/" +:+ s) (fun _ => None) true.

(** A source nobody refers to *)
Definition deletion_demo : World :=
  set_db (fun _ => set_sources (fun _ => {["s1" := ex_source]}) empty_db) empty_world.

Definition marked_demo : World :=
  set_db (requested_db "s1" (requested_source ex_source)) deletion_demo.

Lemma request_demo owner_ : owner_ = None \/ owner_ = Some "u1" ->
  @requestDeletion ex_instance quiet_surroundings owner_ "s1" deletion_demo =
    (Ret (reserved_row (requested_source ex_source) []), marked_demo).
Proof. by intros [-> | ->]; vm_compute. Qed.

Lemma settled_deletion_demo : anchored (w_db deletion_demo).
Proof. by split. Qed.


(** An inert reference can be made after the mark. *)
Lemma inert_reference_made :
  let inert := plain_agent (mkBinding ws_temp (Some "s1")) in
  let w1 := set_db (set_agents (insert "a9" inert)) marked_demo in
  createAgent (Some "u1") "a9" inert marked_demo = (Ret (agent_written (Some inert)), w1) /\
  finalizeDeletion "s1" w1 = (Throw FOREIGN_KEY, w1).
Proof.
  split; [done|]. eapply (inert_reference_blocks "s1" "a9"); [done|done|].
  by exists (requested_source ex_source).
Qed.

(** An import runs without the SCM lock: where its transaction does not exclude
    the request's, the source it looked up may be marked before it inserts, and
    the agent works in a source that is being deleted. *)
Lemma import_enters_marked_source :
  resolveScmRef (Some "u1") (Some "main") deletion_demo = (Ret (Some "s1"), deletion_demo) /\
  exists a w1, insert_agent "a9" (plain_agent (mkBinding ws_scm (Some "s1"))) marked_demo =
      (Ret a, w1) /\ bound_to a "s1" /\ ~ open_source "s1" (w_db w1).
Proof.
  split; [by vm_compute|]. eexists _, _. split; [by vm_compute|]. split; [by vm_compute|].
  intros (row & Hrow & Hd). vm_compute in Hrow. by injection Hrow as <-.
Qed.
