(* ===== verification/ErrorPatterns.v ===== *)
(** * Classification of execution errors

    The pattern tables of [apps/api/src/lib/execute-with-retry.ts] (lines
    193-322) and the predicates built on them.  A pattern is a substring or a
    regular expression, tested on the lower-cased message; the expressions are
    values of [re] and run on a small backtracking matcher that follows the
    JavaScript semantics of the constructs used (no flags set). *)
From S2P Require Import Prelude.
From Stdlib Require Import Ascii.

(** ** Strings *)

Definition lower_char (c : ascii) : ascii :=
  let n := nat_of_ascii c in
  if ((65 <=? n) && (n <=? 90))%nat then ascii_of_nat (n + 32) else c.

(** [s.toLowerCase()] on the ASCII letters *)
Fixpoint toLowerCase (s : string) : string :=
  match s with
  | EmptyString => EmptyString
  | String c s' => String (lower_char c) (toLowerCase s')
  end.

(** [s.includes(sub)] *)
Fixpoint includes (s sub : string) : bool :=
  String.prefix sub s ||
  match s with
  | EmptyString => false
  | String _ s' => includes s' sub
  end.

Definition is_digit (c : ascii) : bool :=
  let n := nat_of_ascii c in ((48 <=? n) && (n <=? 57))%nat.

(** [\w] *)
Definition is_word (c : ascii) : bool :=
  let n := nat_of_ascii c in
  is_digit c || ((65 <=? n) && (n <=? 90) || (97 <=? n) && (n <=? 122))%nat || (n =? 95)%nat.

Definition is_newline (c : ascii) : bool :=
  let n := nat_of_ascii c in ((n =? 10) || (n =? 13))%nat.

(** ** Regular expressions *)

Inductive re :=
| RStr (s : string)             (* the characters of s *)
| RNotDigit                     (* [^\d] *)
| RStart                        (* ^ *)
| REnd                          (* $ *)
| RWordB                        (* \b *)
| RDotStar                      (* .* *)
| ROpt (r : re)                 (* r? *)
| RAlt (r1 r2 : re)             (* r1|r2 *)
| RCat (r1 r2 : re).

(** A position in the text: the character before it and the text after it *)
Definition pos : Type := option ascii * string.

Fixpoint consume (s : string) (p : pos) : list pos :=
  match s with
  | EmptyString => [p]
  | String c s' =>
      match p.2 with
      | String d rest => if ascii_dec c d then consume s' (Some d, rest) else []
      | EmptyString => []
      end
  end.

Fixpoint dot_star (prev : option ascii) (rest : string) : list pos :=
  (prev, rest) ::
  match rest with
  | String c rest' => if is_newline c then [] else dot_star (Some c) rest'
  | EmptyString => []
  end.

Definition word_at (c : option ascii) : bool :=
  match c with Some c => is_word c | None => false end.

Definition next_char (p : pos) : option ascii :=
  match p.2 with String c _ => Some c | EmptyString => None end.

(** The positions a match of [r] from [p] can end at *)
Fixpoint matches (r : re) (p : pos) : list pos :=
  match r with
  | RStr s => consume s p
  | RNotDigit =>
      match p.2 with
      | String c rest => if is_digit c then [] else [(Some c, rest)]
      | EmptyString => []
      end
  | RStart => match p.1 with None => [p] | Some _ => [] end
  | REnd => match p.2 with EmptyString => [p] | String _ _ => [] end
  | RWordB => if xorb (word_at p.1) (word_at (next_char p)) then [p] else []
  | RDotStar => dot_star p.1 p.2
  | ROpt r => matches r p ++ [p]
  | RAlt r1 r2 => matches r1 p ++ matches r2 p
  | RCat r1 r2 => matches r1 p ≫= matches r2
  end.

Fixpoint search (r : re) (prev : option ascii) (s : string) : bool :=
  match matches r (prev, s) with
  | _ :: _ => true
  | [] => match s with
          | EmptyString => false
          | String c s' => search r (Some c) s'
          end
  end.

(** [r.test(s)] *)
Definition re_test (r : re) (s : string) : bool := search r None s.

(** ** The tables *)

Inductive ErrorPattern := PSub (s : string) | PRe (r : re).

Definition seq (l : list re) : re := foldr RCat (RStr "") l.
Definition alts (l : list string) : re :=
  match l with
  | [] => RStr ""
  | s :: l' => foldl (fun r s => RAlt r (RStr s)) (RStr s) l'
  end.
(** [\bw\b] *)
Definition word (r : re) : re := seq [RWordB; r; RWordB].

Definition NUMERIC_BOUNDARY (n : string) : re :=
  seq [RAlt RStart RNotDigit; RStr n; RAlt REnd RNotDigit].

Definition PERMANENT_ERROR_PATTERNS : list ErrorPattern :=
  [PRe (NUMERIC_BOUNDARY "401"); PRe (NUMERIC_BOUNDARY "403"); PSub "unauthorized";
   PSub "forbidden"; PSub "permission denied"; PSub "content policy";
   PRe (word (RStr "safety")); PRe (word (RStr "worktree")); PSub "scm source"].

Definition SOFT_RATELIMIT_PATTERNS : list ErrorPattern :=
  [PRe (NUMERIC_BOUNDARY "429"); PSub "rate limit"; PSub "too many requests"].

Definition HARD_QUOTA_PATTERNS : list ErrorPattern :=
  PSub <$> ["session limit"; "hit your session"; "session_limit"; "daily limit"; "weekly limit";
            "monthly limit"; "quota"; "usage limit"].

Definition CAPABILITY_FALLBACK_PATTERNS : list ErrorPattern :=
  [PRe (seq [RStart; RStr "empty tool list"; REnd]);
   PRe (seq [RStart; RStr "tool list empty"; REnd]);
   PSub "tool calling is not supported"; PSub "tools are not supported";
   PSub "does not support tools";
   PRe (word (RCat (RStr "unsupported tool") (ROpt (RStr "s"))));
   PRe (word (RCat (alts ["invalid"; "unsupported"; "incompatible"]) (RStr " tool schema")));
   PRe (seq [word (RStr "tool schema"); RDotStar;
             word (alts ["invalid"; "unsupported"; "incompatible"; "not supported"; "rejected"])]);
   PSub "schema incompatible";
   PRe (seq [word (RCat (RStr "mcp tool") (ROpt (RStr "s"))); RDotStar;
             word (alts ["not supported"; "unsupported"; "incompatible"; "disabled"])])].

Definition DETERMINISTIC_MODEL_FALLBACK_PATTERNS : list ErrorPattern :=
  PSub <$> ["invalid model"; "model not found"; "unknown model"; "unsupported model"].

Definition ACCOUNT_PROVIDER_FALLBACK_PATTERNS : list ErrorPattern :=
  SOFT_RATELIMIT_PATTERNS ++ HARD_QUOTA_PATTERNS.

Definition PROVIDER_FALLBACK_PATTERNS : list ErrorPattern :=
  ACCOUNT_PROVIDER_FALLBACK_PATTERNS ++ CAPABILITY_FALLBACK_PATTERNS ++
  DETERMINISTIC_MODEL_FALLBACK_PATTERNS.

(** ** The predicates *)

Definition pattern_test (lower : string) (p : ErrorPattern) : bool :=
  match p with PSub s => includes lower s | PRe r => re_test r lower end.

Definition matchAnyPattern (error : option string) (patterns : list ErrorPattern) : bool :=
  match error with
  | None | Some EmptyString => false
  | Some e => existsb (pattern_test (toLowerCase e)) patterns
  end.

Definition isPermanentError (error : option string) : bool :=
  if matchAnyPattern error ACCOUNT_PROVIDER_FALLBACK_PATTERNS then false
  else matchAnyPattern error PERMANENT_ERROR_PATTERNS.

Definition isProviderFallbackableError (error : option string) : bool :=
  if isPermanentError error then false else matchAnyPattern error PROVIDER_FALLBACK_PATTERNS.

Definition isHardQuotaError (error : option string) : bool :=
  matchAnyPattern error HARD_QUOTA_PATTERNS.

Definition isCapabilityOrModelError (error : option string) : bool :=
  matchAnyPattern error (CAPABILITY_FALLBACK_PATTERNS ++ DETERMINISTIC_MODEL_FALLBACK_PATTERNS).

(** ** Lemmas *)

Lemma matchAnyPattern_app e l1 l2 :
  matchAnyPattern e (l1 ++ l2) = matchAnyPattern e l1 || matchAnyPattern e l2.
Proof. destruct e as [[|]|]; [done| |done]. apply existsb_app. Qed.

(** Every hard quota error is fallbackable, and never permanent. *)
Lemma hardQuota_not_permanent e : isHardQuotaError e = true -> isPermanentError e = false.
Proof.
  unfold isHardQuotaError, isPermanentError, ACCOUNT_PROVIDER_FALLBACK_PATTERNS. intros He.
  by rewrite matchAnyPattern_app, He, orb_true_r.
Qed.

Lemma consume_ends s p : consume s p = [] \/ exists prev rest,
  p.2 = s +:+ rest /\ consume s p = [(prev, rest)].
Proof.
  revert p. induction s as [|c s IH]; intros [prev rest]; simpl; [right; by eexists _, _|].
  destruct rest as [|d rest]; [by left|]. destruct (ascii_dec c d) as [->|]; [|by left].
  destruct (IH (Some d, rest)) as [?|(q & r & Hr & Hc)]; [by left|]. right. exists q, r.
  simpl in *. by subst.
Qed.

Lemma consume_self s prev rest : exists q, consume s (prev, s +:+ rest) = [(q, rest)].
Proof.
  revert prev. induction s as [|c s IH]; intros prev; simpl; [by eexists|].
  destruct (ascii_dec c c); [apply IH|done].
Qed.

(** The text after the number: its end, or a character that is no digit *)
Definition no_digit_first (s : string) : Prop :=
  match s with EmptyString => True | String c _ => is_digit c = false end.

Lemma number_here n prev s :
  matches (seq [RStr n; RAlt REnd RNotDigit]) (prev, s) <> [] <->
  exists post, s = n +:+ post /\ no_digit_first post.
Proof.
  simpl. destruct (consume_ends n (prev, s)) as [Hc|(q & rest & Hs & Hc)]; simpl in *.
  - rewrite Hc. split; [done|]. intros (post & -> & _).
    destruct (consume_self n prev post) as [q Hq]. by rewrite Hq in Hc.
  - rewrite Hc, Hs. simpl. rewrite app_nil_r.
    assert (forall post, n +:+ rest = n +:+ post -> rest = post) as Hinj.
    { clear. induction n as [|c n IH]; simpl; [done|]. intros post [= ?]. auto. }
    destruct rest as [|d rest]; simpl.
    + split; [|done]. intros _. by exists "".
    + destruct (is_digit d) eqn:Hd; simpl; split; try done.
      * intros (post & <-%Hinj & Hp). simpl in Hp. congruence.
      * intros _. by exists (String d rest).
Qed.

Lemma bind_not_nil {A B} (l : list A) (f : A -> list B) :
  l ≫= f <> [] <-> exists x, x ∈ l /\ f x <> [].
Proof.
  induction l as [|x l IH]; simpl.
  - split; [done|]. intros (x & Hx & _). by apply elem_of_nil in Hx.
  - split.
    + intros Hn. destruct (f x) eqn:Hf.
      * apply IH in Hn as (y & ? & ?). exists y. split; [by right|done].
      * exists x. split; [by left|]. by rewrite Hf.
    + intros (y & [->|Hy]%elem_of_cons & Hf) Hnil; apply app_eq_nil in Hnil as [H1 H2]; [done|].
      revert H2. apply IH. eauto.
Qed.

Lemma number_matches n prev s :
  matches (NUMERIC_BOUNDARY n) (prev, s) <> [] <->
  prev = None /\ (exists post, s = n +:+ post /\ no_digit_first post) \/
  exists c post, s = String c (n +:+ post) /\ is_digit c = false /\ no_digit_first post.
Proof.
  change (matches (NUMERIC_BOUNDARY n) (prev, s)) with
    ((matches RStart (prev, s) ++ matches RNotDigit (prev, s)) ≫=
      matches (seq [RStr n; RAlt REnd RNotDigit])).
  rewrite bind_not_nil. split.
  - intros ([q r] & [Hin|Hin]%elem_of_app & Hm); apply number_here in Hm as (post & -> & Hp);
      simpl in Hin.
    + destruct prev; [by apply elem_of_nil in Hin|].
      apply list_elem_of_singleton in Hin as [= _ <-]. left. eauto.
    + destruct s as [|c s]; [by apply elem_of_nil in Hin|].
      destruct (is_digit c) eqn:Hc; [by apply elem_of_nil in Hin|].
      apply list_elem_of_singleton in Hin as [= _ <-]. right. eauto.
  - intros [[-> (post & -> & Hp)]|(c & post & -> & Hc & Hp)].
    + exists (None, n +:+ post). split; [by left|]. apply number_here. eauto.
    + exists (Some c, n +:+ post). split; [|apply number_here; eauto].
      apply elem_of_app. right. simpl. rewrite Hc. by left.
Qed.

Lemma search_cons r prev s :
  search r prev s = true <-> matches r (prev, s) <> [] \/
    exists c s', s = String c s' /\ search r (Some c) s' = true.
Proof.
  destruct s as [|c s]; cbn [search];
    destruct (matches r _) as [|x l] eqn:Hm; rewrite ?Hm; split; intros Hs; try done;
    try (by left); try (by destruct Hs as [|(? & ? & ? & _)]).
  - right. eauto.
  - destruct Hs as [|(? & ? & [= <- <-] & ?)]; done.
Qed.

(** The text before the number: empty, or ending in no digit *)
Fixpoint no_digit_last (s : string) : Prop :=
  match s with
  | EmptyString => True
  | String c EmptyString => is_digit c = false
  | String _ s' => no_digit_last s'
  end.

Lemma search_number n prev s :
  search (NUMERIC_BOUNDARY n) prev s = true <->
  exists pre post, s = pre +:+ n +:+ post /\ no_digit_first post /\ no_digit_last pre /\
    (pre = "" -> prev = None).
Proof.
  revert prev. induction s as [|c s IH]; intros prev; rewrite search_cons, number_matches; split.
  - intros [[[-> (post & Hs & Hp)]|(c & post & Hs & _)]|(? & ? & Hs & _)]; [|done|done].
    by exists "", post.
  - intros (pre & post & Hs & Hp & Hl & Hpre). destruct pre; [|done]. left; left. eauto.
  - intros [[[-> (post & Hs & Hp)]|(d & post & [= <- ->] & Hd & Hp)]|(d & s' & [= <- <-] & Hs)].
    + by exists "", post.
    + exists (String c ""), post. done.
    + apply IH in Hs as (pre & post & -> & Hp & Hl & Hpre). exists (String c pre), post.
      destruct pre; [specialize (Hpre eq_refl); done|]. done.
  - intros (pre & post & Hs & Hp & Hl & Hpre). destruct pre as [|d pre]; simpl in Hs.
    + left; left. split; [by apply Hpre|]. eauto.
    + injection Hs as <- Hs. destruct pre as [|e pre].
      * left; right. exists c, post. simpl in *. by rewrite Hs.
      * right. exists c, s. split; [done|]. apply IH. exists (String e pre), post. done.
Qed.

(** ** Properties *)

(** Status codes are matched as numbers: the pattern of a code is found in a
    message exactly where the code stands with no digit right before it and
    none right after it, so [401] is not found in [4012ms]. *)
Theorem status_code_boundary n s :
  re_test (NUMERIC_BOUNDARY n) s = true <->
  exists pre post, s = pre +:+ n +:+ post /\ no_digit_last pre /\ no_digit_first post.
Proof.
  unfold re_test. rewrite search_number. split.
  - intros (pre & post & ? & ? & ? & _). eauto.
  - intros (pre & post & ? & ? & ?). by exists pre, post.
Qed.

(** The tables on messages of the kinds their comments name *)
Example permanent_403 : isPermanentError (Some "HTTP 403 Forbidden") = true.
Proof. reflexivity. Qed.
Example duration_not_401 : isPermanentError (Some "finished in 4012ms") = false.
Proof. reflexivity. Qed.
Example quota_403 : isProviderFallbackableError (Some "403: usage limit reached") = true.
Proof. reflexivity. Qed.
Example thread_safety_word : isPermanentError (Some "safety_net tripped") = false.
Proof. reflexivity. Qed.
Example schema_rejected :
  isCapabilityOrModelError (Some "Tool schema for x was rejected by the model") = true.
Proof. reflexivity. Qed.
(** The hyphen is a word boundary, so a message about thread-safety counts as a
    permanent error although the table's comment says it does not. *)
Example thread_safety_permanent : isPermanentError (Some "thread-safety violation") = true.
Proof. reflexivity. Qed.
