(* ===== verification/ExecuteRetry.v ===== *)
(** * Execution with retries and provider fallback

    [apps/api/src/lib/execute-with-retry.ts]: every execution of an agent goes
    through [executeWithRetry], which spends a budget of attempts per provider
    of the agent's chain, within a wall-clock deadline.

    What happens outside the process is an environment read by an increasing
    counter of observations: the clock, the run's status row, the worker, the
    random numbers and the tracer. *)
From stdpp Require Import pretty.
From S2P Require Import Prelude Json Schema LeaseRegistry ErrorPatterns.

Definition nonempty (s : option string) : option string :=
  match s with Some EmptyString => None | _ => s end.

(** ** Data *)

Inductive AuthMode := apiKey | oauth | localSession.
#[export] Instance AuthMode_eq_dec : EqDecision AuthMode.
Proof. solve_decision. Defined.

Record ResolvedProviderBinding := mkBinding {
  pb_id : string;
  pb_providerId : string;
  pb_providerName : string;
  pb_providerKind : string;
  pb_engineType : string;
  pb_model : option string;
  pb_reasoningEffort : option string;
  pb_fastMode : bool;
  pb_initScript : option string;
  pb_checkScript : option string;
  pb_skillsDir : option string;
  pb_mcpConfigPath : option string;
  pb_mcpDelivery : string;
  pb_providerApiKey : option string;
  pb_providerBaseUrl : option string;
  pb_providerOauthToken : option string;
  pb_authMode : AuthMode;
  pb_authHeaderStyle : option string
}.

(** The fields of [AgentConfig] a binding sets *)
Record ProviderFields := mkProviderFields {
  providerId : option string;
  providerName : option string;
  providerKind : option string;
  engineType : option string;
  initScript : option string;
  checkScript : option string;
  authMode : option AuthMode;
  authHeaderStyle : option string;
  cfg_model : option string;
  reasoningEffort : option string;
  fastMode : option bool;
  skillsDir : option string;
  mcpConfigPath : option string;
  mcpDelivery : option string;
  providerApiKey : option string;
  providerBaseUrl : option string;
  providerOauthToken : option string
}.

Definition env_map := gmap string string.

Record McpServer := mkMcp { mcp_name : string; mcp_env : option env_map }.

(** [AgentConfig], with the fields this module reads or writes; an element of
    [providerChain] that is no resolved binding is [None]. *)
Record AgentConfig := mkConfig {
  cfg_agentId : option string;
  cfg_maxRetries : option Z;
  cfg_timeoutMinutes : option Z;
  cfg_totalTimeoutMinutes : option Z;
  cfg_providerChain : option (list (option ResolvedProviderBinding));
  cfg_agentEnv : option env_map;
  cfg_resolvedMcpServers : option (list McpServer);
  cfg_provider : ProviderFields
}.

Record WorkerTaskPayload := mkPayload {
  pl_model : option string;
  pl_chatId : option string;
  pl_agentConfig : option AgentConfig;
  pl_channel : option json;
  pl_referencedPromptContext : option json
}.

Record ExecuteWorkerResult := mkWorkerResult {
  res_success : bool;
  res_output : string;
  res_chatId : option string;
  res_error : option string;
  res_durationMs : Z;
  res_usage : option TokenUsage
}.

Record RetryRecord := mkRetry {
  retry_attempt : Z;
  retry_error : option string;
  retry_durationMs : Z
}.

Inductive StreamLogEntry :=
| LSystem (subtype : string) (model providerName nextProviderName : option string)
    (metadata : option js_object) (ts : Z)
| LAssistant (text : string) (partial_ : bool) (ts : Z)
| LToolCall (subtype callId toolName : string) (input : option js_object) (error : option string)
    (metadata : option js_object) (output : option string) (ts : Z)
| LToolHeartbeat (callId toolName : string) (elapsedMs ts : Z)
| LResult (subtype : string) (durationMs : option Z) (usage : option TokenUsage)
    (fastModeState : option string) (ts : Z)
| LError (message : string) (ts : Z)
| LRetry (attempt nextAttemptIn ts : Z)
| LExecParams (engine : string) (params : js_object) (ts : Z).

Record StickyProviderFallback := mkSticky {
  sticky_bindingId : string;
  sticky_providerId : string;
  sticky_expiresAt : Z
}.

Record ChatProviderBinding := mkChat { chat_bindingId : string; chat_expiresAt : Z }.

(** ** Configuration *)

Definition A2WAVE_AGENT_ROUTER_MCP_NAME : string := "a2wave-agent-router".

Definition with_env (agentEnv : env_map) (servers : option (list McpServer)) (c : AgentConfig)
    : AgentConfig :=
  mkConfig (cfg_agentId c) (cfg_maxRetries c) (cfg_timeoutMinutes c) (cfg_totalTimeoutMinutes c)
    (cfg_providerChain c) (Some agentEnv)
    (match servers with Some s => Some s | None => cfg_resolvedMcpServers c end) (cfg_provider c).

Definition with_provider (p : ProviderFields) (c : AgentConfig) : AgentConfig :=
  mkConfig (cfg_agentId c) (cfg_maxRetries c) (cfg_timeoutMinutes c) (cfg_totalTimeoutMinutes c)
    (cfg_providerChain c) (cfg_agentEnv c) (cfg_resolvedMcpServers c) p.

Definition inject_server (runtimeEnv : env_map) (server : McpServer) : McpServer :=
  if decide (mcp_name server <> A2WAVE_AGENT_ROUTER_MCP_NAME) then server
  else mkMcp (mcp_name server) (Some (runtimeEnv ∪ default ∅ (mcp_env server))).

Definition injectRouterRuntimeEnvIntoAgentConfig (agentConfig : AgentConfig) (runtimeEnv : env_map)
    : AgentConfig :=
  with_env (runtimeEnv ∪ default ∅ (cfg_agentEnv agentConfig))
    (option_map (List.map (inject_server runtimeEnv)) (cfg_resolvedMcpServers agentConfig)) agentConfig.

(** [authMode] is the one provider field the clearing leaves. *)
Definition clearProviderBinding (p : ProviderFields) : ProviderFields :=
  mkProviderFields None None None None None None (authMode p) None None None None None None None
    None None None.

Definition applyProviderBinding (p : ProviderFields) (binding : ResolvedProviderBinding)
    : ProviderFields :=
  let p0 := clearProviderBinding p in
  let secret x := if decide (pb_authMode binding <> localSession) then nonempty x else None in
  mkProviderFields (Some (pb_providerId binding)) (Some (pb_providerName binding))
    (Some (pb_providerKind binding)) (Some (pb_engineType binding))
    (pb_initScript binding) (pb_checkScript binding) (Some (pb_authMode binding))
    (match nonempty (pb_authHeaderStyle binding) with Some x => Some x | None => authHeaderStyle p0 end)
    (match nonempty (pb_model binding) with Some x => Some x | None => cfg_model p0 end)
    (match nonempty (pb_reasoningEffort binding) with Some x => Some x | None => reasoningEffort p0 end)
    (if pb_fastMode binding then Some true else fastMode p0)
    (match nonempty (pb_skillsDir binding) with Some x => Some x | None => skillsDir p0 end)
    (match nonempty (pb_mcpConfigPath binding) with Some x => Some x | None => mcpConfigPath p0 end)
    (Some (pb_mcpDelivery binding))
    (match secret (pb_providerApiKey binding) with Some x => Some x | None => providerApiKey p0 end)
    (match secret (pb_providerBaseUrl binding) with Some x => Some x | None => providerBaseUrl p0 end)
    (match secret (pb_providerOauthToken binding) with
     | Some x => Some x | None => providerOauthToken p0 end).

Definition getProviderChain (payload : WorkerTaskPayload) : list ResolvedProviderBinding :=
  match pl_agentConfig payload ≫= cfg_providerChain with
  | Some chain => omap id chain
  | None => []
  end.

Definition empty_provider : ProviderFields :=
  mkProviderFields None None None None None None None None None None None None None None None None None.

(** [{ ...undefined }] is the empty object *)
Definition empty_config : AgentConfig := mkConfig None None None None None None None empty_provider.

Definition withProviderBinding (payload : WorkerTaskPayload) (binding : ResolvedProviderBinding)
    (resetChat : bool) : WorkerTaskPayload :=
  let nextAgentConfig := default empty_config (pl_agentConfig payload) in
  mkPayload (pb_model binding) (if resetChat then None else pl_chatId payload)
    (Some (with_provider (applyProviderBinding (cfg_provider nextAgentConfig) binding) nextAgentConfig))
    (pl_channel payload) (pl_referencedPromptContext payload).

Definition with_config (c : AgentConfig) (payload : WorkerTaskPayload) : WorkerTaskPayload :=
  mkPayload (pl_model payload) (pl_chatId payload) (Some c) (pl_channel payload)
    (pl_referencedPromptContext payload).

Definition stripToolOutput (entry : StreamLogEntry) : StreamLogEntry :=
  match entry with
  | LToolCall subtype callId toolName input error metadata (Some _) ts =>
      LToolCall subtype callId toolName input error metadata None ts
  | _ => entry
  end.

(** [TOKEN_USAGE_FIELDS] *)
Inductive UsageField := fInput | fOutput | fReasoning | fCacheRead | fCacheWrite.

Definition field_of (f : UsageField) : TokenUsage -> option Z :=
  match f with
  | fInput => inputTokens | fOutput => outputTokens | fReasoning => reasoningTokens
  | fCacheRead => cacheReadTokens | fCacheWrite => cacheWriteTokens
  end.

Definition add_field (target delta : option Z) : option Z :=
  match delta with Some v => Some (default 0%Z target + v)%Z | None => target end.

Definition accumulateUsage (target : option TokenUsage) (delta : TokenUsage) : option TokenUsage :=
  if decide (inputTokens delta = None /\ outputTokens delta = None /\ reasoningTokens delta = None /\
             cacheReadTokens delta = None /\ cacheWriteTokens delta = None) then target
  else
    let t := default empty_usage target in
    Some (mkUsage (add_field (inputTokens t) (inputTokens delta))
            (add_field (outputTokens t) (outputTokens delta))
            (add_field (reasoningTokens t) (reasoningTokens delta))
            (add_field (cacheReadTokens t) (cacheReadTokens delta))
            (add_field (cacheWriteTokens t) (cacheWriteTokens delta))).

Definition rotateProviderChainForStickyFallback (providerChain : list ResolvedProviderBinding)
    (sticky : option StickyProviderFallback) : list ResolvedProviderBinding :=
  match sticky with
  | None => providerChain
  | Some st =>
      match list_find (fun p => pb_id p = sticky_bindingId st) providerChain with
      | None | Some (O, _) => providerChain
      | Some (i, _) => drop i providerChain ++ take i providerChain
      end
  end.

(** ** Environment and state *)

(** What the [n]-th observation sees.  [random_at] is the numerator of
    [Math.random()] over 2^53; [worker_at] is one worker execution: the log
    entries it emits and how it ends; [b64url_json] is
    [Buffer.from(JSON.stringify(v), 'utf8').toString('base64url')]. *)
Class Env := {
  now_at : nat -> Z;
  status_at : nat -> string -> outcome (option RunStatus);
  random_at : nat -> Z;
  worker_at : nat -> WorkerTaskPayload -> option Z ->
    list StreamLogEntry * outcome ExecuteWorkerResult;
  traceparent_at : nat -> option string;
  baggage : option string;
  b64url_json : json -> string
}.

(** An execution handed to the worker, and how it ended *)
Record WorkerCall := mkCall {
  call_provider : nat;
  call_attempt : Z;
  call_payload : WorkerTaskPayload;
  call_timeoutMs : option Z;
  call_tick : nat;
  call_result : outcome ExecuteWorkerResult
}.

(** The collector of [createLogCollector] *)
Record LogCollector := mkCollector { col_logs : list StreamLogEntry; col_truncated : bool }.

Record Exec := mkExec {
  x_tick : nat;
  x_sticky : gmap string StickyProviderFallback;    (* stickyProviderFallbackByAgentId *)
  x_chats : gmap string ChatProviderBinding;        (* chatBindingByChatId *)
  x_calls : list WorkerCall;                        (* executeInWorker, oldest first *)
  x_collector : LogCollector;
  x_traced : list StreamLogEntry;                   (* entries the tracer received *)
  x_file : list StreamLogEntry;                     (* entries of the run log file *)
  x_streamed : list StreamLogEntry;                 (* entries of options.onLogEntry *)
  x_reg : Registry
}.

Definition set_tick n s := mkExec n (x_sticky s) (x_chats s) (x_calls s) (x_collector s)
  (x_traced s) (x_file s) (x_streamed s) (x_reg s).
Definition set_sticky f s := mkExec (x_tick s) (f (x_sticky s)) (x_chats s) (x_calls s)
  (x_collector s) (x_traced s) (x_file s) (x_streamed s) (x_reg s).
Definition set_chats f s := mkExec (x_tick s) (x_sticky s) (f (x_chats s)) (x_calls s)
  (x_collector s) (x_traced s) (x_file s) (x_streamed s) (x_reg s).
Definition add_call c s := mkExec (x_tick s) (x_sticky s) (x_chats s) (x_calls s ++ [c])
  (x_collector s) (x_traced s) (x_file s) (x_streamed s) (x_reg s).
Definition set_collector c s := mkExec (x_tick s) (x_sticky s) (x_chats s) (x_calls s) c
  (x_traced s) (x_file s) (x_streamed s) (x_reg s).
Definition add_traced e s := mkExec (x_tick s) (x_sticky s) (x_chats s) (x_calls s)
  (x_collector s) (x_traced s ++ [e]) (x_file s) (x_streamed s) (x_reg s).
Definition add_file e s := mkExec (x_tick s) (x_sticky s) (x_chats s) (x_calls s)
  (x_collector s) (x_traced s) (x_file s ++ [e]) (x_streamed s) (x_reg s).
Definition add_streamed e s := mkExec (x_tick s) (x_sticky s) (x_chats s) (x_calls s)
  (x_collector s) (x_traced s) (x_file s) (x_streamed s ++ [e]) (x_reg s).
Definition set_reg g s := mkExec (x_tick s) (x_sticky s) (x_chats s) (x_calls s)
  (x_collector s) (x_traced s) (x_file s) (x_streamed s) g.

Definition STICKY_PROVIDER_FALLBACK_TTL_MS : Z := 30 * 60 * 1000.
Definition MAX_STREAM_LOGS : nat := 1000.

Section Core.
Context `{Env}.

(** The next observation *)
Definition observe {A} (f : nat -> A) : M Exec A := fun s =>
  (Ret (f (x_tick s)), set_tick (S (x_tick s)) s).

Definition date_now : M Exec Z := observe now_at.

Definition lift {A} (o : outcome A) : M Exec A := fun s => (o, s).

(** ** Sticky providers *)

Definition pruneExpiredStickyProviderFallbacks (now : Z) : M Exec unit :=
  modify (set_sticky (filter (fun kv => ~ (sticky_expiresAt kv.2 <= now)%Z))).

Definition pruneExpiredChatBindings (now : Z) : M Exec unit :=
  modify (set_chats (filter (fun kv => ~ (chat_expiresAt kv.2 <= now)%Z))).

Definition getStickyProviderFallback (agentId : option string)
    : M Exec (option StickyProviderFallback) :=
  match nonempty agentId with
  | None => mret None
  | Some a =>
      sticky ← gets (fun s => x_sticky s !! a);
      match sticky with
      | None => mret None
      | Some st =>
          now ← date_now;
          if (sticky_expiresAt st <=? now)%Z then
            _ ← modify (set_sticky (delete a));
            now' ← date_now;
            _ ← pruneExpiredChatBindings now';
            mret None
          else mret (Some st)
      end
  end.

Definition rememberStickyProviderFallback (agentId : option string)
    (binding : ResolvedProviderBinding) : M Exec unit :=
  match nonempty agentId with
  | None => mret tt
  | Some a =>
      now ← date_now;
      _ ← pruneExpiredStickyProviderFallbacks now;
      modify (set_sticky (insert a (mkSticky (pb_id binding) (pb_providerId binding)
        (now + STICKY_PROVIDER_FALLBACK_TTL_MS))))
  end.

Definition rememberChatProvider (chatId : option string)
    (binding : option ResolvedProviderBinding) : M Exec unit :=
  match nonempty chatId, binding with
  | Some c, Some b =>
      now ← date_now;
      _ ← pruneExpiredChatBindings now;
      modify (set_chats (insert c (mkChat (pb_id b) (now + STICKY_PROVIDER_FALLBACK_TTL_MS))))
  | _, _ => mret tt
  end.

Definition getChatBindingId (chatId : string) : M Exec (option string) :=
  binding ← gets (fun s => x_chats s !! chatId);
  match binding with
  | None => mret None
  | Some b =>
      now ← date_now;
      if (chat_expiresAt b <=? now)%Z then
        _ ← modify (set_chats (delete chatId)); mret None
      else mret (Some (chat_bindingId b))
  end.

Definition isRunCancelled (runId : option string) : M Exec bool :=
  match nonempty runId with
  | None => mret false
  | Some id =>
      status ← observe (fun n => status_at n id);
      status' ← lift status;
      mret (bool_decide (status' = Some cancelled))
  end.

(** [Math.round(2 ** (attempt - 1) * 1000 * (1 + Math.random() * 0.2))], in
    exact arithmetic *)
Definition jittered (baseMs r : Z) : Z :=
  ((2 * baseMs * (5 * 2 ^ 53 + r) + 5 * 2 ^ 53) / (10 * 2 ^ 53))%Z.

Definition backoffWithJitter (attempt : Z) : M Exec Z :=
  let baseMs := (2 ^ (attempt - 1) * 1000)%Z in
  r ← observe random_at;
  mret (jittered baseMs r).

(** ** Log entries *)

Definition collectLog (entry : StreamLogEntry) : M Exec unit :=
  col ← gets x_collector;
  if (length (col_logs col) <? MAX_STREAM_LOGS)%nat then
    modify (set_collector (mkCollector (col_logs col ++ [entry]) (col_truncated col)))
  else if col_truncated col then mret tt
  else
    ts ← date_now;
    modify (set_collector
      (mkCollector (col_logs col ++ [LSystem "truncated" None None None None ts]) true)).

Definition mergedOnLogEntry (external : StreamLogEntry -> M Exec unit) (entry : StreamLogEntry)
    : M Exec unit :=
  _ ← collectLog (stripToolOutput entry);
  external entry.

(** ** One attempt *)

(** The constants of one [executeWithRetryCore] call *)
Record RetryContext := mkContext {
  rc_runId : option string;
  rc_payload : WorkerTaskPayload;                   (* effectivePayload *)
  rc_maxAttempts : Z;
  rc_timeoutMs : option Z;
  rc_deadlineAt : option Z;
  rc_rawChain : list ResolvedProviderBinding;
  rc_sticky : option StickyProviderFallback;
  rc_hasProviderFallback : bool;
  rc_providersToTry : list (option ResolvedProviderBinding)
}.

(** Its variables *)
Record Locals := mkLocals {
  l_lastResult : ExecuteWorkerResult;
  l_usage : option TokenUsage;
  l_retries : list RetryRecord;
  l_resetChat : gset string                         (* resetChatForBindingIds *)
}.

(** How an iteration of the inner loop ends: [return], to the next attempt, or
    [break] to the next provider *)
Inductive flow := Returned (l : Locals) | NextAttempt (l : Locals) | NextProvider (l : Locals).

Context (external : StreamLogEntry -> M Exec unit) (ctx : RetryContext).

Definition rc_agentId : option string := pl_agentConfig (rc_payload ctx) ≫= cfg_agentId.

Definition isPastDeadline : M Exec bool :=
  match rc_deadlineAt ctx with
  | None => mret false
  | Some deadlineAt => now ← date_now; mret (deadlineAt <=? now)%Z
  end.

Definition resolveWorkerTimeoutMs : M Exec (option Z) :=
  match rc_deadlineAt ctx with
  | None => mret (rc_timeoutMs ctx)
  | Some deadlineAt =>
      now ← date_now;
      let remainingMs := Z.max 0 (deadlineAt - now) in
      mret (Some (match rc_timeoutMs ctx with
                  | Some t => Z.min t remainingMs
                  | None => remainingMs
                  end))
  end.

Definition resets_chat (binding : ResolvedProviderBinding) (knownChatBindingId : option string)
    (l : Locals) : bool :=
  let resetChatForStickyProvider :=
    bool_decide (sticky_bindingId <$> rc_sticky ctx = Some (pb_id binding)) &&
    bool_decide (pb_id <$> head (rc_rawChain ctx) <> Some (pb_id binding)) &&
    bool_decide (is_Some (nonempty (pl_chatId (rc_payload ctx)))) &&
    match knownChatBindingId with
    | Some known => bool_decide (known <> pb_id binding)
    | None => false
    end in
  bool_decide (pb_id binding ∈ l_resetChat l) || resetChatForStickyProvider.

Definition attempt_payload (binding : option ResolvedProviderBinding) (l : Locals)
    : M Exec WorkerTaskPayload :=
  known ← (match nonempty (pl_chatId (rc_payload ctx)) with
           | Some c => getChatBindingId c
           | None => mret None
           end);
  mret (match binding with
        | Some b => withProviderBinding (rc_payload ctx) b (resets_chat b known l)
        | None => rc_payload ctx
        end).

Definition traced_payload (traceparent : option string) (payload : WorkerTaskPayload)
    : WorkerTaskPayload :=
  match nonempty traceparent, pl_agentConfig payload with
  | Some t, Some c =>
      with_config (injectRouterRuntimeEnvIntoAgentConfig c
        (<["TRACEPARENT" := t]> (match nonempty baggage with
                                 | Some b => {["BAGGAGE" := b]}
                                 | None => ∅
                                 end))) payload
  | _, _ => payload
  end.

Definition run_worker (providerIndex : nat) (attempt : Z) (payload : WorkerTaskPayload)
    : M Exec ExecuteWorkerResult :=
  workerTimeoutMs ← resolveWorkerTimeoutMs;
  traceparent ← observe traceparent_at;
  let tracedPayload := traced_payload traceparent payload in
  tick ← gets x_tick;
  ended ← observe (fun n => worker_at n tracedPayload workerTimeoutMs);
  _ ← modify (add_call (mkCall providerIndex attempt tracedPayload workerTimeoutMs tick ended.2));
  _ ← for_each ended.1 (mergedOnLogEntry external);
  lift ended.2.

Definition with_usage (u : option TokenUsage) (r : ExecuteWorkerResult) : ExecuteWorkerResult :=
  match u with
  | Some _ => mkWorkerResult (res_success r) (res_output r) (res_chatId r) (res_error r)
                (res_durationMs r) u
  | None => r
  end.

Definition account_usage (result : ExecuteWorkerResult) (l : Locals) : Locals :=
  let usage := match res_usage result with
               | Some u => accumulateUsage (l_usage l) u
               | None => l_usage l
               end in
  mkLocals (with_usage usage result) usage (l_retries l) (l_resetChat l).

Definition on_success (providerIndex : nat) (attempt : Z) (binding : option ResolvedProviderBinding)
    (l : Locals) : M Exec unit :=
  _ ← rememberChatProvider (res_chatId (l_lastResult l)) binding;
  _ ← (match binding with
       | Some b => if decide (sticky_bindingId <$> rc_sticky ctx = Some (pb_id b))
                   then rememberStickyProviderFallback rc_agentId b else mret tt
       | None => mret tt
       end);
  if ((1 <? attempt)%Z || (0 <? providerIndex)%nat) then
    match binding with
    | Some b => rememberStickyProviderFallback rc_agentId b
    | None => mret tt
    end
  else mret tt.

Definition with_error (e : string) (r : ExecuteWorkerResult) : ExecuteWorkerResult :=
  mkWorkerResult (res_success r) (res_output r) (res_chatId r) (Some e) (res_durationMs r)
    (res_usage r).

Definition named_error (binding : option ResolvedProviderBinding) (error : option string)
    (absent : string) : option string :=
  match binding with
  | Some b => Some ("[" +:+ pb_providerName b +:+ "] " +:+ default absent error)
  | None => error
  end.

Definition push_retry (r : RetryRecord) (l : Locals) : Locals :=
  mkLocals (l_lastResult l) (l_usage l) (l_retries l ++ [r]) (l_resetChat l).

Definition over_budget (binding : option ResolvedProviderBinding) (attempt durationMs : Z)
    (l : Locals) : Locals :=
  let minutes := match pl_agentConfig (rc_payload ctx) ≫= cfg_totalTimeoutMinutes with
                 | Some m => pretty m
                 | None => "undefined"
                 end in
  let last := with_error ("Run exceeded its total timeout of " +:+ minutes +:+
    " minutes (last error: " +:+ default "execution failed" (res_error (l_lastResult l)) +:+ ")")
    (l_lastResult l) in
  push_retry (mkRetry attempt (named_error binding (res_error last) "undefined") durationMs)
    (mkLocals last (l_usage l) (l_retries l) (l_resetChat l)).

Definition nextProvider (providerIndex : nat) : option ResolvedProviderBinding :=
  mjoin (rc_providersToTry ctx !! S providerIndex).

Definition mark_reset (b : option ResolvedProviderBinding) (l : Locals) : Locals :=
  match b with
  | Some p => mkLocals (l_lastResult l) (l_usage l) (l_retries l) ({[pb_id p]} ∪ l_resetChat l)
  | None => l
  end.

(** The [provider_fallback] entry of both switch paths *)
Definition switch_provider (providerIndex : nat) (binding : option ResolvedProviderBinding)
    (l : Locals) : M Exec Locals :=
  ts ← date_now;
  _ ← mergedOnLogEntry external (LSystem "provider_fallback" None (pb_providerName <$> binding)
        (pb_providerName <$> nextProvider providerIndex) None ts);
  mret (mark_reset (nextProvider providerIndex) l).

Definition can_switch (providerIndex : nat) : bool :=
  rc_hasProviderFallback ctx && (providerIndex <? length (rc_providersToTry ctx) - 1)%nat.

Definition backoff_and_retry (attempt : Z) (l : Locals) : M Exec flow :=
  cancelled ← isRunCancelled (rc_runId ctx);
  if (cancelled : bool) then mret (Returned l)
  else
    backoffMs ← backoffWithJitter attempt;
    outlasts ← (match rc_deadlineAt ctx with
                | None => mret false
                | Some deadlineAt => now ← date_now; mret (deadlineAt <=? now + backoffMs)%Z
                end);
    if (outlasts : bool) then mret (Returned l)
    else
      ts ← date_now;
      _ ← mergedOnLogEntry external (LRetry attempt backoffMs ts);
      mret (NextAttempt l).

Definition on_failure (providerIndex : nat) (binding : option ResolvedProviderBinding)
    (attempt durationMs : Z) (l : Locals) : M Exec flow :=
  let error := res_error (l_lastResult l) in
  if can_switch providerIndex && isProviderFallbackableError error then
    cancelled ← isRunCancelled (rc_runId ctx);
    if (cancelled : bool) then mret (Returned l)
    else l' ← switch_provider providerIndex binding l; mret (NextProvider l')
  else
    let l1 := push_retry (mkRetry attempt (named_error binding error "Execution failed") durationMs) l in
    if isPermanentError error then mret (Returned l1)
    else if isHardQuotaError error || isCapabilityOrModelError error then mret (Returned l1)
    else if (attempt <? rc_maxAttempts ctx)%Z then backoff_and_retry attempt l1
    else if can_switch providerIndex then
      l2 ← switch_provider providerIndex binding l1; mret (NextAttempt l2)
    else mret (NextAttempt l1).

(** After the worker has returned and its usage is accounted for *)
Definition judge_result (providerIndex : nat) (binding : option ResolvedProviderBinding)
    (attempt startTime : Z) (l : Locals) : M Exec flow :=
  if res_success (l_lastResult l) then
    _ ← on_success providerIndex attempt binding l; mret (Returned l)
  else
    past ← isPastDeadline;
    if (past : bool) then
      now ← date_now; mret (Returned (over_budget binding attempt (now - startTime) l))
    else
      now ← date_now; on_failure providerIndex binding attempt (now - startTime) l.

Definition attempt_once (providerIndex : nat) (binding : option ResolvedProviderBinding)
    (attempt : Z) (l : Locals) : M Exec flow :=
  cancelled ← isRunCancelled (rc_runId ctx);
  if (cancelled : bool) then mret (Returned l)
  else
    past ← isPastDeadline;
    if (past : bool) then mret (Returned l)
    else
      payload ← attempt_payload binding l;
      startTime ← date_now;
      _ ← (match binding with
           | Some b =>
               ts ← date_now;
               mergedOnLogEntry external (LSystem "provider_attempt" (pl_model payload)
                 (Some (pb_providerName b)) None None ts)
           | None => mret tt
           end);
      result ← run_worker providerIndex attempt payload;
      judge_result providerIndex binding attempt startTime (account_usage result l).

(** ** The two loops *)

Fixpoint attempts (budget : nat) (providerIndex : nat) (binding : option ResolvedProviderBinding)
    (attempt : Z) (l : Locals) : M Exec flow :=
  match budget with
  | O => mret (NextProvider l)
  | S budget' =>
      f ← attempt_once providerIndex binding attempt l;
      match f with
      | NextAttempt l' => attempts budget' providerIndex binding (attempt + 1) l'
      | _ => mret f
      end
  end.

Fixpoint walk (providers : list (option ResolvedProviderBinding)) (providerIndex : nat)
    (l : Locals) : M Exec Locals :=
  match providers with
  | [] => mret l
  | binding :: rest =>
      let l1 := if (0 <? providerIndex)%nat then mark_reset binding l else l in
      f ← attempts (Z.to_nat (rc_maxAttempts ctx)) providerIndex binding 1 l1;
      match f with
      | Returned l' => mret l'
      | NextAttempt l' | NextProvider l' => walk rest (S providerIndex) l'
      end
  end.
End Core.

Section Execute.
Context `{Env}.

Definition router_runtime_env (payload : WorkerTaskPayload) : env_map :=
  (match pl_channel payload with
   | Some v => if truthy (Some v) then {["A2WAVE_CHANNEL_B64" := b64url_json v]} else ∅
   | None => ∅
   end) ∪
  (match pl_referencedPromptContext payload with
   | Some v => if truthy (Some v) then {["A2WAVE_REFERENCED_CONTEXT_B64" := b64url_json v]} else ∅
   | None => ∅
   end).

Definition effective_payload (payload : WorkerTaskPayload) : WorkerTaskPayload :=
  let routerRuntimeEnv := router_runtime_env payload in
  match pl_agentConfig payload with
  | Some c => if decide (routerRuntimeEnv = ∅) then payload
              else with_config (injectRouterRuntimeEnvIntoAgentConfig c routerRuntimeEnv) payload
  | None => payload
  end.

Definition initial_locals : Locals :=
  mkLocals (mkWorkerResult false "" None None 0 None) None [] ∅.

Record ExecuteWithRetryResult := mkRetryResult {
  out_result : ExecuteWorkerResult;
  out_retries : list RetryRecord;
  out_logs : list StreamLogEntry
}.

Definition retry_context (runId : option string) (payload : WorkerTaskPayload) : M Exec RetryContext :=
  let effectivePayload := effective_payload payload in
  let agentConfig := pl_agentConfig effectivePayload in
  let maxRetries := default 2%Z (agentConfig ≫= cfg_maxRetries) in
  let timeoutMs := (fun m => m * 60 * 1000)%Z <$> (agentConfig ≫= cfg_timeoutMinutes) in
  let rawProviderChain := getProviderChain effectivePayload in
  stickyProviderFallback ← getStickyProviderFallback (agentConfig ≫= cfg_agentId);
  let providerChain := rotateProviderChainForStickyFallback rawProviderChain stickyProviderFallback in
  let hasProviderFallback := (1 <? length providerChain)%nat in
  deadlineAt ← (match agentConfig ≫= cfg_totalTimeoutMinutes with
                | Some m => now ← date_now; mret (Some (now + m * 60 * 1000)%Z)
                | None => mret None
                end);
  mret (mkContext runId effectivePayload (maxRetries + 1) timeoutMs deadlineAt rawProviderChain
          stickyProviderFallback hasProviderFallback
          (if hasProviderFallback then Some <$> providerChain else [None])).

Definition executeWithRetryCore (external : StreamLogEntry -> M Exec unit) (runId : option string)
    (payload : WorkerTaskPayload) : M Exec ExecuteWithRetryResult :=
  ctx ← retry_context runId payload;
  _ ← modify (set_collector (mkCollector [] false));
  l ← walk external ctx (rc_providersToTry ctx) 0 initial_locals;
  logs ← gets (fun s => col_logs (x_collector s));
  mret (mkRetryResult (l_lastResult l) (l_retries l) logs).

(** ** The public function *)

(** [options.onLogEntry] of [executeWithRetry]: the tracer gets the entry as it
    is, the run log file and the caller's stream get it without tool output. *)
Definition tee (hasRun hasStream : bool) (entry : StreamLogEntry) : M Exec unit :=
  _ ← modify (add_traced entry);
  _ ← (if hasRun then modify (add_file (stripToolOutput entry)) else mret tt);
  if hasStream then modify (add_streamed (stripToolOutput entry)) else mret tt.

Definition in_registry {A} (m : M Registry A) : M Exec A := fun s =>
  let '(o, g) := m (x_reg s) in (o, set_reg g s).

(** [try { m } finally { f }] *)
Definition finally {A} (m : M Exec A) (f : Exec -> Exec) : M Exec A := fun s =>
  let '(o, s') := m s in (o, f s').

Definition executeWithRetry (taskId : string) (payload : WorkerTaskPayload) (runId : option string)
    (hasStream : bool) : M Exec ExecuteWithRetryResult :=
  let agentId := pl_agentConfig payload ≫= cfg_agentId in
  match nonempty runId with
  | Some id =>
      owned ← gets (fun s => hasExecutionLease id (x_reg s));
      lease ← in_registry (bindExecutionLeaseTask id taskId agentId);
      finally (executeWithRetryCore (tee true hasStream) runId payload)
        (fun s => if (owned : bool) then s
                  else set_reg (finishExecutionLeaseEntry lease (x_reg s)) s)
  | None => executeWithRetryCore (tee false hasStream) runId payload
  end.
End Execute.

(** ** The worker's timeout

    [resolveTimeoutMs] of [worker/executor.ts]; [setting] is the numeric value
    of the [timeoutMinutes] setting when it is set. *)
Definition resolveTimeoutMs (optionTimeoutMs agentMinutes setting : option Z) : Z :=
  let settingMs := let minutes := default 15%Z setting in
                   ((if (0 <? minutes)%Z then minutes else 15) * 60 * 1000)%Z in
  let agentMs := match agentMinutes with
                 | Some m => if (0 <? m)%Z then (m * 60 * 1000)%Z else settingMs
                 | None => settingMs
                 end in
  match optionTimeoutMs with
  | Some t => if decide (t <> 0%Z) then t else agentMs
  | None => agentMs
  end.

(** ** Computations that start no execution *)

Definition quiet {A} (m : M Exec A) : Prop := forall s o s',
  m s = (o, s') -> x_calls s' = x_calls s /\ x_tick s <= x_tick s'.

Section Quiet.
Context `{Env}.

Lemma quiet_ret {A} (a : A) : quiet (mret a).
Proof. by intros s o s' [= _ <-]. Qed.
Lemma quiet_lift {A} (o : outcome A) : quiet (lift o).
Proof. by intros s o' s' [= _ <-]. Qed.
Lemma quiet_gets {A} (f : Exec -> A) : quiet (gets f).
Proof. by intros s o s' [= _ <-]. Qed.
Lemma quiet_observe {A} (f : nat -> A) : quiet (observe f).
Proof. intros s o s' [= _ <-]. simpl. auto. Qed.
Lemma quiet_modify f :
  (forall s, x_calls (f s) = x_calls s /\ x_tick (f s) = x_tick s) -> quiet (modify f).
Proof. intros Hf s o s' [= _ <-]. destruct (Hf s) as [-> ->]. auto. Qed.
Lemma quiet_bind {A B} (m : M Exec A) (k : A -> M Exec B) :
  quiet m -> (forall a, quiet (k a)) -> quiet (m ≫= k).
Proof.
  intros Hm Hk s o s'. unfold mbind, M_bind. destruct (m s) as [[a|e] s1] eqn:E.
  - intros Hs. apply Hm in E as [E1 E2]. apply Hk in Hs as [H1 H2]. split; [congruence|lia].
  - intros [= _ <-]. by apply Hm in E.
Qed.
Lemma quiet_for_each {A} (l : list A) (f : A -> M Exec unit) :
  (forall x, quiet (f x)) -> quiet (for_each l f).
Proof. intros Hf. induction l; simpl; [apply quiet_ret|]. by apply quiet_bind. Qed.
End Quiet.

Ltac unfold_exec :=
  progress unfold date_now, isRunCancelled, isPastDeadline, resolveWorkerTimeoutMs,
    attempt_payload, getChatBindingId, mergedOnLogEntry, collectLog, on_success,
    rememberChatProvider, rememberStickyProviderFallback, pruneExpiredChatBindings,
    pruneExpiredStickyProviderFallbacks, backoffWithJitter, backoff_and_retry, on_failure,
    judge_result, switch_provider, getStickyProviderFallback, retry_context.

Ltac solve_quiet :=
  repeat first
    [ assumption
    | apply quiet_ret | apply quiet_lift | apply quiet_gets | apply quiet_observe
    | apply quiet_modify; intros ?; split; reflexivity
    | apply quiet_for_each | apply quiet_bind | progress intros
    | match goal with H : forall e, quiet (_ e) |- _ => apply H end
    | match goal with |- quiet (match ?x with _ => _ end) => destruct x end
    | unfold_exec | progress unfold tee ].

(** From a run of a quiet [m], what it leaves alone *)
Ltac quiet_run E C T :=
  match type of E with
  | ?m _ = _ => let Q := fresh in assert (quiet m) as Q by solve_quiet;
      destruct (Q _ _ _ E) as [C T]; clear Q
  end.

(** ** The executions of a run *)

(** An error the inner loop answers by trying the same provider again *)
Definition transient (ctx : RetryContext) (i : nat) (e : option string) : Prop :=
  (can_switch ctx i && isProviderFallbackableError e)%bool = false /\
  isPermanentError e = false /\ isHardQuotaError e = false /\ isCapabilityOrModelError e = false.

Section Traces.
Context `{Env} (ctx : RetryContext).

(** The payload the worker gets from provider [i] of the list *)
Definition payload_for (i : nat) (b : option ResolvedProviderBinding) (p : WorkerTaskPayload) : Prop :=
  exists traceparent reset, (0 < i -> reset = true) /\
    p = traced_payload traceparent (match b with
      | Some b => withProviderBinding (rc_payload ctx) b reset
      | None => rc_payload ctx
      end).

(** The execution was decided before the deadline and has the rest as timeout. *)
Definition timely (c : WorkerCall) : Prop :=
  match rc_deadlineAt ctx with
  | None => call_timeoutMs c = rc_timeoutMs ctx
  | Some d => exists k1 k0, k1 < k0 < call_tick c /\ (now_at k1 < d)%Z /\
      call_timeoutMs c = Some (match rc_timeoutMs ctx with
        | Some t => Z.min t (Z.max 0 (d - now_at k0))
        | None => Z.max 0 (d - now_at k0)
        end)
  end.

Record call_ok (i : nat) (a : Z) (c : WorkerCall) : Prop := {
  ok_provider : call_provider c = i;
  ok_attempt : call_attempt c = a;
  ok_payload : exists b, rc_providersToTry ctx !! i = Some b /\ payload_for i b (call_payload c);
  ok_timely : timely c
}.

(** The executions from attempt [a] on provider [i] on *)
Inductive call_trace : nat -> Z -> list WorkerCall -> Prop :=
| no_call i a : call_trace i a []
| last_call i a c : call_ok i a c -> call_trace i a [c]
| then_retry i a c r cs :
    call_ok i a c -> call_result c = Ret r -> res_success r = false ->
    transient ctx i (res_error r) -> (a < rc_maxAttempts ctx)%Z ->
    call_trace i (a + 1) cs -> call_trace i a (c :: cs)
| then_switch i a c r cs :
    call_ok i a c -> call_result c = Ret r -> res_success r = false ->
    S i < length (rc_providersToTry ctx) ->
    can_switch ctx i = true /\ isProviderFallbackableError (res_error r) = true \/
    transient ctx i (res_error r) /\ a = rc_maxAttempts ctx ->
    call_trace (S i) 1 cs -> call_trace i a (c :: cs).

Context (external : StreamLogEntry -> M Exec unit) (external_quiet : forall e, quiet (external e)).

Lemma resolve_timeout_run s ot s1 :
  resolveWorkerTimeoutMs ctx s = (ot, s1) ->
  exists t, ot = Ret t /\ x_calls s1 = x_calls s /\
    match rc_deadlineAt ctx with
    | None => t = rc_timeoutMs ctx
    | Some d => x_tick s1 = S (x_tick s) /\ t = Some (match rc_timeoutMs ctx with
        | Some t => Z.min t (Z.max 0 (d - now_at (x_tick s)))
        | None => Z.max 0 (d - now_at (x_tick s))
        end)
    end.
Proof.
  unfold resolveWorkerTimeoutMs. destruct (rc_deadlineAt ctx); intros [= <- <-]; eauto.
Qed.

Lemma run_worker_call i a payload s o s' :
  run_worker external ctx i a payload s = (o, s') ->
  exists c, x_calls s' = x_calls s ++ [c] /\ call_provider c = i /\ call_attempt c = a /\
    (forall r, o = Ret r -> call_result c = Ret r) /\
    (exists tp, call_payload c = traced_payload tp payload) /\
    match rc_deadlineAt ctx with
    | None => call_timeoutMs c = rc_timeoutMs ctx
    | Some d => exists k0, x_tick s <= k0 < call_tick c /\
        call_timeoutMs c = Some (match rc_timeoutMs ctx with
          | Some t => Z.min t (Z.max 0 (d - now_at k0))
          | None => Z.max 0 (d - now_at k0)
          end)
    end.
Proof.
  unfold run_worker. intros Hr. unfold mbind at 1, M_bind at 1 in Hr.
  destruct (resolveWorkerTimeoutMs ctx s) as [ot s1] eqn:Ht.
  apply resolve_timeout_run in Ht as (t & -> & Hc & Htick).
  unfold mbind, M_bind, observe, gets, modify in Hr. simpl in Hr.
  destruct (worker_at _ _ _) as [entries ow] eqn:Hw. simpl in Hr.
  match type of Hr with context [add_call ?x] => set (c := x) in Hr end.
  destruct (for_each entries _ _) as [oe s2] eqn:He.
  apply quiet_for_each in He as [Hq _]; [|solve_quiet]. simpl in Hq.
  exists c. split; [|split; [done|split; [done|split]]].
  - destruct oe; injection Hr as _ <-; by rewrite Hq, Hc.
  - intros r ->. destruct oe; [|done]. by injection Hr as -> _.
  - split; [by eexists|]. destruct (rc_deadlineAt ctx); [|done].
    destruct Htick as [Htick Htm]. exists (x_tick s). split; [simpl; lia|done].
Qed.

(** How the variables change over an execution that returned [r] *)
Definition accounted (r : ExecuteWorkerResult) (l l' : Locals) : Prop :=
  l_usage l' = l_usage (account_usage r l) /\
  res_usage (l_lastResult l') = res_usage (l_lastResult (account_usage r l)) /\
  l_resetChat l ⊆ l_resetChat l'.

Definition flow_locals (f : flow) : Locals :=
  match f with Returned l | NextAttempt l | NextProvider l => l end.

(** What an iteration that executed decides on the worker's result [r] *)
Definition decided (i : nat) (a : Z) (r : ExecuteWorkerResult) (f : flow) : Prop :=
  match f with
  | Returned _ => True
  | NextAttempt _ => res_success r = false /\ transient ctx i (res_error r)
  | NextProvider _ => res_success r = false /\ can_switch ctx i = true /\
      isProviderFallbackableError (res_error r) = true
  end.

Lemma mark_reset_subset b l : l_resetChat l ⊆ l_resetChat (mark_reset b l).
Proof. destruct b; simpl; set_solver. Qed.

Lemma account_error r l : res_error (l_lastResult (account_usage r l)) = res_error r /\
  res_success (l_lastResult (account_usage r l)) = res_success r.
Proof. unfold account_usage, with_usage. simpl. by repeat case_match. Qed.

Lemma accounted_push r l rec : accounted r l (push_retry rec (account_usage r l)).
Proof. split; [done|]. by split. Qed.

Lemma accounted_refl r l : accounted r l (account_usage r l).
Proof. split; [done|]. by split. Qed.

Lemma switch_provider_run i b l s o s' :
  switch_provider external ctx i b l s = (o, s') ->
  forall l', o = Ret l' -> l' = mark_reset (nextProvider ctx i) l.
Proof.
  intros Hs l' ->. unfold switch_provider in Hs. inv_bind Hs as (ts & s1 & _ & Hs).
  inv_bind Hs as (u & s2 & _ & Hs). by injection Hs.
Qed.

Lemma accounted_mark r l b l1 : accounted r l l1 -> accounted r l (mark_reset b l1).
Proof.
  intros (Hu & Hr & Hs). destruct b as [p|]; [|done]. split; [done|]. split; [done|].
  simpl. set_solver.
Qed.

Lemma on_failure_flow i b a d r l s f s' :
  on_failure external ctx i b a d (account_usage r l) s = (Ret f, s') -> res_success r = false ->
  decided i a r f /\ accounted r l (flow_locals f).
Proof.
  intros Hf Hsucc. unfold on_failure in Hf.
  destruct (account_error r l) as [He _]. rewrite He in Hf.
  destruct (can_switch ctx i && isProviderFallbackableError (res_error r)) eqn:Hsw.
  - inv_bind Hf as (c & s1 & _ & Hf). destruct c; [injection Hf as <- _; split; [done|apply accounted_refl]|].
    inv_bind Hf as (l' & s2 & Hs & Hf). apply switch_provider_run with (l' := l') in Hs; [|done].
    injection Hf as <- _. apply andb_true_iff in Hsw as [? ?].
    split; [done|]. subst. by apply accounted_mark, accounted_refl.
  - destruct (isPermanentError (res_error r)) eqn:Hp;
      [injection Hf as <- _; split; [done|apply accounted_push]|].
    destruct (isHardQuotaError _ || isCapabilityOrModelError _) eqn:Hh;
      [injection Hf as <- _; split; [done|apply accounted_push]|].
    apply orb_false_iff in Hh as [Hh Hcap].
    assert (transient ctx i (res_error r)) as Htr by done.
    destruct (a <? rc_maxAttempts ctx)%Z.
    + unfold backoff_and_retry in Hf. inv_bind Hf as (c & s1 & _ & Hf).
      destruct c; [injection Hf as <- _; split; [done|apply accounted_push]|].
      inv_bind Hf as (ms & s2 & _ & Hf). inv_bind Hf as (out & s3 & _ & Hf).
      destruct out; [injection Hf as <- _; split; [done|apply accounted_push]|].
      inv_bind Hf as (ts & s4 & _ & Hf). inv_bind Hf as (u & s5 & _ & Hf).
      injection Hf as <- _. split; [done|apply accounted_push].
    + destruct (can_switch ctx i); [|injection Hf as <- _; split; [done|apply accounted_push]].
      inv_bind Hf as (l' & s2 & Hs & Hf). apply switch_provider_run with (l' := l') in Hs; [|done].
      injection Hf as <- _. split; [done|]. subst. by apply accounted_mark, accounted_push.
Qed.

Lemma past_deadline_run s o s' :
  isPastDeadline ctx s = (o, s') ->
  exists past, o = Ret past /\ x_calls s' = x_calls s /\ x_tick s <= x_tick s' /\
    (past = false -> forall d, rc_deadlineAt ctx = Some d ->
       (now_at (x_tick s) < d)%Z /\ x_tick s' = S (x_tick s)).
Proof.
  unfold isPastDeadline. destruct (rc_deadlineAt ctx) as [d|]; intros [= <- <-]; simpl.
  - eexists. split_and!; [done|done|lia|]. intros Hp d' [= <-]. bool_to_prop. done.
  - exists false. done.
Qed.

Lemma attempt_payload_run i b l s o s' :
  attempt_payload ctx b l s = (o, s') -> rc_providersToTry ctx !! i = Some b ->
  (0 < i -> forall p, b = Some p -> pb_id p ∈ l_resetChat l) ->
  forall p, o = Ret p -> forall tp, payload_for i b (traced_payload tp p).
Proof.
  intros Hp _ Hreset p ->. unfold attempt_payload in Hp. inv_bind Hp as (known & s1 & _ & Hp).
  injection Hp as <- _. intros tp. destruct b as [b|].
  - exists tp, (resets_chat ctx b known l). split; [|done]. intros Hi. unfold resets_chat.
    by rewrite bool_decide_eq_true_2 by (by apply (Hreset Hi)).
  - exists tp, true. done.
Qed.

Lemma judge_result_flow i b a start r l s f s' :
  judge_result external ctx i b a start (account_usage r l) s = (Ret f, s') ->
  decided i a r f /\ accounted r l (flow_locals f).
Proof.
  unfold judge_result. destruct (account_error r l) as [_ ->]. destruct (res_success r) eqn:Hs.
  - intros Hr. inv_bind Hr as (u & s1 & _ & Hr). injection Hr as <- _.
    split; [done|apply accounted_refl].
  - intros Hr. inv_bind Hr as (past & s1 & _ & Hr). destruct past.
    + inv_bind Hr as (now & s2 & _ & Hr). by injection Hr as <- _.
    + inv_bind Hr as (now & s2 & _ & Hr). by apply on_failure_flow in Hr.
Qed.

Lemma attempt_once_run i b a l s o s' :
  rc_providersToTry ctx !! i = Some b ->
  (0 < i -> forall p, b = Some p -> pb_id p ∈ l_resetChat l) ->
  attempt_once external ctx i b a l s = (o, s') ->
  (x_calls s' = x_calls s /\ forall f, o = Ret f -> f = Returned l) \/
  exists c, x_calls s' = x_calls s ++ [c] /\ call_ok i a c /\
    forall f, o = Ret f -> exists r, call_result c = Ret r /\ decided i a r f /\
      accounted r l (flow_locals f).
Proof.
  intros Hb Hreset Hr. unfold attempt_once in Hr.
  run_bind Hr as c0 s0 E0 e0; quiet_run E0 C0 T0; [|left; by subst].
  destruct c0; [injection Hr as <- <-; left; split; [done|by intros f [= <-]]|].
  run_bind Hr as past s1 E1 e1; apply past_deadline_run in E1 as (p1 & Ep & C1 & T1 & D1); [|done].
  injection Ep as <-.
  destruct past; [injection Hr as <- <-; left; split; [congruence|by intros f [= <-]]|].
  specialize (D1 eq_refl).
  run_bind Hr as payload s2 E2 e2; quiet_run E2 C2 T2; [|left; split; [congruence|by subst]].
  pose proof (attempt_payload_run i b l s1 _ s2 E2 Hb Hreset payload eq_refl) as Hpay.
  run_bind Hr as startTime s3 E3 e3; quiet_run E3 C3 T3; [|left; split; [congruence|by subst]].
  run_bind Hr as u s4 E4 e4; quiet_run E4 C4 T4; [|left; split; [congruence|by subst]].
  right. run_bind Hr as r s5 E5 e5;
    apply run_worker_call in E5 as (c & C5 & Hci & Hca & Hcr & (tp & Hcp) & Hct);
    exists c; (split; [try quiet_run Hr C6 T6; congruence|]); (split; [|subst; try done]).
  1, 3: split; [done|done|exists b; rewrite Hcp; auto|];
      unfold timely; destruct (rc_deadlineAt ctx) as [d|]; [|done];
      destruct Hct as (k0 & Hk & Ht), (D1 _ eq_refl) as [Hd Htick];
      exists (x_tick s0), k0; split; [lia|done].
  intros f ->. exists r. split; [by apply Hcr|]. by apply judge_result_flow in Hr.
Qed.

(** *** The loops *)

(** The tokens of one kind in a usage, in a list of executions *)
Definition tokens (f : UsageField) (u : option TokenUsage) : Z := default 0%Z (u ≫= field_of f).

Definition call_tokens (f : UsageField) (c : WorkerCall) : Z :=
  match call_result c with Ret r => tokens f (res_usage r) | Throw _ => 0%Z end.

Definition trace_tokens (f : UsageField) (cs : list WorkerCall) : Z :=
  foldr (fun c n => call_tokens f c + n)%Z 0%Z cs.

(** The variables carry [n] more tokens than before. *)
Definition spent (f : UsageField) (n : Z) (l l' : Locals) : Prop :=
  tokens f (res_usage (l_lastResult l)) = tokens f (l_usage l) ->
  tokens f (l_usage l') = (tokens f (l_usage l) + n)%Z /\
  tokens f (res_usage (l_lastResult l')) = tokens f (l_usage l').

Lemma tokens_accumulate f t d :
  tokens f (accumulateUsage t d) = (tokens f t + tokens f (Some d))%Z.
Proof.
  unfold accumulateUsage, tokens. case_decide as Hd.
  - destruct Hd as (? & ? & ? & ? & ?). destruct f; simpl; simplify_option_eq; lia.
  - destruct f; simpl; unfold add_field, default, empty_usage; repeat case_match; simpl in *;
      simplify_eq; simpl; lia.
Qed.

Lemma accumulate_None t d : accumulateUsage t d = None -> t = None.
Proof. unfold accumulateUsage. by case_decide. Qed.

Lemma accounted_spent f r l l' : accounted r l l' -> spent f (tokens f (res_usage r)) l l'.
Proof.
  intros (Hu & Hr & _) _. rewrite Hr, Hu. unfold account_usage, with_usage. simpl.
  destruct (res_usage r) as [u|] eqn:Hru.
  - pose proof (tokens_accumulate f (l_usage l) u) as Ht.
    destruct (accumulateUsage (l_usage l) u) as [v|] eqn:Ha; [done|].
    apply accumulate_None in Ha. rewrite Ha in *. rewrite Hru. done.
  - destruct (l_usage l) as [v|] eqn:Hv; simpl; rewrite ?Hru; unfold tokens; simpl; lia.
Qed.

Lemma spent_trans f n m l l1 l2 : spent f n l l1 -> spent f m l1 l2 -> spent f (n + m) l l2.
Proof. intros H1 H2 Hl. destruct (H1 Hl) as [E1 F1], (H2 F1) as [E2 F2]. split; [lia|done]. Qed.

Lemma spent_zero f l : spent f 0 l l.
Proof. intros Hl. split; [lia|done]. Qed.

Lemma spent_mark f b l : spent f 0 l (mark_reset b l).
Proof. intros Hl. destruct b; simpl; split; [lia|done|lia|done]. Qed.

Lemma trace_tokens_app k cs cs' :
  trace_tokens k (cs ++ cs') = (trace_tokens k cs + trace_tokens k cs')%Z.
Proof. induction cs as [|c cs IH]; simpl; lia. Qed.

Definition is_returned (f : flow) : bool := match f with Returned _ => true | _ => false end.

(** The conclusion of [attempts_run]: the executions [cs] of provider [i] from
    attempt [a] on, ending in [o] *)
Record attempts_spec (i : nat) (a : Z) (budget : nat) (l : Locals) (cs : list WorkerCall)
    (o : outcome flow) : Prop := {
  at_trace : call_trace i a cs;
  at_length : length cs <= budget;
  at_tokens : forall f, o = Ret f -> forall k, spent k (trace_tokens k cs) l (flow_locals f);
  at_next : forall f rest, o = Ret f -> is_returned f = false ->
    S i < length (rc_providersToTry ctx) -> call_trace (S i) 1 rest -> call_trace i a (cs ++ rest)
}.

Lemma spec_none i a n l o : (forall f, o = Ret f -> f = Returned l) -> attempts_spec i a n l [] o.
Proof.
  intros Ho. split; [constructor|simpl; lia|intros f ->%Ho k; apply spent_zero|].
  by intros f rest ->%Ho.
Qed.

(** One execution, after which the loop leaves the provider with [o] *)
Lemma spec_one i a n l c o :
  call_ok i a c ->
  (forall f, o = Ret f -> exists r, call_result c = Ret r /\ accounted r l (flow_locals f) /\
     (is_returned f = false -> res_success r = false /\
        (can_switch ctx i = true /\ isProviderFallbackableError (res_error r) = true \/
         transient ctx i (res_error r) /\ a = rc_maxAttempts ctx))) ->
  attempts_spec i a (S n) l [c] o.
Proof.
  intros Hok Ho. split; [by constructor|simpl; lia| |].
  - intros f Hf k. destruct (Ho f Hf) as (r & Hr & Hac & _). simpl. unfold call_tokens.
    rewrite Hr, Z.add_0_r. by apply accounted_spent.
  - intros f rest Hf Hret Hi Htr. destruct (Ho f Hf) as (r & Hr & _ & Hd).
    destruct (Hd Hret). by eapply then_switch.
Qed.

(** One execution, then the rest of the budget *)
Lemma spec_more i a n l c r l' cs o :
  call_ok i a c -> call_result c = Ret r -> accounted r l l' -> res_success r = false ->
  transient ctx i (res_error r) -> (a < rc_maxAttempts ctx)%Z ->
  attempts_spec i (a + 1) n l' cs o -> attempts_spec i a (S n) l (c :: cs) o.
Proof.
  intros Hok Hr Hac Hs Ht Ha [Htr Hlen Htok Hnext]. split; [by eapply then_retry|simpl; lia| |].
  - intros f Hf k. simpl. unfold call_tokens. rewrite Hr.
    eapply spent_trans; [by apply accounted_spent|]. by apply Htok.
  - intros f rest Hf Hret Hi Hrest. simpl. eapply then_retry; eauto.
Qed.

Lemma attempts_cases n i b a l s o s' :
  rc_providersToTry ctx !! i = Some b ->
  (0 < i -> forall p, b = Some p -> pb_id p ∈ l_resetChat l) ->
  attempts external ctx (S n) i b a l s = (o, s') ->
  (exists cs, x_calls s' = x_calls s ++ cs /\ attempts_spec i a (S n) l cs o) \/
  exists c r l' s1, x_calls s1 = x_calls s ++ [c] /\ call_ok i a c /\ call_result c = Ret r /\
    res_success r = false /\ transient ctx i (res_error r) /\ accounted r l l' /\
    attempts external ctx n i b (a + 1) l' s1 = (o, s').
Proof.
  intros Hb Hreset Hr. cbn [attempts] in Hr. run_bind Hr as f s1 E1 e1.
  - destruct (attempt_once_run i b a l s (Ret f) s1 Hb Hreset E1)
      as [[Hc Hf]|(c & Hc & Hok & Hf)].
    + left. rewrite (Hf f eq_refl) in Hr. injection Hr as <- <-. exists [].
      rewrite app_nil_r. split; [done|]. apply spec_none. by intros ? [= <-].
    + destruct (Hf f eq_refl) as (r & Hcr & Hd & Hac). destruct f as [l'|l'|l'].
      2: { right. destruct Hd. by exists c, r, l', s1. }
      all: left; injection Hr as <- <-; exists [c]; (split; [done|]); apply spec_one; [done|];
        intros f [= <-]; exists r; split_and!; try done.
      intros _. destruct Hd as (? & ? & ?). auto.
  - left. subst. destruct (attempt_once_run i b a l s (Throw e1) s' Hb Hreset E1)
      as [[Hc _]|(c & Hc & Hok & _)].
    + exists []. rewrite app_nil_r. split; [done|]. by apply spec_none.
    + exists [c]. split; [done|]. by apply spec_one.
Qed.

Lemma attempts_run n i b a l s o s' :
  rc_providersToTry ctx !! i = Some b ->
  (0 < i -> forall p, b = Some p -> pb_id p ∈ l_resetChat l) ->
  (a + Z.of_nat n = rc_maxAttempts ctx)%Z ->
  attempts external ctx (S n) i b a l s = (o, s') ->
  exists cs, x_calls s' = x_calls s ++ cs /\ attempts_spec i a (S n) l cs o.
Proof.
  intros Hb. revert a l s. induction n as [|n IH]; intros a l s Hreset Hn Hr;
    apply attempts_cases in Hr as [?|(c & r & l' & s1 & Hc & Hok & Hcr & Hs & Ht & Hac & Hr)];
    try done.
  - simpl in Hr. injection Hr as <- <-. exists [c]. split; [done|]. apply spec_one; [done|].
    intros f [= <-]. exists r. split_and!; [done|done|]. intros _. split; [done|]. right.
    split; [done|lia].
  - apply IH in Hr as (cs & Hcs & Hspec); [| |lia].
    + exists (c :: cs). split; [by rewrite Hcs, Hc, <- app_assoc|].
      eapply spec_more; eauto. lia.
    + intros Hi p Hp. destruct Hac as (_ & _ & Hsub). by apply Hsub, Hreset.
Qed.

Lemma walk_run ps i l s o s' :
  drop i (rc_providersToTry ctx) = ps -> (1 <= rc_maxAttempts ctx)%Z ->
  walk external ctx ps i l s = (o, s') ->
  exists cs, x_calls s' = x_calls s ++ cs /\
    (ps <> [] -> call_trace i 1 cs) /\ length cs <= length ps * Z.to_nat (rc_maxAttempts ctx) /\
    (forall l', o = Ret l' -> forall k, spent k (trace_tokens k cs) l l').
Proof.
  intros Hd Hmax. revert i l s Hd. induction ps as [|b ps IH]; intros i l s Hd Hr; simpl in Hr.
  - injection Hr as <- <-. exists []. rewrite app_nil_r. split_and!; try done.
    intros l' [= <-] k. apply spent_zero.
  - assert (rc_providersToTry ctx !! i = Some b) as Hb.
    { rewrite <- (Nat.add_0_r i), <- lookup_drop, Hd. done. }
    assert (drop (S i) (rc_providersToTry ctx) = ps) as Hd'.
    { rewrite <- Nat.add_1_r, <- drop_drop, Hd. done. }
    set (l1 := if (0 <? i)%nat then mark_reset b l else l) in Hr.
    assert (forall k, spent k 0 l l1) as Hl1.
    { intros k. unfold l1. destruct (0 <? i)%nat; [|apply spent_zero].
      apply spent_mark. }
    assert (0 < i -> forall p, b = Some p -> pb_id p ∈ l_resetChat l1) as Hreset.
    { intros Hi p ->. unfold l1. apply Nat.ltb_lt in Hi as ->. simpl. set_solver. }
    assert (Z.to_nat (rc_maxAttempts ctx) = S (Z.to_nat (rc_maxAttempts ctx - 1))) as Hbudget by lia.
    rewrite Hbudget in Hr. run_bind Hr as f s1 E1 e1;
      apply (attempts_run _ i b 1 l1) in E1 as (cs & Hcs & [Htr Hlen Htok Hnext]); try done; try lia;
      rewrite <- Hbudget in Hlen.
    + assert ((o, s') = (Ret (flow_locals f), s1) \/
        is_returned f = false /\ walk external ctx ps (S i) (flow_locals f) s1 = (o, s'))
        as [[= -> ->]|[Hf Hw]] by (destruct f; [left; by injection Hr as <- <-|by right..]).
      * exists cs. split; [done|]. split; [done|]. split; [simpl; lia|].
        intros l' [= <-] k. eapply (spent_trans k 0); [done|]. by apply Htok.
      * apply IH in Hw as (cs' & Hcs' & Htr' & Hlen' & Htok'); [|done].
        exists (cs ++ cs'). split; [by rewrite Hcs', Hcs, app_assoc|]. split.
        { intros _. destruct ps as [|b' ps']; [|].
          - destruct cs'; [by rewrite app_nil_r|simpl in Hlen'; lia].
          - apply (Hnext f); [done|done| |by apply Htr'].
            assert (length (drop (S i) (rc_providersToTry ctx)) <> 0) as Hne by (by rewrite Hd').
            rewrite length_drop in Hne. lia. }
        split; [rewrite length_app; simpl; lia|].
        intros l' Ho k. specialize (Htok f eq_refl k). specialize (Htok' l' Ho k).
        rewrite trace_tokens_app. apply (spent_trans k 0 _ l l1); [done|].
        by eapply spent_trans.
    + subst. exists cs. split; [done|]. split; [done|]. split; [simpl; lia|done].
Qed.

Lemma walk_no_budget ps i l s : Z.to_nat (rc_maxAttempts ctx) = 0 ->
  exists l', walk external ctx ps i l s = (Ret l', s) /\ l_lastResult l' = l_lastResult l.
Proof.
  intros Hz. revert i l. induction ps as [|b ps IH]; intros i l; simpl; [by eexists|].
  rewrite Hz. simpl. unfold mbind, M_bind.
  destruct (IH (S i) (if (0 <? i)%nat then mark_reset b l else l)) as (l' & Hw & Hl).
  exists l'. split; [done|]. rewrite Hl. by destruct (0 <? i)%nat, b.
Qed.
End Traces.

(** ** The whole function *)

(** The context of a call, in terms of its payload *)
Record context_for `{Env} (payload : WorkerTaskPayload) (ctx : RetryContext) : Prop := {
  cf_payload : rc_payload ctx = effective_payload payload;
  cf_attempts : rc_maxAttempts ctx =
    (default 2 (pl_agentConfig payload ≫= cfg_maxRetries) + 1)%Z;
  cf_timeout : rc_timeoutMs ctx =
    (fun m => m * 60 * 1000)%Z <$> (pl_agentConfig payload ≫= cfg_timeoutMinutes);
  cf_deadline : match pl_agentConfig payload ≫= cfg_totalTimeoutMinutes with
    | Some m => exists k, rc_deadlineAt ctx = Some (now_at k + m * 60 * 1000)%Z
    | None => rc_deadlineAt ctx = None
    end;
  cf_providers : exists chain, chain ≡ₚ getProviderChain payload /\
    rc_providersToTry ctx = if (1 <? length chain)%nat then Some <$> chain else [None]
}.

Section Whole.
Context `{Env}.

Lemma effective_fields payload :
  getProviderChain (effective_payload payload) = getProviderChain payload /\
  (pl_agentConfig (effective_payload payload) ≫= cfg_maxRetries) =
    (pl_agentConfig payload ≫= cfg_maxRetries) /\
  (pl_agentConfig (effective_payload payload) ≫= cfg_timeoutMinutes) =
    (pl_agentConfig payload ≫= cfg_timeoutMinutes) /\
  (pl_agentConfig (effective_payload payload) ≫= cfg_totalTimeoutMinutes) =
    (pl_agentConfig payload ≫= cfg_totalTimeoutMinutes).
Proof.
  unfold effective_payload, getProviderChain.
  destruct (pl_agentConfig payload) as [c|] eqn:Hc; [|by rewrite Hc].
  case_decide; simpl; rewrite ?Hc; done.
Qed.

Lemma rotate_permutation chain sticky :
  rotateProviderChainForStickyFallback chain sticky ≡ₚ chain.
Proof.
  unfold rotateProviderChainForStickyFallback. destruct sticky as [st|]; [|done].
  destruct (list_find _ _) as [[[|i] ?]|]; [done| |done].
  rewrite Permutation_app_comm. by rewrite take_drop.
Qed.

Lemma retry_context_run runId payload s o s' :
  retry_context runId payload s = (o, s') ->
  exists ctx, o = Ret ctx /\ x_calls s' = x_calls s /\ context_for payload ctx.
Proof.
  intros Hr. quiet_run Hr C T. unfold retry_context in Hr.
  destruct (effective_fields payload) as (F1 & F2 & F3 & F4). rewrite F1, F2, F3, F4 in Hr.
  run_bind Hr as sticky s1 E1 e1.
  - assert (exists dl, o = Ret (mkContext runId (effective_payload payload)
      (default 2 (pl_agentConfig payload ≫= cfg_maxRetries) + 1)%Z
      ((fun m => m * 60 * 1000)%Z <$> (pl_agentConfig payload ≫= cfg_timeoutMinutes)) dl
      (getProviderChain payload) sticky
      (1 <? length (rotateProviderChainForStickyFallback (getProviderChain payload) sticky))%nat
      (if (1 <? length (rotateProviderChainForStickyFallback (getProviderChain payload) sticky))%nat
       then Some <$> rotateProviderChainForStickyFallback (getProviderChain payload) sticky
       else [None])) /\
      match pl_agentConfig payload ≫= cfg_totalTimeoutMinutes with
      | Some m => exists k, dl = Some (now_at k + m * 60 * 1000)%Z
      | None => dl = None
      end) as (dl & -> & Hdl).
    { destruct (pl_agentConfig payload ≫= cfg_totalTimeoutMinutes) as [m|];
        injection Hr as <- _; eexists; (split; [done|]); eauto. }
    eexists. split; [done|]. split; [done|]. split; try done.
    eexists. split; [apply rotate_permutation|done].
  - exfalso. clear Hr. unfold getStickyProviderFallback in E1.
    destruct (nonempty _); [|done]. unfold mbind, M_bind, gets, date_now, observe in E1.
    destruct (x_sticky s !! _); [|done]. by destruct (_ <=? _)%Z in E1.
Qed.

Lemma core_run external runId payload s o s' :
  (forall e, quiet (external e)) ->
  executeWithRetryCore external runId payload s = (o, s') ->
  exists ctx cs, context_for payload ctx /\ x_calls s' = x_calls s ++ cs /\
    call_trace ctx 0 1 cs /\
    length cs <= length (rc_providersToTry ctx) * Z.to_nat (rc_maxAttempts ctx) /\
    forall out, o = Ret out -> forall k, tokens k (res_usage (out_result out)) = trace_tokens k cs.
Proof.
  intros Hq Hr. unfold executeWithRetryCore in Hr. run_bind Hr as ctx s1 E1 e1;
    apply retry_context_run in E1 as (ctx' & Ectx & C1 & Hfor); [|done].
  injection Ectx as <-. run_bind Hr as u s2 E2 e2; [|done].
  assert (x_calls s2 = x_calls s) as C2 by (by injection E2 as _ <-).
  exists ctx. destruct (decide (1 <= rc_maxAttempts ctx)%Z) as [Hmax|Hmax].
  - run_bind Hr as l s3 E3 e3;
      apply (walk_run ctx external Hq _ 0) in E3 as (cs & C3 & Htr & Hlen & Htok); try done;
      exists cs; (split; [done|]).
    + injection Hr as <- <-. split; [by rewrite C3, C2|].
      assert (rc_providersToTry ctx <> []) as Hne.
      { destruct Hfor as [_ _ _ _ (chain & _ & ->)]. by destruct chain as [|? []]. }
      split; [auto|]. split; [done|]. intros out [= <-] k.
      destruct (Htok l eq_refl k eq_refl) as [Ht Hl]. simpl. rewrite Hl, Ht. unfold tokens. simpl. lia.
    + assert (rc_providersToTry ctx <> []) as Hne.
      { destruct Hfor as [_ _ _ _ (chain & _ & ->)]. by destruct chain as [|? []]. }
      subst. split; [by rewrite C3, C2|]. split; [auto|]. done.
  - exists []. split; [done|].
    destruct (walk_no_budget ctx external (rc_providersToTry ctx) 0 initial_locals s2)
      as (l & Hw & Hl); [lia|].
    unfold mbind, M_bind in Hr. rewrite Hw in Hr. injection Hr as <- <-.
    rewrite app_nil_r. split; [done|]. split; [constructor|]. split; [simpl; lia|].
    intros out [= <-] k. simpl. by rewrite Hl.
Qed.

Lemma tee_quiet hasRun hasStream e : quiet (tee hasRun hasStream e).
Proof. solve_quiet. Qed.

Lemma execute_run taskId payload runId hasStream s o s' :
  executeWithRetry taskId payload runId hasStream s = (o, s') ->
  exists ctx cs, context_for payload ctx /\ x_calls s' = x_calls s ++ cs /\
    call_trace ctx 0 1 cs /\
    length cs <= length (rc_providersToTry ctx) * Z.to_nat (rc_maxAttempts ctx) /\
    forall out, o = Ret out -> forall k, tokens k (res_usage (out_result out)) = trace_tokens k cs.
Proof.
  unfold executeWithRetry. destruct (nonempty runId) as [id|];
    [|intros Hr; apply (core_run (tee false hasStream)) in Hr; auto using tee_quiet].
  intros Hr. run_bind Hr as owned s1 E1 e1; [|done]. injection E1 as _ <-.
  run_bind Hr as lease s2 E2 e2.
  - assert (x_calls s2 = x_calls s) as C2.
    { unfold in_registry in E2. destruct (bindExecutionLeaseTask _ _ _ _).
      by injection E2 as _ <-. }
    unfold finally in Hr. destruct (executeWithRetryCore _ _ _ s2) as [oc s3] eqn:Hc.
    apply core_run in Hc as (ctx & cs & Hfor & C3 & Hrest); [|apply tee_quiet].
    injection Hr as <- <-. exists ctx, cs. split; [done|]. split; [|done].
    rewrite <- C2, <- C3. by destruct owned.
  - subst. destruct (retry_context_run runId payload s _ _ (surjective_pairing _))
      as (ctx & _ & _ & Hfor). exists ctx, []. split; [done|]. rewrite app_nil_r.
    split; [|split; [constructor|split; [simpl; lia|done]]].
    unfold in_registry in E2. destruct (bindExecutionLeaseTask _ _ _ _). by injection E2 as _ <-.
Qed.
End Whole.

(** ** What leaves the process with the log entries *)

Definition no_output (e : StreamLogEntry) : Prop :=
  match e with LToolCall _ _ _ _ _ _ output _ => output = None | _ => True end.

Record tidy (s : Exec) : Prop := {
  tidy_collected : Forall no_output (col_logs (x_collector s));
  tidy_file : Forall no_output (x_file s);
  tidy_streamed : Forall no_output (x_streamed s);
  tidy_size : length (col_logs (x_collector s)) <=
    if col_truncated (x_collector s) then S MAX_STREAM_LOGS else MAX_STREAM_LOGS
}.

Definition clean (s : Exec) : Prop := Forall no_output (x_file s) /\ Forall no_output (x_streamed s).

Section Tidy.
Context `{Env}.

Lemma strip_no_output e : no_output (stripToolOutput e).
Proof. by destruct e as [| |? ? ? ? ? ? []| | | | |]. Qed.

(** Invariants of the logs alone *)
Class LogInv (I : Exec -> Prop) : Prop := log_frame s s' :
  x_collector s' = x_collector s -> x_file s' = x_file s -> x_streamed s' = x_streamed s ->
  I s -> I s'.

#[export] Instance tidy_log : LogInv tidy.
Proof. intros s s' Hc Hf Hs [? ? ? ?]. split; rewrite ?Hc, ?Hf, ?Hs; done. Qed.
#[export] Instance clean_log : LogInv clean.
Proof. intros s s' Hc Hf Hs [? ?]. split; rewrite ?Hf, ?Hs; done. Qed.

Lemma log_modify I f : LogInv I ->
  (forall s, x_collector (f s) = x_collector s /\ x_file (f s) = x_file s /\
     x_streamed (f s) = x_streamed s) -> keeps I (modify f).
Proof. intros HI Hf. apply keeps_modify. intros s. destruct (Hf s) as (? & ? & ?). by apply HI. Qed.
Lemma log_observe {A} I (f : nat -> A) : LogInv I -> keeps I (observe f).
Proof. intros HI s o s' Hs [= _ <-]. by apply (HI s). Qed.
Lemma log_lift {A} I (o : outcome A) : keeps I (lift o).
Proof. by intros s o' s' Hs [= _ <-]. Qed.

Lemma tidy_collectLog e : no_output e -> keeps tidy (collectLog e).
Proof.
  intros He s o s' Hs Hr. unfold collectLog, gets, mbind, M_bind in Hr.
  destruct (length _ <? MAX_STREAM_LOGS)%nat eqn:Hlen; bool_to_prop.
  - injection Hr as _ <-. destruct Hs as [H1 H2 H3 H4]. split; simpl; try done.
    + apply Forall_app. auto.
    + rewrite length_app. simpl. destruct (col_truncated _); lia.
  - destruct (col_truncated (x_collector s)) eqn:Ht; [by injection Hr as _ <-|].
    injection Hr as _ <-. destruct Hs as [H1 H2 H3 H4]. rewrite Ht in H4.
    split; simpl; try done.
    + apply Forall_app. split; [done|]. by constructor.
    + rewrite length_app. simpl. lia.
Qed.

Lemma tidy_tee hasRun hasStream e : keeps tidy (tee hasRun hasStream e).
Proof.
  unfold tee. apply keeps_bind; [by apply log_modify; [apply _|]|]. intros _.
  pose proof (strip_no_output e) as He.
  apply keeps_bind; [destruct hasRun|intros _; destruct hasStream]; try apply keeps_ret;
    apply keeps_modify; intros s [? ? ? ?]; split; try done; simpl; apply Forall_app; auto.
Qed.

Context (external : StreamLogEntry -> M Exec unit) (external_tidy : forall e, keeps tidy (external e)).

Lemma tidy_merged e : keeps tidy (mergedOnLogEntry external e).
Proof.
  apply keeps_bind; [apply tidy_collectLog, strip_no_output|]. intros _. apply external_tidy.
Qed.
End Tidy.

Ltac solve_tidy :=
  repeat first
    [ apply keeps_ret | apply keeps_gets | apply log_observe; apply _ | apply log_lift
    | apply tidy_merged; assumption
    | apply log_modify; [apply _|intros ?; split_and!; reflexivity]
    | apply keeps_for_each | apply keeps_bind | progress intros
    | match goal with |- keeps _ (match ?x with _ => _ end) => destruct x end
    | unfold_exec | progress unfold run_worker, attempt_once ].

Section TidyLoops.
Context `{Env} (external : StreamLogEntry -> M Exec unit).
Context (external_tidy : forall e, keeps tidy (external e)).

Lemma tidy_attempts ctx n i b a l : keeps tidy (attempts external ctx n i b a l).
Proof.
  revert a l. induction n as [|n IH]; intros a l; [apply keeps_ret|]. cbn [attempts].
  apply keeps_bind; [solve_tidy|]. intros []; [apply keeps_ret|apply IH|apply keeps_ret].
Qed.

Lemma tidy_walk ctx ps i l : keeps tidy (walk external ctx ps i l).
Proof.
  revert i l. induction ps as [|b ps IH]; intros i l; [apply keeps_ret|]. cbn [walk].
  apply keeps_bind; [apply tidy_attempts|]. intros []; [apply keeps_ret|apply IH..].
Qed.

Lemma core_tidy runId payload s o s' :
  clean s -> executeWithRetryCore external runId payload s = (o, s') ->
  clean s' /\ forall out, o = Ret out ->
    Forall no_output (out_logs out) /\ length (out_logs out) <= S MAX_STREAM_LOGS.
Proof.
  intros Hs Hr. unfold executeWithRetryCore in Hr. run_bind Hr as ctx s1 E1 e1;
    (assert (keeps clean (retry_context runId payload)) as Hk by solve_tidy);
    apply Hk in E1; try done; [|by subst].
  run_bind Hr as u s2 E2 e2; [|done].
  assert (tidy s2) as Hs2.
  { injection E2 as _ <-. destruct E1. split; simpl; [constructor|done..|lia]. }
  run_bind Hr as l s3 E3 e3; apply tidy_walk in E3 as [T1 T2 T3 T4]; try done; [|by subst].
  injection Hr as <- <-. split; [done|]. intros out [= <-]. simpl. split; [done|].
  destruct (col_truncated _); lia.
Qed.
End TidyLoops.

(** ** The lease around the execution *)

Section Lease.
Context `{Env} (g : Registry).

Definition registry_is (s : Exec) : Prop := x_reg s = g.

Lemma registry_observe {A} (f : nat -> A) : keeps registry_is (observe f).
Proof. by intros s o s' Hs [= _ <-]. Qed.
Lemma registry_lift {A} (o : outcome A) : keeps registry_is (lift o).
Proof. by intros s o' s' Hs [= _ <-]. Qed.
End Lease.

Ltac solve_registry :=
  repeat first
    [ assumption | apply keeps_ret | apply keeps_gets | apply registry_observe | apply registry_lift
    | apply keeps_modify; intros ? ?; assumption
    | apply keeps_for_each | apply keeps_bind | progress intros
    | match goal with |- keeps _ (match ?x with _ => _ end) => destruct x end
    | unfold_exec | progress unfold run_worker, attempt_once, tee ].

Section LeaseCore.
Context `{Env} (g : Registry).

Lemma core_registry hasRun hasStream runId payload :
  keeps (registry_is g) (executeWithRetryCore (tee hasRun hasStream) runId payload).
Proof.
  assert (forall ctx n i b a l, keeps (registry_is g) (attempts (tee hasRun hasStream) ctx n i b a l))
    as Hat.
  { intros ctx n i b. induction n as [|n IH]; intros a l; [apply keeps_ret|]. cbn [attempts].
    apply keeps_bind; [solve_registry|]. intros []; [apply keeps_ret|apply IH|apply keeps_ret]. }
  assert (forall ctx ps i l, keeps (registry_is g) (walk (tee hasRun hasStream) ctx ps i l)) as Hwalk.
  { intros ctx. induction ps as [|b ps IH]; intros i l; [apply keeps_ret|]. cbn [walk].
    apply keeps_bind; [apply Hat|]. intros []; [apply keeps_ret|apply IH..]. }
  unfold executeWithRetryCore. apply keeps_bind; [solve_registry|]. intros ctx.
  apply keeps_bind; [solve_registry|]. intros _.
  apply keeps_bind; [apply Hwalk|]. intros l. solve_registry.
Qed.

(** Binding a fresh task id registers the run, keeping the lease it has. *)
Lemma bind_fresh id taskId agentId :
  wf g -> leasesByTaskId g !! taskId = None ->
  exists ref g', bindExecutionLeaseTask id taskId agentId g = (Ret ref, g') /\ wf g' /\
    leasesByRunId g' = <[id := ref]> (leasesByRunId g) /\
    (forall r, leasesByRunId g !! id = Some r -> r = ref).
Proof.
  intros Hw Ht. pose proof (wf_bind id taskId agentId g Hw) as Hw'.
  pose proof (getOrCreate_registered id agentId g Hw) as Hreg.
  unfold bindExecutionLeaseTask in *.
  destruct (getOrCreateExecutionLease id agentId g) as [ref g1] eqn:Hg.
  assert (leasesByTaskId g1 = leasesByTaskId g /\ leasesByRunId g1 = <[id := ref]> (leasesByRunId g) /\
    forall r, leasesByRunId g !! id = Some r -> r = ref) as (Ht1 & Hr1 & Hsame).
  { unfold getOrCreateExecutionLease, createExecutionLease in Hg.
    destruct (leasesByRunId g !! id) as [r|] eqn:Hr; injection Hg as <- <-; simpl.
    - by rewrite insert_id; [split_and!; [done|done|congruence]|].
    - split_and!; [done|done|congruence]. }
  rewrite Ht1, Ht in *. eexists ref, _. split; [done|]. split; [done|]. simpl. done.
Qed.
End LeaseCore.

(** ** Facts about every execution of a trace *)

Lemma trace_call `{Env} ctx i a cs :
  call_trace ctx i a cs -> forall c, c ∈ cs -> call_ok ctx (call_provider c) (call_attempt c) c.
Proof.
  assert (forall j b c, call_ok ctx j b c -> call_ok ctx (call_provider c) (call_attempt c) c) as Hok.
  { intros j b c Hc. by rewrite (ok_provider _ _ _ _ Hc), (ok_attempt _ _ _ _ Hc). }
  induction 1; intros x Hin; [by apply elem_of_nil in Hin|..];
    apply elem_of_cons in Hin as [->|Hin]; eauto. by apply elem_of_nil in Hin.
Qed.

Lemma traced_fields `{Env} tp p :
  pl_chatId (traced_payload tp p) = pl_chatId p /\
  cfg_provider <$> pl_agentConfig (traced_payload tp p) = cfg_provider <$> pl_agentConfig p.
Proof.
  unfold traced_payload. destruct (nonempty tp); [|done].
  destruct (pl_agentConfig p) eqn:Hc; simpl; by rewrite ?Hc.
Qed.

Definition credentials (p : ProviderFields) : list (option string) :=
  [providerApiKey p; providerBaseUrl p; providerOauthToken p].

Definition own_credentials (b : ResolvedProviderBinding) : list (option string) :=
  if decide (pb_authMode b = localSession) then [None; None; None]
  else [nonempty (pb_providerApiKey b); nonempty (pb_providerBaseUrl b);
        nonempty (pb_providerOauthToken b)].

Lemma apply_credentials p b : credentials (applyProviderBinding p b) = own_credentials b.
Proof.
  unfold credentials, own_credentials, applyProviderBinding. simpl.
  destruct (decide (pb_authMode b = localSession)) as [Ha|Ha].
  - by rewrite !decide_False by (by intros []).
  - rewrite !decide_True by done. by repeat case_match.
Qed.

(** ** Properties *)

(** C13. Retry discipline: the executions of a run follow the provider list in
    order, never return to a provider, restart the attempts at each one, and
    continue only after a failed execution: with the same provider after a
    transient error while its budget lasts, with the next one after an error
    another account may cure or once the budget is spent.  Their number is at
    most the attempt budget times the number of providers. *)
Theorem retry_discipline `{Env} taskId payload runId hasStream s o s' :
  executeWithRetry taskId payload runId hasStream s = (o, s') ->
  exists ctx cs, context_for payload ctx /\ x_calls s' = x_calls s ++ cs /\
    call_trace ctx 0 1 cs /\
    length cs <= length (rc_providersToTry ctx) * Z.to_nat (rc_maxAttempts ctx).
Proof.
  intros Hr. apply execute_run in Hr as (ctx & cs & ? & ? & ? & ? & _). exists ctx, cs. done.
Qed.

(** No token is lost: the usage reported with the result is, field by field,
    the sum of the usages of every execution of the run, failed ones included. *)
Theorem usage_conserved `{Env} taskId payload runId hasStream s out s' :
  executeWithRetry taskId payload runId hasStream s = (Ret out, s') ->
  exists cs, x_calls s' = x_calls s ++ cs /\
    forall k, tokens k (res_usage (out_result out)) = trace_tokens k cs.
Proof.
  intros Hr. apply execute_run in Hr as (ctx & cs & _ & ? & _ & _ & Ht). exists cs. eauto.
Qed.

(** C31. Provider isolation: when the agent has a chain, every execution runs
    under one binding of it with that binding's engine and credentials and no
    other's, none at all for a local session; and after a switch it never
    carries the provider session the payload came with. *)
Theorem provider_isolation `{Env} taskId payload runId hasStream s o s' :
  executeWithRetry taskId payload runId hasStream s = (o, s') ->
  2 <= length (getProviderChain payload) ->
  exists cs, x_calls s' = x_calls s ++ cs /\
    forall c, c ∈ cs -> exists b p, b ∈ getProviderChain payload /\
      cfg_provider <$> pl_agentConfig (call_payload c) = Some p /\
      engineType p = Some (pb_engineType b) /\ credentials p = own_credentials b /\
      (0 < call_provider c -> pl_chatId (call_payload c) = None).
Proof.
  intros Hr Hlen. apply execute_run in Hr as (ctx & cs & Hfor & Hcs & Htr & _).
  exists cs. split; [done|]. intros c Hc. apply (trace_call _ _ _ _ Htr) in Hc as [_ _ Hp _].
  destruct Hfor as [_ _ _ _ (chain & Hperm & Hpr)].
  rewrite <- Hperm in Hlen. destruct (1 <? length chain)%nat eqn:Hl; bool_to_prop; [|lia].
  destruct Hp as (ob & Hob & (tp & reset & Hreset & Hpay)).
  rewrite Hpr, list_lookup_fmap in Hob. destruct (chain !! call_provider c) as [b|] eqn:Hb; [|done].
  injection Hob as <-. rewrite Hpay. destruct (traced_fields tp (withProviderBinding (rc_payload ctx) b reset))
    as [-> ->].
  exists b. eexists. split; [rewrite <- Hperm; by eapply list_elem_of_lookup_2|].
  split; [done|]. split; [done|]. split; [apply apply_credentials|].
  intros Hi. simpl. by rewrite (Hreset Hi).
Qed.

(** The total timeout bounds the executions: with a wall-clock budget, every
    execution was decided before the deadline, and the timeout the worker then
    gets ends it by the deadline, unless the budget ran out in between. *)
Theorem deadline_respected `{Env} taskId payload runId hasStream s o s' m :
  executeWithRetry taskId payload runId hasStream s = (o, s') ->
  pl_agentConfig payload ≫= cfg_totalTimeoutMinutes = Some m ->
  (forall t, pl_agentConfig payload ≫= cfg_timeoutMinutes = Some t -> 0 < t)%Z ->
  exists start cs, x_calls s' = x_calls s ++ cs /\ let deadlineAt := (now_at start + m * 60 * 1000)%Z in
    forall c, c ∈ cs -> exists decided_ issued, decided_ < issued < call_tick c /\
      (now_at decided_ < deadlineAt)%Z /\
      (call_timeoutMs c = Some 0%Z /\ (deadlineAt <= now_at issued)%Z \/
       forall agentMinutes setting,
         (0 < resolveTimeoutMs (call_timeoutMs c) agentMinutes setting /\
          now_at issued + resolveTimeoutMs (call_timeoutMs c) agentMinutes setting <= deadlineAt)%Z).
Proof.
  intros Hr Hm Ht. apply execute_run in Hr as (ctx & cs & Hfor & Hcs & Htr & _).
  destruct Hfor as [_ _ Htm Hdl _]. rewrite Hm in Hdl. destruct Hdl as [start Hdl].
  exists start, cs. split; [done|]. intros d c Hc.
  apply (trace_call _ _ _ _ Htr) in Hc as [_ _ _ Htime]. unfold timely in Htime.
  rewrite Hdl, Htm in Htime. destruct Htime as (k1 & k0 & Hk & Hd & Hct).
  exists k1, k0. split; [done|]. split; [done|]. rewrite Hct. fold d.
  assert (forall t, (t <> 0 -> 0 < t)%Z -> (t <= Z.max 0 (d - now_at k0))%Z ->
    (t = 0 -> d <= now_at k0)%Z -> (Some t = Some 0%Z /\ (d <= now_at k0)%Z) \/
    forall am st, (0 < resolveTimeoutMs (Some t) am st /\
      now_at k0 + resolveTimeoutMs (Some t) am st <= d)%Z) as Hmain.
  { intros t Hpos Hle Hz. destruct (decide (t = 0%Z)) as [->|Hne]; [left; auto|].
    right. intros am st. unfold resolveTimeoutMs. rewrite decide_True by done.
    specialize (Hpos Hne). lia. }
  destruct (pl_agentConfig payload ≫= cfg_timeoutMinutes) as [t|] eqn:Hto; simpl in *.
  - specialize (Ht t eq_refl). apply Hmain; lia.
  - apply Hmain; lia.
Qed.

(** Tool output stays with the tracer: whatever the engine emits, the run log
    file, the caller's stream and the logs returned for storage carry no tool
    output, and the returned logs hold at most the cap and its marker. *)
Theorem tool_output_confined `{Env} taskId payload runId hasStream s o s' :
  clean s -> executeWithRetry taskId payload runId hasStream s = (o, s') ->
  clean s' /\ forall out, o = Ret out ->
    Forall no_output (out_logs out) /\ length (out_logs out) <= S MAX_STREAM_LOGS.
Proof.
  intros Hs. unfold executeWithRetry. destruct (nonempty runId) as [id|];
    [|apply core_tidy; auto using tidy_tee].
  intros Hr. run_bind Hr as owned s1 E1 e1; [|done]. injection E1 as _ <-.
  assert (keeps clean (in_registry (bindExecutionLeaseTask id taskId
    (pl_agentConfig payload ≫= cfg_agentId)))) as Hb.
  { intros t ot t' Ht. unfold in_registry. destruct (bindExecutionLeaseTask _ _ _ _).
    by intros [= _ <-]. }
  run_bind Hr as lease s2 E2 e2; apply Hb in E2; try done; [|by subst].
  unfold finally in Hr. destruct (executeWithRetryCore _ _ _ s2) as [oc s3] eqn:Hc.
  apply core_tidy in Hc as [Hs3 Hout]; [|auto using tidy_tee|done].
  injection Hr as <- <-. split; [by destruct owned|done].
Qed.

(** The lease is balanced: on every path, thrown errors included, a run keeps
    the execution lease it had before the call, and a lease created for the call
    is released by it. *)
Theorem lease_balanced `{Env} taskId payload id hasStream s o s' :
  id <> "" -> wf (x_reg s) -> leasesByTaskId (x_reg s) !! taskId = None ->
  executeWithRetry taskId payload (Some id) hasStream s = (o, s') ->
  wf (x_reg s') /\ leasesByRunId (x_reg s') = leasesByRunId (x_reg s).
Proof.
  intros Hid Hw Ht. unfold executeWithRetry.
  assert (nonempty (Some id) = Some id) as -> by (by destruct id).
  generalize (pl_agentConfig payload ≫= cfg_agentId) as agentId. intros agentId. cbv zeta.
  unfold mbind, M_bind, gets, in_registry, finally.
  destruct (bind_fresh (x_reg s) id taskId agentId Hw Ht)
    as (ref & g & -> & Hwg & Hrun & Hsame).
  destruct (executeWithRetryCore _ _ _ _) as [oc s3] eqn:Hc.
  apply (core_registry g) in Hc; [|done]. intros [= _ <-]. unfold registry_is in Hc.
  unfold hasExecutionLease. case_bool_decide as Hheld.
  - rewrite Hc. split; [done|]. destruct Hheld as [r Hr]. rewrite Hrun.
    by rewrite <- (Hsame r Hr), insert_id.
  - simpl. rewrite Hc. split; [by apply wf_finish|].
    assert (leasesByRunId g !! id = Some ref) as Hreg by (by rewrite Hrun, lookup_insert_eq).
    destruct (wf_run _ Hwg _ _ Hreg) as (e & He & Heid & Hf).
    apply map_eq. intros r. apply option_eq. intros l.
    rewrite (registered_finish _ _ _ _ _ Hwg He Hf), Hrun.
    destruct (decide (r = id)) as [->|Hne].
    + rewrite lookup_insert_eq. split; [by intros [[= <-] ?]|].
      intros Hl. exfalso. apply Hheld. eauto.
    + rewrite lookup_insert_ne by done. split; [by intros [? _]|]. intros Hl. split; [done|].
      intros ->. apply Hne. assert (leasesByRunId g !! r = Some ref) as Hr
        by (by rewrite Hrun, lookup_insert_ne).
      destruct (wf_run _ Hwg _ _ Hr) as (e' & He' & <- & _). congruence.
Qed.

(** ** Concrete executions *)

Definition demo_binding (id key : string) (mode : AuthMode) : ResolvedProviderBinding :=
  mkBinding id ("p-" +:+ id) ("Provider " +:+ id) "claude-code" "claude-code" None None false None
    None None None "file" (Some key) None None mode None.

Definition demo_config (total : option Z) (chain : list (option ResolvedProviderBinding))
    : AgentConfig :=
  mkConfig (Some "ag") (Some 1%Z) None total (Some chain) None None empty_provider.

Definition demo_payload (total : option Z) : WorkerTaskPayload :=
  mkPayload None (Some "chat-1")
    (Some (demo_config total [Some (demo_binding "A" "key-a" apiKey); None;
                              Some (demo_binding "B" "key-b" localSession)])) None None.

(** The first provider is out of quota, the second succeeds; each spends tokens. *)
Definition demo_worker (n : nat) (p : WorkerTaskPayload) (timeoutMs : option Z)
    : list StreamLogEntry * outcome ExecuteWorkerResult :=
  let usage := Some (mkUsage (Some 10%Z) (Some 1%Z) None None None) in
  ([LToolCall "completed" "c" "Bash" None None None (Some "secret") 0%Z],
   if decide ((pl_agentConfig p ≫= fun c => providerName (cfg_provider c)) = Some "Provider A")
   then Ret (mkWorkerResult false "" None (Some "403: monthly limit reached") 5 usage)
   else Ret (mkWorkerResult true "done" (Some "chat-2") None 7 usage)).

Definition demo_env (clock : nat -> Z) : Env := {|
  now_at := clock;
  status_at := fun _ _ => Ret (Some running);
  random_at := fun _ => 0%Z;
  worker_at := demo_worker;
  traceparent_at := fun _ => Some "00-trace";
  baggage := None;
  b64url_json := fun _ => ""
|}.

Definition demo_exec : Exec := mkExec 0 ∅ ∅ [] (mkCollector [] false) [] [] [] empty_registry.

Definition demo_run (clock : nat -> Z) (total : option Z)
    : outcome ExecuteWithRetryResult * Exec :=
  @executeWithRetry (demo_env clock) "task" (demo_payload total) (Some "run") true demo_exec.

(** A budget that runs out between the deadline check and the start of the
    worker is not enforced: the worker gets a timeout of zero, which the
    executor reads as no timeout given, so the execution may last the default
    fifteen minutes past the deadline. *)
Theorem spent_budget_overruns :
  let clock n := (if (n <=? 7)%nat then 0 else if (n <=? 15)%nat then 299999 else 300000)%Z in
  let total := 5%Z in
  exists c1 c2 issued, x_calls (demo_run clock (Some total)).2 = [c1; c2] /\
    issued < call_tick c2 /\ call_timeoutMs c2 = Some 0%Z /\
    (clock 0%nat + total * 60 * 1000 + 15 * 60 * 1000 <=
     clock issued + resolveTimeoutMs (call_timeoutMs c2) None None)%Z.
Proof.
  intros clock total. eexists _, _, 16. split; [vm_compute; reflexivity|]. simpl.
  split; [lia|]. split; [done|]. vm_compute. discriminate.
Qed.

(** ** Witnesses *)

Definition demo_result : outcome ExecuteWithRetryResult := (demo_run Z.of_nat (Some 5%Z)).1.
Definition demo_after : Exec := (demo_run Z.of_nat (Some 5%Z)).2.

Lemma demo_runs : demo_run Z.of_nat (Some 5%Z) = (demo_result, demo_after).
Proof. apply surjective_pairing. Qed.

Lemma retry_discipline_witness :
  length (x_calls demo_after) = 2 /\
  exists ctx cs, x_calls demo_after = x_calls demo_exec ++ cs /\ @call_trace (demo_env Z.of_nat) ctx 0 1 cs.
Proof.
  split; [by vm_compute|].
  destruct (@retry_discipline (demo_env Z.of_nat) _ _ _ _ _ _ _ demo_runs) as (ctx & cs & ? & ? & ? & _).
  exists ctx, cs. split; assumption.
Defined.

Lemma usage_conserved_witness :
  exists out cs, demo_result = Ret out /\ x_calls demo_after = cs /\
    tokens fInput (res_usage (out_result out)) = 20%Z /\ trace_tokens fInput cs = 20%Z.
Proof.
  destruct demo_result as [out|] eqn:Ho; [|by vm_compute in Ho].
  pose proof demo_runs as Hr. rewrite Ho in Hr.
  destruct (@usage_conserved (demo_env Z.of_nat) _ _ _ _ _ _ _ Hr) as (cs & Hcs & Ht).
  exists out, cs. split; [reflexivity|]. split; [exact Hcs|]. rewrite <- Ht.
  assert (tokens fInput (res_usage (out_result out)) = 20%Z); [|by split].
  vm_compute in Ho. by injection Ho as <-.
Defined.

Lemma provider_isolation_witness :
  2 <= length (getProviderChain (demo_payload (Some 5%Z))) /\
  exists cs, x_calls demo_after = cs /\
    forall c, c ∈ cs -> 0 < call_provider c -> pl_chatId (call_payload c) = None.
Proof.
  assert (2 <= length (getProviderChain (demo_payload (Some 5%Z)))) as Hl by (vm_compute; lia).
  split; [exact Hl|].
  destruct (@provider_isolation (demo_env Z.of_nat) _ _ _ _ _ _ _ demo_runs Hl) as (cs & Hcs & Hall).
  exists cs. split; [exact Hcs|]. intros c Hc Hi.
  destruct (Hall c Hc) as (b & p & _ & _ & _ & _ & Hchat). exact (Hchat Hi).
Defined.

Lemma deadline_respected_witness :
  exists start cs, x_calls demo_after = cs /\ length cs = 2 /\
    forall c, c ∈ cs -> exists k, k < call_tick c /\ (Z.of_nat k < Z.of_nat start + 300000)%Z.
Proof.
  destruct (@deadline_respected (demo_env Z.of_nat) _ _ _ _ _ _ _ 5%Z demo_runs eq_refl)
    as (start & cs & Hcs & Hall); [done|].
  exists start, cs. split; [exact Hcs|].
  split; [change (length (x_calls demo_exec ++ cs) = 2); rewrite <- Hcs; by vm_compute|].
  intros c Hc. destruct (Hall c Hc) as (k & k' & Hk & Hd & _). exists k. split; [lia|exact Hd].
Defined.

Lemma tool_output_confined_witness :
  x_file demo_after <> [] /\ Forall no_output (x_file demo_after).
Proof.
  split; [by vm_compute|].
  assert (clean demo_exec) as Hclean by (split; constructor).
  exact (proj1 (proj1 (@tool_output_confined (demo_env Z.of_nat) _ _ _ _ _ _ _ Hclean demo_runs))).
Defined.

Lemma lease_balanced_witness : leasesByRunId (x_reg demo_after) = ∅.
Proof.
  refine (proj2 (@lease_balanced (demo_env Z.of_nat) _ _ "run" _ demo_exec _ _ _ wf_empty _ demo_runs));
    [discriminate|reflexivity].
Defined.
