(* ===== verification/RunLifecycle.v ===== *)
(** * Settling a run

    [apps/api/src/lib/run-lifecycle.ts]: how the process that executed a run
    writes its end.  A terminal transition settles the run and its step in one
    transaction and only from [running]; token usage is recorded once; then come
    the side effects, the worktree, the execution lease and the next run.

    [Life] is the process with the calls it has started and does not await.
    Every database call may fail, and other processes act between two of them
    ([Surroundings] of WorkspaceRemoval.v). *)
From S2P Require Import Prelude Json Schema LeaseRegistry World ScmWorkload Resume WorkspaceRemoval ExecuteRetry.

(** ** Log entries on their way to the database *)

Definition MAX_INPUT_JSON_LENGTH : Z := 2000.

(** Log entries are JSON objects here; [json_length v] is
    [JSON.stringify(v).length]. *)
Definition sanitize_entry (json_length : json -> Z) (entry : json) : json :=
  match entry with
  | JObj o =>
      match obj_get o "type", obj_get o "input" with
      | Some (JStr "tool_call"), Some input =>
          if negb (truthy (Some input)) then entry
          else if (json_length input <=? MAX_INPUT_JSON_LENGTH)%Z then entry
          else JObj (obj_set o "input"
                 (JObj [("_truncated", JBool true); ("_length", JNum (JInt (json_length input)))]))
      | _, _ => entry
      end
  | _ => entry
  end.

Definition sanitizeLogsForStorage (json_length : json -> Z) (logs : list json) : list json :=
  sanitize_entry json_length <$> logs.

(** ** State *)

(** Calls started with [void] or [.catch], and file removals of artifacts *)
Inductive Effect (A : Type) :=
| eff_scheduleNext (agentId : string)
| eff_discardArtifacts (workDir taskId : string)
| eff_feishuReply (agentId runId : string) (context : option json) (output : option string)
| eff_nativeReply (agentId : string) (channel : option json) (replyText : string) (artifacts : list A)
| eff_notifyRunError (agentId agentName runId errorMsg : string)
| eff_generateWorkLog (agentId runId : string) (success : bool) (stepId : string).
Arguments eff_scheduleNext {A}.
Arguments eff_discardArtifacts {A}.
Arguments eff_feishuReply {A}.
Arguments eff_nativeReply {A}.
Arguments eff_notifyRunError {A}.
Arguments eff_generateWorkLog {A}.

Record Life (A : Type) := mkLife { lf_host : Host; lf_effects : list (Effect A) }.
Arguments mkLife {A}.
Arguments lf_host {A}.
Arguments lf_effects {A}.

Definition lf_db {A} (s : Life A) : Db := h_db (lf_host s).
Definition lf_reg {A} (s : Life A) : Registry := w_reg (h_world (lf_host s)).

Definition set_host {A} (f : Host -> Host) (s : Life A) : Life A :=
  mkLife (f (lf_host s)) (lf_effects s).
Definition add_effect {A} (e : Effect A) (s : Life A) : Life A :=
  mkLife (lf_host s) (lf_effects s ++ [e]).

Definition on_host {A B} (m : M Host B) : M (Life A) B := fun s =>
  let '(o, h) := m (lf_host s) in (o, set_host (fun _ => h) s).

Record FinishRunParams := mkParams {
  p_taskId : string;
  p_runId : string;
  p_stepId : string;
  p_agentId : string;
  p_startTime : Z;
  p_logs : option (list json);
  p_retries : option (list json);
  p_workDir : option string;
  p_userId : option string
}.

Inductive TerminalTransitionOutcome := owned | lost | recovered.

#[export] Instance TerminalTransitionOutcome_eq_dec : EqDecision TerminalTransitionOutcome.
Proof. solve_decision. Defined.

Definition isNativeChatChannel (value : option json) : bool :=
  match value with Some (JStr s) => bool_decide (s ∈ NATIVE_CHAT_CHANNELS) | _ => false end.

Definition ARTIFACT_DOWNLOAD_MARKER : string := "

---
**产物下载**
".
Definition appendNativeArtifactDownloadSection (content links : string) : string :=
  content +:+ ARTIFACT_DOWNLOAD_MARKER +:+ links.

Definition buildFeishuFallbackText (runId : string) : string :=
  "⚠️ Agent 未返回有效内容，本次执行可能失败。
请稍后重试，或在 A2Wave 后台查看详情（run_id=" +:+ runId +:+ "）。".
Definition buildNativeChatFallbackText (runId : string) : string :=
  "⚠️ The Agent did not return usable content. Please try again or inspect the run in a2wave (run_id="
  +:+ runId +:+ ").".

Definition lost_ownership (stepId : string) : string :=
  "Run step " +:+ quoted stepId +:+ " lost terminal-state ownership".

(** The columns of [buildRunUsageSet]; adding to no column is an empty update *)
Definition accrue_usage (total delta : TokenUsage) : TokenUsage :=
  mkUsage (add_field (inputTokens total) (inputTokens delta))
    (add_field (outputTokens total) (outputTokens delta))
    (add_field (reasoningTokens total) (reasoningTokens delta))
    (add_field (cacheReadTokens total) (cacheReadTokens delta))
    (add_field (cacheWriteTokens total) (cacheWriteTokens delta)).

Definition no_usage_fields (u : TokenUsage) : bool :=
  bool_decide (inputTokens u = None) && bool_decide (outputTokens u = None) &&
  bool_decide (reasoningTokens u = None) && bool_decide (cacheReadTokens u = None) &&
  bool_decide (cacheWriteTokens u = None).

Definition num_field (k : string) (v : option Z) : js_object :=
  match v with Some n => [(k, JNum (JInt n))] | None => [] end.

Definition usage_json (u : TokenUsage) : json :=
  JObj (num_field "inputTokens" (inputTokens u) ++ num_field "outputTokens" (outputTokens u) ++
        num_field "reasoningTokens" (reasoningTokens u) ++
        num_field "cacheReadTokens" (cacheReadTokens u) ++
        num_field "cacheWriteTokens" (cacheWriteTokens u)).

Definition str_field (k : string) (v : option string) : js_object :=
  match v with Some s => [(k, JStr s)] | None => [] end.
Definition list_field (k : string) (v : option (list json)) : js_object :=
  match v with Some (x :: l) => [(k, JArr (x :: l))] | _ => [] end.
(** [if (x) o.k = x] *)
Definition truthy_field (k : string) (v : option string) : js_object :=
  match v with None | Some "" => [] | Some s => [(k, JStr s)] end.

Definition with_step (st : StepStatus) (durationMs : option Z) (output : option js_object)
    (s : RunStep) : RunStep :=
  mkStep (step_runId s) (step_order s) (step_input s) output st
    (match durationMs with Some d => Some d | None => step_durationMs s end)
    (step_agentId s).

(** [update(run_steps)] of a running step, by id *)
Definition update_steps (k : string) (cond : RunStep -> bool) (f : RunStep -> RunStep) : M World bool :=
  write_returning (fun d =>
    let '(b, t) := update_where k cond f (db_steps d) in (b, set_steps (fun _ => t) d)).

Section Lifecycle.
Context {Artifact : Type} `{Instance, Surroundings}.
(** File storage, link building and the policy schema, with the [n]-th
    observation's answer *)
Context (json_length : json -> Z)
        (scanAndRegisterArtifacts : nat -> outcome (list Artifact))
        (buildArtifactLinkLines : nat -> outcome string)
        (parseArtifactPolicy : json -> option JsError)
        (createMessageId : nat -> string).

#[local] Abbreviation L := (M (Life Artifact)).

(** A statement or transaction on the database *)
Definition db_call {A} (m : M World A) : L A := on_host (mutation m).
Definition emit (e : Effect Artifact) : L unit := modify (add_effect e).
Definition observe_life {A} (f : nat -> A) : L A :=
  on_host (fun h => (Ret (f (h_tick h)), tick h)).

Definition completeLease (runId : string) : L unit :=
  on_host (on_world (modify (World.set_reg (completeExecutionLease runId)))).

(** ** The terminal transition *)

(** [update(runs).set({ status, result, updatedAt }).where(id and status = 'running')] *)
Definition settled_run (st : RunStatus) (result : js_object) (r : Run) : Run :=
  with_updatedAt clock (with_result (Some (JObj result)) (with_status st r)).

Definition run_transition (runId : string) (st : RunStatus) (result : js_object) : M World bool :=
  update_runs runId (fun r => bool_decide (run_status r = running)) (settled_run st result).

Definition recover_transition (runId stepId recoveryError : string) : M World bool :=
  recovery ← run_transition runId failed [("error", JStr recoveryError)];
  if negb recovery then mret false
  else
    _ ← update_steps stepId (fun s => bool_decide (step_status s = step_running))
          (with_step step_failed None (Some [("error", JStr recoveryError)]));
    mret true.

Definition attemptTerminalTransition (runId stepId recoveryError : string) (transition : M World bool)
    : L TerminalTransitionOutcome :=
  try_catch (
    won ← db_call transition;
    mret (if (won : bool) then owned else lost))
    (fun _ =>
      try_catch (
        recovered_ ← db_call (recover_transition runId stepId recoveryError);
        mret (if (recovered_ : bool) then recovered else lost))
        (fun _ => mret lost)).

(** Run and step together, or neither *)
Definition settle_both (runId stepId : string) (st : RunStatus) (stepSt : StepStatus)
    (result stepOutput : js_object) (durationMs : Z) : M World bool :=
  runTransition ← run_transition runId st result;
  if negb runTransition then mret false
  else
    stepTransition ← update_steps stepId (fun s => bool_decide (step_status s = step_running))
      (with_step stepSt (Some durationMs) (Some stepOutput));
    if negb stepTransition
    then throw (mkError "Error" (lost_ownership stepId))
    else mret true.

Definition getRunStatus (runId : string) : L (option RunStatus) :=
  db_call (select (fun d => run_status <$> db_runs d !! runId)).

Definition with_cancelled (s : RunStep) : RunStep := with_step_status step_cancelled s.

Definition cancelLateStep (stepId : string) : L unit :=
  _ ← db_call (update_steps stepId (fun s => bool_decide (step_status s = step_running)) with_cancelled);
  mret tt.

(** ** Worktree, lease and queue *)

Definition cleanupWorktreeIfEphemeral (runId agentId : string) : M Host unit :=
  run ← mutation (select (fun d => db_runs d !! runId));
  match run with
  | None => mret tt
  | Some r =>
      match run_worktreeConfig r, run_workDir r with
      | None, _ | _, None | _, Some "" => mret tt
      | Some wtConfig, Some workDir =>
          if decide (wt_cleanup wtConfig <> cleanup_ephemeral) then mret tt
          else if isPerAgentWorkspaceName (wt_name wtConfig) then mret tt
          else
            occupied ← mutation (select (fun d =>
              existsb (occupying_run workDir None) (map_to_list (db_runs d))));
            if (occupied : bool) then mret tt
            else
              agent ← mutation (select (fun d => db_agents d !! agentId));
              match agent ≫= agent_scmSourceId with
              | None | Some "" => mret tt
              | Some sourceId =>
                  source ← mutation (select (fun d => db_sources d !! sourceId));
                  match source with
                  | None => mret tt
                  | Some src =>
                      scm ← createScmSource sourceId src;
                      match scm with
                      | None => mret tt
                      | Some handle =>
                          if decide (join (scm_wsRoot handle) (wt_name wtConfig) <> workDir) then mret tt
                          else removeOwnedSourceWorkspaceGuarded sourceId (wt_name wtConfig) handle
                                 (mkOwned wl_run runId processInstanceId)
                      end
                  end
              end
      end
  end.

Definition discardRunArtifactsDir (workDir : option string) (taskId : string) : L unit :=
  match workDir with
  | None | Some "" => mret tt
  | Some w => emit (eff_discardArtifacts w taskId)
  end.

Definition cleanupFinishedExecution (params : FinishRunParams) (shouldScheduleNext keepArtifactsDir : bool)
    : L unit :=
  _ ← on_host (cleanupWorkspaceOrHandOff delay
        (cleanupWorktreeIfEphemeral (p_runId params) (p_agentId params)) default_retry);
  _ ← completeLease (p_runId params);
  _ ← (if shouldScheduleNext then emit (eff_scheduleNext (p_agentId params)) else mret tt);
  if keepArtifactsDir then mret tt
  else discardRunArtifactsDir (p_workDir params) (p_taskId params).

(** ** Token usage *)

Definition usage_absent (s : RunStep) : bool :=
  bool_decide (obj_get (default [] (step_output s)) "usage" = None).
Definition set_usage (usage : TokenUsage) (s : RunStep) : RunStep :=
  with_step_output (Some (obj_set (default [] (step_output s)) "usage" (usage_json usage))) s.

Definition record_usage (runId stepId : string) (usage : TokenUsage) : M World bool :=
  stepClaim ← update_steps stepId usage_absent (set_usage usage);
  if negb stepClaim then mret false
  else
    runUpdate ← update_runs runId (fun _ => true)
      (fun r => Schema.with_usage (accrue_usage (run_usage r) usage) r);
    if negb runUpdate
    then throw (mkError "Error" ("Run " +:+ quoted runId +:+
      " disappeared while recording usage for step " +:+ quoted stepId))
    else mret true.

Definition recordUsageOnce (runId stepId : string) (usage : option TokenUsage) : L bool :=
  match usage with
  | None => mret false
  | Some u => if no_usage_fields u then mret false else db_call (record_usage runId stepId u)
  end.

Definition tryRecordUsageOnce (runId stepId : string) (usage : option TokenUsage) : L bool :=
  try_catch (recordUsageOnce runId stepId usage) (fun _ => mret false).

(** ** Replies *)

Definition loadStepContext (stepId : string) : L (option json) :=
  db_call (select (fun d => (db_steps d !! stepId ≫= step_input) ≫= fun o => obj_get o "context")).

Definition isP2pReplyDisabled (agentId : string) : L bool :=
  config ← db_call (select (fun d => db_agents d !! agentId ≫= agent_feishuConfig));
  mret (bool_decide ((config ≫= fun o => obj_get o "p2pReplyMode") = Some (JStr "none"))).

Definition has_output (output : option string) : bool :=
  match output with Some o => negb (String.eqb (trim o) "") | None => false end.

(** The body of the un-awaited call: the text it sends, if any *)
Definition sendFeishuReplyByContext (agentId runId : string) (context : option json)
    (output : option string) : L (option string) :=
  if negb (truthy (opt_get context "receive_id_type") && truthy (opt_get context "receive_id"))
  then mret None
  else if has_output output then mret output
  else
    disabled ← isP2pReplyDisabled agentId;
    mret (if (disabled : bool) then None else Some (buildFeishuFallbackText runId)).

Definition sendNativeChatReplyByContext (agentId runId : string) (context : option json)
    (output : option string) (artifacts : list Artifact) : L unit :=
  let channel := opt_get context "channel" in
  if negb (isNativeChatChannel (opt_get channel "channel_type")) then mret tt
  else emit (eff_nativeReply agentId channel
         (if has_output output then default "" output else buildNativeChatFallbackText runId) artifacts).

Definition insert_message (msgId runId content : string) : L unit :=
  db_call (db_write (set_messages (insert msgId (mkMessage runId role_agent content)))).

(** ** Lost transitions *)

Definition after_lost (params : FinishRunParams) (usage : option TokenUsage) : L unit :=
  let '(runId, stepId) := (p_runId params, p_stepId params) in
  currentStatus ← getRunStatus runId;
  match currentStatus with
  | Some cancelled =>
      _ ← tryRecordUsageOnce runId stepId usage;
      r ← capture (cancelLateStep stepId);
      _ ← cleanupFinishedExecution params false false;
      settle r
  | None =>
      _ ← discardRunArtifactsDir (p_workDir params) (p_taskId params);
      completeLease runId
  | Some running => cleanupFinishedExecution params true false
  | Some _ => mret tt
  end.

(** ** Success *)

Definition step_output_of (params : FinishRunParams) (fields : js_object) : js_object :=
  fields ++ list_field "logs" (sanitizeLogsForStorage json_length <$> p_logs params) ++
  list_field "retries" (p_retries params).

Definition success_output (params : FinishRunParams) (result : ExecuteWorkerResult) : js_object :=
  step_output_of params ([("result", JStr (res_output result))] ++ str_field "chatId" (res_chatId result) ++
    (if res_success result then [] else truthy_field "error" (res_error result))).

Definition success_result (result : ExecuteWorkerResult) (durationMs : Z) : js_object :=
  if res_success result
  then [("output", JStr (res_output result))] ++ str_field "chatId" (res_chatId result) ++
       [("durationMs", JNum (JInt durationMs))]
  else [("error", JStr (default "Execution failed" (res_error result)))].

Definition channel_type (context : option json) : option json :=
  opt_get (opt_get context "channel") "channel_type".

(** [result.success && workDir] *)
Definition collects_artifacts (params : FinishRunParams) (result : ExecuteWorkerResult) : bool :=
  res_success result && bool_decide (p_workDir params <> None /\ p_workDir params <> Some "").

(** The [try] body up to the artifact scan: the step's context and the content
    of the agent message *)
Definition announce_success (params : FinishRunParams) (result : ExecuteWorkerResult) (msgId : string)
    : L (option json * string) :=
  let '(runId, agentId) := (p_runId params, p_agentId params) in
  announced ← (
    if res_success result then
      context ← loadStepContext (p_stepId params);
      let hasOutput := has_output (Some (res_output result)) in
      let isNativeChat := isNativeChatChannel (channel_type context) in
      let isChatChannel := bool_decide (channel_type context = Some (JStr "feishu")) || isNativeChat ||
        (truthy (opt_get context "receive_id_type") && truthy (opt_get context "receive_id")) in
      let fallbackContent := if isNativeChat then buildNativeChatFallbackText runId
                             else buildFeishuFallbackText runId in
      let persistedContent := if hasOutput || negb isChatChannel then res_output result
                              else fallbackContent in
      _ ← insert_message msgId runId persistedContent;
      _ ← emit (eff_feishuReply agentId runId context (Some (res_output result)));
      mret (context, persistedContent)
    else mret (None, res_output result));
  _ ← (if collects_artifacts params result then
         policy ← db_call (select (fun d => db_agents d !! agentId ≫= agent_artifactPolicy));
         match policy with
         | Some v => if truthy policy
                     then match parseArtifactPolicy v with Some e => throw e | None => mret tt end
                     else mret tt
         | None => mret tt
         end
       else mret tt);
  mret announced.

(** Registration, which may fail: the artifacts, and whether the run's files
    are safe elsewhere *)
Definition register_artifacts (params : FinishRunParams) (result : ExecuteWorkerResult)
    : L (list Artifact * bool) :=
  if collects_artifacts params result then
    scanned ← observe_life scanAndRegisterArtifacts;
    mret (match scanned with Ret registered => (registered, true) | Throw _ => ([], false) end)
  else mret ([], true).

(** The rest of the [try] body *)
Definition publish_success (params : FinishRunParams) (result : ExecuteWorkerResult) (msgId : string)
    (context : option json) (content : string) (registered : list Artifact) : L unit :=
  persistedContent ← (
    match registered with
    | [] => mret content
    | _ =>
        links ← observe_life buildArtifactLinkLines;
        links' ← settle links;
        let base := if negb (has_output (Some (res_output result))) &&
                       isNativeChatChannel (channel_type context)
                    then "" else content in
        let content' := appendNativeArtifactDownloadSection base links' in
        _ ← db_call (db_write (set_messages (alter (fun msg =>
              mkMessage (msg_runId msg) (msg_role msg) content') msgId)));
        mret content'
    end);
  if res_success result
  then sendNativeChatReplyByContext (p_agentId params) (p_runId params) context
         (Some persistedContent) registered
  else mret tt.

(** The [try] and its [catch]: what was registered, and whether it is safe *)
Definition success_effects (params : FinishRunParams) (result : ExecuteWorkerResult) (msgId : string)
    : L (list Artifact * bool) :=
  announced ← capture (announce_success params result msgId);
  match announced with
  | Throw _ => mret ([], negb (collects_artifacts params result))
  | Ret (context, content) =>
      '(registered, secured) ← register_artifacts params result;
      _ ← capture (publish_success params result msgId context content registered);
      mret (registered, secured)
  end.

Definition final_status (success : bool) : RunStatus := if success then completed else failed.
Definition final_step_status (success : bool) : StepStatus :=
  if success then step_completed else step_failed.

Definition finishRunSuccess (params : FinishRunParams) (result : ExecuteWorkerResult)
    : L (list Artifact) :=
  let '(runId, stepId, agentId) := (p_runId params, p_stepId params, p_agentId params) in
  let durationMs := (clock - p_startTime params)%Z in
  transitionOutcome ← attemptTerminalTransition runId stepId (lost_ownership stepId)
    (settle_both runId stepId (final_status (res_success result))
       (final_step_status (res_success result)) (success_result result durationMs)
       (success_output params result) durationMs);
  _ ← (if decide (transitionOutcome <> lost)
       then _ ← tryRecordUsageOnce runId stepId (res_usage result); mret tt else mret tt);
  match transitionOutcome with
  | recovered => _ ← cleanupFinishedExecution params true false; mret []
  | lost => _ ← after_lost params (res_usage result); mret []
  | owned =>
      msgId ← observe_life createMessageId;
      '(registered, secured) ← success_effects params result msgId;
      _ ← cleanupFinishedExecution params true (negb secured);
      _ ← emit (eff_generateWorkLog agentId runId (res_success result) stepId);
      mret registered
  end.

(** ** Failure *)

Record FinishRunFailureOptions := mkFailureOptions { notifyWebhook : bool; generateWorklog : bool }.

Definition failure_output (params : FinishRunParams) (errorMsg : string) : js_object :=
  step_output_of params [("error", JStr errorMsg)].

Definition failure_effects (params : FinishRunParams) (errorMsg : string)
    (options : FinishRunFailureOptions) : L unit :=
  let '(runId, stepId, agentId) := (p_runId params, p_stepId params, p_agentId params) in
  _ ← (if notifyWebhook options then
         context ← loadStepContext stepId;
         let native := isNativeChatChannel (channel_type context) in
         _ ← (if truthy (opt_get context "receive_id_type") && truthy (opt_get context "receive_id") ||
                 native then
                msgId ← observe_life createMessageId;
                _ ← insert_message msgId runId
                      (if native then buildNativeChatFallbackText runId else buildFeishuFallbackText runId);
                if native then sendNativeChatReplyByContext agentId runId context None []
                else emit (eff_feishuReply agentId runId context None)
              else mret tt);
         agentName ← db_call (select (fun d => default agentId (agent_name <$> db_agents d !! agentId)));
         emit (eff_notifyRunError agentId agentName runId errorMsg)
       else mret tt);
  if generateWorklog options then emit (eff_generateWorkLog agentId runId false stepId) else mret tt.

Definition finishRunFailure (params : FinishRunParams) (errorMsg : string)
    (options : FinishRunFailureOptions) (usage : option TokenUsage) : L unit :=
  let '(runId, stepId) := (p_runId params, p_stepId params) in
  let durationMs := (clock - p_startTime params)%Z in
  transitionOutcome ← attemptTerminalTransition runId stepId errorMsg
    (settle_both runId stepId failed step_failed [("error", JStr errorMsg)]
       (failure_output params errorMsg) durationMs);
  match transitionOutcome with
  | lost => after_lost params usage
  | _ =>
      _ ← tryRecordUsageOnce runId stepId usage;
      _ ← capture (failure_effects params errorMsg options);
      cleanupFinishedExecution params true false
  end.

Definition finishRunAborted (params : FinishRunParams) (reason : string) : L unit :=
  finishRunFailure params reason (mkFailureOptions false false) None.

(** [usage ?? extractUsageFromError(error)] *)
Definition finishRunError (params : FinishRunParams) (error : JsError)
    (usage attachedUsage : option TokenUsage) : L string :=
  _ ← finishRunFailure params (err_message error) (mkFailureOptions true true)
        (match usage with Some u => Some u | None => attachedUsage end);
  mret "Execution failed. Check server logs for details.".
End Lifecycle.

(** ** One database call *)

Section Calls.
Context {Artifact : Type} `{Instance, Surroundings}.

Lemma db_call_inv {A} (m : M World A) (s : Life Artifact) o s' :
  db_call m s = (o, s') ->
  lf_effects s' = lf_effects s /\ side (lf_host s') = side (lf_host s) /\
  h_tick (lf_host s') = S (h_tick (lf_host s)) /\
  ((exists e, mutation_fault (h_tick (lf_host s)) = Some e /\ o = Throw e /\
     lf_db s' = others (h_tick (lf_host s)) (lf_db s) /\ lf_reg s' = lf_reg s) \/
   (exists w w', w_db w = others (h_tick (lf_host s)) (lf_db s) /\ w_reg w = lf_reg s /\
     withTransaction m w = (o, w') /\ lf_db s' = w_db w' /\ lf_reg s' = w_reg w')).
Proof.
  unfold db_call, on_host. destruct (mutation m (lf_host s)) as [o1 h1] eqn:Hm.
  intros [= <- <-]. split; [done|].
  pose proof (mutation_inv _ _ _ _ Hm) as (Hs & Ht & _). split; [done|]. split; [done|].
  revert Hm. unfold mutation. destruct (mutation_fault _) as [e|] eqn:Hf.
  - intros [= <- <-]. left. by exists e.
  - unfold on_world. simpl. destruct (withScmPathMutation m _) as [o2 w2] eqn:Hw.
    intros [= <- <-]. right. eexists _, w2. split; [|split; [|split; [exact Hw|done]]]; done.
Qed.

(** A call that only reads *)
Lemma db_read_inv {A} (f : Db -> A) (s : Life Artifact) o s' :
  db_call (select f) s = (o, s') ->
  lf_effects s' = lf_effects s /\ lf_reg s' = lf_reg s /\
  lf_db s' = others (h_tick (lf_host s)) (lf_db s) /\
  (forall a, o = Ret a -> a = f (lf_db s')).
Proof.
  intros (He & _ & _ & [(e & _ & -> & Hd & Hr)|(w & w' & Hw & Hg & Hrun & Hd & Hr)])%db_call_inv.
  - done.
  - injection Hrun as <- <-. rewrite Hd, Hr, Hw, Hg. split_and!; [done..|]. by intros a [= <-].
Qed.

(** A transaction of database writes leaves the lease registry alone. *)
Lemma db_call_reg {A} (m : M World A) (s : Life Artifact) o s' :
  db_only m -> db_call m s = (o, s') -> lf_effects s' = lf_effects s /\ lf_reg s' = lf_reg s.
Proof.
  intros Hm (He & _ & _ & [(e & _ & _ & _ & ->)|(w & w' & _ & <- & Hrun & _ & ->)])%db_call_inv;
    (split; [done|]); [done|].
  apply (db_only_withTransaction m Hm) in Hrun. by injection Hrun.
Qed.

Lemma update_steps_run k cond f w :
  update_steps k cond f w =
  match db_steps (w_db w) !! k with
  | Some st => if cond st then (Ret true, set_db (set_steps (insert k (f st))) w) else (Ret false, w)
  | None => (Ret false, w)
  end.
Proof.
  unfold update_steps, write_returning, update_where.
  destruct (db_steps (w_db w) !! k) as [st|]; [destruct (cond st)|]; simpl; by destruct w as [[]].
Qed.

Lemma db_only_update_steps k cond f : db_only (update_steps k cond f).
Proof. apply db_only_write_returning. Qed.
End Calls.
#[export] Hint Resolve db_only_update_steps : db_only.

(** ** The terminal transition *)

Section Transition.
Context {Artifact : Type} `{Instance, Surroundings}.
Context (runId stepId : string) (st : RunStatus) (stepSt : StepStatus)
        (result stepOutput : js_object) (durationMs : Z).

Lemma run_transition_run id st' res w :
  run_transition id st' res w =
  match db_runs (w_db w) !! id with
  | Some r => if decide (run_status r = running)
              then (Ret true, set_db (set_runs (insert id (settled_run st' res r))) w)
              else (Ret false, w)
  | None => (Ret false, w)
  end.
Proof.
  unfold run_transition. rewrite update_runs_cond. destruct (db_runs (w_db w) !! id) as [r|]; [|done].
  destruct (bool_decide_reflect (run_status r = running));
    [by rewrite decide_True|by rewrite decide_False].
Qed.

(** What an owned transition writes *)
Definition both_settled (d d' : Db) : Prop :=
  exists r s, db_runs d !! runId = Some r /\ run_status r = running /\
    db_steps d !! stepId = Some s /\ step_status s = step_running /\
    d' = set_steps (insert stepId (with_step stepSt (Some durationMs) (Some stepOutput) s))
           (set_runs (insert runId (settled_run st result r)) d).

Lemma settle_both_run w o w' :
  withTransaction (settle_both runId stepId st stepSt result stepOutput durationMs) w = (o, w') ->
  (o = Ret true /\ both_settled (w_db w) (w_db w')) \/
  ((o = Ret false \/ exists e, o = Throw e) /\ w_db w' = w_db w).
Proof.
  unfold withTransaction, settle_both, mbind, M_bind. rewrite run_transition_run.
  destruct (db_runs (w_db w) !! runId) as [r|] eqn:Hr; [|intros [= <- <-]; auto].
  destruct (decide (run_status r = running)); [|intros [= <- <-]; auto]. simpl.
  rewrite update_steps_run. simpl. destruct (db_steps (w_db w) !! stepId) as [s|] eqn:Hs;
    [destruct (bool_decide_reflect (step_status s = step_running))|]; simpl; intros [= <- <-]; simpl.
  - left. split; [done|]. by exists r, s.
  - right. split; [eauto|]. done.
  - right. split; [eauto|]. done.
Qed.

(** What a recovery writes *)
Definition recovered_to (recoveryError : string) (d d' : Db) : Prop :=
  exists r, db_runs d !! runId = Some r /\ run_status r = running /\
    db_runs d' = <[runId := settled_run failed [("error", JStr recoveryError)] r]> (db_runs d) /\
    forall k, db_steps d' !! k = (fun s =>
      if decide (k = stepId /\ step_status s = step_running)
      then with_step step_failed None (Some [("error", JStr recoveryError)]) s else s) <$> db_steps d !! k.

Lemma recover_transition_run recoveryError w o w' :
  withTransaction (recover_transition runId stepId recoveryError) w = (o, w') ->
  (o = Ret true /\ recovered_to recoveryError (w_db w) (w_db w')) \/
  (o = Ret false /\ w_db w' = w_db w).
Proof.
  unfold withTransaction, recover_transition, mbind, M_bind. rewrite run_transition_run.
  destruct (db_runs (w_db w) !! runId) as [r|] eqn:Hr; [|intros [= <- <-]; auto].
  destruct (decide (run_status r = running)); [|intros [= <- <-]; auto]. simpl.
  rewrite update_steps_run. simpl. destruct (db_steps (w_db w) !! stepId) as [s|] eqn:Hs;
    [destruct (bool_decide_reflect (step_status s = step_running))|]; simpl; intros [= <- <-]; simpl;
    left; (split; [done|]); exists r; (split_and!; [done..|]); intros k; simpl.
  - destruct (decide (k = stepId)) as [->|Hne].
    + rewrite lookup_insert_eq, Hs. simpl. by rewrite decide_True.
    + rewrite lookup_insert_ne by done. destruct (db_steps (w_db w) !! k); [|done]. simpl.
      by rewrite decide_False by naive_solver.
  - destruct (db_steps (w_db w) !! k) as [s'|] eqn:Hk; [|done]. simpl.
    rewrite decide_False; [done|]. intros [-> ?]. naive_solver.
  - destruct (db_steps (w_db w) !! k) as [s'|] eqn:Hk; [|done]. simpl.
    rewrite decide_False; [done|]. intros [-> ?]. naive_solver.
Qed.

Lemma db_only_settle_both : db_only (settle_both runId stepId st stepSt result stepOutput durationMs).
Proof. unfold settle_both, run_transition. eauto 8 with db_only. Qed.
Lemma db_only_recover e : db_only (recover_transition runId stepId e).
Proof. unfold recover_transition, run_transition. eauto 8 with db_only. Qed.

(** Every end of the transition *)
Lemma transition_outcome recoveryError (s : Life Artifact) o s' :
  attemptTerminalTransition runId stepId recoveryError
    (settle_both runId stepId st stepSt result stepOutput durationMs) s = (o, s') ->
  lf_effects s' = lf_effects s /\ lf_reg s' = lf_reg s /\
  let n := h_tick (lf_host s) in
  let d1 := others n (lf_db s) in
  match o with
  | Throw _ => False
  | Ret owned => both_settled d1 (lf_db s')
  | Ret recovered => recovered_to recoveryError (others (S n) d1) (lf_db s')
  | Ret lost => lf_db s' = d1 \/ lf_db s' = others (S n) d1
  end.
Proof.
  unfold attemptTerminalTransition, try_catch. intros Hr.
  destruct ((won ← db_call _; mret (if (won : bool) then owned else lost)) s) as [o1 s1] eqn:H1.
  run_bind H1 as won s2 Hw e.
  - injection H1 as <- <-. injection Hr as <- <-.
    pose proof (db_call_reg _ _ _ _ db_only_settle_both Hw) as [He Hg].
    apply db_call_inv in Hw as (_ & _ & _ & [(e & _ & ? & _)|(w & w' & Hwd & _ & Hrun & Hd & _)]); [done|].
    split; [done|]. split; [done|]. simpl. rewrite Hd, <- Hwd.
    apply settle_both_run in Hrun as [[[= ->] Hb]|[[[= ->]|[e ?]] Hb]]; [done|by left|done].
  - subst o1. pose proof (db_call_reg _ _ _ _ db_only_settle_both Hw) as [He Hg].
    assert (lf_db s1 = others (h_tick (lf_host s)) (lf_db s) /\
            h_tick (lf_host s1) = S (h_tick (lf_host s))) as [Hd1 Ht].
    { apply db_call_inv in Hw as (_ & _ & Ht & [(e' & _ & _ & ? & _)|(w & w' & Hwd & _ & Hrun & Hd & _)]);
        [done|]. split; [|done]. rewrite Hd, <- Hwd.
      by apply settle_both_run in Hrun as [[? _]|[_ ?]]. }
    destruct ((r ← db_call _; mret (if (r : bool) then recovered else lost)) s1) as [o2 s2] eqn:H2.
    run_bind H2 as rec s3 Hrec e2.
    + injection H2 as <- <-. injection Hr as <- <-.
      pose proof (db_call_reg _ _ _ _ (db_only_recover recoveryError) Hrec) as [He2 Hg2].
      apply db_call_inv in Hrec as (_ & _ & _ & [(e' & _ & ? & _)|(w & w' & Hwd & _ & Hrun & Hd & _)]); [done|].
      split; [congruence|]. split; [congruence|]. simpl. rewrite <- Hd1, <- Ht, Hd, <- Hwd.
      apply recover_transition_run in Hrun as [[[= ->] Hb]|[[= ->] Hb]]; [done|by right].
    + subst o2. injection Hr as <- <-.
      pose proof (db_call_reg _ _ _ _ (db_only_recover recoveryError) Hrec) as [He2 Hg2].
      apply db_call_inv in Hrec as (_ & _ & _ & [(e' & _ & _ & Hd & _)|(w & w' & Hwd & _ & Hrun & Hd & _)]);
        (split; [congruence|]); (split; [congruence|]); simpl; rewrite <- Hd1, <- Ht; right; [done|].
      rewrite Hd, <- Hwd. by apply recover_transition_run in Hrun as [[? _]|[_ ?]].
Qed.
End Transition.

(** ** The usage ledger *)

Definition int_field (v : json) (k : string) : option Z :=
  match opt_get (Some v) k with Some (JNum (JInt n)) => Some n | _ => None end.

(** Reading a stored usage back *)
Definition parse_usage (v : json) : TokenUsage :=
  mkUsage (int_field v "inputTokens") (int_field v "outputTokens") (int_field v "reasoningTokens")
    (int_field v "cacheReadTokens") (int_field v "cacheWriteTokens").

Lemma parse_usage_json u : parse_usage (usage_json u) = u.
Proof. by destruct u as [[] [] [] [] []]. Qed.

(** The tokens a step's output records *)
Definition step_tokens (f : UsageField) (s : RunStep) : Z :=
  match obj_get (default [] (step_output s)) "usage" with
  | Some v => default 0%Z (field_of f (parse_usage v))
  | None => 0%Z
  end.

Definition steps_total (f : UsageField) (runId : string) (d : Db) : Z :=
  sum_map (fun s => if decide (step_runId s = runId) then step_tokens f s else 0%Z) (db_steps d).

(** Each run's totals are the sum of what its steps record. *)
Definition ledger (d : Db) : Prop :=
  forall id r f, db_runs d !! id = Some r ->
    default 0%Z (field_of f (run_usage r)) = steps_total f id d.

Lemma accrue_field f total delta :
  default 0%Z (field_of f (accrue_usage total delta)) =
  (default 0%Z (field_of f total) + default 0%Z (field_of f delta))%Z.
Proof.
  unfold accrue_usage, add_field. destruct f; simpl;
    [destruct (inputTokens delta)|destruct (outputTokens delta)|destruct (reasoningTokens delta)
    |destruct (cacheReadTokens delta)|destruct (cacheWriteTokens delta)]; simpl; lia.
Qed.

Section Ledger.

Lemma record_usage_run runId stepId u w o w' :
  withTransaction (record_usage runId stepId u) w = (o, w') ->
  match o with
  | Ret true => exists s r, db_steps (w_db w) !! stepId = Some s /\ usage_absent s = true /\
      db_runs (w_db w) !! runId = Some r /\
      w_db w' = set_runs (insert runId (Schema.with_usage (accrue_usage (run_usage r) u) r))
                  (set_steps (insert stepId (set_usage u s)) (w_db w))
  | Ret false => w_db w' = w_db w /\
      forall s, db_steps (w_db w) !! stepId = Some s -> usage_absent s = false
  | Throw _ => w_db w' = w_db w
  end.
Proof.
  unfold withTransaction, record_usage, mbind, M_bind. rewrite update_steps_run.
  destruct (db_steps (w_db w) !! stepId) as [s|] eqn:Hs; [|intros [= <- <-]; naive_solver].
  destruct (usage_absent s) eqn:Hab; simpl; [|intros [= <- <-]; naive_solver].
  rewrite update_runs_cond. simpl.
  destruct (db_runs (w_db w) !! runId) as [r|] eqn:Hr; simpl; intros [= <- <-]; simpl; [|done].
  by exists s, r.
Qed.

Lemma set_usage_tokens f u s :
  usage_absent s = true -> step_tokens f s = 0%Z /\
  step_tokens f (set_usage u s) = default 0%Z (field_of f u).
Proof.
  unfold usage_absent, step_tokens. intros Ha. bool_to_prop. rewrite Ha. split; [done|].
  unfold set_usage. simpl. by rewrite obj_get_set_eq, parse_usage_json.
Qed.

Lemma record_usage_ledger runId stepId u d s r :
  db_steps d !! stepId = Some s -> step_runId s = runId -> usage_absent s = true ->
  db_runs d !! runId = Some r -> ledger d ->
  ledger (set_runs (insert runId (Schema.with_usage (accrue_usage (run_usage r) u) r))
            (set_steps (insert stepId (set_usage u s)) d)).
Proof.
  intros Hs Hrun Hab Hr Hl id r' f. unfold steps_total. simpl.
  rewrite (sum_map_insert _ _ _ _ s) by done. cbv beta.
  destruct (set_usage_tokens f u s Hab) as [Hz Hu].
  change (step_runId (set_usage u s)) with (step_runId s).
  destruct (decide (id = runId)) as [->|Hne].
  - rewrite lookup_insert_eq. intros [= <-]. rewrite !decide_True by done. rewrite Hz, Hu.
    simpl. rewrite accrue_field, (Hl _ _ _ Hr). unfold steps_total. lia.
  - rewrite lookup_insert_ne by done. intros Hr'. rewrite (Hl _ _ _ Hr').
    rewrite !decide_False by congruence. unfold steps_total. lia.
Qed.
End Ledger.

(** ** The worktree and the lease *)

Section Cleanup.
Context {Artifact : Type} `{Instance, Surroundings}.

Definition unique_tokens : Prop :=
  (forall i j, randomUUID i = randomUUID j -> i = j) /\ forall n, respected (randomUUID n).

(** Tokens not drawn yet are on no reservation. *)
Definition fresh_tokens (h : Host) : Prop :=
  forall n, h_tick h <= n -> own_rows (randomUUID n) (h_db h) = ∅.

Lemma mutation_read_fresh {A} (m : M World A) h o h' :
  unique_tokens -> (forall w o w', m w = (o, w') -> w' = w) -> fresh_tokens h ->
  mutation m h = (o, h') -> fresh_tokens h' /\ side h' = side h /\ h_tick h <= h_tick h'.
Proof.
  intros [_ Hresp] Hm Hf Hr. split.
  - intros n Hn. pose proof (mutation_read m (randomUUID n) h o h' (Hresp n) Hm Hr) as (_ & Ht & ->).
    apply Hf. lia.
  - pose proof (mutation_read m (randomUUID 0) h o h' (Hresp 0) Hm Hr) as (? & Ht & _).
    split; [done|lia].
Qed.

(** What a run's worktree can be after its clean-up: untouched because there
    was nothing to remove, removed, or held by its reservation *)
Definition worktree_settled (h h' : Host) : Prop :=
  h_disk h' = h_disk h \/
  exists n src handle name, h_tick h <= n /\
    h_disk h' = h_disk h ++ [mkDisk (scm_wsRoot handle) name false] /\
    cleared (randomUUID n) (workspaceRemovalId src name) h'.
Definition worktree_held (h h' : Host) : Prop :=
  h_disk h' = h_disk h /\
  exists n id, h_tick h <= n /\ guarded_by (randomUUID n) id h'.

Definition cleanup_inv (h0 h : Host) : Prop :=
  h_disk h = h_disk h0 /\ h_tick h0 <= h_tick h /\ fresh_tokens h.

Lemma cleanupWorktree_run runId agentId h0 h o h' :
  unique_tokens -> ordinary_faults ->
  (forall id e, storedRootError id = Some e -> ordinary e) ->
  cleanup_inv h0 h -> cleanupWorktreeIfEphemeral runId agentId h = (o, h') ->
  match o with
  | Ret _ => worktree_settled h0 h'
  | Throw e => if instanceof e HANDED_OFF then worktree_held h0 h' else cleanup_inv h0 h'
  end.
Proof.
  intros Hu Hord Hroot Hinv Hr.
  assert (forall A (f : Db -> A) h1 o1 h2, cleanup_inv h0 h1 -> mutation (select f) h1 = (o1, h2) ->
    cleanup_inv h0 h2 /\ forall e, o1 = Throw e -> instanceof e HANDED_OFF = false) as Hread.
  { intros A f h1 o1 h2 (Hd & Ht & Hf) Hm. pose proof Hm as Hm2.
    apply mutation_read_fresh in Hm as (Hf2 & [= _ _ Hd2] & Ht2); [|done|by intros ??? [= _ <-]|done].
    split; [split; [congruence|split; [lia|done]]|].
    apply mutation_inv in Hm2 as (_ & _ & [(e & Hfe & -> & _)|(_ & w & w' & _ & Hrun & _)]).
    - intros e' [= <-]. by destruct (Hord (h_tick h1) e) as (_ & ? & _); [left|].
    - by injection Hrun as <- <-. }
  assert (forall h1, cleanup_inv h0 h1 -> worktree_settled h0 h1) as Hnone.
  { intros h1 (Hd & _). by left. }
  unfold cleanupWorktreeIfEphemeral in Hr.
  run_bind Hr as run h1 H1 e; (apply (Hread _ _ _ _ _ Hinv) in H1 as [Hinv1 He1]);
    [|subst o; by rewrite (He1 e eq_refl)].
  destruct run as [r|]; [|injection Hr as <- <-; by apply Hnone].
  destruct (run_worktreeConfig r) as [wt|]; [|injection Hr as <- <-; by apply Hnone].
  destruct (run_workDir r) as [[|ch wd]|]; [injection Hr as <- <-; by apply Hnone| |injection Hr as <- <-; by apply Hnone].
  destruct (decide _); [injection Hr as <- <-; by apply Hnone|].
  destruct (isPerAgentWorkspaceName _); [injection Hr as <- <-; by apply Hnone|].
  run_bind Hr as occ h2 H2 e; (apply (Hread _ _ _ _ _ Hinv1) in H2 as [Hinv2 He2]);
    [|subst o; by rewrite (He2 e eq_refl)].
  destruct occ; [injection Hr as <- <-; by apply Hnone|].
  run_bind Hr as ag h3 H3 e; (apply (Hread _ _ _ _ _ Hinv2) in H3 as [Hinv3 He3]);
    [|subst o; by rewrite (He3 e eq_refl)].
  destruct (ag ≫= agent_scmSourceId) as [[|ch2 src]|]; [injection Hr as <- <-; by apply Hnone| |injection Hr as <- <-; by apply Hnone].
  run_bind Hr as so h4 H4 e; (apply (Hread _ _ _ _ _ Hinv3) in H4 as [Hinv4 He4]);
    [|subst o; by rewrite (He4 e eq_refl)].
  destruct so as [s|]; [|injection Hr as <- <-; by apply Hnone].
  run_bind Hr as scm h5 H5 e.
  2: { subst o. unfold createScmSource in H5. destruct (source_type s); [|done].
       destruct (storedRootError _) as [e'|] eqn:Hre; [|done]. injection H5 as <- <-.
       apply Hroot in Hre as (_ & Hre & _). by rewrite Hre. }
  apply createScmSource_run in H5 as ->.
  destruct scm as [handle|]; [|injection Hr as <- <-; by apply Hnone].
  destruct (decide _); [injection Hr as <- <-; by apply Hnone|].
  unfold removeOwnedSourceWorkspaceGuarded in Hr.
  destruct Hinv4 as (Hd4 & Ht4 & Hf4). destruct Hu as [Hinj Hresp].
  pose proof (guarded_outcome _ _ _ _ Hord (Hresp (h_tick h4)) (Hf4 _ (Nat.le_refl _)) Hr) as Hout.
  destruct o as [u|e].
  - destruct Hout as [Hcl Hd]. simpl in *. right. exists (h_tick h4), (String ch2 src), handle, (wt_name wt).
    split; [done|]. rewrite Hd, Hd4. done.
  - destruct Hout as (Hd & Hho & _). destruct (instanceof e HANDED_OFF).
    + split; [congruence|]. eexists _, _. split; [exact Ht4|by apply Hho].
    + assert (h_tick h4 <= h_tick h' /\ fresh_tokens h') as [Hle Hfr]; [|split; [congruence|split; [lia|done]]].
      assert (h' = h4 \/ h_tick h4 < h_tick h') as [->|Hlt].
      { eapply (guarded_framed (randomUUID (S (h_tick h4))) (Hresp _)); [|exact Hr].
        intros Heq%Hinj. lia. }
      * done.
      * split; [lia|]. intros i Hi.
        apply (guarded_framed (randomUUID i) (Hresp _)) in Hr as [-> _]; [|intros Heq%Hinj; lia].
        apply Hf4. lia.
Qed.
End Cleanup.

(** ** The lease registry through a settlement *)

Section Registry.
Context `{Instance, Surroundings}.

Definition host_reg (g : Registry) (h : Host) : Prop := w_reg (h_world h) = g.

Lemma mutation_reg {A} g (m : M World A) : db_only m -> keeps (host_reg g) (mutation m).
Proof.
  intros Hm h o h' Hg. unfold mutation. destruct (mutation_fault _); [by intros [= _ <-]|].
  unfold on_world. simpl. destruct (withScmPathMutation m _) as [o1 w1] eqn:Hr.
  intros [= _ <-]. apply (db_only_withTransaction m Hm) in Hr. injection Hr as Hr _ _ _.
  unfold host_reg. simpl. rewrite Hr. exact Hg.
Qed.

Lemma modify_reg g f : (forall h, h_world (f h) = h_world h) -> keeps (host_reg g) (modify f).
Proof. intros Hf. apply keeps_modify. intros h Hg. unfold host_reg. by rewrite Hf. Qed.

Lemma cleanup_loop_reg g cleanup maxDelay left d :
  keeps (host_reg g) cleanup -> keeps (host_reg g) (cleanup_loop delay cleanup maxDelay left d).
Proof.
  intros Hc. revert d. induction left as [|left IH]; intros d; simpl; (apply keeps_try_catch; [done|]);
    intros e; destruct (instanceof e HANDED_OFF); try apply keeps_throw.
  apply keeps_bind; [by apply modify_reg|]. intros _. apply IH.
Qed.

Lemma decide_removal_db_only input : db_only (decide_removal input).
Proof. unfold decide_removal, excluded_workload, validateOwnedCleanup. eauto 10 with db_only. Qed.

Lemma guarded_reg g input : keeps (host_reg g) (removeSourceWorkspaceGuardedCore input).
Proof.
  assert (keeps (host_reg g) (remove_once input)) as Hrem.
  { unfold remove_once, scm_removeWorkspace, recheck. apply keeps_bind.
    - apply keeps_bind; [apply mutation_reg, decide_removal_db_only|eauto with keeps].
    - intros _ h o h' Hg. unfold disk_remove. by destruct (removal_fault _); intros [= _ <-]. }
  assert (forall id tok, keeps (host_reg g) (disownOrQueueRetry id tok)) as Hdis.
  { intros id tok. unfold disownOrQueueRetry, queueWorkspaceRemovalHandoff, handOffWorkspaceRemoval.
    apply keeps_try_catch; [|intros; by apply modify_reg]. apply keeps_bind; [|eauto with keeps].
    apply mutation_reg. eauto 8 with db_only. }
  unfold removeSourceWorkspaceGuardedCore. destruct World.hasLostHeartbeatOwnership; [apply keeps_throw|].
  apply keeps_bind; [by intros h o h' Hg [= _ <-]|]. intros tok.
  apply keeps_bind.
  { apply mutation_reg. unfold reserve_removal. apply db_only_bind; [apply decide_removal_db_only|].
    eauto 8 with db_only. }
  intros _. apply keeps_bind.
  { unfold attempt_removal, retryWorkspaceCleanup. destruct (in_ownedWorkload input);
      (apply keeps_bind; [apply keeps_capture; [..]; try done; by apply cleanup_loop_reg|]);
      intros [u|e]; eauto 8 with keeps. }
  intros [handedOff result]. apply keeps_bind; [|eauto with keeps].
  destruct handedOff; [apply keeps_ret|]. unfold release_or_queue. apply keeps_try_catch.
  - apply mutation_reg. eauto 8 with db_only.
  - intros e. by apply modify_reg.
Qed.

Lemma createScmSource_reg g id s : keeps (host_reg g) (createScmSource id s).
Proof. intros h o h' Hg Hr. by apply createScmSource_run in Hr as ->. Qed.

Lemma cleanupWorktree_reg g runId agentId : keeps (host_reg g) (cleanupWorktreeIfEphemeral runId agentId).
Proof.
  assert (forall A (f : Db -> A), keeps (host_reg g) (mutation (select f))) as Hread
    by (intros; apply mutation_reg; apply db_only_gets).
  pose proof (guarded_reg g). pose proof (createScmSource_reg g).
  unfold cleanupWorktreeIfEphemeral, removeOwnedSourceWorkspaceGuarded.
  apply keeps_bind; [done|]. intros [r|]; [|apply keeps_ret].
  destruct (run_worktreeConfig r); [|apply keeps_ret].
  destruct (run_workDir r) as [[|ch wd]|]; eauto 20 with keeps.
Qed.
End Registry.

Section Released.
Context {Artifact : Type} `{Instance, Surroundings}.

Lemma completed_lease runId g :
  wf g -> leasesByRunId (completeExecutionLease runId g) !! runId = None.
Proof.
  intros Hw. unfold completeExecutionLease.
  destruct (leasesByRunId g !! runId) as [ref|] eqn:Hr; [|done].
  destruct (wf_run _ Hw _ _ Hr) as (e & He & Hid & Hn). rewrite (finish_live ref e g Hw He Hn).
  rewrite Hid. unfold startDurableRelease. destruct (durableReleaseHandler _); simpl; by rewrite lookup_delete_eq.
Qed.

(** The end of a clean-up: the lease goes last, and only if the clean-up returned *)
Lemma cleanup_finished params sched keep (s : Life Artifact) o s' :
  wf (lf_reg s) -> cleanupFinishedExecution params sched keep s = (o, s') ->
  exists r h, cleanupWorkspaceOrHandOff delay
      (cleanupWorktreeIfEphemeral (p_runId params) (p_agentId params)) default_retry (lf_host s) = (r, h) /\
  match o with
  | Ret _ => r = Ret tt /\ lf_reg s' = completeExecutionLease (p_runId params) (lf_reg s) /\
      leasesByRunId (lf_reg s') !! p_runId params = None /\
      lf_host s' = set_world (World.set_reg (completeExecutionLease (p_runId params))) h /\
      (sched = true -> eff_scheduleNext (p_agentId params) ∈ lf_effects s')
  | Throw e => r = Throw e /\ lf_reg s' = lf_reg s /\ lf_effects s' = lf_effects s
  end.
Proof.
  intros Hw Hr. unfold cleanupFinishedExecution in Hr.
  destruct (cleanupWorkspaceOrHandOff _ _ _ (lf_host s)) as [r h] eqn:Hc. exists r, h. split; [done|].
  assert (host_reg (lf_reg s) h) as Hreg.
  { revert Hc. unfold cleanupWorkspaceOrHandOff, retryWorkspaceCleanup.
    eapply keeps_try_catch; [apply cleanup_loop_reg, cleanupWorktree_reg| |done].
    intros e. destruct (findHandoffSignal e); eauto with keeps. }
  unfold on_host at 1 in Hr. unfold mbind at 1, M_bind at 1 in Hr. rewrite Hc in Hr.
  destruct r as [[]|e]; [|injection Hr as <- <-; done].
  unfold mbind at 1, M_bind at 1, completeLease, on_host, on_world, modify in Hr. simpl in Hr.
  assert (forall e, o <> Throw e) as Hret.
  { intros e ->. revert Hr. unfold mbind, M_bind, emit, modify, discardRunArtifactsDir.
    destruct sched, keep; simpl; try done; destruct (p_workDir params) as [[|]|]; done. }
  destruct o as [u|e]; [|by destruct (Hret e)]. split; [done|].
  assert (lf_host s' = set_world (World.set_reg (completeExecutionLease (p_runId params))) h /\
    (sched = true -> eff_scheduleNext (p_agentId params) ∈ lf_effects s')) as [Hh Hs].
  { revert Hr. unfold mbind, M_bind, emit, modify, discardRunArtifactsDir.
    destruct sched, keep; simpl; try (destruct (p_workDir params) as [[|]|]; simpl);
      intros [= <- <-]; (split; [done|]); intros Hsc; try done; simpl; set_solver. }
  assert (lf_reg s' = completeExecutionLease (p_runId params) (lf_reg s)) as Hreg'.
  { unfold lf_reg. rewrite Hh. simpl. f_equal. exact Hreg. }
  split; [done|]. split; [|done]. rewrite Hreg'. by apply completed_lease.
Qed.
End Released.

Section Settled.
Context {Artifact : Type} `{Instance, Surroundings}.
Context (json_length : json -> Z)
        (scan : nat -> outcome (list Artifact)) (links : nat -> outcome string)
        (parse : json -> option JsError) (messageId : nat -> string).

Definition life_reg (g : Registry) (s : Life Artifact) : Prop := lf_reg s = g.

Lemma call_reg {A} g (m : M World A) : db_only m -> keeps (life_reg g) (db_call m).
Proof. intros Hm s o s' Hg Hr. apply db_call_reg in Hr as [_ Hr]; [|done]. unfold life_reg in *. congruence. Qed.
Lemma read_reg {A} g (f : Db -> A) : keeps (life_reg g) (db_call (select f)).
Proof. apply call_reg, db_only_gets. Qed.
Lemma emit_reg g e : keeps (life_reg g) (emit e).
Proof. by apply keeps_modify. Qed.
Lemma observe_reg {A} g (f : nat -> A) : keeps (life_reg g) (observe_life f).
Proof. intros s o s' Hg. unfold observe_life, on_host. by intros [= _ <-]. Qed.

Lemma usage_reg g runId stepId u : keeps (life_reg g) (tryRecordUsageOnce runId stepId u).
Proof.
  unfold tryRecordUsageOnce, recordUsageOnce. apply keeps_try_catch; [|eauto with keeps].
  destruct u as [u|]; [|apply keeps_ret]. destruct (no_usage_fields u); [apply keeps_ret|].
  apply call_reg. unfold record_usage. eauto 8 with db_only.
Qed.

Lemma native_reply_reg g a r c out arts : keeps (life_reg g) (sendNativeChatReplyByContext a r c out arts).
Proof.
  unfold sendNativeChatReplyByContext. destruct (negb _); [apply keeps_ret|apply emit_reg].
Qed.

Lemma message_reg g id r c : keeps (life_reg g) (insert_message id r c).
Proof. apply call_reg. eauto with db_only. Qed.

Lemma discard_reg g w t : keeps (life_reg g) (discardRunArtifactsDir w t).
Proof. unfold discardRunArtifactsDir. destruct w as [[|]|]; auto using keeps_ret, emit_reg. Qed.

Lemma success_effects_reg g params result msgId :
  keeps (life_reg g) (success_effects scan links parse params result msgId).
Proof.
  pose proof (emit_reg g). pose proof (message_reg g). pose proof (native_reply_reg g).
  pose proof (fun A (f : Db -> A) => read_reg g f). pose proof (fun A (f : nat -> A) => observe_reg g f).
  assert (forall f, keeps (life_reg g) (db_call (db_write f))) by (intros; apply call_reg; eauto with db_only).
  unfold success_effects. apply keeps_bind.
  - apply keeps_capture. unfold announce_success, loadStepContext. eauto 12 with keeps.
  - intros [[context content]|e]; [|apply keeps_ret]. apply keeps_bind.
    + unfold register_artifacts. eauto 8 with keeps.
    + intros [registered secured]. apply keeps_bind; [|eauto with keeps].
      apply keeps_capture. unfold publish_success. eauto 12 with keeps.
Qed.

Lemma failure_effects_reg g params errorMsg options :
  keeps (life_reg g) (failure_effects messageId params errorMsg options).
Proof.
  pose proof (emit_reg g). pose proof (message_reg g). pose proof (native_reply_reg g).
  pose proof (fun A (f : Db -> A) => read_reg g f). pose proof (fun A (f : nat -> A) => observe_reg g f).
  unfold failure_effects, loadStepContext. eauto 16 with keeps.
Qed.

(** The lease of the run is gone, or the run is another settlement's to clean up. *)
Definition released (runId : string) (s : Life Artifact) : Prop :=
  leasesByRunId (lf_reg s) !! runId = None \/
  exists st, run_status <$> db_runs (lf_db s) !! runId = Some st /\ st <> running /\ st <> cancelled.

Lemma after_lost_released params usage (s s' : Life Artifact) :
  wf (lf_reg s) -> after_lost params usage s = (Ret tt, s') -> released (p_runId params) s'.
Proof.
  intros Hw Hr. unfold after_lost in Hr. run_bind Hr as st s1 Hst e; [|done].
  apply db_read_inv in Hst as (_ & Hg & _ & Hst). specialize (Hst st eq_refl).
  rewrite <- Hg in Hw. destruct st as [[]|].
  - injection Hr as <-. right. exists pending. done.
  - injection Hr as <-. right. exists queued. done.
  - apply cleanup_finished in Hr as (r & h & _ & _ & _ & Hn & _); [by left|done].
  - injection Hr as <-. right. exists completed. done.
  - injection Hr as <-. right. exists failed. done.
  - inv_bind Hr as (b & s2 & Hu & Hr). apply (usage_reg (lf_reg s1)) in Hu; [|done].
    apply capture_inv in Hr as (r & s3 & Hc & Hr).
    assert (lf_reg s3 = lf_reg s1) as Hg3.
    { revert Hc. unfold cancelLateStep. intros Hc.
      eapply (keeps_bind (life_reg (lf_reg s1))) in Hc; [exact Hc| | |exact Hu];
        [apply call_reg; eauto with db_only|eauto with keeps]. }
    inv_bind Hr as (u & s4 & Hcl & Hr).
    apply cleanup_finished in Hcl as (r' & h & _ & _ & _ & Hn & _); [|by rewrite Hg3].
    injection Hr as _ <-. by left.
  - inv_bind Hr as (u & s2 & Hd & Hr). apply (discard_reg (lf_reg s1)) in Hd; [|done].
    left. unfold completeLease, on_host, on_world, modify in Hr. injection Hr as <-.
    unfold lf_reg in *. simpl. unfold life_reg, lf_reg in Hd. rewrite Hd. by apply completed_lease.
Qed.

Lemma failure_released params errorMsg options usage (s s' : Life Artifact) :
  wf (lf_reg s) ->
  finishRunFailure json_length messageId params errorMsg options usage s = (Ret tt, s') ->
  released (p_runId params) s'.
Proof.
  intros Hw Hr. unfold finishRunFailure in Hr. inv_bind Hr as (out & s1 & Ht & Hr).
  apply transition_outcome in Ht as (_ & Hg & _). rewrite <- Hg in Hw.
  assert ((_ ← tryRecordUsageOnce (p_runId params) (p_stepId params) usage;
      _ ← capture (failure_effects messageId params errorMsg options);
      cleanupFinishedExecution params true false) s1 = (Ret tt, s') -> released (p_runId params) s') as Hmine.
  { intros Hr2. inv_bind Hr2 as (b & s2 & Hu & Hr2). apply (usage_reg (lf_reg s1)) in Hu; [|done].
    apply capture_inv in Hr2 as (r & s3 & Hc & Hr2).
    apply (failure_effects_reg (lf_reg s1)) in Hc; [|done].
    apply cleanup_finished in Hr2 as (r' & h & _ & _ & _ & Hn & _); [by left|].
    unfold life_reg in Hc. by rewrite Hc. }
  destruct out; [by apply Hmine|by eapply after_lost_released|by apply Hmine].
Qed.

Lemma success_released params result arts (s s' : Life Artifact) :
  wf (lf_reg s) ->
  finishRunSuccess json_length scan links parse messageId params result s = (Ret arts, s') ->
  released (p_runId params) s'.
Proof.
  intros Hw Hr. unfold finishRunSuccess in Hr. inv_bind Hr as (out & s1 & Ht & Hr).
  apply transition_outcome in Ht as (_ & Hg & _). rewrite <- Hg in Hw.
  inv_bind Hr as (u & s2 & Hu & Hr).
  assert (lf_reg s2 = lf_reg s1) as Hg2.
  { revert Hu. pose proof (usage_reg (lf_reg s1)) as Hk. intros Hu.
    assert (keeps (life_reg (lf_reg s1)) (if decide (out <> lost)
      then _ ← tryRecordUsageOnce (p_runId params) (p_stepId params) (res_usage result); mret tt
      else mret tt)) as Hk2 by eauto with keeps. by apply Hk2 in Hu. }
  rewrite <- Hg2 in Hw. destruct out.
  - inv_bind Hr as (msgId & s3 & Hm & Hr). apply (observe_reg (lf_reg s2)) in Hm; [|done].
    inv_bind Hr as (reg & s4 & Hs & Hr). apply (success_effects_reg (lf_reg s2)) in Hs; [|done].
    destruct reg as [registered secured]. inv_bind Hr as (v & s5 & Hc & Hr).
    apply cleanup_finished in Hc as (r' & h & _ & _ & _ & Hn & _); [|unfold life_reg in Hs; by rewrite Hs].
    inv_bind Hr as (v2 & s6 & He & Hr). injection He as _ <-. injection Hr as _ <-. by left.
  - inv_bind Hr as (v & s3 & Hl & Hr). injection Hr as _ <-. destruct v.
    by eapply after_lost_released.
  - inv_bind Hr as (v & s3 & Hc & Hr). injection Hr as _ <-.
    apply cleanup_finished in Hc as (r' & h & _ & _ & _ & Hn & _); [by left|done].
Qed.
End Settled.

(** ** Properties *)

(** C9. The terminal transition is all or nothing, whatever fails and whoever
    races: it never throws; if this call owns the end, the run and its step were
    both running and both carry the final status, written in one transaction;
    if it recovered, the run is failed with the recovery error and its step with
    it if it was running; if it lost, it changed nothing. *)
Theorem terminal_transition_atomic {Artifact : Type} `{Instance, Surroundings}
    runId stepId st stepSt result stepOutput durationMs recoveryError (s : Life Artifact) o s' :
  attemptTerminalTransition runId stepId recoveryError
    (settle_both runId stepId st stepSt result stepOutput durationMs) s = (o, s') ->
  lf_effects s' = lf_effects s /\ lf_reg s' = lf_reg s /\
  let n := h_tick (lf_host s) in
  let d1 := others n (lf_db s) in
  match o with
  | Throw _ => False
  | Ret owned => both_settled runId stepId st stepSt result stepOutput durationMs d1 (lf_db s')
  | Ret recovered => recovered_to runId stepId recoveryError (others (S n) d1) (lf_db s')
  | Ret lost => lf_db s' = d1 \/ lf_db s' = others (S n) d1
  end.
Proof. apply transition_outcome. Qed.

(** Token usage is recorded exactly once and the books balance: recording a
    step's usage keeps every run's totals equal to what its steps record; it
    writes only to a step that records none, so recording again changes nothing;
    a failure changes nothing. *)
Theorem usage_recorded_once runId stepId u w o w' :
  (forall s, db_steps (w_db w) !! stepId = Some s -> step_runId s = runId) ->
  withTransaction (record_usage runId stepId u) w = (o, w') ->
  (ledger (w_db w) -> ledger (w_db w')) /\
  (o = Ret true -> exists s', db_steps (w_db w') !! stepId = Some s' /\
     usage_absent s' = false /\ forall f, step_tokens f s' = default 0%Z (field_of f u)) /\
  (o <> Ret true -> w_db w' = w_db w) /\
  (forall s, db_steps (w_db w) !! stepId = Some s -> usage_absent s = false -> o = Ret false).
Proof.
  intros Hfk Hr. pose proof (record_usage_run _ _ _ _ _ _ Hr) as Hspec.
  destruct o as [[]|e].
  - destruct Hspec as (s & r & Hs & Hab & Hrun & ->). split; [|split; [|split]].
    + intros Hl. by eapply record_usage_ledger; [..|exact Hl]; auto.
    + intros _. exists (set_usage u s). simpl. rewrite lookup_insert_eq. split; [done|]. split.
      * unfold usage_absent, set_usage. simpl. rewrite obj_get_set_eq. by apply bool_decide_eq_false.
      * intros f. by apply set_usage_tokens.
    + done.
    + intros s0 Hs0 Hf. congruence.
  - destruct Hspec as [-> Hn]. done.
  - rewrite Hspec. split; [done|]. split; [done|]. split; [done|]. intros s Hs Hf.
    revert Hr. unfold withTransaction, record_usage, mbind, M_bind. rewrite update_steps_run, Hs, Hf. done.
Qed.

(** A settlement that returns leaves no execution lease behind: after
    finishRunSuccess or finishRunFailure the run holds no lease in this process,
    unless the run belongs to another settlement or has been queued again. *)
Theorem finish_releases_lease {Artifact : Type} `{Instance, Surroundings}
    json_length (scan : nat -> outcome (list Artifact)) links parse messageId params
    result errorMsg options usage arts (s s1 s2 : Life Artifact) :
  wf (lf_reg s) ->
  finishRunSuccess json_length scan links parse messageId params result s = (Ret arts, s1) ->
  finishRunFailure json_length messageId params errorMsg options usage s = (Ret tt, s2) ->
  released (p_runId params) s1 /\ released (p_runId params) s2.
Proof. intros Hw H1 H2. split; [by eapply success_released|by eapply failure_released]. Qed.


(** ** Witnesses *)

Definition life_run : Run :=
  mkRun running None None (Some "api") None (Some "/ws/s1/w1") (Some "i1")
    (Some (mkWorktree "w1" cleanup_ephemeral)) (Some "a1") None 0 0 empty_usage empty_origin.
Definition life_step : RunStep := mkStep "run_1" 0 None None step_running None None.
Definition life_db : Db :=
  set_steps (fun _ => {["st1" := life_step]})
   (set_runs (fun _ => {["run_1" := life_run]})
    (set_leases (fun _ => {[(wl_run, "run_1") := mkLease "a1" "s1" active (Some "i1") 0]})
      (mkDb ∅ ∅ {["a1" := mkAgent 1 ws_scm (Some "s1") true "Coder" None None None false]} ∅
         {["s1" := ex_source]} ∅ ∅ ∅ ∅ ∅))).
Definition life_demo : Life string :=
  mkLife (mkHost (mkWorld life_db (reserveExecutionLease "run_1" (Some "a1") empty_registry).2
    false false []) 0 ∅ ∅ [] []) [].
Definition life_params : FinishRunParams :=
  mkParams "t1" "run_1" "st1" "a1" 40 None None (Some "/ws/s1/w1") None.
Definition life_usage : TokenUsage := mkUsage (Some 7%Z) (Some 3%Z) None None None.
Definition life_result : ExecuteWorkerResult :=
  mkWorkerResult true "done" (Some "chat1") None 60 (Some life_usage).

Definition calm : Surroundings :=
  Build_Surroundings (fun _ => None) (fun _ => None) (fun _ d => d)
    (fun n => "t" +:+ pretty.pretty n) (fun id => "/ws/" +:+ id) (fun _ => None) true.

Lemma calm_unique : @unique_tokens calm.
Proof.
  assert (forall a b : string, "t" +:+ a = "t" +:+ b -> a = b) as Ht by (intros a b [=]; done).
  split; [|by intros n i d]. intros i j Heq. by apply (inj pretty.pretty), (Ht _ _ Heq).
Qed.

Definition life_success : outcome (list string) * Life string :=
  @finishRunSuccess string ex_instance calm (fun _ => 0%Z) (fun _ => Ret []) (fun _ => Ret "")
    (fun _ => None) (fun n => "msg" +:+ pretty.pretty n) life_params life_result life_demo.
Definition life_failure : outcome unit * Life string :=
  @finishRunFailure string ex_instance calm (fun _ => 0%Z) (fun n => "msg" +:+ pretty.pretty n)
    life_params "boom" (mkFailureOptions true true) None life_demo.

Example life_success_run :
  run_status <$> db_runs (lf_db life_success.2) !! "run_1" = Some completed /\
  step_status <$> db_steps (lf_db life_success.2) !! "st1" = Some step_completed /\
  run_usage <$> db_runs (lf_db life_success.2) !! "run_1" = Some life_usage /\
  h_disk (lf_host life_success.2) = [mkDisk "/ws/s1" "w1" false].
Proof. vm_compute. done. Qed.

Lemma terminal_transition_atomic_witness :
  let r := @attemptTerminalTransition string ex_instance calm "run_1" "st1" "lost"
    (@settle_both ex_instance "run_1" "st1" completed step_completed [] [] 60) life_demo in
  r.1 = Ret owned /\
  @both_settled ex_instance "run_1" "st1" completed step_completed [] [] 60 life_db (lf_db r.2).
Proof.
  intros r. assert (r.1 = Ret owned) as Ho by (vm_compute; reflexivity). split; [exact Ho|].
  pose proof (@terminal_transition_atomic string ex_instance calm "run_1" "st1" completed
    step_completed [] [] 60 "lost" life_demo r.1 r.2 (surjective_pairing r)) as (_ & _ & Hc).
  rewrite Ho in Hc. exact Hc.
Defined.

Lemma usage_recorded_once_witness :
  let r := withTransaction (record_usage "run_1" "st1" life_usage) (h_world (lf_host life_demo)) in
  r.1 = Ret true /\ (ledger life_db -> ledger (w_db r.2)).
Proof.
  intros r. split; [vm_compute; reflexivity|].
  refine (proj1 (usage_recorded_once "run_1" "st1" life_usage (h_world (lf_host life_demo)) r.1 r.2
    _ (surjective_pairing r))).
  intros s Hs. vm_compute in Hs. by injection Hs as <-.
Defined.

Lemma life_demo_wf : wf (lf_reg life_demo).
Proof. unfold lf_reg, life_demo, reserveExecutionLease. simpl. auto with a2w. Qed.

Lemma finish_releases_lease_witness :
  life_success.1 = Ret [] /\ life_failure.1 = Ret tt /\
  released "run_1" life_success.2 /\ released "run_1" life_failure.2.
Proof.
  assert (life_success.1 = Ret []) as H1 by (vm_compute; reflexivity).
  assert (life_failure.1 = Ret tt) as H2 by (vm_compute; reflexivity).
  split; [exact H1|]. split; [exact H2|].
  apply (@finish_releases_lease string ex_instance calm (fun _ => 0%Z) (fun _ => Ret [])
    (fun _ => Ret "") (fun _ => None) (fun n => "msg" +:+ pretty.pretty n) life_params life_result
    "boom" (mkFailureOptions true true) None [] life_demo life_success.2 life_failure.2);
    [exact life_demo_wf|rewrite <- H1; apply surjective_pairing|rewrite <- H2; apply surjective_pairing].
Defined.

(** The run has ended, and its owner cleans up. *)
Definition life_ended : Life string :=
  set_host (set_world (set_db (set_runs (insert "run_1" (with_status completed life_run))))) life_demo.

