(* ===== verification/AgentEnv.v ===== *)
(** * The environment of an agent's process

    The environment blocks of [apps/api/src/engine/runtime-context.ts], the
    credential matrix [buildCredentialEnv] of [cli-engine-base.ts], and what
    each of the eight engines builds with them.  The environment of the API
    process holds the platform's secrets, and the agent's own variables are
    whatever its editors wrote: neither may decide which credential a provider
    is called with or what code runs before the CLI does.

    An environment is a map from names to values. *)
From S2P Require Import Prelude Json ErrorPatterns.
From Stdlib Require Import Ascii.

Abbreviation Env := (gmap string string).

(** [Object.entries(env).filter(...)], the predicate on names *)
Definition keep_names (p : string -> bool) (e : Env) : Env :=
  filter (fun kv => p kv.1 = true) e.

(** [for (const key of keys) unsetEnv(env, key)] *)
Definition unsetEnvs (keys : list string) (e : Env) : Env := foldl (fun e k => delete k e) e keys.

(** [if (value) env[key] = value] *)
Definition set_truthy (k v : string) (e : Env) : Env := if decide (v = "") then e else <[k := v]> e.

(** [value || fallback] *)
Definition or_else (value : option string) (fallback : string) : string :=
  match value with Some v => if decide (v = "") then fallback else v | None => fallback end.

(** [{ ...base, ...(over || {}) }] *)
Definition spread (base : Env) (over : option Env) : Env := default ∅ over ∪ base.

(** ** runtime-context.ts *)

Definition RUNTIME_ENV_RESERVED_KEYS : list string :=
  ["HOME"; "TMPDIR"; "XDG_CACHE_HOME"; "XDG_CONFIG_HOME"; "CODEX_HOME"; "A2WAVE_AGENT_HOME";
   "A2WAVE_AGENT_ID"; "A2WAVE_RUN_ID"; "A2WAVE_WORKSPACE_DIR"; "A2WAVE_ARTIFACTS_DIR"].

Definition SAFE_AGENT_PROCESS_ENV_NAMES : list string :=
  ["PATH"; "HOME"; "USERPROFILE"; "HOMEDRIVE"; "HOMEPATH"; "SystemRoot"; "WINDIR"; "COMSPEC"; "PATHEXT";
   "SHELL"; "USER"; "LOGNAME"; "TMPDIR"; "TMP"; "TEMP"; "TEMPDIR"; "LANG"; "LANGUAGE"; "TZ"; "TERM";
   "COLORTERM"; "NO_COLOR"; "FORCE_COLOR"; "HTTP_PROXY"; "HTTPS_PROXY"; "ALL_PROXY"; "NO_PROXY";
   "http_proxy"; "https_proxy"; "all_proxy"; "no_proxy"; "SSL_CERT_FILE"; "SSL_CERT_DIR";
   "NODE_EXTRA_CA_CERTS"; "CURL_CA_BUNDLE"; "GIT_SSL_CAINFO"; "CODEX_HOME"; "CLAUDE_CONFIG_DIR";
   "KIMI_CODE_HOME"; "COPILOT_HOME"; "XDG_CONFIG_HOME"; "XDG_DATA_HOME"; "XDG_STATE_HOME"].

Definition PROCESS_INJECTION_ENV_NAMES : list string :=
  ["PATH"; "NODE_OPTIONS"; "GIT_CONFIG"; "GIT_SSH_COMMAND"; "GIT_SSH"; "GIT_EXTERNAL_DIFF";
   "GIT_PROXY_COMMAND"; "GIT_PAGER"; "GIT_EDITOR"; "GIT_SEQUENCE_EDITOR"; "GIT_ASKPASS";
   "GIT_MERGE_TOOL"; "GIT_EXEC_PATH"; "SSH_ASKPASS"; "BASH_ENV"; "ENV"; "PAGER"].

Definition PROCESS_INJECTION_PREFIXES : list string := ["LD_"; "DYLD_"; "GIT_CONFIG_"].

Fixpoint dashes_to_underscores (s : string) : string :=
  match s with
  | "" => ""
  | String c s' => String (if Ascii.eqb c "-" then "_"%char else c) (dashes_to_underscores s')
  end.

Definition isNpmConfigEnvName (key : string) : bool :=
  String.prefix "npm_config_" (dashes_to_underscores (toLowerCase key)).

Definition isProcessInjectionEnvName (key : string) : bool :=
  bool_decide (key ∈ PROCESS_INJECTION_ENV_NAMES) || isNpmConfigEnvName key ||
  existsb (fun p => String.prefix p key) PROCESS_INJECTION_PREFIXES.

Definition sanitizeAgentRuntimeEnv (env : option Env) : option Env :=
  keep_names (fun key => negb (bool_decide (key ∈ RUNTIME_ENV_RESERVED_KEYS)) &&
                         negb (isProcessInjectionEnvName key)) <$> env.

Definition inherits (additionalNames : list string) (key : string) : bool :=
  bool_decide (key ∈ SAFE_AGENT_PROCESS_ENV_NAMES ++ additionalNames) || String.prefix "LC_" key.

Definition buildSafeAgentProcessEnv (source : Env) (additionalNames : list string) : Env :=
  keep_names (inherits additionalNames) source.

Definition omitRuntimeEnvKeys (env : option Env) (keys : list string) : option Env :=
  unsetEnvs keys <$> env.

(** The [env] of [prepareRuntimeContext], of the directories it has prepared *)
Record RuntimeContext := mkRuntime {
  rt_agentHomeDir : string;
  rt_agentId : string;
  rt_runId : string;
  rt_workspaceDir : string;
  rt_artifactsDir : string;
  rt_cacheDir : string;
  rt_configDir : string;
  rt_tmpDir : string;
  rt_codexHomeDir : string
}.

Definition runtimeEnv (rt : RuntimeContext) : Env :=
  list_to_map
    [("HOME", rt_agentHomeDir rt); ("A2WAVE_AGENT_HOME", rt_agentHomeDir rt);
     ("A2WAVE_AGENT_ID", rt_agentId rt); ("A2WAVE_RUN_ID", rt_runId rt);
     ("A2WAVE_WORKSPACE_DIR", rt_workspaceDir rt); ("A2WAVE_ARTIFACTS_DIR", rt_artifactsDir rt);
     ("XDG_CACHE_HOME", rt_cacheDir rt); ("XDG_CONFIG_HOME", rt_configDir rt);
     ("TMPDIR", rt_tmpDir rt); ("CODEX_HOME", rt_codexHomeDir rt)].

(** ** cli-engine-base.ts *)

(** The options of [buildCredentialEnv]; an absent list is empty. *)
Record CredentialOptions := mkOptions {
  protectedNames : list string;
  agentEnvOnlyNames : list string;
  inject : list (string * string);
  agentEnv : option Env;
  runtime : option Env;
  omitRuntimeKeys : list string
}.

Definition buildCredentialEnv (processEnv : Env) (o : CredentialOptions) : Env :=
  let blocklist := protectedNames o ++ agentEnvOnlyNames o ++ PROCESS_INJECTION_ENV_NAMES in
  let env := unsetEnvs (protectedNames o) (buildSafeAgentProcessEnv processEnv (agentEnvOnlyNames o)) in
  let env := foldl (fun env kv => set_truthy kv.1 kv.2 env) env (inject o) in
  let sanitizedAgentEnv := unsetEnvs blocklist <$> sanitizeAgentRuntimeEnv (agentEnv o) in
  let effectiveRuntimeEnv :=
    match omitRuntimeKeys o with
    | [] => runtime o
    | _ => omitRuntimeEnvKeys (runtime o) (omitRuntimeKeys o)
    end in
  let effectiveRuntimeEnv :=
    (fun e => keep_names (fun key => negb (isProcessInjectionEnvName key))
                (unsetEnvs (agentEnvOnlyNames o) (unsetEnvs (protectedNames o) e))) <$> effectiveRuntimeEnv in
  spread (spread env sanitizedAgentEnv) effectiveRuntimeEnv.

(** ** The engines *)

Inductive AuthMode := apiKey | oauth | localSession.
#[export] Instance AuthMode_eq_dec : EqDecision AuthMode.
Proof. solve_decision. Defined.

(** What an engine's environment depends on besides the variables of the
    agent: the binding of the agent, the engine's configuration and the values
    the engine itself prepares *)
Record EngineCall := mkEngineCall {
  authMode : AuthMode;
  authHeaderStyle_bearer : bool;
  providerApiKey : option string;
  providerBaseUrl : option string;
  providerOauthToken : option string;
  config_apiKey : string;
  config_baseUrl : string;                   (* TRAECLI_HOST for Trae *)
  config_agentDir : string;
  ephemeralAgentDir : option string;
  mcpEnv : option Env;
  mcpConfigContent : option string
}.

Section Engines.
Context (processEnv : Env) (c : EngineCall) (agentEnv runtimeEnv : option Env).

Definition local : bool := bool_decide (authMode c = localSession).
Definition resolvedApiKey : string := or_else (providerApiKey c) (config_apiKey c).
Definition resolvedBaseUrl : string := or_else (providerBaseUrl c) (config_baseUrl c).

Definition PROTECTED_QODER_ENV_NAMES := ["QODER_PERSONAL_ACCESS_TOKEN"; "QODER_ACCESS_TOKEN"].

Definition qoder_env : Env :=
  buildCredentialEnv processEnv
    (mkOptions PROTECTED_QODER_ENV_NAMES []
       (if local then [] else [("QODER_PERSONAL_ACCESS_TOKEN", resolvedApiKey)])
       agentEnv runtimeEnv (if local then ["HOME"] else [])).

Definition PROTECTED_TRAE_ENV_NAMES := ["TRAECLI_PERSONAL_ACCESS_TOKEN"; "TRAECLI_HOST"].

Definition trae_env : Env :=
  buildCredentialEnv processEnv
    (mkOptions PROTECTED_TRAE_ENV_NAMES []
       (if local then []
        else [("TRAECLI_PERSONAL_ACCESS_TOKEN", resolvedApiKey); ("TRAECLI_HOST", resolvedBaseUrl)])
       agentEnv runtimeEnv (if local then ["HOME"; "XDG_CONFIG_HOME"] else [])).

Definition PROTECTED_KIMI_ENV_NAMES :=
  ["KIMI_CODE_BASE_URL"; "KIMI_CODE_OAUTH_HOST"; "KIMI_OAUTH_HOST"; "KIMI_BASE_URL"; "KIMI_API_KEY";
   "KIMI_MODEL_NAME"; "KIMI_MODEL_API_KEY"; "KIMI_MODEL_BASE_URL"; "KIMI_MODEL_PROVIDER_TYPE";
   "KIMI_WEB_SEARCH_BASE_URL"; "KIMI_WEB_SEARCH_API_KEY"; "KIMI_WEB_FETCH_BASE_URL";
   "KIMI_WEB_FETCH_API_KEY"; "KIMI_CODE_EXPERIMENTAL_FLAG"].
Definition AGENT_ENV_ONLY_KIMI_NAMES := ["KIMI_CODE_HOME"; "HOME"].

(** [buildKimiEnv] *)
Definition kimi_env : Env :=
  buildCredentialEnv processEnv
    (mkOptions PROTECTED_KIMI_ENV_NAMES AGENT_ENV_ONLY_KIMI_NAMES [] agentEnv runtimeEnv
       ["HOME"; "XDG_CONFIG_HOME"]).

(** Values forced by the platform *)
Definition PROTECTED_PI_ENV_NAMES :=
  ["A2WAVE_PI_PROVIDER_API_KEY"; "PI_CODING_AGENT_DIR"; "PI_OFFLINE"; "PI_SKIP_VERSION_CHECK";
   "PI_TELEMETRY"].
Definition PI_API_KEY_AGENT_ENV_ONLY_NAMES :=
  ["PI_CODING_AGENT_SESSION_DIR"; "PI_PACKAGE_DIR"; "HTTP_PROXY"; "HTTPS_PROXY"; "ALL_PROXY";
   "NO_PROXY"; "http_proxy"; "https_proxy"; "all_proxy"; "no_proxy"].
Definition AGENT_ENV_ONLY_PI_NAMES :=
  ["PI_CODING_AGENT_SESSION_DIR"; "PI_PACKAGE_DIR"; "ANTHROPIC_AUTH_TOKEN"; "ANTHROPIC_API_KEY";
   "ANTHROPIC_OAUTH_TOKEN"; "ANTHROPIC_BASE_URL"; "ANT_LING_API_KEY"; "OPENAI_API_KEY";
   "OPENAI_BASE_URL"; "AZURE_OPENAI_API_KEY"; "AZURE_OPENAI_BASE_URL"; "AZURE_OPENAI_RESOURCE_NAME";
   "AZURE_OPENAI_API_VERSION"; "AZURE_OPENAI_DEPLOYMENT_NAME_MAP"; "BASETEN_API_KEY";
   "DEEPSEEK_API_KEY"; "NVIDIA_API_KEY"; "GEMINI_API_KEY"; "GOOGLE_CLOUD_API_KEY"; "GROQ_API_KEY";
   "CEREBRAS_API_KEY"; "XAI_API_KEY"; "FIREWORKS_API_KEY"; "TOGETHER_API_KEY"; "OPENROUTER_API_KEY";
   "AI_GATEWAY_API_KEY"; "ZAI_API_KEY"; "ZAI_CODING_CN_API_KEY"; "MISTRAL_API_KEY";
   "MINIMAX_API_KEY"; "MINIMAX_CN_API_KEY"; "MOONSHOT_API_KEY"; "OPENCODE_API_KEY"; "KIMI_API_KEY";
   "CLOUDFLARE_API_KEY"; "CLOUDFLARE_ACCOUNT_ID"; "CLOUDFLARE_GATEWAY_ID";
   "QWEN_TOKEN_PLAN_API_KEY"; "QWEN_TOKEN_PLAN_CN_API_KEY"; "XIAOMI_API_KEY";
   "XIAOMI_TOKEN_PLAN_CN_API_KEY"; "XIAOMI_TOKEN_PLAN_AMS_API_KEY"; "XIAOMI_TOKEN_PLAN_SGP_API_KEY";
   "RADIUS_API_KEY"; "HF_TOKEN"; "COPILOT_GITHUB_TOKEN"; "AWS_PROFILE"; "AWS_ACCESS_KEY_ID";
   "AWS_SECRET_ACCESS_KEY"; "AWS_SESSION_TOKEN"; "AWS_BEARER_TOKEN_BEDROCK"; "AWS_REGION";
   "AWS_CONTAINER_CREDENTIALS_RELATIVE_URI"; "AWS_CONTAINER_CREDENTIALS_FULL_URI";
   "AWS_WEB_IDENTITY_TOKEN_FILE"; "AWS_ROLE_ARN"; "AWS_ENDPOINT_URL_BEDROCK_RUNTIME";
   "AWS_BEDROCK_FORCE_CACHE"; "AWS_BEDROCK_SKIP_AUTH"; "AWS_BEDROCK_FORCE_HTTP1";
   "GOOGLE_APPLICATION_CREDENTIALS"; "GOOGLE_CLOUD_PROJECT"; "GCLOUD_PROJECT";
   "GOOGLE_CLOUD_LOCATION"; "HTTP_PROXY"; "HTTPS_PROXY"; "ALL_PROXY"; "NO_PROXY"; "http_proxy";
   "https_proxy"; "all_proxy"; "no_proxy"].
Definition PI_API_KEY_PROTECTED_ENV_NAMES :=
  PROTECTED_PI_ENV_NAMES ++
  filter (fun name => name ∉ PI_API_KEY_AGENT_ENV_ONLY_NAMES) AGENT_ENV_ONLY_PI_NAMES.

Definition buildPiEnv : Env :=
  let keyed := bool_decide (authMode c = apiKey) in
  buildCredentialEnv processEnv
    (mkOptions (if keyed then PI_API_KEY_PROTECTED_ENV_NAMES else PROTECTED_PI_ENV_NAMES)
       (if keyed then PI_API_KEY_AGENT_ENV_ONLY_NAMES else AGENT_ENV_ONLY_PI_NAMES)
       [("A2WAVE_PI_PROVIDER_API_KEY", if keyed then default "" (providerApiKey c) else "");
        ("PI_CODING_AGENT_DIR", or_else (ephemeralAgentDir c) (config_agentDir c));
        ("PI_OFFLINE", "1"); ("PI_SKIP_VERSION_CHECK", "1"); ("PI_TELEMETRY", "0")]
       agentEnv runtimeEnv (if local then ["HOME"; "XDG_CONFIG_HOME"] else [])).

(** [!value?.trim()] *)
Definition blank (value : option string) : bool := bool_decide (trim (default "" value) = "").

Definition pi_env (model : string) : outcome Env :=
  if decide (authMode c = oauth) then
    Throw (mkError "Error" "Pi CLI does not support oauth mode (use apiKey or localSession)")
  else if bool_decide (authMode c = apiKey) && blank (providerApiKey c) then
    Throw (mkError "Error" "Pi apiKey mode requires providerApiKey")
  else if bool_decide (authMode c = apiKey) &&
          (negb (String.prefix "openai/" model) || (String.length model =? 7)%nat) then
    Throw (mkError "Error" "Pi apiKey mode requires an openai/<model> id returned by model discovery")
  else Ret buildPiEnv.

Definition PROTECTED_CODEX_ENV_NAMES :=
  ["OPENAI_API_KEY"; "OPENAI_BASE_URL"; "OPENAI_API_BASE"; "CODEX_API_KEY"; "CODEX_HOME"; "HOME"; "PATH";
   "NODE_OPTIONS"; "LD_PRELOAD"; "DYLD_INSERT_LIBRARIES"; "DYLD_LIBRARY_PATH"].

Definition withoutProtectedCodexEnv (env : option Env) : Env :=
  keep_names (fun key => negb (bool_decide (key ∈ PROTECTED_CODEX_ENV_NAMES))) (default ∅ env).

(** [buildEnv] of codex-agent.ts, whose modes are [localSession] and the rest *)
Definition codex_buildEnv : Env :=
  let env := spread (spread (buildSafeAgentProcessEnv processEnv [])
               (Some (withoutProtectedCodexEnv (sanitizeAgentRuntimeEnv agentEnv))))
               (Some (withoutProtectedCodexEnv (sanitizeAgentRuntimeEnv (mcpEnv c)))) in
  let env := if local then unsetEnvs ["OPENAI_API_KEY"; "CODEX_API_KEY"] env
             else set_truthy "CODEX_API_KEY" resolvedApiKey
                    (set_truthy "OPENAI_API_KEY" resolvedApiKey env) in
  spread env (if local then omitRuntimeEnvKeys runtimeEnv ["HOME"; "CODEX_HOME"] else runtimeEnv).

Definition codex_env : outcome Env :=
  if negb local && negb (blank (providerBaseUrl c)) && blank (providerApiKey c) then
    Throw (mkError "Error" ("Codex Agent Base URL requires providerApiKey in the same binding; refusing "
      +:+ "to send a deployment credential to an Agent-controlled proxy"))
  else Ret codex_buildEnv.

Definition PROTECTED_OPENCODE_ENV_NAMES :=
  ["OPENCODE_CONFIG"; "OPENCODE_CONFIG_CONTENT"; "OPENAI_API_KEY"; "OPENAI_BASE_URL"; "OPENAI_API_BASE";
   "ANTHROPIC_API_KEY"; "ANTHROPIC_BASE_URL"; "HOME"; "XDG_CONFIG_HOME"; "XDG_DATA_HOME"; "PATH";
   "NODE_OPTIONS"; "LD_PRELOAD"; "DYLD_INSERT_LIBRARIES"; "DYLD_LIBRARY_PATH"].

Definition stripProtectedOpencodeEnv (env : option Env) : option Env :=
  keep_names (fun key => negb (bool_decide (key ∈ PROTECTED_OPENCODE_ENV_NAMES))) <$> env.

Definition opencode_env : Env :=
  let env := unsetEnvs ["OPENCODE_CONFIG_CONTENT"] (buildSafeAgentProcessEnv processEnv []) in
  let env := spread env (stripProtectedOpencodeEnv (sanitizeAgentRuntimeEnv agentEnv)) in
  let env := spread env
    (stripProtectedOpencodeEnv (omitRuntimeEnvKeys runtimeEnv ["HOME"; "XDG_CONFIG_HOME"])) in
  set_truthy "OPENCODE_CONFIG_CONTENT" (default "" (mcpConfigContent c)) env.

Definition cursor_env : Env :=
  let env := buildSafeAgentProcessEnv processEnv [] in
  let env := if local then unsetEnvs ["CURSOR_API_KEY"] env
             else set_truthy "CURSOR_API_KEY" resolvedApiKey env in
  let sanitizedAgentEnv := unsetEnvs ["CURSOR_API_KEY"] <$> sanitizeAgentRuntimeEnv agentEnv in
  spread (spread env sanitizedAgentEnv)
    (if local then omitRuntimeEnvKeys runtimeEnv ["HOME"] else runtimeEnv).

Definition CLAUDE_CREDENTIAL_ENV_KEYS :=
  ["ANTHROPIC_API_KEY"; "ANTHROPIC_AUTH_TOKEN"; "ANTHROPIC_BASE_URL"; "CLAUDE_CODE_OAUTH_TOKEN"].

Definition clearClaudeCredentialEnv (env : Env) : Env := unsetEnvs CLAUDE_CREDENTIAL_ENV_KEYS env.

(** [replace(/\/v1$/, '')] *)
Fixpoint drop_v1 (s : string) : string :=
  match s with
  | "" => ""
  | String ch s' => if decide (s = "/v1") then "" else String ch (drop_v1 s')
  end.
Definition normalizeClaudeProxyBaseUrl (baseUrl : string) : string := drop_v1 (drop_slashes baseUrl).

Definition claude_env : Env :=
  let env := <["LC_ALL" := "en_US.UTF-8"]> (<["LANG" := "en_US.UTF-8"]>
               (buildSafeAgentProcessEnv processEnv [])) in
  let env := clearClaudeCredentialEnv env in
  let bearer := authHeaderStyle_bearer c in
  let env :=
    match authMode c with
    | oauth => set_truthy "CLAUDE_CODE_OAUTH_TOKEN" (default "" (providerOauthToken c)) env
    | apiKey =>
        let env := set_truthy (if bearer then "ANTHROPIC_AUTH_TOKEN" else "ANTHROPIC_API_KEY")
                     resolvedApiKey env in
        if decide (resolvedBaseUrl = "") then env
        else <["ANTHROPIC_BASE_URL" :=
                 if bearer then normalizeClaudeProxyBaseUrl resolvedBaseUrl else resolvedBaseUrl]> env
    | localSession => env
    end in
  let sanitizedAgentEnv := clearClaudeCredentialEnv <$> sanitizeAgentRuntimeEnv agentEnv in
  spread (spread env sanitizedAgentEnv)
    (if local then omitRuntimeEnvKeys runtimeEnv ["HOME"] else runtimeEnv).
End Engines.

Inductive Engine := cursor | claude | codex | opencode | qoder | kimi | pi (model : string) | trae.

(** The environment an engine starts the agent's process with *)
Definition engine_env (e : Engine) (processEnv : Env) (c : EngineCall) (agentEnv runtimeEnv : option Env)
    : outcome Env :=
  match e with
  | cursor => Ret (cursor_env processEnv c agentEnv runtimeEnv)
  | claude => Ret (claude_env processEnv c agentEnv runtimeEnv)
  | codex => codex_env processEnv c agentEnv runtimeEnv
  | opencode => Ret (opencode_env processEnv c agentEnv runtimeEnv)
  | qoder => Ret (qoder_env processEnv c agentEnv runtimeEnv)
  | kimi => Ret (kimi_env processEnv agentEnv runtimeEnv)
  | pi model => pi_env processEnv c agentEnv runtimeEnv model
  | trae => Ret (trae_env processEnv c agentEnv runtimeEnv)
  end.

#[local] Arguments RUNTIME_ENV_RESERVED_KEYS : simpl never.
#[local] Arguments PROCESS_INJECTION_ENV_NAMES : simpl never.
#[local] Arguments isProcessInjectionEnvName : simpl never.

(** ** Lookups *)

Lemma lookup_keep_names p (e : Env) k : keep_names p e !! k = if p k then e !! k else None.
Proof.
  apply option_eq. intros v. unfold keep_names. rewrite map_lookup_filter_Some. simpl.
  destruct (p k); naive_solver.
Qed.

Lemma lookup_unsetEnvs keys (e : Env) k :
  unsetEnvs keys e !! k = if bool_decide (k ∈ keys) then None else e !! k.
Proof.
  unfold unsetEnvs. revert e. induction keys as [|x keys IH]; intros e; cbn [foldl]; [done|].
  rewrite IH. destruct (decide (x = k)) as [->|Hne].
  - rewrite lookup_delete_eq, (bool_decide_eq_true_2 (k ∈ k :: keys)) by by left. by case_bool_decide.
  - rewrite lookup_delete_ne by done. repeat case_bool_decide; set_solver.
Qed.

Definition lookup_opt (k : string) (o : option Env) : option string := o ≫= lookup k.

Lemma lookup_spread base over k :
  spread base over !! k = match lookup_opt k over with Some v => Some v | None => base !! k end.
Proof.
  unfold spread, lookup_opt. rewrite lookup_union. destruct over as [e|]; simpl.
  - by destruct (e !! k), (base !! k).
  - rewrite lookup_empty. by destruct (base !! k).
Qed.

Lemma lookup_set_truthy k' v (e : Env) k :
  set_truthy k' v e !! k = if decide (v = "") then e !! k else if decide (k' = k) then Some v else e !! k.
Proof.
  unfold set_truthy. case_decide; [done|]. case_decide; subst; by simplify_map_eq.
Qed.

(** ** Two environments that agree on a name *)

Definition agree (k : string) (e1 e2 : Env) : Prop := e1 !! k = e2 !! k.
Definition agree_opt (k : string) (o1 o2 : option Env) : Prop := lookup_opt k o1 = lookup_opt k o2.

Lemma agree_spread k b1 b2 o1 o2 :
  agree k b1 b2 -> agree_opt k o1 o2 -> agree k (spread b1 o1) (spread b2 o2).
Proof. unfold agree, agree_opt. intros Hb Ho. by rewrite !lookup_spread, Ho, Hb. Qed.

Lemma agree_unset k keys e1 e2 : agree k e1 e2 -> agree k (unsetEnvs keys e1) (unsetEnvs keys e2).
Proof. unfold agree. intros H. by rewrite !lookup_unsetEnvs, H. Qed.

Lemma agree_set k k' v e1 e2 : agree k e1 e2 -> agree k (set_truthy k' v e1) (set_truthy k' v e2).
Proof. unfold agree. intros H. by rewrite !lookup_set_truthy, H. Qed.

Lemma agree_fold k kvs e1 e2 :
  agree k e1 e2 ->
  agree k (foldl (fun e kv => set_truthy kv.1 kv.2 e) e1 kvs) (foldl (fun e kv => set_truthy kv.1 kv.2 e) e2 kvs).
Proof. revert e1 e2. induction kvs as [|kv kvs IH]; intros e1 e2 H; [done|]. by apply IH, agree_set. Qed.

Create HintDb env_agree.
#[export] Hint Resolve agree_spread agree_unset agree_set agree_fold : env_agree.
#[export] Hint Extern 1 (agree _ ?e ?e) => reflexivity : env_agree.
#[export] Hint Extern 1 (agree_opt _ ?e ?e) => reflexivity : env_agree.

(** ** What the agent's own variables cannot be *)

Definition denied (blocklist : list string) (k : string) : bool :=
  isProcessInjectionEnvName k || bool_decide (k ∈ RUNTIME_ENV_RESERVED_KEYS) || bool_decide (k ∈ blocklist).

Lemma injection_names k : k ∈ PROCESS_INJECTION_ENV_NAMES -> isProcessInjectionEnvName k = true.
Proof. intros H. unfold isProcessInjectionEnvName. by rewrite bool_decide_eq_true_2. Qed.

Lemma lookup_sanitized k env :
  lookup_opt k (sanitizeAgentRuntimeEnv env) = if denied [] k then None else lookup_opt k env.
Proof.
  unfold sanitizeAgentRuntimeEnv, lookup_opt, denied. rewrite (bool_decide_eq_false_2 (k ∈ [])), orb_false_r by apply not_elem_of_nil.
  destruct env as [e|]; simpl; [|by destruct (_ || _)]. rewrite lookup_keep_names.
  by destruct (isProcessInjectionEnvName k), (bool_decide (k ∈ RUNTIME_ENV_RESERVED_KEYS)).
Qed.

Lemma denied_weaken blocklist k : denied blocklist k = denied [] k || bool_decide (k ∈ blocklist).
Proof.
  unfold denied. by rewrite (bool_decide_eq_false_2 (k ∈ [])), orb_false_r by apply not_elem_of_nil.
Qed.

(** Stripped of the engine's names as well, in any of the three ways the code
    does it, nothing denied is left. *)
Definition strips (blocklist : list string) (f : option Env -> option Env) : Prop :=
  forall env k, lookup_opt k (f (sanitizeAgentRuntimeEnv env)) =
    if denied blocklist k then None else lookup_opt k env.

Lemma strips_unset blocklist : strips blocklist (fmap (unsetEnvs blocklist)).
Proof.
  intros env k. rewrite denied_weaken. pose proof (lookup_sanitized k env) as H.
  destruct (sanitizeAgentRuntimeEnv env) as [e|]; unfold lookup_opt in *; simpl in *.
  - rewrite lookup_unsetEnvs, H. destruct (denied [] k); [by case_bool_decide|]. simpl. by case_bool_decide.
  - destruct (denied [] k); [done|]. simpl. rewrite <- H. by case_bool_decide.
Qed.

Lemma strips_keep blocklist :
  strips blocklist (fmap (keep_names (fun key => negb (bool_decide (key ∈ blocklist))))).
Proof.
  intros env k. rewrite denied_weaken. pose proof (lookup_sanitized k env) as H.
  destruct (sanitizeAgentRuntimeEnv env) as [e|]; unfold lookup_opt in *; simpl in *.
  - rewrite lookup_keep_names, H. destruct (denied [] k); [by case_bool_decide|]. simpl. by case_bool_decide.
  - destruct (denied [] k); [done|]. simpl. rewrite <- H. by case_bool_decide.
Qed.

Lemma strips_agree blocklist f k env1 env2 :
  strips blocklist f -> denied blocklist k = true ->
  agree_opt k (f (sanitizeAgentRuntimeEnv env1)) (f (sanitizeAgentRuntimeEnv env2)).
Proof. intros Hf Hk. unfold agree_opt. by rewrite !Hf, Hk. Qed.

Lemma codex_strips k env :
  denied PROTECTED_CODEX_ENV_NAMES k = true ->
  withoutProtectedCodexEnv (sanitizeAgentRuntimeEnv env) !! k = None.
Proof.
  intros Hk. pose proof (strips_keep PROTECTED_CODEX_ENV_NAMES env k) as H. rewrite Hk in H.
  unfold withoutProtectedCodexEnv, lookup_opt in *. destruct (sanitizeAgentRuntimeEnv env); [done|].
  simpl. rewrite lookup_keep_names, lookup_empty. by case_bool_decide.
Qed.

Lemma denied_mono l1 l2 k : l1 ⊆ l2 -> denied l1 k = true -> denied l2 k = true.
Proof.
  intros Hl. rewrite (denied_weaken l1), (denied_weaken l2). intros [->|H]%orb_true_iff; [done|].
  apply bool_decide_eq_true in H. by rewrite (bool_decide_eq_true_2 (k ∈ l2)), orb_true_r by by apply Hl.
Qed.

Definition with_agentEnv (a : option Env) (o : CredentialOptions) : CredentialOptions :=
  mkOptions (protectedNames o) (agentEnvOnlyNames o) (inject o) a (runtime o) (omitRuntimeKeys o).

Lemma credential_agree p o a1 a2 k :
  denied (protectedNames o ++ agentEnvOnlyNames o) k = true ->
  agree k (buildCredentialEnv p (with_agentEnv a1 o)) (buildCredentialEnv p (with_agentEnv a2 o)).
Proof.
  intros Hk. unfold buildCredentialEnv. destruct o as [ps os inj a r om]. cbn -[denied] in *.
  apply agree_spread; [|done]. apply agree_spread; [done|].
  eapply strips_agree; [apply strips_unset|]. eapply denied_mono; [|exact Hk]. rewrite (assoc_L (++)). set_solver.
Qed.

(** The names an engine keeps from the agent besides those no agent may set *)
Definition agent_protected (e : Engine) (c : EngineCall) : list string :=
  match e with
  | cursor => ["CURSOR_API_KEY"]
  | claude => CLAUDE_CREDENTIAL_ENV_KEYS
  | codex => PROTECTED_CODEX_ENV_NAMES
  | opencode => PROTECTED_OPENCODE_ENV_NAMES
  | qoder => PROTECTED_QODER_ENV_NAMES
  | kimi => PROTECTED_KIMI_ENV_NAMES ++ AGENT_ENV_ONLY_KIMI_NAMES
  | pi _ => if bool_decide (authMode c = apiKey)
            then PI_API_KEY_PROTECTED_ENV_NAMES ++ PI_API_KEY_AGENT_ENV_ONLY_NAMES
            else PROTECTED_PI_ENV_NAMES ++ AGENT_ENV_ONLY_PI_NAMES
  | trae => PROTECTED_TRAE_ENV_NAMES
  end.

(** The names of the API process an engine passes on *)
Definition inherited (e : Engine) (c : EngineCall) (k : string) : bool :=
  inherits (match e with
            | kimi => AGENT_ENV_ONLY_KIMI_NAMES
            | pi _ => if bool_decide (authMode c = apiKey) then PI_API_KEY_AGENT_ENV_ONLY_NAMES
                      else AGENT_ENV_ONLY_PI_NAMES
            | _ => []
            end) k.

(** The value of a name, or the refusal *)
Definition value_at (k : string) (o : outcome Env) : outcome (option string) :=
  match o with Ret e => Ret (e !! k) | Throw err => Throw err end.

Lemma agent_env_agree e p c a1 a2 r k :
  denied (agent_protected e c) k = true ->
  value_at k (engine_env e p c a1 r) = value_at k (engine_env e p c a2 r).
Proof.
  intros Hk. destruct e; cbn [engine_env value_at agent_protected] in *.
  - f_equal. apply agree_spread; [|done]. apply agree_spread; [done|].
    by eapply strips_agree; [apply strips_unset|].
  - f_equal. apply agree_spread; [|done]. apply agree_spread; [done|].
    by eapply strips_agree; [apply (strips_unset CLAUDE_CREDENTIAL_ENV_KEYS)|].
  - unfold codex_env. destruct (_ && blank (providerApiKey c)); [done|]. cbn [value_at]. f_equal.
    assert (agree k (withoutProtectedCodexEnv (sanitizeAgentRuntimeEnv a1))
                    (withoutProtectedCodexEnv (sanitizeAgentRuntimeEnv a2))) as Ha
      by (unfold agree; by rewrite !codex_strips).
    unfold codex_buildEnv. apply agree_spread; [|done].
    destruct (local c); [apply agree_unset|apply agree_set, agree_set];
      (apply agree_spread; [|done]); by apply agree_spread.
  - f_equal. apply agree_set, agree_spread; [|done]. apply agree_spread; [done|].
    by eapply strips_agree; [apply strips_keep|].
  - f_equal. eapply (credential_agree p (mkOptions _ _ _ None _ _)). by rewrite app_nil_r.
  - f_equal. by eapply (credential_agree p (mkOptions _ _ _ None _ _)).
  - unfold pi_env. destruct (decide _); [done|]. destruct (_ && blank _); [done|].
    destruct (_ && (_ || _)); [done|]. cbn [value_at]. f_equal.
    eapply (credential_agree p (mkOptions _ _ _ None _ _)). cbn [protectedNames agentEnvOnlyNames].
    by destruct (bool_decide (authMode c = apiKey)).
  - f_equal. eapply (credential_agree p (mkOptions _ _ _ None _ _)). by rewrite app_nil_r.
Qed.

Lemma safe_env_same p1 p2 names :
  (forall k, inherits names k = true -> p1 !! k = p2 !! k) ->
  buildSafeAgentProcessEnv p1 names = buildSafeAgentProcessEnv p2 names.
Proof.
  intros H. apply map_eq. intros k. unfold buildSafeAgentProcessEnv. rewrite !lookup_keep_names.
  destruct (inherits names k) eqn:Hk; [by apply H|done].
Qed.

Lemma process_env_same e p1 p2 c a r :
  (forall k, inherited e c k = true -> p1 !! k = p2 !! k) ->
  engine_env e p1 c a r = engine_env e p2 c a r.
Proof.
  intros H. pose proof (safe_env_same p1 p2 _ H) as Hs. clear H.
  destruct e; simpl in *; unfold cursor_env, claude_env, codex_env, codex_buildEnv, opencode_env, qoder_env,
    kimi_env, trae_env, pi_env, buildPiEnv, buildCredentialEnv; cbn [agentEnvOnlyNames]; by rewrite Hs.
Qed.


(** ** The credentials *)

(** The names that carry an engine's credentials *)
Definition credential_names (e : Engine) (c : EngineCall) : list string :=
  match e with
  | cursor => ["CURSOR_API_KEY"]
  | claude => CLAUDE_CREDENTIAL_ENV_KEYS
  | codex => ["OPENAI_API_KEY"; "CODEX_API_KEY"; "OPENAI_BASE_URL"; "OPENAI_API_BASE"]
  | opencode => ["OPENCODE_CONFIG"; "OPENCODE_CONFIG_CONTENT"; "OPENAI_API_KEY"; "OPENAI_BASE_URL";
                 "OPENAI_API_BASE"; "ANTHROPIC_API_KEY"; "ANTHROPIC_BASE_URL"]
  | qoder => PROTECTED_QODER_ENV_NAMES
  | kimi => PROTECTED_KIMI_ENV_NAMES
  | pi _ => if bool_decide (authMode c = apiKey) then PI_API_KEY_PROTECTED_ENV_NAMES
            else PROTECTED_PI_ENV_NAMES
  | trae => PROTECTED_TRAE_ENV_NAMES
  end.

Definition injected (kvs : list (string * string)) : Env :=
  foldl (fun env kv => set_truthy kv.1 kv.2 env) ∅ kvs.

(** What the binding and the configuration alone give them *)
Definition credentials (e : Engine) (c : EngineCall) : Env :=
  match e, authMode c with
  | cursor, localSession | claude, localSession | codex, localSession
  | qoder, localSession | trae, localSession | kimi, _ => ∅
  | cursor, _ => injected [("CURSOR_API_KEY", resolvedApiKey c)]
  | claude, oauth => injected [("CLAUDE_CODE_OAUTH_TOKEN", default "" (providerOauthToken c))]
  | claude, apiKey =>
      let key := injected [(if authHeaderStyle_bearer c then "ANTHROPIC_AUTH_TOKEN" else "ANTHROPIC_API_KEY",
                            resolvedApiKey c)] in
      if decide (resolvedBaseUrl c = "") then key
      else <["ANTHROPIC_BASE_URL" :=
               if authHeaderStyle_bearer c then normalizeClaudeProxyBaseUrl (resolvedBaseUrl c)
               else resolvedBaseUrl c]> key
  | codex, _ => injected [("OPENAI_API_KEY", resolvedApiKey c); ("CODEX_API_KEY", resolvedApiKey c)]
  | opencode, _ => injected [("OPENCODE_CONFIG_CONTENT", default "" (mcpConfigContent c))]
  | qoder, _ => injected [("QODER_PERSONAL_ACCESS_TOKEN", resolvedApiKey c)]
  | pi _, m =>
      injected [("A2WAVE_PI_PROVIDER_API_KEY",
                 if bool_decide (m = apiKey) then default "" (providerApiKey c) else "");
                ("PI_CODING_AGENT_DIR", or_else (ephemeralAgentDir c) (config_agentDir c));
                ("PI_OFFLINE", "1"); ("PI_SKIP_VERSION_CHECK", "1"); ("PI_TELEMETRY", "0")]
  | trae, _ => injected [("TRAECLI_PERSONAL_ACCESS_TOKEN", resolvedApiKey c); ("TRAECLI_HOST", resolvedBaseUrl c)]
  end.

(** Whether the agent runs in the home directory of the host, whose login it
    uses *)
Definition uses_host_home (e : Engine) (c : EngineCall) : bool :=
  match e with opencode | kimi => true | _ => local c end.

(** The variables the platform tells an agent who and where it is by *)
Definition PLATFORM_NAMES : list string :=
  ["A2WAVE_AGENT_HOME"; "A2WAVE_AGENT_ID"; "A2WAVE_RUN_ID"; "A2WAVE_WORKSPACE_DIR"; "A2WAVE_ARTIFACTS_DIR";
   "XDG_CACHE_HOME"; "TMPDIR"].

Definition first_of (a b : option string) : option string := match a with Some v => Some v | None => b end.

Lemma lookup_fold kvs e k :
  foldl (fun env kv => set_truthy kv.1 kv.2 env) e kvs !! k = first_of (injected kvs !! k) (e !! k).
Proof.
  unfold injected, first_of. induction kvs as [|[k' v] kvs IH] using rev_ind; simpl.
  - by rewrite lookup_empty.
  - rewrite !foldl_snoc, !lookup_set_truthy. simpl. by repeat case_decide.
Qed.

Lemma omit_env_lookup keys r k :
  lookup_opt k (omitRuntimeEnvKeys r keys) = if bool_decide (k ∈ keys) then None else lookup_opt k r.
Proof.
  unfold omitRuntimeEnvKeys, lookup_opt. destruct r; simpl; [apply lookup_unsetEnvs|by case_bool_decide].
Qed.

Lemma omit_lookup keys r k :
  lookup_opt k (match keys with [] => r | _ => omitRuntimeEnvKeys r keys end) =
  if bool_decide (k ∈ keys) then None else lookup_opt k r.
Proof.
  destruct keys as [|x keys]; [by rewrite bool_decide_eq_false_2 by apply not_elem_of_nil|].
  apply omit_env_lookup.
Qed.

Lemma runtime_part o k :
  lookup_opt k ((fun e => keep_names (fun key => negb (isProcessInjectionEnvName key))
      (unsetEnvs (agentEnvOnlyNames o) (unsetEnvs (protectedNames o) e))) <$>
    match omitRuntimeKeys o with [] => runtime o | _ => omitRuntimeEnvKeys (runtime o) (omitRuntimeKeys o) end) =
  if bool_decide (k ∈ omitRuntimeKeys o) || bool_decide (k ∈ protectedNames o)
     || bool_decide (k ∈ agentEnvOnlyNames o) || isProcessInjectionEnvName k
  then None else lookup_opt k (runtime o).
Proof.
  pose proof (omit_lookup (omitRuntimeKeys o) (runtime o) k) as H.
  set (eff := match omitRuntimeKeys o with [] => _ | _ => _ end) in *. clearbody eff.
  destruct eff as [e|]; unfold lookup_opt in *; simpl in *.
  - rewrite lookup_keep_names, !lookup_unsetEnvs, H.
    destruct (bool_decide (k ∈ omitRuntimeKeys o)), (bool_decide (k ∈ protectedNames o)),
      (bool_decide (k ∈ agentEnvOnlyNames o)), (isProcessInjectionEnvName k); done.
  - destruct (bool_decide (k ∈ omitRuntimeKeys o)); [done|]. rewrite <- H. by repeat case_match.
Qed.

(** The matrix, name by name: the platform's variables, then the agent's, then
    what is injected, then what is inherited *)
Lemma matrix_lookup p o k :
  buildCredentialEnv p o !! k =
    first_of (if bool_decide (k ∈ omitRuntimeKeys o) || bool_decide (k ∈ protectedNames o)
                 || bool_decide (k ∈ agentEnvOnlyNames o) || isProcessInjectionEnvName k
              then None else lookup_opt k (runtime o))
   (first_of (if denied (protectedNames o ++ agentEnvOnlyNames o) k then None else lookup_opt k (agentEnv o))
   (first_of (injected (inject o) !! k)
             (if bool_decide (k ∈ protectedNames o) then None
              else if inherits (agentEnvOnlyNames o) k then p !! k else None))).
Proof.
  unfold buildCredentialEnv. rewrite !lookup_spread, lookup_fold, lookup_unsetEnvs.
  unfold buildSafeAgentProcessEnv. rewrite lookup_keep_names.
  rewrite (strips_unset _ (agentEnv o) k).
  assert (denied (protectedNames o ++ agentEnvOnlyNames o ++ PROCESS_INJECTION_ENV_NAMES) k =
          denied (protectedNames o ++ agentEnvOnlyNames o) k) as ->.
  { apply eq_bool_prop_intro. split; intros H; apply Is_true_true in H; apply Is_true_true.
    - rewrite denied_weaken in H. apply orb_true_iff in H as [H|H]; [by rewrite denied_weaken, H|].
      apply bool_decide_eq_true in H. rewrite (assoc_L (++)) in H. apply elem_of_app in H as [H|H].
      + rewrite denied_weaken, (bool_decide_eq_true_2 _ H). by rewrite orb_true_r.
      + unfold denied. by rewrite (injection_names _ H).
    - eapply denied_mono; [|exact H]. rewrite (assoc_L (++)). set_solver. }
  by rewrite runtime_part.
Qed.

(** The same for the engines that build their environment themselves *)
Lemma local_engines_lookup base f blocklist a r keys k (omitting : bool) :
  strips blocklist f ->
  spread (spread base (f (sanitizeAgentRuntimeEnv a)))
    (if omitting then omitRuntimeEnvKeys r keys else r) !! k =
  first_of (if omitting && bool_decide (k ∈ keys) then None else lookup_opt k r)
    (first_of (if denied blocklist k then None else lookup_opt k a) (base !! k)).
Proof.
  intros Hf. rewrite !lookup_spread, (Hf a k). destruct omitting; [|done]. simpl.
  by rewrite omit_env_lookup.
Qed.

Lemma injected_absent kvs k : bool_decide (k ∈ kvs.*1) = false -> injected kvs !! k = None.
Proof.
  intros H. apply bool_decide_eq_false in H. unfold injected.
  induction kvs as [|[k' v] kvs IH] using rev_ind; [apply lookup_empty|].
  rewrite fmap_app in H. rewrite foldl_snoc, lookup_set_truthy. simpl in *.
  rewrite IH by set_solver. case_decide; [done|]. by rewrite decide_False by set_solver.
Qed.

Lemma platform_some rt k : k ∈ PLATFORM_NAMES -> exists v, runtimeEnv rt !! k = Some v.
Proof.
  intros Hk. unfold PLATFORM_NAMES in Hk. repeat (apply elem_of_cons in Hk as [->|Hk]; [by eexists|]).
  by apply elem_of_nil in Hk.
Qed.

(** What the matrix does with the platform's own variables: it leaves them
    alone, and [HOME] unless it is told to. *)
Lemma matrix_platform p o rt k :
  runtime o = Some (runtimeEnv rt) ->
  forallb (fun n => negb (bool_decide (n ∈ omitRuntimeKeys o) || bool_decide (n ∈ protectedNames o)
     || bool_decide (n ∈ agentEnvOnlyNames o) || isProcessInjectionEnvName n)) PLATFORM_NAMES = true ->
  k ∈ PLATFORM_NAMES -> buildCredentialEnv p o !! k = runtimeEnv rt !! k.
Proof.
  intros Hr Hall Hk. rewrite matrix_lookup, Hr. rewrite forallb_forall in Hall.
  apply list_elem_of_In in Hk as Hin. apply Hall, negb_true_iff in Hin. rewrite Hin.
  destruct (platform_some rt k Hk) as [v Hv]. unfold lookup_opt. simpl. by rewrite Hv.
Qed.

Lemma matrix_home p o rt :
  runtime o = Some (runtimeEnv rt) ->
  bool_decide ("HOME" ∈ protectedNames o) = false -> bool_decide ("HOME" ∈ (inject o).*1) = false ->
  buildCredentialEnv p o !! "HOME" =
    if bool_decide ("HOME" ∈ omitRuntimeKeys o) || bool_decide ("HOME" ∈ agentEnvOnlyNames o)
    then p !! "HOME" else Some (rt_agentHomeDir rt).
Proof.
  intros Hr Hp Hi. rewrite matrix_lookup, Hr, Hp, (injected_absent _ _ Hi).
  assert (isProcessInjectionEnvName "HOME" = false) as -> by reflexivity.
  assert (lookup_opt "HOME" (Some (runtimeEnv rt)) = Some (rt_agentHomeDir rt)) as -> by reflexivity.
  assert (inherits (agentEnvOnlyNames o) "HOME" = true) as ->.
  { unfold inherits. by rewrite bool_decide_eq_true_2 by set_solver. }
  assert (denied (protectedNames o ++ agentEnvOnlyNames o) "HOME" = true) as -> by reflexivity.
  by destruct (bool_decide ("HOME" ∈ omitRuntimeKeys o)), (bool_decide ("HOME" ∈ agentEnvOnlyNames o)),
    (p !! "HOME").
Qed.

Lemma matrix_spec p o rt (home : bool) creds env :
  buildCredentialEnv p o = env -> injected (inject o) = creds ->
  runtime o = Some (runtimeEnv rt) ->
  forallb (fun n => negb (bool_decide (n ∈ omitRuntimeKeys o) || bool_decide (n ∈ protectedNames o)
     || bool_decide (n ∈ agentEnvOnlyNames o) || isProcessInjectionEnvName n)) PLATFORM_NAMES = true ->
  bool_decide ("HOME" ∈ protectedNames o) = false -> bool_decide ("HOME" ∈ (inject o).*1) = false ->
  bool_decide ("HOME" ∈ omitRuntimeKeys o) || bool_decide ("HOME" ∈ agentEnvOnlyNames o) = home ->
  (forall k, k ∈ protectedNames o -> env !! k = creds !! k) /\
  (forall k, k ∈ PLATFORM_NAMES -> env !! k = runtimeEnv rt !! k) /\
  env !! "HOME" = if home then p !! "HOME" else Some (rt_agentHomeDir rt).
Proof.
  intros <- <- Hr Hall Hp Hi <-. split; [|split].
  - intros k Hk. rewrite matrix_lookup, denied_weaken.
    rewrite (bool_decide_eq_true_2 (k ∈ protectedNames o)) by done.
    rewrite (bool_decide_eq_true_2 (k ∈ _ ++ _)) by set_solver.
    rewrite !orb_true_r. simpl. by destruct (injected (inject o) !! k).
  - intros k Hk. by apply matrix_platform.
  - by apply matrix_home.
Qed.

(** An engine that lays the platform's variables [R] over what it has built *)
Lemma over_spec (p mid : Env) R rt names (creds : Env) (home : bool) env :
  spread mid R = env ->
  Forall (fun k => lookup_opt k R = None) names ->
  (forall k, k ∈ names -> agree k mid creds) ->
  Forall (fun k => lookup_opt k R = runtimeEnv rt !! k) PLATFORM_NAMES ->
  lookup_opt "HOME" R = (if home then None else Some (rt_agentHomeDir rt)) ->
  mid !! "HOME" = p !! "HOME" ->
  (forall k, k ∈ names -> env !! k = creds !! k) /\
  (forall k, k ∈ PLATFORM_NAMES -> env !! k = runtimeEnv rt !! k) /\
  env !! "HOME" = if home then p !! "HOME" else Some (rt_agentHomeDir rt).
Proof.
  rewrite !Forall_forall. intros <- Hn Hc Hp Hh Hmid. split; [|split].
  - intros k Hk. rewrite lookup_spread, (Hn k Hk). by apply Hc.
  - intros k Hk. rewrite lookup_spread, (Hp k Hk). by destruct (platform_some rt k Hk) as [v ->].
  - rewrite lookup_spread, Hh. by destruct home.
Qed.

(** What is inherited lacks a name that is not on the list. *)
Lemma safe_lacks p names k : inherits names k = false -> agree k (buildSafeAgentProcessEnv p names) ∅.
Proof. intros H. unfold agree, buildSafeAgentProcessEnv. by rewrite lookup_keep_names, H, lookup_empty. Qed.

Lemma agree_agent_part k base creds blocklist f a :
  strips blocklist f -> denied blocklist k = true -> agree k base creds ->
  agree k (spread base (f (sanitizeAgentRuntimeEnv a))) creds.
Proof. unfold agree. intros Hf Hk Hb. by rewrite lookup_spread, (Hf a k), Hk. Qed.

Lemma codex_agent_part k base creds a :
  denied PROTECTED_CODEX_ENV_NAMES k = true -> agree k base creds ->
  agree k (spread base (Some (withoutProtectedCodexEnv (sanitizeAgentRuntimeEnv a)))) creds.
Proof. unfold agree. intros Hk Hb. rewrite lookup_spread. unfold lookup_opt. simpl. by rewrite codex_strips. Qed.

Lemma safe_home p names : agree "HOME" (buildSafeAgentProcessEnv p names) p.
Proof.
  unfold agree, buildSafeAgentProcessEnv. rewrite lookup_keep_names. unfold inherits.
  by rewrite bool_decide_eq_true_2 by set_solver.
Qed.

Lemma agree_set_home k' v (e p : Env) : k' <> "HOME" -> agree "HOME" e p -> agree "HOME" (set_truthy k' v e) p.
Proof. unfold agree. intros Hne H. rewrite lookup_set_truthy. case_decide; [done|]. by rewrite decide_False. Qed.

(** Every name of a list, one by one *)
Ltac each_name Hk :=
  repeat (apply elem_of_cons in Hk as [Hk|Hk]; [rewrite Hk; clear Hk|]); [..|by apply elem_of_nil in Hk].

Lemma agree_cleared k keys e : bool_decide (k ∈ keys) = true -> agree k (unsetEnvs keys e) ∅.
Proof. intros H. unfold agree. by rewrite lookup_unsetEnvs, H, lookup_empty. Qed.

Lemma agree_insert k k' v e1 e2 : agree k e1 e2 -> agree k (<[k' := v]> e1) (<[k' := v]> e2).
Proof. unfold agree. intros H. destruct (decide (k' = k)) as [->|]; by simplify_map_eq. Qed.

#[local] Hint Resolve agree_insert strips_unset strips_keep : env_agree.

Lemma agent_part_home base p blocklist f a :
  strips blocklist f -> agree "HOME" base p -> agree "HOME" (spread base (f (sanitizeAgentRuntimeEnv a))) p.
Proof. intros Hf. by apply agree_agent_part with blocklist. Qed.

(** The layers below the platform's variables, engine by engine *)
Lemma cursor_mid p c a :
  let base := if local c then unsetEnvs ["CURSOR_API_KEY"] (buildSafeAgentProcessEnv p [])
              else set_truthy "CURSOR_API_KEY" (resolvedApiKey c) (buildSafeAgentProcessEnv p []) in
  let mid := spread base (unsetEnvs ["CURSOR_API_KEY"] <$> sanitizeAgentRuntimeEnv a) in
  (forall k, k ∈ credential_names cursor c -> agree k mid (credentials cursor c)) /\ agree "HOME" mid p.
Proof.
  intros base mid. split.
  - intros k Hk. apply agree_agent_part with ["CURSOR_API_KEY"]; [apply strips_unset|each_name Hk; done|].
    assert (agree k (buildSafeAgentProcessEnv p []) ∅) as Hs by (apply safe_lacks; each_name Hk; done).
    unfold base, credentials, local. destruct (authMode c).
    1,2: by apply agree_set.
    by apply agree_cleared, bool_decide_eq_true_2.
  - apply agent_part_home with ["CURSOR_API_KEY"]; [apply strips_unset|]. unfold base.
    destruct (local c); [|by apply agree_set_home, safe_home].
    unfold agree. rewrite lookup_unsetEnvs. apply safe_home.
Qed.

Lemma claude_mid p c a :
  let cleared := clearClaudeCredentialEnv (<["LC_ALL" := "en_US.UTF-8"]> (<["LANG" := "en_US.UTF-8"]>
                   (buildSafeAgentProcessEnv p []))) in
  let base := match authMode c with
    | oauth => set_truthy "CLAUDE_CODE_OAUTH_TOKEN" (default "" (providerOauthToken c)) cleared
    | apiKey =>
        let env := set_truthy (if authHeaderStyle_bearer c then "ANTHROPIC_AUTH_TOKEN" else "ANTHROPIC_API_KEY")
                     (resolvedApiKey c) cleared in
        if decide (resolvedBaseUrl c = "") then env
        else <["ANTHROPIC_BASE_URL" :=
                 if authHeaderStyle_bearer c then normalizeClaudeProxyBaseUrl (resolvedBaseUrl c)
                 else resolvedBaseUrl c]> env
    | localSession => cleared
    end in
  let mid := spread base (clearClaudeCredentialEnv <$> sanitizeAgentRuntimeEnv a) in
  (forall k, k ∈ credential_names claude c -> agree k mid (credentials claude c)) /\ agree "HOME" mid p.
Proof.
  intros cleared base mid. split.
  - intros k Hk. apply agree_agent_part with CLAUDE_CREDENTIAL_ENV_KEYS; [apply strips_unset| |].
    { unfold denied. rewrite (bool_decide_eq_true_2 (k ∈ CLAUDE_CREDENTIAL_ENV_KEYS)) by done.
      by rewrite orb_true_r. }
    assert (agree k cleared ∅) as Hcl by (apply agree_cleared, bool_decide_eq_true_2, Hk).
    unfold base, credentials. destruct (authMode c).
    + case_decide; [by apply agree_set|]. by apply agree_insert, agree_set.
    + by apply agree_set.
    + done.
  - apply agent_part_home with CLAUDE_CREDENTIAL_ENV_KEYS; [apply strips_unset|].
    assert (agree "HOME" cleared p) as Hcl.
    { unfold agree, cleared, clearClaudeCredentialEnv. rewrite lookup_unsetEnvs.
      rewrite !lookup_insert_ne by done. apply safe_home. }
    unfold base. destruct (authMode c); [|by apply agree_set_home|done].
    assert (agree "HOME" (set_truthy (if authHeaderStyle_bearer c then "ANTHROPIC_AUTH_TOKEN"
      else "ANTHROPIC_API_KEY") (resolvedApiKey c) cleared) p) as Hk
      by (apply agree_set_home; [by destruct (authHeaderStyle_bearer c)|done]).
    case_decide; [done|]. unfold agree. by rewrite lookup_insert_ne.
Qed.

Lemma codex_mid p c a :
  let env := spread (spread (buildSafeAgentProcessEnv p [])
               (Some (withoutProtectedCodexEnv (sanitizeAgentRuntimeEnv a))))
               (Some (withoutProtectedCodexEnv (sanitizeAgentRuntimeEnv (mcpEnv c)))) in
  let mid := if local c then unsetEnvs ["OPENAI_API_KEY"; "CODEX_API_KEY"] env
             else set_truthy "CODEX_API_KEY" (resolvedApiKey c)
                    (set_truthy "OPENAI_API_KEY" (resolvedApiKey c) env) in
  (forall k, k ∈ credential_names codex c -> agree k mid (credentials codex c)) /\ agree "HOME" mid p.
Proof.
  intros env mid. split.
  - intros k Hk.
    assert (agree k env ∅) as He.
    { unfold env. apply codex_agent_part; [|apply codex_agent_part; [|apply safe_lacks]];
        each_name Hk; reflexivity. }
    unfold mid, credentials, local. destruct (authMode c); cbn [bool_decide].
    1,2: by do 2 apply agree_set.
    change (agree k (unsetEnvs ["OPENAI_API_KEY"; "CODEX_API_KEY"] env) ∅).
    unfold agree in *. rewrite lookup_unsetEnvs, He. by case_bool_decide.
  - assert (agree "HOME" env p) as He by (do 2 (apply codex_agent_part; [done|]); apply safe_home).
    unfold mid. destruct (local c); [unfold agree; rewrite lookup_unsetEnvs; apply He|].
    by do 2 (apply agree_set_home; [done|]).
Qed.

Lemma opencode_mid p c a :
  let mid := spread (unsetEnvs ["OPENCODE_CONFIG_CONTENT"] (buildSafeAgentProcessEnv p []))
               (stripProtectedOpencodeEnv (sanitizeAgentRuntimeEnv a)) in
  (forall k, k ∈ credential_names opencode c -> agree k mid ∅) /\ agree "HOME" mid p.
Proof.
  intros mid. split.
  - intros k Hk. apply agree_agent_part with PROTECTED_OPENCODE_ENV_NAMES; [apply strips_keep| |].
    + each_name Hk; reflexivity.
    + unfold agree. rewrite lookup_unsetEnvs. case_bool_decide; [by rewrite lookup_empty|].
      apply safe_lacks. each_name Hk; reflexivity.
  - apply agent_part_home with PROTECTED_OPENCODE_ENV_NAMES; [apply strips_keep|].
    unfold agree. rewrite lookup_unsetEnvs. apply safe_home.
Qed.

(** What the two kinds of engine make of it *)
Definition env_spec (e : Engine) (p : Env) (c : EngineCall) (rt : RuntimeContext) (env : Env) : Prop :=
  (forall k, k ∈ credential_names e c -> env !! k = credentials e c !! k) /\
  (forall k, k ∈ PLATFORM_NAMES -> env !! k = runtimeEnv rt !! k) /\
  env !! "HOME" = if uses_host_home e c then p !! "HOME" else Some (rt_agentHomeDir rt).

Lemma matrix_env_spec e p c rt o :
  credential_names e c = protectedNames o -> credentials e c = injected (inject o) ->
  runtime o = Some (runtimeEnv rt) ->
  forallb (fun n => negb (bool_decide (n ∈ omitRuntimeKeys o) || bool_decide (n ∈ protectedNames o)
     || bool_decide (n ∈ agentEnvOnlyNames o) || isProcessInjectionEnvName n)) PLATFORM_NAMES = true ->
  bool_decide ("HOME" ∈ protectedNames o) = false -> bool_decide ("HOME" ∈ (inject o).*1) = false ->
  bool_decide ("HOME" ∈ omitRuntimeKeys o) || bool_decide ("HOME" ∈ agentEnvOnlyNames o)
    = uses_host_home e c ->
  env_spec e p c rt (buildCredentialEnv p o).
Proof.
  intros Hn Hc Hr Hall Hp Hi Hh. unfold env_spec. rewrite Hn, Hc.
  by apply (matrix_spec p o rt (uses_host_home e c) (injected (inject o))).
Qed.

Lemma qoder_spec p c a rt : env_spec qoder p c rt (qoder_env p c a (Some (runtimeEnv rt))).
Proof.
  unfold qoder_env. destruct c as [[] ? ? ? ? ? ? ? ? ? ?]; apply matrix_env_spec; reflexivity.
Qed.

Lemma trae_spec p c a rt : env_spec trae p c rt (trae_env p c a (Some (runtimeEnv rt))).
Proof.
  unfold trae_env. destruct c as [[] ? ? ? ? ? ? ? ? ? ?]; apply matrix_env_spec; reflexivity.
Qed.

Lemma kimi_spec p c a rt : env_spec kimi p c rt (kimi_env p a (Some (runtimeEnv rt))).
Proof. unfold kimi_env. apply matrix_env_spec; reflexivity. Qed.

Lemma pi_spec p c a rt model : authMode c <> oauth ->
  env_spec (pi model) p c rt (buildPiEnv p c a (Some (runtimeEnv rt))).
Proof.
  unfold buildPiEnv. destruct c as [[] ? ? ? ? ? ? ? ? ? ?]; [|done|]; intros _; apply matrix_env_spec; reflexivity.
Qed.

(** The platform's variables without [HOME], or some other names the engine
    leaves to the host *)
Lemma over_env_spec e p c rt mid keys :
  (forall k, k ∈ credential_names e c -> agree k mid (credentials e c)) /\ agree "HOME" mid p ->
  Forall (fun k => runtimeEnv rt !! k = None) (credential_names e c) ->
  bool_decide ("HOME" ∈ keys) = true -> forallb (fun n => negb (bool_decide (n ∈ keys))) PLATFORM_NAMES = true ->
  uses_host_home e c = local c ->
  env_spec e p c rt (spread mid (if local c then omitRuntimeEnvKeys (Some (runtimeEnv rt)) keys
                                 else Some (runtimeEnv rt))).
Proof.
  intros [Hm Hh] Hn Hkeys Hall He. eapply over_spec; [reflexivity| |exact Hm| | |exact Hh]; rewrite ?He.
  - eapply Forall_impl; [exact Hn|]. intros k Hk. destruct (local c); [|exact Hk].
    rewrite omit_env_lookup. destruct (bool_decide (k ∈ keys)); [done|exact Hk].
  - rewrite forallb_forall in Hall. apply Forall_forall. intros k Hk. destruct (local c); [|done].
    rewrite omit_env_lookup. apply list_elem_of_In, Hall, negb_true_iff in Hk. by rewrite Hk.
  - destruct (local c); [|reflexivity]. by rewrite omit_env_lookup, Hkeys.
Qed.

Lemma cursor_spec p c a rt : env_spec cursor p c rt (cursor_env p c a (Some (runtimeEnv rt))).
Proof. apply over_env_spec; [apply cursor_mid|repeat constructor|reflexivity..]. Qed.

Lemma claude_spec p c a rt : env_spec claude p c rt (claude_env p c a (Some (runtimeEnv rt))).
Proof. apply over_env_spec; [apply claude_mid|repeat constructor|reflexivity..]. Qed.

Lemma codex_spec p c a rt : env_spec codex p c rt (codex_buildEnv p c a (Some (runtimeEnv rt))).
Proof. apply over_env_spec; [apply codex_mid|repeat constructor|reflexivity..]. Qed.

Lemma opencode_spec p c a rt : env_spec opencode p c rt (opencode_env p c a (Some (runtimeEnv rt))).
Proof.
  assert (forall k, lookup_opt k (stripProtectedOpencodeEnv (omitRuntimeEnvKeys (Some (runtimeEnv rt))
            ["HOME"; "XDG_CONFIG_HOME"])) =
          if bool_decide (k ∈ PROTECTED_OPENCODE_ENV_NAMES) then None else runtimeEnv rt !! k) as HR.
  { intros k. unfold stripProtectedOpencodeEnv, lookup_opt. simpl. rewrite lookup_keep_names.
    pose proof (omit_env_lookup ["HOME"; "XDG_CONFIG_HOME"] (Some (runtimeEnv rt)) k) as H.
    unfold omitRuntimeEnvKeys, lookup_opt in H. simpl in H. rewrite H.
    destruct (bool_decide (k ∈ PROTECTED_OPENCODE_ENV_NAMES)) eqn:Hk; cbn [negb]; [done|].
    destruct (bool_decide (k ∈ ["HOME"; "XDG_CONFIG_HOME"])) eqn:Hh; [|done].
    apply bool_decide_eq_true in Hh. exfalso. revert Hk. each_name Hh; discriminate. }
  destruct (opencode_mid p c a) as [Hm Hh].
  unfold env_spec, opencode_env, uses_host_home. split; [|split].
  - intros k Hk. apply agree_set. apply Hm in Hk as Hmk. unfold agree in *. rewrite lookup_spread, HR.
    assert (bool_decide (k ∈ PROTECTED_OPENCODE_ENV_NAMES) = true) as -> by (each_name Hk; reflexivity).
    exact Hmk.
  - intros k Hk. rewrite lookup_set_truthy, lookup_spread, HR.
    assert (bool_decide (k ∈ PROTECTED_OPENCODE_ENV_NAMES) = false /\ "OPENCODE_CONFIG_CONTENT" <> k) as [-> Hne]
      by (each_name Hk; done).
    destruct (platform_some rt k Hk) as [v ->]. case_decide; [done|]. by rewrite decide_False.
  - apply agree_set_home; [done|]. unfold agree. rewrite lookup_spread, HR. exact Hh.
Qed.


(** ** What a binding can do *)

(** A binding that names its own endpoint but no key of its own gets the key of
    the deployment from the engines that fall back to it: Claude Code sends it
    to the endpoint of the binding.  Codex refuses to start instead. *)
Definition own_endpoint (url deployment_key : string) : EngineCall :=
  mkEngineCall apiKey false None (Some url) None deployment_key "" "" None None None.

Lemma deployment_key_at_agent_url p a rt :
  exists env, engine_env claude p (own_endpoint "https://proxy.example" "sk-deployment") a (Some (runtimeEnv rt)) = Ret env /\
    env !! "ANTHROPIC_BASE_URL" = Some "https://proxy.example" /\
    env !! "ANTHROPIC_API_KEY" = Some "sk-deployment".
Proof.
  eexists. split; [reflexivity|].
  destruct (claude_spec p (own_endpoint "https://proxy.example" "sk-deployment") a rt) as [Hc _].
  split; (rewrite Hc; [reflexivity|]).
  - do 2 right. by left.
  - by left.
Qed.

Lemma codex_refuses_own_endpoint p a r url key :
  trim url <> "" -> exists err, engine_env codex p (own_endpoint url key) a r = Throw err.
Proof.
  intros Hu. simpl. unfold codex_env, blank. simpl. rewrite bool_decide_eq_false_2 by done. by eexists.
Qed.

(** On Windows, where the names of variables ignore case, a variant of a name
    the filter knows in one case only still reaches the process. *)
Lemma case_variant_passes p c v rt :
  exists env, engine_env claude p c (Some {[ "Node_Options" := v ]}) (Some (runtimeEnv rt)) = Ret env /\
    env !! "Node_Options" = Some v.
Proof.
  eexists. split; [reflexivity|].
  unfold claude_env. rewrite !lookup_spread.
  assert (lookup_opt "Node_Options" (if local c then omitRuntimeEnvKeys (Some (runtimeEnv rt)) ["HOME"]
            else Some (runtimeEnv rt)) = None) as -> by (destruct (local c); reflexivity).
  rewrite (strips_unset CLAUDE_CREDENTIAL_ENV_KEYS _ "Node_Options"). reflexivity.
Qed.

(** ** Witnesses *)

Definition sample_runtime : RuntimeContext :=
  mkRuntime "/data/agent-homes/a1" "a1" "run_1" "/work" "/work/artifacts/run_1" "/data/agent-homes/a1/.cache"
    "/data/agent-homes/a1/.config" "/data/agent-homes/a1/tmp" "/data/agent-homes/a1/.codex".

Definition sample_call : EngineCall :=
  mkEngineCall apiKey false (Some "sk-agent") None None "sk-deployment" "" "/pi" (Some "/pi/tmp") None None.


