(* ===== verification/MemoryTokens.v ===== *)
(** * The memory tokens of running agents

    The token store of [apps/api/src/lib/agent-memory-token.ts]: a [Map] in the
    memory of the API process from opaque tokens to what their bearer, an
    agent's process, may read of its memory.  The clock and the random bytes
    are inputs of each operation; the classification of prompts in the same
    file, which chooses the actions a token allows, is not modelled. *)
From S2P Require Import Prelude Records.

Definition TOKEN_TTL_MS : Z := 6 * 60 * 60 * 1000.
Definition MAX_TOKEN_STORE_SIZE : nat := Z.to_nat 10000.

Inductive RuntimeMemoryAction := topics_list | topics_read | memory_search | explicit_write.
#[export] Instance RuntimeMemoryAction_eq_dec : EqDecision RuntimeMemoryAction.
Proof. solve_decision. Defined.

Definition RUNTIME_MEMORY_READ_ACTIONS : list RuntimeMemoryAction := [topics_list; topics_read; memory_search].

Record TokenEntry := mkToken {
  tk_agentId : string;
  tk_runStepId : string;
  tk_bundleVersion : string;
  tk_allowedActions : list RuntimeMemoryAction;
  tk_maxTopicReads : Z;
  tk_maxTopicTokens : Z;
  tk_issuedAt : Z;
  tk_expiresAt : Z;
  tk_topicReads : Z;
  tk_topicTokens : Z
}.

Abbreviation TokenStore := (js_record TokenEntry).

Record TokenOptions := mkTokenOptions {
  o_runStepId : option string;
  o_bundleVersion : option string;
  o_allowedActions : option (list RuntimeMemoryAction);
  o_maxTopicReads : option Z;
  o_maxTopicTokens : option Z
}.

Definition clearExpiredAgentTokens (now : Z) (store : TokenStore) : TokenStore :=
  filter (fun kv => (now <= tk_expiresAt kv.2)%Z) store.

Definition older (a b : string * TokenEntry) : Z :=
  let d := (tk_expiresAt a.2 - tk_expiresAt b.2)%Z in
  if decide (d = 0%Z) then (tk_issuedAt a.2 - tk_issuedAt b.2)%Z else d.

Definition enforceTokenStoreLimit (store : TokenStore) : TokenStore :=
  if (length store <=? MAX_TOKEN_STORE_SIZE)%nat then store
  else
    let overflow := length store - MAX_TOKEN_STORE_SIZE in
    foldl rec_delete store (take overflow (sort older store)).*1.

(** [token] is [createToken()], [step] the default [runStepId]. *)
Definition registerAgentToken (now : Z) (token step agentId : string) (options : TokenOptions)
    (store : TokenStore) : TokenStore :=
  enforceTokenStoreLimit
    (map_put (clearExpiredAgentTokens now store) token
       (mkToken agentId (default step (o_runStepId options))
          (default "memory-v2" (o_bundleVersion options))
          (default RUNTIME_MEMORY_READ_ACTIONS (o_allowedActions options))
          (default 3%Z (o_maxTopicReads options)) (default 4000%Z (o_maxTopicTokens options))
          now (now + TOKEN_TTL_MS) 0 0)).

Definition validateAgentToken (now : Z) (token : string) (store : TokenStore) : option string * TokenStore :=
  match rec_get store token with
  | None => (None, store)
  | Some entry =>
      if (tk_expiresAt entry <? now)%Z then (None, rec_delete store token)
      else (Some (tk_agentId entry), store)
  end.

(** [agentTokenAllows], through [getRuntimeMemoryTokenClaims] *)
Definition agentTokenAllows (now : Z) (token : string) (action : RuntimeMemoryAction) (store : TokenStore)
    : bool * TokenStore :=
  match validateAgentToken now token store with
  | (None, store1) => (false, store1)
  | (Some _, store1) =>
      (match rec_get store1 token with
       | Some entry => bool_decide (action ∈ tk_allowedActions entry)
       | None => false
       end, store1)
  end.

Inductive refusal := token_invalid | action_forbidden | read_limit | token_limit.

Record ReadAnswer := mkAnswer {
  ra_reason : option refusal;                (* [None] is ok *)
  ra_remainingReads : Z;
  ra_remainingTokens : Z
}.

Definition consumeAgentTopicRead (now : Z) (token : string) (topicTokens : Z) (store : TokenStore)
    : ReadAnswer * TokenStore :=
  match rec_get store token with
  | None => (mkAnswer (Some token_invalid) 0 0, store)
  | Some e =>
      let readsLeft := Z.max 0 (tk_maxTopicReads e - tk_topicReads e) in
      let tokensLeft := Z.max 0 (tk_maxTopicTokens e - tk_topicTokens e) in
      if (tk_expiresAt e <? now)%Z then (mkAnswer (Some token_invalid) 0 0, rec_delete store token)
      else if negb (bool_decide (topics_read ∈ tk_allowedActions e)) then
        (mkAnswer (Some action_forbidden) readsLeft tokensLeft, store)
      else if (tk_maxTopicReads e <? tk_topicReads e + 1)%Z then
        (mkAnswer (Some read_limit) 0 tokensLeft, store)
      else if (tk_maxTopicTokens e <? tk_topicTokens e + topicTokens)%Z then
        (mkAnswer (Some token_limit) readsLeft tokensLeft, store)
      else
        let reads := (tk_topicReads e + 1)%Z in
        let tokens := (tk_topicTokens e + topicTokens)%Z in
        (mkAnswer None (tk_maxTopicReads e - reads) (tk_maxTopicTokens e - tokens),
         map_put store token
           (mkToken (tk_agentId e) (tk_runStepId e) (tk_bundleVersion e) (tk_allowedActions e)
              (tk_maxTopicReads e) (tk_maxTopicTokens e) (tk_issuedAt e) (tk_expiresAt e) reads tokens))
  end.

Definition revokeAgentToken (token : string) (store : TokenStore) : TokenStore := rec_delete store token.

Definition revokeAgentTokensForAgent (agentId : string) (store : TokenStore) : TokenStore :=
  filter (fun kv => tk_agentId kv.2 <> agentId) store.

(** ** Histories *)

Inductive TokenEvent :=
| Register (now : Z) (token step agentId : string) (options : TokenOptions)
| Validate (now : Z) (token : string)
| ReadTopic (now : Z) (token : string) (topicTokens : Z)
| Revoke (token : string)
| RevokeAgent (agentId : string)
| Cleanup (now : Z).

(** What was read: the instant, the token and the size *)
Record Read := mkRead { rd_at : Z; rd_token : string; rd_size : Z }.

Definition token_step (e : TokenEvent) (store : TokenStore) : list Read * TokenStore :=
  match e with
  | Register now token step agentId options => ([], registerAgentToken now token step agentId options store)
  | Validate now token => ([], (validateAgentToken now token store).2)
  | ReadTopic now token topicTokens =>
      let '(answer, store') := consumeAgentTopicRead now token topicTokens store in
      (if decide (ra_reason answer = None) then [mkRead now token topicTokens] else [], store')
  | Revoke token => ([], revokeAgentToken token store)
  | RevokeAgent agentId => ([], revokeAgentTokensForAgent agentId store)
  | Cleanup now => ([], clearExpiredAgentTokens now store)
  end.

(** The reads of a history that were let through *)
Fixpoint reads_of (es : list TokenEvent) (store : TokenStore) : list Read :=
  match es with
  | [] => []
  | e :: es' => let '(r, store') := token_step e store in r ++ reads_of es' store'
  end.

(** The tokens a history hands out, with the entries they start from *)
Definition granted (e : TokenEvent) : list (string * TokenEntry) :=
  match e with
  | Register now token step agentId o =>
      [(token, mkToken agentId (default step (o_runStepId o)) (default "memory-v2" (o_bundleVersion o))
          (default RUNTIME_MEMORY_READ_ACTIONS (o_allowedActions o)) (default 3%Z (o_maxTopicReads o))
          (default 4000%Z (o_maxTopicTokens o)) now (now + TOKEN_TTL_MS) 0 0)]
  | _ => []
  end.

Definition total (rs : list Read) : Z := foldr (fun r n => rd_size r + n)%Z 0%Z rs.
Definition by_token (t : string) (rs : list Read) : list Read := filter (fun r => rd_token r = t) rs.

Definition store_after (es : list TokenEvent) (store : TokenStore) : TokenStore :=
  foldl (fun s e => (token_step e s).2) store es.

(** ** The size of the store *)

Lemma sublist_get {A} (o o' : js_record A) k v :
  rec_wf o -> (forall x, x ∈ o' -> x ∈ o) -> rec_get o' k = Some v -> rec_get o k = Some v.
Proof. intros Hw Hsub Hk. apply rec_in_get; [done|]. by apply Hsub, rec_get_in. Qed.

Lemma deletes_filter {A} ks (o : js_record A) :
  foldl rec_delete o ks = filter (fun kv => kv.1 ∉ ks) o.
Proof.
  revert o. induction ks as [|k ks IH]; intros o; simpl.
  - symmetry. induction o as [|kv o IHo]; [done|]. rewrite filter_cons, decide_True by apply not_elem_of_nil.
    by f_equal.
  - rewrite IH. unfold rec_delete. rewrite list_filter_filter. apply list_filter_iff. intros [k1 v1]. simpl.
    rewrite not_elem_of_cons. tauto.
Qed.

(** Deleting the keys of a part of the entries leaves the other part. *)
Lemma deletes_part {A} (o part rest : js_record A) :
  rec_wf o -> o ≡ₚ part ++ rest -> foldl rec_delete o part.*1 ≡ₚ rest.
Proof.
  intros Hw Hp. rewrite deletes_filter. etrans; [by apply filter_Permutation, Hp|].
  unfold rec_wf in Hw. rewrite Hp, fmap_app in Hw. apply NoDup_app in Hw as (_ & Hdis & _).
  rewrite filter_app. apply Permutation_refl'.
  assert (forall l : js_record A, (forall x, x ∈ l -> x.1 ∈ part.*1) -> filter (fun kv => kv.1 ∉ part.*1) l = [])
    as Hnone.
  { intros l. induction l as [|x l IH]; intros Hl; [done|].
    rewrite filter_cons, decide_False by (intros H; apply H, Hl; by left). apply IH. set_solver. }
  assert (forall l : js_record A, (forall x, x ∈ l -> x.1 ∉ part.*1) -> filter (fun kv => kv.1 ∉ part.*1) l = l)
    as Hall.
  { intros l. induction l as [|x l IH]; intros Hl; [done|].
    rewrite filter_cons, decide_True by (apply Hl; by left). f_equal. apply IH. set_solver. }
  rewrite Hnone, Hall; [done|..].
  - intros x Hx Hin. apply (Hdis _ Hin). by apply list_elem_of_fmap_2.
  - intros x Hx. by apply list_elem_of_fmap_2.
Qed.

Lemma enforced_wf store : rec_wf store -> rec_wf (enforceTokenStoreLimit store).
Proof.
  intros Hw. unfold enforceTokenStoreLimit. destruct (_ <=? _)%nat; [done|].
  rewrite deletes_filter. by apply rec_filter_wf.
Qed.

Lemma enforced_sub store x : x ∈ enforceTokenStoreLimit store -> x ∈ store.
Proof.
  unfold enforceTokenStoreLimit. destruct (_ <=? _)%nat; [done|].
  rewrite deletes_filter. by intros [_ ?]%list_elem_of_filter.
Qed.

Lemma enforced_length store : rec_wf store -> length (enforceTokenStoreLimit store) <= MAX_TOKEN_STORE_SIZE.
Proof.
  intros Hw. unfold enforceTokenStoreLimit. destruct (Nat.leb_spec (length store) MAX_TOKEN_STORE_SIZE); [done|].
  set (n := length store - MAX_TOKEN_STORE_SIZE).
  assert (store ≡ₚ take n (sort older store) ++ drop n (sort older store)) as Hp
    by (rewrite take_drop; symmetry; apply sort_perm).
  rewrite (Permutation_length (deletes_part store _ _ Hw Hp)), length_drop.
  rewrite (Permutation_length (sort_perm older store)). lia.
Qed.

Lemma put_length {A} (o : js_record A) k v :
  length (map_put o k v) <= S (length o) /\ (is_Some (rec_get o k) -> length (map_put o k v) = length o).
Proof.
  unfold map_put. destruct (rec_get o k).
  - rewrite <- (length_fmap fst), rec_replace_keys, length_fmap. split; [lia|done].
  - rewrite length_app. simpl. split; [lia|by intros [? ?]].
Qed.

Definition store_ok (store : TokenStore) : Prop :=
  rec_wf store /\ length store <= MAX_TOKEN_STORE_SIZE.

Lemma filter_ok (P : string * TokenEntry -> Prop) `{!forall x, Decision (P x)} store :
  store_ok store -> store_ok (filter P store).
Proof. intros [Hw Hl]. split; [by apply rec_filter_wf|]. pose proof (length_filter P store). lia. Qed.

Definition spent (e : TokenEntry) (size : Z) : TokenEntry :=
  mkToken (tk_agentId e) (tk_runStepId e) (tk_bundleVersion e) (tk_allowedActions e)
    (tk_maxTopicReads e) (tk_maxTopicTokens e) (tk_issuedAt e) (tk_expiresAt e)
    (tk_topicReads e + 1) (tk_topicTokens e + size).

(** A read is refused, or it is within everything its token allows. *)
Lemma consume_cases now token size store :
  let '(answer, store') := consumeAgentTopicRead now token size store in
  (ra_reason answer <> None /\ (store' = store \/ store' = rec_delete store token)) \/
  ra_reason answer = None /\ exists e, rec_get store token = Some e /\
    (now <= tk_expiresAt e)%Z /\ topics_read ∈ tk_allowedActions e /\
    (tk_topicReads e + 1 <= tk_maxTopicReads e)%Z /\ (tk_topicTokens e + size <= tk_maxTopicTokens e)%Z /\
    store' = map_put store token (spent e size).
Proof.
  unfold consumeAgentTopicRead. destruct (rec_get store token) as [e|]; [|left; auto].
  destruct (Z.ltb_spec (tk_expiresAt e) now); [left; auto|].
  case_bool_decide; simpl; [|left; auto].
  destruct (Z.ltb_spec (tk_maxTopicReads e) (tk_topicReads e + 1)); [left; auto|].
  destruct (Z.ltb_spec (tk_maxTopicTokens e) (tk_topicTokens e + size)); [left; auto|].
  right. split; [done|]. exists e. done.
Qed.

Lemma step_store_ok e store : store_ok store -> store_ok (token_step e store).2.
Proof.
  intros Hs. destruct e; simpl.
  - unfold registerAgentToken.
    assert (rec_wf (map_put (clearExpiredAgentTokens now store) token
      (mkToken agentId (default step (o_runStepId options)) (default "memory-v2" (o_bundleVersion options))
         (default RUNTIME_MEMORY_READ_ACTIONS (o_allowedActions options)) (default 3%Z (o_maxTopicReads options))
         (default 4000%Z (o_maxTopicTokens options)) now (now + TOKEN_TTL_MS) 0 0))) as Hw
      by (apply map_put_wf, rec_filter_wf, Hs).
    split; [by apply enforced_wf|by apply enforced_length].
  - unfold validateAgentToken. destruct (rec_get store token); [|done].
    destruct (_ <? _)%Z; [by apply filter_ok|done].
  - pose proof (consume_cases now token topicTokens store) as Hc.
    destruct (consumeAgentTopicRead now token topicTokens store) as [a store']. simpl.
    destruct Hc as [(_ & [-> | ->])|(_ & e & He & _ & _ & _ & _ & ->)]; [done|by apply filter_ok|].
    destruct Hs as [Hw Hl]. split; [by apply map_put_wf|].
    rewrite (proj2 (put_length store token _)); [done|by rewrite He].
  - by apply filter_ok.
  - by apply filter_ok.
  - by apply filter_ok.
Qed.

(** ** The budgets *)

Record ledger_ok (G : gmap string TokenEntry) (rs : list Read) (store : TokenStore) : Prop := {
  lo_store : store_ok store;
  lo_open : forall t e, rec_get store t = Some e -> exists e0, G !! t = Some e0 /\
    tk_maxTopicReads e = tk_maxTopicReads e0 /\ tk_maxTopicTokens e = tk_maxTopicTokens e0 /\
    tk_allowedActions e = tk_allowedActions e0 /\ tk_expiresAt e = tk_expiresAt e0 /\
    tk_topicReads e = Z.of_nat (length (by_token t rs)) /\ tk_topicTokens e = total (by_token t rs);
  lo_budget : forall t e0, G !! t = Some e0 ->
    (Z.of_nat (length (by_token t rs)) <= Z.max 0 (tk_maxTopicReads e0))%Z /\
    (total (by_token t rs) <= Z.max 0 (tk_maxTopicTokens e0))%Z /\
    Forall (fun r => (rd_at r <= tk_expiresAt e0)%Z /\ topics_read ∈ tk_allowedActions e0) (by_token t rs);
  lo_none : forall t, G !! t = None -> by_token t rs = []
}.

(** A step that only drops entries *)
Lemma ledger_drop G rs store store' :
  ledger_ok G rs store -> store_ok store' -> (forall x, x ∈ store' -> x ∈ store) -> ledger_ok G rs store'.
Proof.
  intros [Hs Ho Hb Hn] Hs' Hsub. split; [done| |done|done]. intros t e He. apply Ho.
  eapply sublist_get; [apply Hs|exact Hsub|exact He].
Qed.

Lemma by_token_app t rs rs' : by_token t (rs ++ rs') = by_token t rs ++ by_token t rs'.
Proof. apply filter_app. Qed.

Lemma total_app rs rs' : total (rs ++ rs') = (total rs + total rs')%Z.
Proof. unfold total. induction rs as [|r rs IH]; simpl in *; [done|]. rewrite IH. lia. Qed.

Lemma ledger_read G rs store now token size e :
  ledger_ok G rs store -> rec_get store token = Some e ->
  (now <= tk_expiresAt e)%Z -> topics_read ∈ tk_allowedActions e ->
  (tk_topicReads e + 1 <= tk_maxTopicReads e)%Z -> (tk_topicTokens e + size <= tk_maxTopicTokens e)%Z ->
  store_ok (map_put store token (spent e size)) ->
  ledger_ok G (rs ++ [mkRead now token size]) (map_put store token (spent e size)).
Proof.
  intros [Hs Ho Hb Hn] He Hexp Hact Hreads Htok Hs'.
  destruct (Ho token e He) as (e0 & He0 & Hm1 & Hm2 & Ha & Hx & Hr & Ht).
  assert (forall t, by_token t (rs ++ [mkRead now token size]) =
    by_token t rs ++ if decide (t = token) then [mkRead now token size] else []) as Hby.
  { intros t. rewrite by_token_app. f_equal. unfold by_token. rewrite filter_cons. simpl.
    by repeat case_decide; subst. }
  split; [done|..].
  - intros t d. rewrite rec_get_put, Hby. case_decide; subst; [|rewrite app_nil_r; apply Ho].
    intros [= <-]. exists e0. simpl. rewrite length_app, total_app. simpl. repeat (split; [done|]). lia.
  - intros t d Hd. rewrite Hby. destruct (Hb t d Hd) as (Hb1 & Hb2 & Hb3). case_decide; subst;
      [|by rewrite app_nil_r]. simplify_eq. rewrite length_app, total_app. simpl. split; [lia|]. split; [lia|].
    apply Forall_app. split; [done|]. apply Forall_singleton. simpl. split; [lia|by rewrite <- Ha].
  - intros t Ht0. rewrite Hby. case_decide; subst; [congruence|]. rewrite app_nil_r. by apply Hn.
Qed.

Lemma ledger_grant G rs store now token step agentId o :
  let e0 := mkToken agentId (default step (o_runStepId o)) (default "memory-v2" (o_bundleVersion o))
    (default RUNTIME_MEMORY_READ_ACTIONS (o_allowedActions o)) (default 3%Z (o_maxTopicReads o))
    (default 4000%Z (o_maxTopicTokens o)) now (now + TOKEN_TTL_MS) 0 0 in
  ledger_ok G rs store -> store_ok (registerAgentToken now token step agentId o store) -> G !! token = None ->
  ledger_ok (list_to_map [(token, e0)] ∪ G) rs (registerAgentToken now token step agentId o store).
Proof.
  intros e0 [Hs Ho Hb Hn] Hs' Hfresh. simpl.
  rewrite <- insert_union_l, (left_id ∅ (∪)).
  split; [done|..].
  - intros t e He. unfold registerAgentToken in He. fold e0 in He.
    assert (rec_wf (map_put (clearExpiredAgentTokens now store) token e0)) as Hw
      by (apply map_put_wf, rec_filter_wf, Hs).
    apply (sublist_get _ _ _ _ Hw (enforced_sub _)) in He. rewrite rec_get_put in He. case_decide; subst.
    + apply (inj Some) in He. subst e. exists e0. by rewrite lookup_insert_eq, (Hn _ Hfresh).
    + rewrite lookup_insert_ne by done. apply Ho. eapply sublist_get; [apply Hs| |exact He].
      by intros x [_ ?]%list_elem_of_filter.
  - intros t d [[<- <-]|[Hne Hd]]%lookup_insert_Some; [|by apply Hb].
    rewrite (Hn _ Hfresh). simpl. split; [lia|]. split; [lia|constructor].
  - intros t [Ht _]%lookup_insert_None. by apply Hn.
Qed.

Lemma ledger_step G rs store e :
  ledger_ok G rs store -> (forall t, t ∈ (granted e).*1 -> G !! t = None) ->
  ledger_ok (list_to_map (granted e) ∪ G) (rs ++ (token_step e store).1) (token_step e store).2.
Proof.
  intros Hl Hfresh. pose proof (step_store_ok e store (lo_store _ _ _ Hl)) as Hs'.
  assert (rs = rs ++ []) as Hnil by by rewrite app_nil_r.
  destruct e; simpl in *; rewrite ?(left_id ∅ (∪)); rewrite <- ?Hnil.
  - apply ledger_grant; [done|apply Hs'|]. apply Hfresh. by left.
  - eapply ledger_drop; [exact Hl|exact Hs'|]. unfold validateAgentToken.
    destruct (rec_get store token); [|done]. destruct (_ <? _)%Z; [|done]. simpl.
    by intros x [_ ?]%list_elem_of_filter.
  - pose proof (consume_cases now token topicTokens store) as Hc.
    destruct (consumeAgentTopicRead now token topicTokens store) as [a store']. simpl in *.
    destruct Hc as [(Ha & Hst)|(-> & e & He & ? & ? & ? & ? & ->)].
    + rewrite decide_False, app_nil_r by done. eapply ledger_drop; [exact Hl|exact Hs'|].
      destruct Hst as [-> | ->]; [done|]. by intros x [_ ?]%list_elem_of_filter.
    + rewrite decide_True by done. by apply ledger_read.
  - eapply ledger_drop; [exact Hl|exact Hs'|]. by intros x [_ ?]%list_elem_of_filter.
  - eapply ledger_drop; [exact Hl|exact Hs'|]. by intros x [_ ?]%list_elem_of_filter.
  - eapply ledger_drop; [exact Hl|exact Hs'|]. by intros x [_ ?]%list_elem_of_filter.
Qed.

Lemma granted_lookup e (G : gmap string TokenEntry) t :
  (list_to_map (granted e) ∪ G) !! t =
  match rec_get (granted e) t with Some e0 => Some e0 | None => G !! t end.
Proof.
  rewrite lookup_union. destruct e; simpl; rewrite ?lookup_empty; try by destruct (G !! t).
  destruct (decide (t = token)) as [<-|Hne];
    [rewrite lookup_insert_eq|rewrite lookup_insert_ne, lookup_empty by done]; by destruct (G !! t).
Qed.

Lemma ledger_reads G rs store es :
  ledger_ok G rs store -> (forall t, t ∈ (concat (granted <$> es)).*1 -> G !! t = None) ->
  NoDup (concat (granted <$> es)).*1 ->
  exists G', ledger_ok G' (rs ++ reads_of es store) (store_after es store) /\
    forall t, G' !! t = match rec_get (concat (granted <$> es)) t with Some e0 => Some e0 | None => G !! t end.
Proof.
  revert G rs store. induction es as [|e es IH]; intros G rs store Hl Hf Hd; simpl in *.
  - exists G. by rewrite app_nil_r.
  - rewrite fmap_app in Hf, Hd. apply NoDup_app in Hd as (_ & Hdis & Hd).
    pose proof (ledger_step G rs store e Hl) as Hstep.
    destruct (IH (list_to_map (granted e) ∪ G) (rs ++ (token_step e store).1) (token_step e store).2)
      as (G' & Hl' & HG'); [|intros t Ht|done|].
    + apply Hstep. intros t Ht. apply Hf. set_solver.
    + rewrite granted_lookup. destruct (rec_get (granted e) t) as [e0|] eqn:He.
      * exfalso. apply (Hdis t); [|done]. apply rec_get_is_Some. by eexists.
      * apply Hf. set_solver.
    + exists G'. destruct (token_step e store) as [r store'] eqn:Hs. simpl in *. split.
      * by rewrite (assoc_L (++)).
      * intros t. rewrite HG', granted_lookup, rec_get_app.
        change (list_fmap TokenEvent TokenStore granted es) with (granted <$> es) in *.
        destruct (rec_get (concat (granted <$> es)) t) eqn:Ht; [|by destruct (rec_get (granted e) t)].
        destruct (rec_get (granted e) t) eqn:Hg; [|done]. exfalso.
        apply (Hdis t); apply rec_get_is_Some; by eexists.
Qed.

(** C33. Whatever is asked of the token store and in whatever order, a memory
    token lets its bearer read only what it was handed out for: at most so many
    topics and so much text as its claims say in all, each read within six
    hours of its issue and only if its actions include reading topics; a token
    that was never handed out reads nothing; and the store never holds more
    than ten thousand tokens. *)
Theorem memory_reads_bounded (es : list TokenEvent) (t : string) :
  NoDup (concat (granted <$> es)).*1 ->
  let reads := by_token t (reads_of es []) in
  match rec_get (concat (granted <$> es)) t with
  | None => reads = []
  | Some e0 =>
      (Z.of_nat (length reads) <= Z.max 0 (tk_maxTopicReads e0))%Z /\
      (total reads <= Z.max 0 (tk_maxTopicTokens e0))%Z /\
      Forall (fun r => (rd_at r <= tk_issuedAt e0 + TOKEN_TTL_MS)%Z) reads /\
      (reads <> [] -> topics_read ∈ tk_allowedActions e0)
  end /\
  length (store_after es []) <= MAX_TOKEN_STORE_SIZE.
Proof.
  intros Hd reads. destruct (ledger_reads ∅ [] [] es) as (G' & [[_ Hs] _ Hb Hn] & HG'); [|done|done|].
  { split; [split; [constructor|apply Nat.le_0_l]|done|done|done]. }
  split; [|exact Hs]. specialize (HG' t). rewrite lookup_empty in HG'.
  destruct (rec_get (concat (granted <$> es)) t) as [e0|] eqn:He; [|by apply Hn].
  destruct (Hb t e0 HG') as (H1 & H2 & H3). split; [done|]. split; [done|].
  assert (tk_expiresAt e0 = tk_issuedAt e0 + TOKEN_TTL_MS)%Z as Hexp.
  { apply rec_get_in, list_elem_of_In, in_concat in He as (l & Hl & Hin).
    apply list_elem_of_In, list_elem_of_fmap in Hl as (ev & -> & _).
    destruct ev; simpl in Hin; try done. by destruct Hin as [[= _ <-]|[]]. }
  rewrite <- Hexp. split; [eapply Forall_impl; [exact H3|]; by intros r [? _]|].
  intros Hne. change (Forall (fun r => (rd_at r <= tk_expiresAt e0)%Z /\ topics_read ∈ tk_allowedActions e0) reads) in H3.
  clearbody reads. destruct reads as [|r rs]; [done|]. by apply Forall_cons in H3 as [[_ ?] _].
Qed.

(** Three topics are read, a fourth is refused; the other token may not read. *)
Definition token_history : list TokenEvent :=
  [Register 0 "tok" "s1" "agt_1" (mkTokenOptions None None None None None);
   Register 5 "mute" "s2" "agt_1" (mkTokenOptions None None (Some [memory_search]) None None);
   ReadTopic 10 "tok" 100; ReadTopic 11 "mute" 1; ReadTopic 20 "tok" 3000; ReadTopic 21 "tok" 901;
   ReadTopic 30 "tok" 1; ReadTopic 40 "tok" 1; Cleanup 50; RevokeAgent "agt_1"; ReadTopic 60 "tok" 1].

Lemma memory_reads_bounded_witness :
  by_token "tok" (reads_of token_history []) = [mkRead 10 "tok" 100; mkRead 20 "tok" 3000; mkRead 30 "tok" 1] /\
  (Z.of_nat (length (by_token "tok" (reads_of token_history []))) <= 3)%Z.
Proof.
  split; [reflexivity|].
  exact (proj1 (proj1 (memory_reads_bounded token_history "tok"
    ltac:(apply (bool_decide_unpack _); vm_compute; exact I)))).
Defined.
