(* ===== verification/LineDecoder.v ===== *)
(** * The output of an agent process, line by line

    [createLineDecoder] and [appendBoundedTail] of
    [apps/api/src/engine/cli-process-runner.ts].  The chunks a pipe delivers
    are cut anywhere; the parsers see lines.  [StringDecoder] of the runtime
    turns the bytes into text and keeps an incomplete character back; its
    outputs are the [text] of the writes and the flush below, and what the code
    relies on is [StringDecoderLaw]. *)
From S2P Require Import Prelude Json.
From Stdlib Require Import Ascii.

Definition newline : ascii := "010".

(** What the decoder calls back with *)
Inductive LineEvent := on_line (line : string) | on_oversized (discardedChars : nat).

Record LineDecoder := mkDecoder {
  remainder : string;
  discardingOversizedLine : bool;
  discardedChars : nat
}.

Definition new_decoder : LineDecoder := mkDecoder "" false 0.

(** [indexOf('\n', start)] with the two slices around it *)
Fixpoint cut (text : string) : string * option string :=
  match text with
  | "" => ("", None)
  | String c s =>
      if Ascii.eqb c newline then ("", Some s)
      else let '(fragment, rest) := cut s in (String c fragment, rest)
  end.

Section Decoder.
(** [None] is [Number.POSITIVE_INFINITY]. *)
Context (maxLineChars : option nat).

Definition exceeds (n : nat) : bool :=
  match maxLineChars with Some m => (m <? n)%nat | None => false end.

Definition reportDiscard (d : LineDecoder) : list LineEvent * LineDecoder :=
  if (discardedChars d =? 0)%nat then ([], d)
  else ([on_oversized (discardedChars d)],
        mkDecoder (remainder d) (discardingOversizedLine d) 0).

(** One iteration of [consume] *)
Definition consume_fragment (fragment : string) (completeLine : bool) (d : LineDecoder)
    : list LineEvent * LineDecoder :=
  let size := (String.length (remainder d) + String.length fragment)%nat in
  if discardingOversizedLine d then
    let n := (discardedChars d + String.length fragment)%nat in
    if completeLine then reportDiscard (mkDecoder (remainder d) false n)
    else ([], mkDecoder (remainder d) true n)
  else if exceeds size then
    let d1 := mkDecoder "" (negb completeLine) (discardedChars d + size) in
    if completeLine then reportDiscard d1 else ([], d1)
  else if completeLine then
    ([on_line (remainder d +:+ fragment)], mkDecoder "" false (discardedChars d))
  else ([], mkDecoder (remainder d +:+ fragment) false (discardedChars d)).

(** [iterations] is more than the characters left. *)
Fixpoint consume_from (iterations : nat) (text : string) (d : LineDecoder)
    : list LineEvent * LineDecoder :=
  match iterations with
  | 0 => ([], d)
  | S iterations' =>
      match cut text with
      | (fragment, None) => consume_fragment fragment false d
      | (fragment, Some rest) =>
          let '(events, d1) := consume_fragment fragment true d in
          let '(later, d2) := consume_from iterations' rest d1 in
          (events ++ later, d2)
      end
  end.

Definition consume (text : string) (d : LineDecoder) : list LineEvent * LineDecoder :=
  consume_from (S (String.length text)) text d.

(** [flush], with the text [decoder.end()] gives up *)
Definition flush (text : string) (d : LineDecoder) : list LineEvent * LineDecoder :=
  let '(events, d1) := consume text d in
  let last := if negb (discardingOversizedLine d1) && negb (bool_decide (trim (remainder d1) = ""))
              then [on_line (remainder d1)] else [] in
  let '(report, d2) := reportDiscard (mkDecoder "" false (discardedChars d1)) in
  (events ++ last ++ report, d2).

(** The writes of a stream, then its flush *)
Fixpoint decode (texts : list string) (tail : string) (d : LineDecoder) : list LineEvent :=
  match texts with
  | [] => (flush tail d).1
  | text :: texts' =>
      let '(events, d1) := consume text d in events ++ decode texts' tail d1
  end.
End Decoder.

(** ** The reference: split the whole output at its newlines *)

(** The complete lines, and what follows the last newline *)
Fixpoint parts (s : string) : list string * string :=
  match s with
  | "" => ([], "")
  | String c s' =>
      let '(lines, last) := parts s' in
      if Ascii.eqb c newline then ("" :: lines, last)
      else match lines with
           | [] => ([], String c last)
           | l :: ls => (String c l :: ls, last)
           end
  end.

Definition line_event (maxLineChars : option nat) (line : string) : LineEvent :=
  if exceeds maxLineChars (String.length line) then on_oversized (String.length line)
  else on_line line.

Definition reference_lines (maxLineChars : option nat) (output : string) : list LineEvent :=
  let '(lines, last) := parts output in
  (line_event maxLineChars <$> lines) ++
  (if exceeds maxLineChars (String.length last) then [on_oversized (String.length last)]
   else if bool_decide (trim last = "") then [] else [on_line last]).

(** The tail of a stream kept for the error report: [Buffer.concat] and
    [subarray] *)
Definition appendBoundedTail {A} (current chunk : list A) (limitBytes : nat) : list A :=
  if (limitBytes =? 0)%nat then []
  else
    let combined := current ++ chunk in
    if (length combined <=? limitBytes)%nat then combined
    else drop (length combined - limitBytes) combined.

(** ** Proofs *)

Lemma length_append s t : String.length (s +:+ t) = (String.length s + String.length t)%nat.
Proof. induction s as [|c s IH]; [done|]. rewrite append_cons. simpl. by rewrite IH. Qed.
Lemma append_empty s : s +:+ "" = s.
Proof. induction s as [|c s IH]; [done|]. by rewrite append_cons, IH. Qed.

Definition no_newline (s : string) : Prop := (parts s).1 = [].

Lemma parts_no_newline s : no_newline s -> parts s = ([], s).
Proof.
  unfold no_newline. induction s as [|c s IH]; simpl; [done|].
  destruct (parts s) as [lines last]. destruct (Ascii.eqb c newline); [done|].
  destruct lines; [|done]. intros _. by injection (IH eq_refl) as ->.
Qed.

(** A partial line goes before the first line of what follows. *)
Definition prepend (p : string) (ps : list string * string) : list string * string :=
  match ps with
  | ([], last) => ([], p +:+ last)
  | (l :: ls, last) => ((p +:+ l) :: ls, last)
  end.

Lemma parts_app p s : no_newline p -> parts (p +:+ s) = prepend p (parts s).
Proof.
  unfold no_newline. induction p as [|c p IH].
  - intros _. change ("" +:+ s) with s. by destruct (parts s) as [[] ?].
  - rewrite append_cons. simpl. destruct (parts p) as [lines last] eqn:Hp.
    destruct (Ascii.eqb c newline); [done|]. destruct lines; [|done]. intros _.
    rewrite (IH eq_refl). by destruct (parts s) as [[] ?].
Qed.

Lemma cut_parts s :
  match cut s with
  | (f, None) => f = s /\ no_newline s
  | (f, Some rest) => no_newline f /\ parts s = (f :: (parts rest).1, (parts rest).2) /\
      String.length rest < String.length s
  end.
Proof.
  induction s as [|c s IH]; simpl; [done|].
  destruct (Ascii.eqb c newline) eqn:Hc.
  - destruct (parts s) as [lines last]. split; [done|]. split; [done|]. simpl. lia.
  - destruct (cut s) as [f [rest|]].
    + destruct IH as (Hf & -> & Hlen). split_and!; [|done|simpl; lia].
      unfold no_newline. simpl. rewrite (parts_no_newline _ Hf). by rewrite Hc.
    + destruct IH as [-> Hs]. split; [done|]. unfold no_newline. simpl.
      by rewrite (parts_no_newline _ Hs), Hc.
Qed.

Section Spec.
Context (maxLineChars : option nat).

(** The decoder is in the middle of the line that began with [p]. *)
Definition holds (d : LineDecoder) (p : string) : Prop :=
  no_newline p /\
  if discardingOversizedLine d
  then remainder d = "" /\ discardedChars d = String.length p /\ exceeds maxLineChars (String.length p) = true
  else remainder d = p /\ discardedChars d = 0 /\ exceeds maxLineChars (String.length p) = false.

Lemma exceeds_pos n : exceeds maxLineChars n = true -> 0 < n.
Proof. unfold exceeds. destruct maxLineChars; [|done]. intros Hn%Nat.ltb_lt. lia. Qed.

Lemma exceeds_mono n k : exceeds maxLineChars n = true -> exceeds maxLineChars (n + k) = true.
Proof.
  unfold exceeds. destruct maxLineChars; [|done]. rewrite !Nat.ltb_lt. lia.
Qed.

Lemma report_size r b n : exceeds maxLineChars n = true ->
  reportDiscard (mkDecoder r b n) = ([on_oversized n], mkDecoder r b 0).
Proof.
  intros Hn%exceeds_pos. unfold reportDiscard. simpl. by destruct n; [lia|].
Qed.

Lemma fragment_complete d p f :
  holds d p -> no_newline f ->
  consume_fragment maxLineChars f true d = ([line_event maxLineChars (p +:+ f)], new_decoder).
Proof.
  intros [Hp Hd] Hf. unfold consume_fragment, line_event. rewrite length_append.
  destruct (discardingOversizedLine d).
  - destruct Hd as (Hr & -> & He). rewrite Hr, report_size by by apply exceeds_mono.
    by rewrite (exceeds_mono _ _ He).
  - destruct Hd as (-> & -> & He). destruct (exceeds maxLineChars (_ + _)) eqn:Hover.
    + by rewrite report_size.
    + done.
Qed.

Lemma fragment_partial d p f :
  holds d p -> no_newline f ->
  exists d', consume_fragment maxLineChars f false d = ([], d') /\ holds d' (p +:+ f).
Proof.
  intros [Hp Hd] Hf.
  assert (no_newline (p +:+ f)) as Hpf.
  { unfold no_newline. rewrite parts_app, (parts_no_newline _ Hf) by done. done. }
  unfold consume_fragment, holds. rewrite length_append.
  destruct (discardingOversizedLine d).
  - destruct Hd as (Hr & -> & He). eexists. split; [done|]. simpl.
    split_and!; [done..|]. by apply exceeds_mono.
  - destruct Hd as (-> & -> & He). destruct (exceeds maxLineChars (_ + _)) eqn:Hover;
      eexists; (split; [done|]); done.
Qed.

Lemma holds_new : holds new_decoder "".
Proof. split; [done|]. split_and!; [done..|]. simpl. unfold exceeds. by destruct maxLineChars. Qed.

(** Consuming a text emits the lines it completes and holds what follows. *)
Lemma consume_from_spec n text d p :
  String.length text < n -> holds d p ->
  exists d', consume_from maxLineChars n text d =
      (line_event maxLineChars <$> (parts (p +:+ text)).1, d') /\
    holds d' (parts (p +:+ text)).2.
Proof.
  revert text d p. induction n as [|n IH]; intros text d p Hn Hd; [lia|]. simpl.
  rewrite (parts_app p text) by apply Hd.
  pose proof (cut_parts text) as Hcut. destruct (cut text) as [f [rest|]].
  - destruct Hcut as (Hf & -> & Hlen). simpl. rewrite (fragment_complete _ _ _ Hd Hf).
    destruct (IH rest new_decoder "") as (d' & -> & Hd'); [lia | apply holds_new|].
    exists d'. split; [done|]. exact Hd'.
  - destruct Hcut as [-> Hf]. rewrite (parts_no_newline _ Hf). simpl. by apply fragment_partial.
Qed.

Lemma consume_spec text d p :
  holds d p ->
  exists d', consume maxLineChars text d = (line_event maxLineChars <$> (parts (p +:+ text)).1, d') /\
    holds d' (parts (p +:+ text)).2.
Proof. intros Hd. apply consume_from_spec; [lia|done]. Qed.

Lemma flush_spec text d p :
  holds d p -> (flush maxLineChars text d).1 = reference_lines maxLineChars (p +:+ text).
Proof.
  intros Hd. unfold flush, reference_lines. destruct (consume_spec text d p Hd) as (d' & -> & Hd').
  destruct (parts (p +:+ text)) as [lines last]. simpl in *. destruct Hd' as [_ Hd'].
  destruct (discardingOversizedLine d'); simpl.
  - destruct Hd' as (_ & -> & He). by rewrite (report_size _ _ _ He), He.
  - destruct Hd' as (-> & -> & ->). unfold reportDiscard. simpl.
    case_bool_decide; by rewrite ?app_nil_r.
Qed.

(** A split point that may be moved *)
Lemma parts_last_app s t :
  parts (s +:+ t) =
  let '(l1, last) := parts s in
  let '(l2, last2) := parts (last +:+ t) in (l1 ++ l2, last2).
Proof.
  induction s as [|c s IH].
  - simpl. change ("" +:+ t) with t. by destruct (parts t).
  - rewrite append_cons. simpl. rewrite IH. destruct (parts s) as [l1 last] eqn:Hs.
    destruct (Ascii.eqb c newline) eqn:Hc.
    + by destruct (parts (last +:+ t)).
    + destruct l1 as [|x l1]; [|by destruct (parts (last +:+ t))].
      rewrite append_cons. simpl. destruct (parts (last +:+ t)) as [l2 last2].
      rewrite Hc. by destruct l2.
Qed.

Lemma decode_spec texts tail d p :
  holds d p -> decode maxLineChars texts tail d =
    reference_lines maxLineChars (p +:+ (foldr String.append "" texts +:+ tail)).
Proof.
  revert d p. induction texts as [|text texts IH]; intros d p Hd; simpl.
  { change ("" +:+ tail) with tail. by apply flush_spec. }
  destruct (consume_spec text d p Hd) as (d' & -> & Hd'). rewrite (IH _ _ Hd').
  unfold reference_lines. rewrite !append_assoc, <- (append_assoc p), (parts_last_app (p +:+ text)).
  destruct (parts (p +:+ text)) as [l1 last]. simpl.
  destruct (parts (last +:+ _)) as [l2 last2]. by rewrite fmap_app, <- app_assoc.
Qed.
End Spec.

(** The runtime's [StringDecoder]: what it gives for a stream of buffers, and
    that the cuts between them do not matter *)
Class StringDecoder (Byte : Type) := {
  StringDecoder_state : Type;
  decoder_new : StringDecoder_state;
  decoder_write : list Byte -> StringDecoder_state -> string * StringDecoder_state;
  decoder_end : StringDecoder_state -> string
}.

Fixpoint decoder_texts `{StringDecoder Byte} (chunks : list (list Byte)) (s : StringDecoder_state)
    : list string * string :=
  match chunks with
  | [] => ([], decoder_end s)
  | chunk :: chunks' =>
      let '(text, s1) := decoder_write chunk s in
      let '(texts, tail) := decoder_texts chunks' s1 in (text :: texts, tail)
  end.

Definition decoder_text `{StringDecoder Byte} (chunks : list (list Byte)) : string :=
  let '(texts, tail) := decoder_texts chunks decoder_new in foldr String.append "" texts +:+ tail.

Class StringDecoderLaw `{StringDecoder Byte} : Prop :=
  decoder_chunks : forall chunks : list (list Byte), decoder_text chunks = decoder_text [concat chunks].

(** The lines of a process's output, as its chunks arrive *)
Definition output_lines `{StringDecoder Byte} (maxLineChars : option nat) (chunks : list (list Byte))
    : list LineEvent :=
  let '(texts, tail) := decoder_texts chunks decoder_new in decode maxLineChars texts tail new_decoder.

(** C30. However an agent's output is cut into chunks, its parsers see the lines
    of the whole: each complete line once and in order, one longer than the cap
    reported with its full length and dropped, and an unfinished last line
    unless it is blank. *)
Theorem lines_of_whole_output `{StringDecoderLaw Byte} maxLineChars (chunks : list (list Byte)) :
  output_lines maxLineChars chunks = reference_lines maxLineChars (decoder_text [concat chunks]).
Proof.
  rewrite <- decoder_chunks. unfold output_lines, decoder_text.
  destruct (decoder_texts chunks decoder_new) as [texts tail].
  by rewrite (decode_spec _ _ _ _ _ (holds_new _)).
Qed.

(** What is kept of the error stream is the end of the whole of it. *)
Lemma bounded_tail_step {A} limit (seen chunk : list A) :
  appendBoundedTail (drop (length seen - limit) seen) chunk limit =
  drop (length (seen ++ chunk) - limit) (seen ++ chunk).
Proof.
  unfold appendBoundedTail. destruct (Nat.eqb_spec limit 0) as [->|Hl].
  - rewrite drop_ge; [done|lia].
  - rewrite <- drop_app_le by lia. rewrite length_drop, length_app.
    destruct (Nat.leb_spec (length seen + length chunk - (length seen - limit)) limit);
      [f_equal; lia|].
    rewrite drop_drop. f_equal. lia.
Qed.

Lemma bounded_tail_exact {A} limit (chunks : list (list A)) :
  foldl (fun current chunk => appendBoundedTail current chunk limit) [] chunks =
  drop (length (concat chunks) - limit) (concat chunks).
Proof.
  assert (forall seen : list A,
    foldl (fun current chunk => appendBoundedTail current chunk limit)
      (drop (length seen - limit) seen) chunks =
    drop (length (seen ++ concat chunks) - limit) (seen ++ concat chunks)) as Hgen.
  { induction chunks as [|c chunks IH]; intros seen; simpl; [by rewrite app_nil_r|].
    rewrite bounded_tail_step, IH. by rewrite <- app_assoc. }
  rewrite <- (drop_nil (A:=A) (length (@nil A) - limit)) at 1. apply (Hgen []).
Qed.

(** ** Witness *)

(** A runtime that decodes single-byte characters *)
Definition latin1 : StringDecoder ascii := {|
  StringDecoder_state := unit;
  decoder_new := tt;
  decoder_write := fun chunk _ => (String.string_of_list_ascii chunk, tt);
  decoder_end := fun _ => ""
|}.

Lemma latin1_law : @StringDecoderLaw ascii latin1.
Proof.
  assert (forall l k, String.string_of_list_ascii (l ++ k) = String.string_of_list_ascii l +:+ String.string_of_list_ascii k)
    as Happ.
  { intros l k. induction l as [|c l IH]; [done|]. simpl. by rewrite IH. }
  assert (forall chunks, @decoder_text ascii latin1 chunks = String.string_of_list_ascii (concat chunks)) as Hall.
  { intros chunks. unfold decoder_text. simpl. induction chunks as [|c chunks IH]; [done|]. simpl.
    destruct (decoder_texts _ _) as [texts tail]. simpl. by rewrite append_assoc, IH, Happ. }
  intros chunks. rewrite !Hall. simpl. by rewrite app_nil_r.
Qed.

(** Two lines and a half in three chunks; the second line is over the cap. *)
Lemma lines_of_whole_output_witness :
  @output_lines ascii latin1 (Some 4)
    [String.list_ascii_of_string "ab"; String.list_ascii_of_string ("c" +:+ String newline "lon");
     String.list_ascii_of_string ("ger" +:+ String newline "end")] =
  [on_line "abc"; on_oversized 6; on_line "end"].
Proof.
  rewrite (@lines_of_whole_output ascii latin1 latin1_law). by vm_compute.
Defined.
