(* ===== verification/ProcessRunner.v ===== *)
(** * The child processes of the agents

    [CliProcessRunner] of [apps/api/src/engine/cli-process-runner.ts] with
    [cli-process-tree.ts]: how the API process starts an agent's CLI, ends it on
    a timeout or a cancellation, first asking, then killing, and resolves the
    call exactly once.

    Every callback the runtime may make is an event; the heap [calls] has an
    entry per call of [run], and [activeProcesses] maps a task to the call that
    owns it.  The lines of the output are LineDecoder.v's; the duration and the
    error stream of a result are left out. *)
From S2P Require Import Prelude Json.

Inductive TerminationReason := by_timeout | by_cancel.
Inductive CliProcessExitReason := exit_completed | exit_timeout | exit_cancelled | exit_spawn_error.
Inductive Signal := SIGTERM | SIGKILL.

#[export] Instance TerminationReason_eq_dec : EqDecision TerminationReason.
Proof. solve_decision. Defined.
#[export] Instance CliProcessExitReason_eq_dec : EqDecision CliProcessExitReason.
Proof. solve_decision. Defined.
#[export] Instance Signal_eq_dec : EqDecision Signal.
Proof. solve_decision. Defined.

Definition exit_of (r : TerminationReason) : CliProcessExitReason :=
  match r with by_timeout => exit_timeout | by_cancel => exit_cancelled end.

Record CliProcessRunResult := mkResult {
  res_reason : CliProcessExitReason;
  res_exitCode : option Z;
  res_signal : option string;
  res_error : option JsError
}.

(** The [ActiveProcess] of a call with the locals of its promise.  An entry
    whose timer or listener flag is set can still get that callback. *)
Record Call := mkCall {
  c_taskId : string;
  c_started : bool;                          (* a child was spawned *)
  c_terminationReason : option TerminationReason;
  c_timeoutTimer : bool;
  c_forceKillTimer : bool;
  c_forceKillSent : bool;
  c_abortListener : bool;
  c_pendingCloseResult : option CliProcessRunResult;
  c_terminationAttempt : option nat;         (* the promise, by its number *)
  c_unsettled : list nat;                    (* the promises not settled yet *)
  c_decodeError : option JsError;
  c_closed : bool;                           (* 'close' was emitted *)
  c_errored : bool;                          (* 'error' was emitted *)
  c_resolved : option CliProcessRunResult;   (* the promise of [run] *)
  c_completed : bool;                        (* [completion] *)
  c_cleanups : nat;                          (* calls of [options.cleanup] *)
  c_sent : list Signal                       (* to the process tree *)
}.

Record Runner := mkRunner {
  calls : list Call;
  activeProcesses : gmap string nat;
  promises : nat
}.

Definition new_runner : Runner := mkRunner [] ∅ 0.

(** ** Field updates *)

Definition with_reason (r : TerminationReason) (c : Call) : Call :=
  mkCall (c_taskId c) (c_started c)
    (match c_terminationReason c with None => Some r | x => x end)
    (c_timeoutTimer c) (c_forceKillTimer c) (c_forceKillSent c) (c_abortListener c)
    (c_pendingCloseResult c) (c_terminationAttempt c) (c_unsettled c) (c_decodeError c)
    (c_closed c) (c_errored c) (c_resolved c) (c_completed c) (c_cleanups c) (c_sent c).
Definition with_timers (timeoutTimer forceKillTimer forceKillSent : bool) (c : Call) : Call :=
  mkCall (c_taskId c) (c_started c) (c_terminationReason c) timeoutTimer forceKillTimer forceKillSent
    (c_abortListener c) (c_pendingCloseResult c) (c_terminationAttempt c) (c_unsettled c)
    (c_decodeError c) (c_closed c) (c_errored c) (c_resolved c) (c_completed c) (c_cleanups c)
    (c_sent c).
Definition with_listener (b : bool) (c : Call) : Call :=
  mkCall (c_taskId c) (c_started c) (c_terminationReason c) (c_timeoutTimer c) (c_forceKillTimer c)
    (c_forceKillSent c) b (c_pendingCloseResult c) (c_terminationAttempt c) (c_unsettled c)
    (c_decodeError c) (c_closed c) (c_errored c) (c_resolved c) (c_completed c) (c_cleanups c)
    (c_sent c).
Definition with_pending (r : CliProcessRunResult) (c : Call) : Call :=
  mkCall (c_taskId c) (c_started c) (c_terminationReason c) (c_timeoutTimer c) (c_forceKillTimer c)
    (c_forceKillSent c) (c_abortListener c) (Some r) (c_terminationAttempt c) (c_unsettled c)
    (c_decodeError c) (c_closed c) (c_errored c) (c_resolved c) (c_completed c) (c_cleanups c)
    (c_sent c).
Definition with_attempt (attempt : option nat) (unsettled : list nat) (c : Call) : Call :=
  mkCall (c_taskId c) (c_started c) (c_terminationReason c) (c_timeoutTimer c) (c_forceKillTimer c)
    (c_forceKillSent c) (c_abortListener c) (c_pendingCloseResult c) attempt unsettled
    (c_decodeError c) (c_closed c) (c_errored c) (c_resolved c) (c_completed c) (c_cleanups c)
    (c_sent c).
Definition with_decodeError (e : JsError) (c : Call) : Call :=
  mkCall (c_taskId c) (c_started c) (c_terminationReason c) (c_timeoutTimer c) (c_forceKillTimer c)
    (c_forceKillSent c) (c_abortListener c) (c_pendingCloseResult c) (c_terminationAttempt c)
    (c_unsettled c) (Some e) (c_closed c) (c_errored c) (c_resolved c) (c_completed c)
    (c_cleanups c) (c_sent c).
Definition with_emitted (closed errored : bool) (c : Call) : Call :=
  mkCall (c_taskId c) (c_started c) (c_terminationReason c) (c_timeoutTimer c) (c_forceKillTimer c)
    (c_forceKillSent c) (c_abortListener c) (c_pendingCloseResult c) (c_terminationAttempt c)
    (c_unsettled c) (c_decodeError c) closed errored (c_resolved c) (c_completed c)
    (c_cleanups c) (c_sent c).
Definition with_sent (s : Signal) (c : Call) : Call :=
  mkCall (c_taskId c) (c_started c) (c_terminationReason c) (c_timeoutTimer c) (c_forceKillTimer c)
    (c_forceKillSent c) (c_abortListener c) (c_pendingCloseResult c) (c_terminationAttempt c)
    (c_unsettled c) (c_decodeError c) (c_closed c) (c_errored c) (c_resolved c) (c_completed c)
    (c_cleanups c) (c_sent c ++ [s]).

(** What [finalize] leaves of a call that was not final *)
Definition finalized (r : CliProcessRunResult) (c : Call) : Call :=
  mkCall (c_taskId c) (c_started c) (c_terminationReason c) false false (c_forceKillSent c) false
    (c_pendingCloseResult c) (c_terminationAttempt c) (c_unsettled c) (c_decodeError c) (c_closed c)
    (c_errored c) (Some r) true (S (c_cleanups c)) (c_sent c).

Definition on_call (i : nat) (f : Call -> Call) (s : Runner) : Runner :=
  mkRunner (alter f i (calls s)) (activeProcesses s) (promises s).

(** ** The runner *)

Section Runner.
Context (win32 : bool).

(** [finalize]: timers, listener, entry, clean-up, completion, result *)
Definition finalize (i : nat) (r : CliProcessRunResult) (s : Runner) : Runner :=
  match calls s !! i with
  | None => s
  | Some c =>
      match c_resolved c with
      | Some _ => s
      | None =>
          mkRunner (alter (finalized r) i (calls s))
            (if decide (activeProcesses s !! c_taskId c = Some i)
             then delete (c_taskId c) (activeProcesses s) else activeProcesses s)
            (promises s)
      end
  end.

(** [startTerminationAttempt]: only on Windows does signalling the tree take a
    promise ([signalCliProcessTree]); its [finally] is an event. *)
Definition startTerminationAttempt (i : nat) (signal : Signal) (s : Runner) : Runner :=
  let s1 := on_call i (with_sent signal) s in
  if win32 then
    let p := promises s1 in
    mkRunner (alter (fun c => with_attempt (Some p) (p :: c_unsettled c) c) i (calls s1))
      (activeProcesses s1) (S p)
  else s1.

Definition terminate (taskId : string) (reason : TerminationReason) (s : Runner) : bool * Runner :=
  match activeProcesses s !! taskId with
  | None => (false, s)
  | Some i =>
      match calls s !! i with
      | None => (false, s)
      | Some c =>
          let s1 := on_call i (with_reason reason) s in
          if c_forceKillTimer c || c_forceKillSent c then (true, s1)
          else
            let s2 := startTerminationAttempt i SIGTERM s1 in
            (true, on_call i (fun c => with_timers (c_timeoutTimer c) true (c_forceKillSent c) c) s2)
      end
  end.

(** [run] up to the listeners.  The inputs are what the call meets: the abort
    signal of its execution, if any, already fired or not; whether the spawn
    threw; and whether the signal fired during it. *)
Definition run (taskId : string) (abortSignal : option bool) (spawn : outcome unit)
    (abortedMeanwhile : bool) (s : Runner) : Runner :=
  let settled reason error :=
    mkRunner (calls s ++ [mkCall taskId false None false false false false None None [] None false
                            false (Some (mkResult reason None None error)) true 1 []])
      (activeProcesses s) (promises s) in
  if decide (is_Some (activeProcesses s !! taskId)) then
    settled exit_spawn_error (Some (mkError "Error" ("Task " +:+ quoted taskId +:+ " is already running")))
  else if decide (abortSignal = Some true) then settled exit_cancelled None
  else
    match spawn with
    | Throw error => settled exit_spawn_error (Some error)
    | Ret _ =>
        let i := length (calls s) in
        let s1 := mkRunner (calls s ++ [mkCall taskId true None true false false
                              (bool_decide (is_Some abortSignal)) None None [] None false false None
                              false 0 []])
                    (<[taskId := i]> (activeProcesses s)) (promises s) in
        if bool_decide (is_Some abortSignal) && abortedMeanwhile
        then (terminate taskId by_cancel s1).2 else s1
    end.

Definition cancel (taskId : string) (s : Runner) : bool * Runner := terminate taskId by_cancel s.

(** [cancelAndWait] of every active task, in any order: the calls are
    independent; the waits are for [c_completed]. *)
Definition shutdown (s : Runner) : Runner :=
  foldr (fun taskId s1 => (cancel taskId s1).2) s (map_to_list (activeProcesses s)).*1.

(** A listener or timer of call [i] *)
Definition on_timeout (i : nat) (c : Call) (s : Runner) : Runner :=
  (terminate (c_taskId c) by_timeout
     (on_call i (fun c => with_timers false (c_forceKillTimer c) (c_forceKillSent c) c) s)).2.

Definition on_abort (i : nat) (c : Call) (s : Runner) : Runner :=
  (terminate (c_taskId c) by_cancel (on_call i (with_listener false) s)).2.

Definition failOnDecodeError (i : nat) (c : Call) (error : JsError) (s : Runner) : Runner :=
  match c_decodeError c with
  | Some _ => s
  | None => (terminate (c_taskId c) by_cancel (on_call i (with_decodeError error) s)).2
  end.

Definition close_result (c : Call) (exitCode : option Z) (signal : option string)
    : CliProcessRunResult :=
  match c_decodeError c with
  | Some e => mkResult exit_spawn_error None None (Some e)
  | None => mkResult (match c_terminationReason c with Some r => exit_of r | None => exit_completed end)
              exitCode signal None
  end.

(** [groupAlive]: whether the process group answers signal 0; Windows has none. *)
Definition on_close (i : nat) (c : Call) (exitCode : option Z) (signal : option string)
    (groupAlive : bool) (s : Runner) : Runner :=
  let s1 := on_call i (with_emitted true (c_errored c)) s in
  let closeResult := close_result c exitCode signal in
  if bool_decide (is_Some (c_terminationReason c)) &&
     (bool_decide (is_Some (c_terminationAttempt c)) ||
      negb (c_forceKillSent c) && (negb win32 && groupAlive))
  then on_call i (with_pending closeResult) s1
  else finalize i closeResult s1.

Definition error_result (c : Call) (error : JsError) : CliProcessRunResult :=
  mkResult (match c_decodeError c, c_terminationReason c with
            | Some _, _ => exit_spawn_error
            | None, Some r => exit_of r
            | None, None => exit_spawn_error
            end) None None (Some (default error (c_decodeError c))).

Definition on_error (i : nat) (c : Call) (error : JsError) (s : Runner) : Runner :=
  let s1 := on_call i (with_emitted (c_closed c) true) s in
  if bool_decide (is_Some (c_terminationReason c)) && bool_decide (is_Some (c_terminationAttempt c))
  then on_call i (with_pending (error_result c error)) s1
  else finalize i (error_result c error) s1.

Definition on_force_kill (i : nat) (s : Runner) : Runner :=
  let s1 := startTerminationAttempt i SIGKILL
              (on_call i (fun c => with_timers (c_timeoutTimer c) false true c) s) in
  match calls s1 !! i with
  | Some c =>
      match c_pendingCloseResult c, c_terminationAttempt c with
      | Some r, None => finalize i r s1
      | _, _ => s1
      end
  | None => s1
  end.

Definition on_attempt_settled (i attempt : nat) (c : Call) (s : Runner) : Runner :=
  let unsettled := filter (fun a => a <> attempt) (c_unsettled c) in
  if decide (c_terminationAttempt c = Some attempt) then
    let s1 := on_call i (with_attempt None unsettled) s in
    match c_pendingCloseResult c with
    | Some r => finalize i r s1
    | None => s1
    end
  else on_call i (with_attempt (c_terminationAttempt c) unsettled) s.

(** ** The event loop *)

Inductive event :=
| ev_run (taskId : string) (abortSignal : option bool) (spawn : outcome unit) (abortedMeanwhile : bool)
| ev_cancel (taskId : string)
| ev_shutdown
| ev_timeout (i : nat)
| ev_abort (i : nat)
| ev_decode_error (i : nat) (error : JsError)
| ev_close (i : nat) (exitCode : option Z) (signal : option string) (groupAlive : bool)
| ev_error (i : nat) (error : JsError)
| ev_force_kill (i : nat)
| ev_attempt_settled (i attempt : nat).

(** The callback of call [i], if the runtime may make it now *)
Definition when (i : nat) (enabled : Call -> bool) (handler : Call -> Runner -> Runner) (s : Runner)
    : option Runner :=
  match calls s !! i with
  | Some c => if c_started c && enabled c then Some (handler c s) else None
  | None => None
  end.

Definition handle (e : event) (s : Runner) : option Runner :=
  match e with
  | ev_run taskId abortSignal spawn meanwhile => Some (run taskId abortSignal spawn meanwhile s)
  | ev_cancel taskId => Some (cancel taskId s).2
  | ev_shutdown => Some (shutdown s)
  | ev_timeout i => when i c_timeoutTimer (on_timeout i) s
  | ev_abort i => when i c_abortListener (on_abort i) s
  | ev_decode_error i error => when i (fun c => negb (c_closed c)) (fun c => failOnDecodeError i c error) s
  | ev_close i exitCode signal alive =>
      when i (fun c => negb (c_closed c)) (fun c => on_close i c exitCode signal alive) s
  | ev_error i error => when i (fun c => negb (c_errored c)) (fun c => on_error i c error) s
  | ev_force_kill i => when i c_forceKillTimer (fun _ => on_force_kill i) s
  | ev_attempt_settled i a =>
      when i (fun c => bool_decide (a ∈ c_unsettled c)) (on_attempt_settled i a) s
  end.

(** A schedule: every event was possible when it happened. *)
Fixpoint schedule (es : list event) (s : Runner) : option Runner :=
  match es with
  | [] => Some s
  | e :: es' => handle e s ≫= schedule es'
  end.
End Runner.

(** ** What every call satisfies *)

(** A result agrees with what was decided about the process. *)
Definition verdict (c : Call) (r : CliProcessRunResult) : Prop :=
  match res_reason r with
  | exit_completed => c_terminationReason c = None /\ res_error r = None
  | exit_timeout => c_terminationReason c = Some by_timeout
  | exit_cancelled => c_terminationReason c = Some by_cancel \/ c_started c = false
  | exit_spawn_error => is_Some (res_error r)
  end.

Record call_ok (c : Call) : Prop := {
  ok_running : c_resolved c = None ->
    c_started c = true /\ c_completed c = false /\ c_cleanups c = 0;
  ok_resolved : forall r, c_resolved c = Some r ->
    c_completed c = true /\ c_cleanups c = 1 /\ c_timeoutTimer c = false /\
    c_forceKillTimer c = false /\ c_abortListener c = false /\ verdict c r;
  ok_idle : c_terminationReason c = None ->
    c_forceKillTimer c = false /\ c_forceKillSent c = false /\
    c_terminationAttempt c = None /\ c_pendingCloseResult c = None;
  ok_terminating : c_resolved c = None -> is_Some (c_terminationReason c) ->
    SIGTERM ∈ c_sent c /\
    (c_forceKillTimer c = true \/ c_forceKillSent c = true /\ SIGKILL ∈ c_sent c);
  ok_pending : forall r, c_resolved c = None -> c_pendingCloseResult c = Some r ->
    verdict c r /\ (is_Some (c_terminationAttempt c) \/ c_forceKillTimer c = true);
  ok_attempt : forall a, c_terminationAttempt c = Some a -> a ∈ c_unsettled c;
  ok_gone : c_resolved c = None -> c_closed c = true -> is_Some (c_pendingCloseResult c);
  ok_few : c_resolved c = None -> length (c_unsettled c) <=
    (if c_forceKillTimer c then 1 else if c_forceKillSent c then 2 else 0);
  ok_over : c_started c = true -> is_Some (c_resolved c) \/ is_Some (c_pendingCloseResult c) ->
    c_closed c = true \/ c_errored c = true
}.

(** A decoding failure has ended the process. *)
Definition decode_ok (c : Call) : Prop :=
  c_resolved c = None -> is_Some (c_decodeError c) -> is_Some (c_terminationReason c).

Record runner_ok (s : Runner) : Prop := {
  ro_calls : forall i c, calls s !! i = Some c -> call_ok c /\ decode_ok c;
  ro_active : forall t i, activeProcesses s !! t = Some i <->
    exists c, calls s !! i = Some c /\ c_taskId c = t /\ c_resolved c = None
}.

(** ** One call replaced *)

Definition put (i : nat) (c : Call) (s : Runner) : Runner :=
  mkRunner (<[i := c]> (calls s)) (activeProcesses s) (promises s).

Definition with_promises (n : nat) (s : Runner) : Runner :=
  mkRunner (calls s) (activeProcesses s) n.

Lemma on_call_put i f c s : calls s !! i = Some c -> on_call i f s = put i (f c) s.
Proof.
  intros Hc. unfold on_call, put. f_equal. apply list_eq. intros j.
  destruct (decide (i = j)) as [<-|Hne].
  - rewrite list_lookup_alter_eq, Hc, list_lookup_insert_eq; [done|]. by eapply lookup_lt_Some.
  - by rewrite list_lookup_alter_ne, list_lookup_insert_ne.
Qed.

Lemma put_lookup i c c0 s : calls s !! i = Some c0 -> calls (put i c s) !! i = Some c.
Proof. intros Hc. apply list_lookup_insert_eq. by eapply lookup_lt_Some. Qed.

Lemma put_lookup_ne i j c s : i <> j -> calls (put i c s) !! j = calls s !! j.
Proof. intros Hne. by apply list_lookup_insert_ne. Qed.

Lemma put_put i c c' s : put i c' (put i c s) = put i c' s.
Proof. unfold put. simpl. f_equal. apply list_insert_insert_eq. Qed.

(** The call ends up well formed, with its task and result as before. *)
Lemma runner_ok_put i c c' s n :
  runner_ok s -> calls s !! i = Some c -> call_ok c' -> decode_ok c' ->
  c_taskId c' = c_taskId c -> c_resolved c' = c_resolved c ->
  runner_ok (with_promises n (put i c' s)).
Proof.
  intros [Hcalls Hactive] Hc Hok Hdec Ht Hr. split.
  - intros j d. simpl. intros [(-> & <- & _)|[Hne Hj]]%list_lookup_insert_Some; [done|by apply (Hcalls j)].
  - intros t j. rewrite Hactive. simpl. destruct (decide (i = j)) as [<-|Hne].
    + rewrite list_lookup_insert_eq by by eapply lookup_lt_Some.
      rewrite Hc. split; intros (d & [= <-] & ? & ?); eexists; (split; [done|]); split; congruence.
    + by rewrite list_lookup_insert_ne.
Qed.

(** A call is settled: whatever [c'] it has become just before *)
Lemma runner_ok_finalize i c c' r s n :
  runner_ok s -> calls s !! i = Some c -> c_resolved c = None ->
  c_taskId c' = c_taskId c -> c_resolved c' = None ->
  call_ok (finalized r c') ->
  runner_ok (finalize i r (with_promises n (put i c' s))).
Proof.
  intros [Hcalls Hactive] Hc Hres Ht Hr Hok. unfold finalize, with_promises.
  cbn [calls put activeProcesses promises].
  pose proof (lookup_lt_Some _ _ _ Hc) as Hlt.
  rewrite list_lookup_insert_eq, Hr by done.
  assert (activeProcesses s !! c_taskId c' = Some i) as Ha by (apply Hactive; exists c; by rewrite Ht).
  rewrite decide_True by done.
  assert (alter (finalized r) i (<[i:=c']> (calls s)) = <[i := finalized r c']> (calls s)) as ->.
  { apply list_eq. intros j. destruct (decide (i = j)) as [<-|Hne].
    - by rewrite list_lookup_alter_eq, !list_lookup_insert_eq.
    - by rewrite list_lookup_alter_ne, !list_lookup_insert_ne. }
  split; simpl.
  - intros j d [(-> & <- & _)|[Hne Hj]]%list_lookup_insert_Some; [|by apply (Hcalls j)].
    split; [done|]. by intros ?.
  - intros t j. rewrite lookup_delete_Some, Hactive. destruct (decide (i = j)) as [<-|Hne].
    + rewrite list_lookup_insert_eq by done. split.
      * intros [Hneq (d & Hd & Htd & _)]. exfalso. apply Hneq. congruence.
      * by intros (d & [= <-] & _ & ?).
    + rewrite list_lookup_insert_ne by done. split; [by intros [_ ?]|].
      intros (d & Hd & Htd & Hrd). split; [|by exists d]. intros Heq.
      assert (activeProcesses s !! c_taskId c' = Some j) as Hj by by (rewrite Heq; apply Hactive; by exists d).
      congruence.
Qed.

(** ** Signals *)

Definition attempted (win32 : bool) (signal : Signal) (p : nat) (c : Call) : Call :=
  if win32 then with_attempt (Some p) (p :: c_unsettled c) (with_sent signal c) else with_sent signal c.

(** What [terminate] makes of the call *)
Definition terminated (win32 : bool) (reason : TerminationReason) (p : nat) (c : Call) : Call :=
  let c1 := with_reason reason c in
  if c_forceKillTimer c || c_forceKillSent c then c1
  else with_timers (c_timeoutTimer c) true (c_forceKillSent c) (attempted win32 SIGTERM p c1).

Lemma startTerminationAttempt_put win32 i signal c s :
  calls s !! i = Some c ->
  exists n, startTerminationAttempt win32 i signal s =
    with_promises n (put i (attempted win32 signal (promises s) c) s).
Proof.
  intros Hc. unfold startTerminationAttempt, attempted. rewrite (on_call_put _ _ _ _ Hc).
  destruct win32; [|by exists (promises s)].
  exists (S (promises s)). pose proof (put_lookup i (with_sent signal c) _ _ Hc) as Hc1.
  pose proof (on_call_put i (fun c => with_attempt (Some (promises s)) (promises s :: c_unsettled c) c)
    _ _ Hc1) as He. rewrite put_put in He.
  unfold on_call, put, with_promises in *. simpl in *. injection He as ->. done.
Qed.

Lemma terminate_put win32 t reason i c s :
  activeProcesses s !! t = Some i -> calls s !! i = Some c ->
  exists n, terminate win32 t reason s =
    (true, with_promises n (put i (terminated win32 reason (promises s) c) s)).
Proof.
  intros Ha Hc. unfold terminate, terminated. rewrite Ha, Hc, (on_call_put _ _ _ _ Hc).
  destruct (c_forceKillTimer c || c_forceKillSent c); [by exists (promises s)|].
  pose proof (put_lookup i (with_reason reason c) _ _ Hc) as Hc1.
  destruct (startTerminationAttempt_put win32 i SIGTERM _ _ Hc1) as [n Hn]. rewrite Hn.
  exists n. f_equal. erewrite on_call_put by exact (put_lookup _ _ _ _ Hc1).
  rewrite put_put. unfold with_promises, put. simpl. rewrite list_insert_insert_eq.
  by destruct win32.
Qed.

(** A call changes without being settled. *)
Definition moves (c c' : Call) : Prop :=
  call_ok c' /\ decode_ok c' /\ c_taskId c' = c_taskId c /\ c_resolved c' = c_resolved c.

Lemma terminated_moves win32 reason p c :
  call_ok c -> c_resolved c = None -> moves c (terminated win32 reason p c).
Proof.
  destruct c as [t st tr tt ft fs al pc ta un de cl er rs cp cu se]. intros Hok Hres.
  destruct Hok as [Hrun Hresd Hidle Hterm Hpend Hatt Hgone Hfew Hover]. unfold moves, terminated, attempted. simpl in *. subst rs.
  destruct tr as [tr|]; simpl.
  - destruct (Hterm eq_refl) as [Hsent Hkill]; [done|].
    assert (ft || fs = true) as -> by (destruct Hkill as [-> | [-> _]]; [done|apply orb_true_r]).
    split; [by split|]. split; [intros _ _; by eexists|done].
  - destruct (Hidle eq_refl) as (-> & -> & -> & ->). simpl.
    split; [|split; [intros _ _; by destruct win32; eexists|by destruct win32]]. destruct win32; split; simpl; intros; simplify_eq;
      solve [done|by apply Hgone|specialize (Hfew eq_refl); simpl in *; lia|split; [set_solver|by left]|set_solver|by apply Hrun|naive_solver].
Qed.

Lemma runner_ok_moves i c c' s n :
  runner_ok s -> calls s !! i = Some c -> moves c c' -> runner_ok (with_promises n (put i c' s)).
Proof. intros Hs Hc (? & ? & ? & ?). by eapply runner_ok_put. Qed.

Lemma active_call s t i :
  runner_ok s -> activeProcesses s !! t = Some i ->
  exists c, calls s !! i = Some c /\ c_taskId c = t /\ c_resolved c = None.
Proof. intros Hs. apply (ro_active _ Hs). Qed.

Lemma runner_ok_terminate win32 t reason s :
  runner_ok s -> runner_ok (terminate win32 t reason s).2.
Proof.
  intros Hs. destruct (activeProcesses s !! t) as [i|] eqn:Ha.
  - destruct (active_call _ _ _ Hs Ha) as (c & Hc & Ht & Hr).
    destruct (terminate_put win32 t reason i c s Ha Hc) as [n ->]. simpl.
    eapply runner_ok_moves; [done..|]. apply terminated_moves; [|done]. by apply (ro_calls _ Hs i).
  - unfold terminate. by rewrite Ha.
Qed.

(** A callback marks its call and ends the process. *)
Lemma runner_ok_marked win32 reason i c c1 s :
  runner_ok s -> calls s !! i = Some c -> call_ok c1 ->
  c_taskId c1 = c_taskId c -> c_resolved c1 = c_resolved c ->
  (c_resolved c <> None -> decode_ok c1) ->
  runner_ok (terminate win32 (c_taskId c) reason (put i c1 s)).2.
Proof.
  intros Hs Hc Hok Ht Hr Hdec. destruct (c_resolved c) as [r|] eqn:Hres.
  - apply runner_ok_terminate. pose proof (runner_ok_put i c c1 s (promises s) Hs Hc Hok) as H.
    destruct s. apply H; [by apply Hdec|done|congruence].
  - assert (activeProcesses (put i c1 s) !! c_taskId c = Some i) as Ha
      by (apply (ro_active _ Hs); by exists c).
    destruct (terminate_put win32 _ reason i c1 _ Ha (put_lookup _ _ _ _ Hc)) as [n ->].
    cbn [snd]. rewrite put_put. destruct (terminated_moves win32 reason (promises (put i c1 s)) c1 Hok Hr)
      as (? & ? & ? & ?). eapply (runner_ok_put i c); [done..|congruence|congruence].
Qed.

(** ** Every event keeps it *)

(** The locals of a call, and what [call_ok] says of them *)
Ltac open_call c Hok :=
  destruct c as [t st tr tt ft fs al pc ta un de cl0 er0 rs cp cu se];
  destruct Hok as [Hrun Hresd Hidle Hterm Hpend Hatt Hgone Hfew Hover]; simpl in *.

Lemma on_timeout_ok win32 i c s :
  runner_ok s -> calls s !! i = Some c -> runner_ok (on_timeout win32 i c s).
Proof.
  intros Hs Hc. unfold on_timeout. rewrite (on_call_put _ _ _ _ Hc).
  destruct (ro_calls _ Hs i c Hc) as [Hok Hdec]. apply runner_ok_marked; [done|done| |done|done|by intros _].
  open_call c Hok. split; simpl; try done. intros r Hr. by destruct (Hresd r Hr) as (? & ? & _ & ? & ? & ?).
Qed.

Lemma on_abort_ok win32 i c s :
  runner_ok s -> calls s !! i = Some c -> runner_ok (on_abort win32 i c s).
Proof.
  intros Hs Hc. unfold on_abort. rewrite (on_call_put _ _ _ _ Hc).
  destruct (ro_calls _ Hs i c Hc) as [Hok Hdec]. apply runner_ok_marked; [done|done| |done|done|by intros _].
  open_call c Hok. split; simpl; try done. intros r Hr. by destruct (Hresd r Hr) as (? & ? & ? & ? & _ & ?).
Qed.

Lemma failOnDecodeError_ok win32 i c e s :
  runner_ok s -> calls s !! i = Some c -> runner_ok (failOnDecodeError win32 i c e s).
Proof.
  intros Hs Hc. unfold failOnDecodeError. destruct (c_decodeError c); [done|].
  rewrite (on_call_put _ _ _ _ Hc).
  destruct (ro_calls _ Hs i c Hc) as [Hok Hdec]. apply runner_ok_marked; [done|done| |done|done|].
  - open_call c Hok. by split.
  - by intros Hr Hn.
Qed.

(** A call whose promise resolves *)
Lemma finalized_ok r cl er c :
  call_ok c -> c_resolved c = None -> verdict c r -> cl = true \/ er = true ->
  call_ok (finalized r (with_emitted cl er c)).
Proof.
  intros Hok Hr Hv Hem. open_call c Hok. destruct (Hrun Hr) as (-> & -> & ->).
  split; simpl; try done; [by intros r0 [= <-]|]. intros H. by destruct (Hidle H) as (_ & ? & ? & ?).
Qed.

Lemma close_verdict c exitCode signal : verdict c (close_result c exitCode signal).
Proof.
  unfold verdict, close_result. destruct (c_decodeError c); simpl; [by eexists|].
  destruct (c_terminationReason c) as [[]|]; simpl; auto.
Qed.

Lemma error_verdict c e : verdict c (error_result c e).
Proof.
  unfold verdict, error_result.
  destruct (c_decodeError c); simpl; [by eexists|].
  destruct (c_terminationReason c) as [[]|]; simpl; auto.
Qed.

(** A callback after which the call is over, or was *)
Lemma runner_ok_settle i c cl er r s :
  runner_ok s -> calls s !! i = Some c -> verdict c r -> cl = true \/ er = true ->
  runner_ok (finalize i r (put i (with_emitted cl er c) s)).
Proof.
  intros Hs Hc Hv Hem. destruct (ro_calls _ Hs i c Hc) as [Hok Hdec].
  destruct (c_resolved c) as [r0|] eqn:Hres.
  - unfold finalize. erewrite put_lookup by done. simpl. rewrite Hres.
    pose proof (runner_ok_moves i c (with_emitted cl er c) s (promises s) Hs Hc) as H.
    destruct s. apply H. split; [|by split]. open_call c Hok. split; simpl; congruence || done.
  - pose proof (runner_ok_finalize i c (with_emitted cl er c) r s (promises s) Hs Hc Hres eq_refl Hres) as H.
    destruct s. apply H. by apply finalized_ok.
Qed.

Lemma put_pending i r c s c0 :
  calls s !! i = Some c0 -> on_call i (with_pending r) (put i c s) = put i (with_pending r c) s.
Proof. intros Hc. rewrite (on_call_put _ _ c) by by eapply put_lookup. apply put_put. Qed.

(** The result waits for the end of the process group. *)
Lemma runner_ok_pending i c cl er r s :
  runner_ok s -> calls s !! i = Some c -> verdict c r -> is_Some (c_terminationReason c) ->
  cl = true \/ er = true ->
  (c_resolved c = None -> is_Some (c_terminationAttempt c) \/ c_forceKillTimer c = true) ->
  runner_ok (on_call i (with_pending r) (put i (with_emitted cl er c) s)).
Proof.
  intros Hs Hc Hv Hr Hem Hw. destruct (ro_calls _ Hs i c Hc) as [Hok Hdec].
  erewrite put_pending by done.
  pose proof (runner_ok_moves i c (with_pending r (with_emitted cl er c)) s (promises s) Hs Hc) as H.
  destruct s. apply H. split; [|by split].
  open_call c Hok. split; simpl; try done.
  - intros ->. by destruct Hr.
  - intros r0 Hr0 [= <-]. split; [exact Hv|auto].
Qed.

Lemma on_close_ok win32 i c exitCode signal alive s :
  runner_ok s -> calls s !! i = Some c -> runner_ok (on_close win32 i c exitCode signal alive s).
Proof.
  intros Hs Hc. unfold on_close. rewrite (on_call_put _ _ _ _ Hc).
  pose proof (close_verdict c exitCode signal) as Hv. destruct (_ && _) eqn:Hw.
  - apply andb_true_iff in Hw as [Hr Hw]. apply bool_decide_eq_true in Hr.
    apply runner_ok_pending; [done..|by left|]. intros Hres.
    apply orb_true_iff in Hw as [Hw|Hw]; [left; by apply bool_decide_eq_true in Hw|right].
    apply andb_true_iff in Hw as [Hw _].
    destruct (ok_terminating _ (proj1 (ro_calls _ Hs i c Hc)) Hres Hr) as [_ [?|[Hk _]]]; [done|].
    by rewrite Hk in Hw.
  - apply runner_ok_settle; auto.
Qed.

Lemma on_error_ok i c error s :
  runner_ok s -> calls s !! i = Some c -> runner_ok (on_error i c error s).
Proof.
  intros Hs Hc. unfold on_error. rewrite (on_call_put _ _ _ _ Hc).
  pose proof (error_verdict c error) as Hv. destruct (_ && _) eqn:Hw.
  - apply andb_true_iff in Hw as [Hr%bool_decide_eq_true Hw%bool_decide_eq_true].
    apply runner_ok_pending; [done..|by right|by left].
  - apply runner_ok_settle; auto.
Qed.

(** ** The kill timer and the ends of the attempts *)

Definition killed (win32 : bool) (p : nat) (c : Call) : Call :=
  attempted win32 SIGKILL p (with_timers (c_timeoutTimer c) false true c).

Lemma on_force_kill_put win32 i c s :
  calls s !! i = Some c ->
  exists n, on_force_kill win32 i s =
    let s1 := with_promises n (put i (killed win32 (promises s) c) s) in
    match c_pendingCloseResult c, c_terminationAttempt (killed win32 (promises s) c) with
    | Some r, None => finalize i r s1
    | _, _ => s1
    end.
Proof.
  intros Hc. unfold on_force_kill. rewrite (on_call_put _ _ _ _ Hc).
  edestruct (startTerminationAttempt_put win32 i SIGKILL) as [n ->]; [by eapply put_lookup|].
  exists n. rewrite put_put. cbn zeta.
  change (calls (with_promises n ?x)) with (calls x).
  erewrite put_lookup by done. unfold killed, attempted. by destruct win32.
Qed.

Lemma killed_ok win32 p c :
  call_ok c -> c_resolved c = None -> c_forceKillTimer c = true ->
  (forall r, c_pendingCloseResult c = Some r -> c_terminationAttempt (killed win32 p c) <> None) ->
  moves c (killed win32 p c).
Proof.
  intros Hok Hres Htimer Hwait. unfold moves, killed, attempted, decode_ok in *. open_call c Hok. subst rs ft.
  assert (is_Some tr) as [r ->].
  { destruct tr; [by eexists|]. by destruct (Hidle eq_refl). }
  destruct (Hterm eq_refl) as [Hsent _]; [done|].
  split; [|by destruct win32].
  assert (SIGTERM ∈ se ++ [SIGKILL] /\ (false = true \/ true = true /\ SIGKILL ∈ se ++ [SIGKILL])) as Hsigs
    by (rewrite !elem_of_app; split; [by left|right; split; [done|by right; left]]).
  destruct win32; split; simpl in *; try done.
  - intros r0 _ H0. split; [by apply Hpend|left; by eexists].
  - intros a [= <-]. by left.
  - intros H. specialize (Hfew H). lia.
  - intros r0 _ H0. split; [by apply Hpend|left; by apply not_eq_None_Some, (Hwait r0)].
  - intros H. specialize (Hfew H). lia.
Qed.

Lemma killed_final r p c :
  call_ok c -> c_resolved c = None -> c_pendingCloseResult c = Some r ->
  call_ok (finalized r (killed false p c)).
Proof.
  intros Hok Hres Hp. open_call c Hok. subst rs pc.
  destruct (Hrun eq_refl) as (-> & -> & ->). destruct (Hpend r eq_refl eq_refl) as [Hv _].
  split; simpl; intros; simplify_eq; solve [done|naive_solver].
Qed.

Lemma timer_running c : call_ok c -> c_forceKillTimer c = true -> c_resolved c = None.
Proof.
  intros Hok Ht. destruct (c_resolved c) as [r|] eqn:Hr; [|done].
  destruct (ok_resolved _ Hok r Hr) as (_ & _ & _ & Hf & _). congruence.
Qed.

Lemma on_force_kill_ok win32 i c s :
  runner_ok s -> calls s !! i = Some c -> c_forceKillTimer c = true ->
  runner_ok (on_force_kill win32 i s).
Proof.
  intros Hs Hc Htimer. destruct (on_force_kill_put win32 i c s Hc) as [n ->]. cbn zeta.
  destruct (ro_calls _ Hs i c Hc) as [Hok Hdec]. pose proof (timer_running c Hok Htimer) as Hres.
  destruct (c_pendingCloseResult c) as [r|] eqn:Hp;
    [destruct (c_terminationAttempt (killed win32 (promises s) c)) eqn:Ha|].
  - eapply runner_ok_moves, killed_ok; try done. by rewrite Ha.
  - destruct win32; [done|]. eapply runner_ok_finalize, killed_final; done.
  - eapply runner_ok_moves, killed_ok; try done. by rewrite Hp.
Qed.

Definition settled_attempt (attempt : nat) (c : Call) : Call :=
  with_attempt (if decide (c_terminationAttempt c = Some attempt) then None else c_terminationAttempt c)
    (filter (fun a => a <> attempt) (c_unsettled c)) c.

Lemma settled_attempt_ok a c :
  call_ok c -> decode_ok c ->
  (c_terminationAttempt c = Some a -> c_pendingCloseResult c = None \/ c_resolved c <> None) ->
  moves c (settled_attempt a c).
Proof.
  intros Hok Hdec Hw. unfold moves, settled_attempt, decode_ok in *. open_call c Hok. split; [|done].
  pose proof (length_filter (fun b => b <> a) un) as Hlen.
  case_decide as Ha; split; simpl in *; try done.
  - by intros H; destruct (Hidle H) as (? & ? & ? & ?).
  - intros r Hr Hp. by destruct (Hw Ha) as [?|?]; simplify_eq.
  - intros H. specialize (Hfew H). lia.
  - intros b Hb. apply list_elem_of_filter. split; [congruence|by apply Hatt].
  - intros H. specialize (Hfew H). lia.
Qed.

Lemma settled_attempt_final a r c :
  call_ok c -> c_resolved c = None -> c_pendingCloseResult c = Some r ->
  call_ok (finalized r (settled_attempt a c)).
Proof.
  intros Hok Hres Hp. unfold settled_attempt. open_call c Hok. subst rs pc.
  destruct (Hrun eq_refl) as (-> & -> & ->). destruct (Hpend r eq_refl eq_refl) as [Hv _].
  split; simpl; try done.
  - by intros r0 [= <-].
  - intros H. by destruct (Hidle H) as (? & ? & ? & ?).
  - intros b. case_decide as Ha; [done|]. intros Hb. apply list_elem_of_filter.
    split; [congruence|by apply Hatt].
  - intros _ _. apply Hover; [done|by right; eexists].
Qed.

Lemma on_attempt_settled_put i a c s :
  calls s !! i = Some c ->
  on_attempt_settled i a c s =
    let s1 := put i (settled_attempt a c) s in
    match c_pendingCloseResult c with
    | Some r => if decide (c_terminationAttempt c = Some a) then finalize i r s1 else s1
    | None => s1
    end.
Proof.
  intros Hc. unfold on_attempt_settled, settled_attempt.
  case_decide; rewrite (on_call_put _ _ _ _ Hc); [done|by destruct (c_pendingCloseResult c)].
Qed.

Lemma on_attempt_settled_ok i a c s :
  runner_ok s -> calls s !! i = Some c -> runner_ok (on_attempt_settled i a c s).
Proof.
  intros Hs Hc. rewrite (on_attempt_settled_put _ _ _ _ Hc). cbn zeta.
  destruct (ro_calls _ Hs i c Hc) as [Hok Hdec].
  pose proof (runner_ok_moves i c (settled_attempt a c) s (promises s) Hs Hc) as Hm.
  replace (with_promises (promises s) (put i (settled_attempt a c) s)) with (put i (settled_attempt a c) s)
    in Hm by by destruct s.
  destruct (c_pendingCloseResult c) as [r|] eqn:Hp; [case_decide as Ha|].
  - destruct (c_resolved c) as [r0|] eqn:Hres.
    + unfold finalize. erewrite put_lookup by done. simpl. rewrite Hres.
      apply Hm, settled_attempt_ok; [done..|]. right. congruence.
    + pose proof (runner_ok_finalize i c (settled_attempt a c) r s (promises s) Hs Hc Hres eq_refl Hres) as H.
      destruct s. by apply H, settled_attempt_final.
  - apply Hm, settled_attempt_ok; [done..|]. congruence.
  - apply Hm, settled_attempt_ok; [done..|]. by left.
Qed.

(** ** How a call goes on

    What is left to happen to a call before it resolves: the kill timer, which
    may start an attempt, and the attempts that have not ended. *)
Definition own_debt (c : Call) : nat :=
  match c_resolved c with
  | Some _ => 0
  | None => (if c_forceKillTimer c then 2 else 0) + length (c_unsettled c)
  end.

(** No further attempt can be started but by the kill timer. *)
Definition quiet (c : Call) : bool :=
  c_forceKillTimer c || c_forceKillSent c || bool_decide (is_Some (c_resolved c)).

Record later (c c' : Call) : Prop := {
  later_resolved : forall r, c_resolved c = Some r -> c_resolved c' = Some r;
  later_closed : c_closed c = true -> c_closed c' = true;
  later_quiet : quiet c = true -> quiet c' = true /\ own_debt c' <= own_debt c
}.

#[export] Instance later_preorder : PreOrder later.
Proof.
  split.
  - intros c. by split.
  - intros c1 c2 c3 [R1 C1 Q1] [R2 C2 Q2]. split; [auto..|]. intros Hq.
    destruct (Q1 Hq) as [Hq2 ?]. destruct (Q2 Hq2). split; [done|lia].
Qed.

Definition evolves (s s' : Runner) : Prop :=
  forall i c, calls s !! i = Some c -> exists c', calls s' !! i = Some c' /\ later c c'.

#[export] Instance evolves_preorder : PreOrder evolves.
Proof.
  split.
  - intros s i c Hc. by exists c.
  - intros s1 s2 s3 H12 H23 i c Hc. destruct (H12 i c Hc) as (c2 & Hc2 & H2).
    destruct (H23 i c2 Hc2) as (c3 & Hc3 & H3). exists c3. split; [done|by etrans].
Qed.

Lemma evolves_put i c c' s n :
  calls s !! i = Some c -> later c c' -> evolves s (with_promises n (put i c' s)).
Proof.
  intros Hc Hl j d Hd. cbn [calls with_promises]. destruct (decide (i = j)) as [<-|Hne].
  - exists c'. split; [by eapply put_lookup|]. by simplify_eq.
  - exists d. by rewrite put_lookup_ne.
Qed.

Lemma evolves_on_call i f s :
  (forall c, calls s !! i = Some c -> later c (f c)) -> evolves s (on_call i f s).
Proof.
  intros Hf j d Hd. unfold on_call. simpl. destruct (decide (i = j)) as [<-|Hne].
  - rewrite list_lookup_alter_eq, Hd. exists (f d). split; [done|by apply Hf].
  - exists d. by rewrite list_lookup_alter_ne.
Qed.

Lemma evolves_finalize i r s : evolves s (finalize i r s).
Proof.
  intros j d Hd. unfold finalize. destruct (calls s !! i) as [c|] eqn:Hc; [|by exists d].
  destruct (c_resolved c) eqn:Hr; [by exists d|]. simpl.
  destruct (decide (i = j)) as [<-|Hne].
  - rewrite list_lookup_alter_eq, Hd. exists (finalized r d). split; [done|]. simplify_eq.
    split; simpl; [congruence|done|].
    intros _. unfold quiet. simpl. rewrite orb_true_r. split; [done|unfold own_debt; simpl; lia].
  - exists d. by rewrite list_lookup_alter_ne.
Qed.

Lemma terminated_later win32 reason p c : later c (terminated win32 reason p c).
Proof.
  unfold terminated, attempted. destruct (c_forceKillTimer c || c_forceKillSent c) eqn:Hk; [by split|].
  split; [by destruct win32..|]. unfold quiet, own_debt. rewrite Hk. simpl. intros Hr.
  apply bool_decide_eq_true in Hr as [r Hr]. destruct win32; simpl; rewrite Hr; by split.
Qed.

Lemma evolves_terminate win32 t reason s : evolves s (terminate win32 t reason s).2.
Proof.
  destruct (activeProcesses s !! t) as [i|] eqn:Ha; [|by unfold terminate; rewrite Ha].
  destruct (calls s !! i) as [c|] eqn:Hc; [|by unfold terminate; rewrite Ha, Hc].
  destruct (terminate_put win32 t reason i c s Ha Hc) as [n ->].
  eapply evolves_put; [done|apply terminated_later].
Qed.

Lemma evolves_run win32 t abortSignal spawn meanwhile s :
  evolves s (run win32 t abortSignal spawn meanwhile s).
Proof.
  assert (forall d active, evolves s (mkRunner (calls s ++ [d]) active (promises s))) as Happ.
  { intros d active i c Hc. exists c. split; [|done]. simpl. by apply lookup_app_l_Some. }
  unfold run. case_decide; [apply Happ|]. case_decide; [apply Happ|].
  destruct spawn; [|apply Happ].
  destruct (_ && meanwhile); [|apply Happ]. etrans; [apply Happ|apply evolves_terminate].
Qed.

Lemma shutdown_ind win32 s (P : Runner -> Prop) :
  P s -> (forall t s1, P s1 -> P (terminate win32 t by_cancel s1).2) -> P (shutdown win32 s).
Proof.
  intros H0 Hstep. unfold shutdown. induction (map_to_list (activeProcesses s)).*1 as [|t ts IH]; [done|].
  simpl. by apply Hstep.
Qed.

(** What the own events do to their call *)
Lemma killed_later win32 p c : c_forceKillTimer c = true -> later c (killed win32 p c).
Proof.
  intros Ht. unfold killed, attempted.
  split; [by destruct win32..|]. unfold quiet, own_debt. rewrite Ht.
  destruct win32; simpl; (split; [done|]); destruct (c_resolved c); lia.
Qed.

Lemma settled_attempt_later a c : later c (settled_attempt a c).
Proof.
  split; [done|done|]. unfold quiet, own_debt, settled_attempt. simpl. intros ->. split; [done|].
  destruct (c_resolved c); [lia|]. pose proof (length_filter (fun b => b <> a) (c_unsettled c)). lia.
Qed.

(** Every event only lets the calls go on. *)
Lemma evolves_handle win32 e s s' : handle win32 e s = Some s' -> evolves s s'.
Proof.
  unfold handle, when. intros He.
  destruct e; simpl in He;
    try (destruct (calls s !! i) as [c|] eqn:Hc; [|done];
         destruct (c_started c && _) eqn:Hen; [|done]; apply andb_true_iff in Hen as [_ Hen]);
    apply (inj Some) in He; subst s'.
  - apply evolves_run.
  - apply evolves_terminate.
  - apply shutdown_ind; [done|]. intros t s1 H1. etrans; [exact H1|apply evolves_terminate].
  - etrans; [|apply evolves_terminate]. apply evolves_on_call. intros d _. by split.
  - etrans; [|apply evolves_terminate]. apply evolves_on_call. intros d _. by split.
  - unfold failOnDecodeError. destruct (c_decodeError c); [done|].
    etrans; [|apply evolves_terminate]. apply evolves_on_call. intros d _. by split.
  - etrans; [apply (evolves_on_call i (with_emitted true (c_errored c))); intros d _; by split|].
    unfold on_close. destruct (_ && _); [|apply evolves_finalize].
    apply evolves_on_call. intros d _. by split.
  - etrans; [apply (evolves_on_call i (with_emitted (c_closed c) true)); intros d Hd; by simplify_eq|].
    unfold on_error. destruct (_ && _); [|apply evolves_finalize].
    apply evolves_on_call. intros d _. by split.
  - destruct (on_force_kill_put win32 i c s Hc) as [n ->]. cbn zeta.
    etrans; [apply (evolves_put i c (killed win32 (promises s) c) s n Hc); by apply killed_later|].
    destruct (c_pendingCloseResult c); [|done]. destruct (c_terminationAttempt _); [done|apply evolves_finalize].
  - rewrite (on_attempt_settled_put _ _ _ _ Hc). cbn zeta.
    assert (evolves s (put i (settled_attempt attempt c) s)) as H
      by exact (evolves_put i c _ s (promises s) Hc (settled_attempt_later attempt c)).
    etrans; [exact H|]. destruct (c_pendingCloseResult c); [|done]. destruct (decide (c_terminationAttempt c = Some attempt)); [apply evolves_finalize|done].
Qed.

Definition own (i : nat) (e : event) : bool :=
  match e with
  | ev_force_kill j | ev_attempt_settled j _ => bool_decide (i = j)
  | _ => false
  end.

Lemma finalize_no_debt i r s c' : calls (finalize i r s) !! i = Some c' -> own_debt c' = 0.
Proof.
  unfold finalize. destruct (calls s !! i) as [c|] eqn:Hc; [|by rewrite Hc].
  destruct (c_resolved c) eqn:Hr; simpl.
  - rewrite Hc. intros [= <-]. unfold own_debt. by rewrite Hr.
  - rewrite list_lookup_alter_eq, Hc. by intros [= <-].
Qed.

Lemma own_debt_paid win32 i e s s' c c' :
  handle win32 e s = Some s' -> own i e = true -> calls s !! i = Some c -> calls s' !! i = Some c' ->
  own_debt c' <= own_debt c - 1.
Proof.
  intros He Hown Hc Hc'. unfold handle, when in He.
  destruct e; simpl in Hown; try done; apply bool_decide_eq_true in Hown as <-; simpl in He;
    rewrite Hc in He; destruct (c_started c && _) eqn:Hen; try done;
    apply andb_true_iff in Hen as [_ Hen]; apply (inj Some) in He; subst s'.
  - destruct (on_force_kill_put win32 i c s Hc) as [n Hn]. rewrite Hn in Hc'. cbn zeta in Hc'.
    assert (own_debt (killed win32 (promises s) c) <= own_debt c - 1) as Hd.
    { unfold own_debt, killed, attempted. rewrite Hen. destruct win32; simpl; destruct (c_resolved c); lia. }
    assert (forall d, calls (with_promises n (put i (killed win32 (promises s) c) s)) !! i = Some d ->
      own_debt d <= own_debt c - 1) as Hput.
    { cbn [with_promises calls]. erewrite put_lookup by done. by intros d [= <-]. }
    destruct (c_pendingCloseResult c); [|by apply Hput].
    destruct (c_terminationAttempt _); [by apply Hput|]. apply finalize_no_debt in Hc'. lia.
  - rewrite (on_attempt_settled_put _ _ _ _ Hc) in Hc'. cbn zeta in Hc'.
    assert (own_debt (settled_attempt attempt c) <= own_debt c - 1) as Hd.
    { apply bool_decide_eq_true in Hen. unfold own_debt, settled_attempt. simpl.
      destruct (c_resolved c); [lia|].
      assert (length (filter (fun a => a <> attempt) (c_unsettled c)) < length (c_unsettled c)); [|lia].
      eapply length_filter_lt; [exact Hen|naive_solver]. }
    assert (forall d, calls (put i (settled_attempt attempt c) s) !! i = Some d ->
      own_debt d <= own_debt c - 1) as Hput by (erewrite put_lookup by done; by intros d [= <-]).
    destruct (c_pendingCloseResult c); [|by apply Hput].
    destruct (decide (c_terminationAttempt c = Some attempt)); [|by apply Hput].
    apply finalize_no_debt in Hc'. lia.
Qed.

(** ** The invariant over a schedule *)

Lemma runner_ok_app c active s :
  runner_ok s -> call_ok c -> decode_ok c ->
  active = match c_resolved c with
           | Some _ => activeProcesses s
           | None => <[c_taskId c := length (calls s)]> (activeProcesses s)
           end ->
  (c_resolved c = None -> activeProcesses s !! c_taskId c = None) ->
  runner_ok (mkRunner (calls s ++ [c]) active (promises s)).
Proof.
  intros [Hcalls Hactive] Hok Hdec -> Hfree. split; simpl.
  - intros i d [[_ Hd]|[_ <-]]%lookup_snoc_Some; [by apply (Hcalls i)|done].
  - intros t i.
    assert (activeProcesses s !! t = Some i <->
      exists d, (i < length (calls s) /\ calls s !! i = Some d) /\ c_taskId d = t /\ c_resolved d = None) as Hold.
    { rewrite Hactive. split; intros (d & Hd & H); exists d; [|by destruct Hd].
      split; [split; [by eapply lookup_lt_Some|done]|done]. }
    setoid_rewrite lookup_snoc_Some. destruct (c_resolved c) as [r|] eqn:Hr.
    + rewrite Hold. split; [naive_solver|]. intros (d & [Hd|[-> <-]] & ? & ?); [by exists d|congruence].
    + rewrite lookup_insert_Some, Hold. split.
      * intros [[<- <-]|[_ (d & Hd & H)]]; [exists c; auto|exists d; auto].
      * intros (d & [Hd|[-> <-]] & Ht & Hrd); [right|by left]. split; [|by exists d].
        intros Heq. assert (activeProcesses s !! t = Some i) as Hi by (apply Hold; by exists d).
        rewrite <- Heq, Hfree in Hi by done. done.
Qed.

Lemma refused_ok t reason error :
  (reason = exit_cancelled \/ reason = exit_spawn_error /\ is_Some error) ->
  call_ok (mkCall t false None false false false false None None [] None false
             false (Some (mkResult reason None None error)) true 1 []).
Proof.
  intros H. split; simpl; intros; simplify_eq; try done.
  repeat (split; [done|]). destruct H as [-> | [-> ?]]; simpl; [by right|done].
Qed.

Lemma runner_ok_run win32 t abortSignal spawn meanwhile s :
  runner_ok s -> runner_ok (run win32 t abortSignal spawn meanwhile s).
Proof.
  intros Hs. unfold run. case_decide as Hfree; [|case_decide; [|destruct spawn as [u|e]]].
  - apply runner_ok_app; [done|apply refused_ok; auto|by intros ?|done|done].
  - apply runner_ok_app; [done|apply refused_ok; auto|by intros ?|done|done].
  - apply eq_None_not_Some in Hfree.
    assert (runner_ok (mkRunner (calls s ++ [mkCall t true None true false false
      (bool_decide (is_Some abortSignal)) None None [] None false false None false 0 []])
      (<[t := length (calls s)]> (activeProcesses s)) (promises s))) as Hok.
    { apply runner_ok_app; [done| |intros Hres [? Hde]; done|done|done].
      split; simpl; try done. by intros _ [[? ?]|[? ?]]. }
    destruct (_ && meanwhile); [by apply runner_ok_terminate|done].
  - apply runner_ok_app; [done|apply refused_ok; auto|by intros ?|done|done].
Qed.

Lemma runner_ok_handle win32 e s s' : runner_ok s -> handle win32 e s = Some s' -> runner_ok s'.
Proof.
  unfold handle, when. intros Hs He.
  destruct e; simpl in He;
    try (destruct (calls s !! i) as [c|] eqn:Hc; [|done];
         destruct (c_started c && _) eqn:Hen; [|done]; apply andb_true_iff in Hen as [_ Hen]);
    apply (inj Some) in He; subst s'.
  - by apply runner_ok_run.
  - by apply runner_ok_terminate.
  - apply shutdown_ind; [done|]. intros t s1 H1. by apply runner_ok_terminate.
  - by apply on_timeout_ok.
  - by apply on_abort_ok.
  - by apply failOnDecodeError_ok.
  - by apply on_close_ok.
  - by apply on_error_ok.
  - by eapply on_force_kill_ok.
  - by apply on_attempt_settled_ok.
Qed.

Lemma new_runner_ok : runner_ok new_runner.
Proof. split; simpl; [by intros ? ?|]. intros t i. rewrite lookup_empty. split; [done|by intros (? & ? & _)]. Qed.

Lemma schedule_ok win32 es s s' : runner_ok s -> schedule win32 es s = Some s' -> runner_ok s' /\ evolves s s'.
Proof.
  revert s. induction es as [|e es IH]; intros s Hs; simpl.
  - by intros [= <-].
  - intros (s1 & He & Hes)%bind_Some. destruct (IH s1) as [Hok Hev]; [by eapply runner_ok_handle|done|].
    split; [done|]. etrans; [by eapply evolves_handle|done].
Qed.

(** What the promise of a call, its entry and its process look like from outside *)
Definition settled_once (s : Runner) (i : nat) (c : Call) : Prop :=
  match c_resolved c with
  | Some r => c_completed c = true /\ c_cleanups c = 1 /\ verdict c r /\
      c_timeoutTimer c = false /\ c_forceKillTimer c = false /\ c_abortListener c = false /\
      activeProcesses s !! c_taskId c <> Some i /\
      (c_started c = true -> c_closed c = true \/ c_errored c = true)
  | None => c_started c = true /\ c_cleanups c = 0 /\ activeProcesses s !! c_taskId c = Some i /\
      (is_Some (c_decodeError c) -> is_Some (c_terminationReason c)) /\
      (is_Some (c_terminationReason c) -> SIGTERM ∈ c_sent c /\
        (c_forceKillTimer c = true \/ SIGKILL ∈ c_sent c))
  end.


(** The process has ended, so something of the call's own is still to come. *)
Lemma closed_call c :
  call_ok c -> c_closed c = true -> quiet c = true /\ (c_resolved c = None -> own_debt c <> 0).
Proof.
  intros Hok Hcl. unfold quiet, own_debt. destruct (c_resolved c) as [r|] eqn:Hr.
  - split; [by rewrite bool_decide_eq_true_2, orb_true_r by done|done].
  - destruct (ok_gone _ Hok Hr Hcl) as [p Hp]. destruct (ok_pending _ Hok p Hr Hp) as [_ Hw].
    destruct (c_terminationReason c) eqn:Ht;
      [|by destruct (ok_idle _ Hok Ht) as (_ & _ & _ & ?); congruence].
    destruct (ok_terminating _ Hok Hr) as [_ Hk]; [by eexists|]. split.
    + destruct Hk as [-> | [-> _]]; [done|by rewrite orb_true_r].
    + intros _. destruct Hw as [[a Ha]| ->]; [|lia].
      apply (ok_attempt _ Hok) in Ha. destruct (c_unsettled c); [by apply not_elem_of_nil in Ha|simpl; lia].
Qed.

Lemma debt_over_schedule win32 i es s s' c :
  runner_ok s -> schedule win32 es s = Some s' -> calls s !! i = Some c -> quiet c = true ->
  exists c', calls s' !! i = Some c' /\ own_debt c' <= own_debt c - length (filter (own i) es).
Proof.
  revert s c. induction es as [|e es IH]; intros s c Hs; simpl.
  - intros [= <-] Hc _. exists c. split; [done|simpl; lia].
  - intros (s1 & He & Hes)%bind_Some Hc Hq.
    destruct (evolves_handle _ _ _ _ He i c Hc) as (c1 & Hc1 & Hl).
    destruct (later_quiet _ _ Hl Hq) as [Hq1 Hle].
    destruct (IH s1 c1) as (c' & Hc' & Hle'); [by eapply runner_ok_handle|done..|].
    exists c'. split; [done|]. rewrite filter_cons. case_decide as Ho; [|lia]. apply Is_true_true in Ho.
    pose proof (own_debt_paid _ _ _ _ _ _ _ He Ho Hc Hc1). simpl. lia.
Qed.

Lemma next_own win32 i c s :
  calls s !! i = Some c -> c_started c = true -> c_resolved c = None -> own_debt c <> 0 ->
  exists e, own i e = true /\ is_Some (handle win32 e s).
Proof.
  intros Hc Hst Hr Hdebt. unfold own_debt in Hdebt. rewrite Hr in Hdebt.
  destruct (c_forceKillTimer c) eqn:Ht;
    [|destruct (c_unsettled c) as [|a as_] eqn:Hu; [done|]].
  - exists (ev_force_kill i). split; [by apply bool_decide_eq_true|].
    unfold handle, when. by rewrite Hc, Hst, Ht.
  - exists (ev_attempt_settled i a). split; [by apply bool_decide_eq_true|].
    unfold handle, when. rewrite Hc, Hst, Hu. simpl. by rewrite bool_decide_eq_true_2 by by left.
Qed.

(** C29. When the child of a call has emitted 'close', the call resolves, and
    soon: however the events go on from there, in whatever order and whatever
    other calls start, end or share its task, the promise of [run] has resolved,
    or it is one of the call's own events - the kill timer, or the end of a
    signalling attempt - that is awaited: one of them is possible, and at most
    three of them happen before the promise resolves. *)
Theorem closed_call_resolves (win32 : bool) (es es' : list event) (s s' : Runner) (i : nat) (c : Call) :
  schedule win32 es new_runner = Some s -> calls s !! i = Some c -> c_closed c = true ->
  schedule win32 es' s = Some s' ->
  exists c', calls s' !! i = Some c' /\
    (is_Some (c_resolved c') \/
     length (filter (own i) es') < 3 /\
     exists e, own i e = true /\ is_Some (handle win32 e s')).
Proof.
  intros Hes Hc Hcl Hes'. destruct (schedule_ok _ _ _ _ new_runner_ok Hes) as [Hs _].
  destruct (ro_calls _ Hs i c Hc) as [Hok _]. destruct (closed_call c Hok Hcl) as [Hq _].
  destruct (debt_over_schedule _ _ _ _ _ _ Hs Hes' Hc Hq) as (c' & Hc' & Hle).
  destruct (schedule_ok _ _ _ _ Hs Hes') as [Hs' Hev].
  destruct (Hev i c Hc) as (c2 & Hc2 & Hl). simplify_eq. exists c'. split; [done|].
  destruct (c_resolved c') as [r|] eqn:Hr'; [by left; exists r|right].
  destruct (ro_calls _ Hs' i c' Hc') as [Hok' _].
  destruct (closed_call c' Hok') as [_ Hd]; [by apply Hl|]. specialize (Hd Hr').
  assert (c_resolved c = None) as Hr.
  { destruct (c_resolved c) eqn:Hr; [|done]. apply (later_resolved _ _ Hl) in Hr. congruence. }
  assert (own_debt c <= 3) as Hfew.
  { pose proof (ok_few _ Hok Hr). unfold own_debt. rewrite Hr.
    destruct (c_forceKillTimer c); [lia|]. destruct (c_forceKillSent c); lia. }
  split; [lia|]. eapply next_own; [done| |done|done]. by apply (ok_running _ Hok').
Qed.

(** ** Witnesses *)

(** A cancelled child on POSIX whose group outlives it, then is killed *)
Definition kill_schedule : list event :=
  [ev_run "t" (Some false) (Ret tt) false; ev_cancel "t"; ev_close 0 None (Some "SIGTERM") true].

Definition killed_state : Runner := default new_runner (schedule false kill_schedule new_runner).

Definition killed_call : Call :=
  mkCall "t" true (Some by_cancel) true true false true
    (Some (mkResult exit_cancelled None (Some "SIGTERM") None)) None [] None true false None false 0 [SIGTERM].


(** On Windows 'taskkill' is still running when the child closes and the kill
    timer fires; the first attempt ends without settling the call. *)
Definition taskkill_schedule : list event :=
  [ev_run "t" None (Ret tt) false; ev_timeout 0; ev_close 0 (Some 1%Z) None false].

Definition taskkill_end : list event :=
  [ev_cancel "t"; ev_force_kill 0; ev_attempt_settled 0 0].

Definition taskkill_state : Runner := default new_runner (schedule true taskkill_schedule new_runner).

Lemma closed_call_resolves_witness :
  exists c', calls (default new_runner (schedule true taskkill_end taskkill_state)) !! 0 = Some c' /\
    (is_Some (c_resolved c') \/
     length (filter (own 0) taskkill_end) < 3 /\
     exists e, own 0 e = true /\
       is_Some (handle true e (default new_runner (schedule true taskkill_end taskkill_state)))).
Proof.
  apply (closed_call_resolves true taskkill_schedule taskkill_end taskkill_state _ 0
    (default killed_call (calls taskkill_state !! 0))); vm_compute; reflexivity.
Defined.

(** The second attempt settles it, as timed out. *)
Example taskkill_verdict :
  (calls (default new_runner (schedule true (taskkill_end ++ [ev_attempt_settled 0 1]) taskkill_state))
     !! 0) ≫= c_resolved = Some (mkResult exit_timeout (Some 1%Z) None None).
Proof. reflexivity. Qed.
