(* ===== verification/CcStream.v ===== *)
(** * The event stream of the Claude-style engines

    engine/cc-stream-parser.ts with what it calls (heartbeat.ts, the result text
    of tool-output.ts, extractClaudeStyleUsage of usage.ts), the verdict of
    qoder-agent.ts and trae-agent.ts, and runCliStream of cli-engine-base.ts,
    which turns the end of the process into the outcome of an execution.
    [JSON.parse] is a parameter.  The names, ids and messages of an event are
    strings where they are present, and its counts integers; one of another type
    counts as absent.  The [code] of a spawn error is represented by its name. *)
From stdpp Require Import pretty.
From S2P Require Import Prelude Json Records Schema ExecuteRetry ProcessRunner.

Definition TOOL_OUTPUT_MAX_CHARS : nat := Z.to_nat 8192.

(** The ellipsis is the three bytes of its encoding. *)
Definition ellipsis : string :=
  String (Ascii.ascii_of_nat 226) (String (Ascii.ascii_of_nat 128) (String (Ascii.ascii_of_nat 166) "")).

Definition capToolOutput (text : string) : string :=
  if (String.length text <=? TOOL_OUTPUT_MAX_CHARS)%nat then text
  else String.substring 0 TOOL_OUTPUT_MAX_CHARS text +:+ ellipsis +:+ " [truncated]".

(** [l.filter(Boolean).join('\n')] *)
Definition join_lines (l : list string) : string :=
  String.concat (String (Ascii.ascii_of_nat 10) "") (filter (fun s => s <> "") l).

Definition toolResultText (raw : option json) : option string :=
  match raw with
  | Some (JStr s) => if decide (s = "") then None else Some (capToolOutput s)
  | Some (JArr blocks) =>
      let text := join_lines ((fun b => default "" (as_string (opt_get (Some b) "text"))) <$> blocks) in
      if decide (text = "") then None else Some (capToolOutput text)
  | _ => None
  end.

(** [value || d] *)
Definition text_or (v : option json) (d : string) : string :=
  match as_string v with Some s => if decide (s = "") then d else s | None => d end.

Definition as_integer (v : option json) : option Z :=
  match v with Some (JNum (JInt z)) => Some z | _ => None end.

Definition extractClaudeStyleUsage (data : js_object) : option TokenUsage :=
  match as_object (obj_get data "usage") with
  | None => None
  | Some u =>
      let out := mkUsage (as_integer (obj_get u "input_tokens")) (as_integer (obj_get u "output_tokens")) None
                   (as_integer (obj_get u "cache_read_input_tokens"))
                   (as_integer (obj_get u "cache_creation_input_tokens")) in
      match inputTokens out, outputTokens out, cacheReadTokens out, cacheWriteTokens out with
      | None, None, None, None => None
      | _, _, _, _ => Some out
      end
  end.

(** ** heartbeat.ts *)

Record Heartbeat := mkHeartbeat {
  hb_open : js_record (string * Z);           (* callId to toolName, startedAt *)
  hb_timer : bool;
  hb_stopped : bool
}.

Definition createHeartbeatTracker : Heartbeat := mkHeartbeat [] false false.

Definition onStarted (now : Z) (callId toolName : string) (h : Heartbeat) : Heartbeat :=
  if hb_stopped h then h else mkHeartbeat (map_put (hb_open h) callId (toolName, now)) true false.

Definition onSettled (callId : string) (h : Heartbeat) : Heartbeat :=
  let open := rec_delete (hb_open h) callId in
  mkHeartbeat open (hb_timer h && negb (bool_decide (open = []))) (hb_stopped h).

Definition stop (h : Heartbeat) : Heartbeat := mkHeartbeat [] false true.

(** The callback of the interval, when it is armed *)
Definition heartbeat_tick (intervalMs now : Z) (h : Heartbeat) : list StreamLogEntry :=
  if hb_timer h then
    omap (fun '(callId, (toolName, startedAt)) =>
            let elapsedMs := (now - startedAt)%Z in
            if (2 * elapsedMs <? intervalMs)%Z then None
            else Some (LToolHeartbeat callId toolName elapsedMs now)) (hb_open h)
  else [].

(** ** cc-stream-parser.ts *)

Definition NOISE_SYSTEM_SUBTYPES : list string := ["thinking_tokens"].

(** [CcStreamParserState] with the locals of the closure *)
Record CcState := mkCc {
  cc_sessionId : option string;
  cc_outputBuffer : string;
  cc_resultReceived : bool;
  cc_resultIsError : bool;
  cc_resultErrorText : string;
  cc_lastUsage : option TokenUsage;
  cc_toolNameByCallId : js_record string;
  cc_heartbeat : Heartbeat
}.

Definition createCcStreamParser (initialSessionId : option string) : CcState :=
  mkCc initialSessionId "" false false "" None [] createHeartbeatTracker.

(** What the parser calls back with: [onUpdate] and [onLogEntry] *)
Inductive CcOut := out_update (text : string) | out_log (entry : StreamLogEntry).

Definition with_text (text : string) (st : CcState) : CcState :=
  mkCc (cc_sessionId st) text (cc_resultReceived st) (cc_resultIsError st) (cc_resultErrorText st)
    (cc_lastUsage st) (cc_toolNameByCallId st) (cc_heartbeat st).
Definition with_calls (names : js_record string) (h : Heartbeat) (st : CcState) : CcState :=
  mkCc (cc_sessionId st) (cc_outputBuffer st) (cc_resultReceived st) (cc_resultIsError st)
    (cc_resultErrorText st) (cc_lastUsage st) names h.
Definition with_session (id : option string) (st : CcState) : CcState :=
  mkCc id (cc_outputBuffer st) (cc_resultReceived st) (cc_resultIsError st) (cc_resultErrorText st)
    (cc_lastUsage st) (cc_toolNameByCallId st) (cc_heartbeat st).

(** The blocks of a message, in order *)
Fixpoint each_block (f : js_object -> CcState -> list CcOut * CcState) (blocks : list json) (st : CcState)
    : list CcOut * CcState :=
  match blocks with
  | [] => ([], st)
  | b :: blocks' =>
      let '(o, st1) := match as_object (Some b) with Some block => f block st | None => ([], st) end in
      let '(o', st2) := each_block f blocks' st1 in
      (o ++ o', st2)
  end.

Definition message_blocks (data : js_object) : list json :=
  match opt_get (obj_get data "message") "content" with Some (JArr l) => l | _ => [] end.

Definition is_type (o : js_object) (t : string) : bool := bool_decide (as_string (obj_get o "type") = Some t).

Definition assistant_block (now : Z) (block : js_object) (st : CcState) : list CcOut * CcState :=
  let '(o, st) :=
    if is_type block "text" then
      match as_string (obj_get block "text") with
      | Some text =>
          let buffer := cc_outputBuffer st +:+ text in
          ([out_update buffer; out_log (LAssistant text false now)], with_text buffer st)
      | None => ([], st)
      end
    else ([], st) in
  if is_type block "tool_use" then
    let input := as_object (obj_get block "input") in
    let callId := text_or (obj_get block "id") "" in
    let toolName := text_or (obj_get block "name") "unknown" in
    (o ++ [out_log (LToolCall "started" callId toolName input None None None now)],
     if decide (callId = "") then st
     else with_calls (map_put (cc_toolNameByCallId st) callId toolName)
            (onStarted now callId toolName (cc_heartbeat st)) st)
  else (o, st).

Definition user_block (now : Z) (block : js_object) (st : CcState) : list CcOut * CcState :=
  if negb (is_type block "tool_result") then ([], st)
  else
    let callId := text_or (obj_get block "tool_use_id") "" in
    if decide (callId = "") then ([], st)
    else
      let isError := bool_decide (obj_get block "is_error" = Some (JBool true)) in
      let resultText := toolResultText (obj_get block "content") in
      let errorText := if isError then resultText else None in
      let output := if isError then None else resultText in
      let toolName := default "" (rec_get (cc_toolNameByCallId st) callId) in
      ([out_log (LToolCall (if isError then "failed" else "completed") callId toolName None errorText None output now)],
       with_calls (rec_delete (cc_toolNameByCallId st) callId) (onSettled callId (cc_heartbeat st)) st).

Definition extractResultErrorText (data : js_object) : string :=
  let joined :=
    match obj_get data "errors" with
    | Some (JArr l) => String.concat (String (Ascii.ascii_of_nat 10) "") (omap (fun e => as_string (Some e)) l)
    | _ => ""
    end in
  text_or (obj_get data "result") (text_or (obj_get data "error") joined).

Definition or_text (a b : string) : string := if decide (a = "") then b else a.

Definition parse_result (collectUsage : bool) (now : Z) (data : js_object) (st : CcState)
    : list CcOut * CcState :=
  let usage := if collectUsage then extractClaudeStyleUsage data else None in
  let lastUsage := match usage with Some u => Some u | None => cc_lastUsage st end in
  let isError := bool_decide (obj_get data "is_error" = Some (JBool true)) in
  let resultIsError := isError || cc_resultIsError st in
  let resultText := default "" (as_string (obj_get data "result")) in
  let buffer := if decide (resultText = "") then cc_outputBuffer st else trim resultText in
  let errorText :=
    if resultIsError then
      or_text (if isError then extractResultErrorText data else "")
        (or_text (cc_resultErrorText st) "CLI returned an error result")
    else cc_resultErrorText st in
  ((if decide (resultText = "") then [] else [out_update buffer]) ++
   [out_log (LResult (if resultIsError then "error" else "success") (as_integer (obj_get data "duration_ms"))
      lastUsage None now)],
   mkCc (cc_sessionId st) buffer true resultIsError errorText lastUsage (cc_toolNameByCallId st) (cc_heartbeat st)).

Definition parse_error (now : Z) (data : js_object) (st : CcState) : list CcOut * CcState :=
  let message := text_or (obj_get data "message") (text_or (obj_get data "error") "Unknown error") in
  ([out_log (LError message now)],
   mkCc (cc_sessionId st) (cc_outputBuffer st) (cc_resultReceived st) true message (cc_lastUsage st)
     (cc_toolNameByCallId st) (cc_heartbeat st)).

Definition parse_stream_event (now : Z) (data : js_object) (st : CcState) : list CcOut * CcState :=
  let delta := opt_get (obj_get data "event") "delta" in
  match as_string (opt_get delta "type"), as_string (opt_get delta "text") with
  | Some t, Some text =>
      if decide (t = "text_delta") then
        let buffer := cc_outputBuffer st +:+ text in
        ([out_update buffer; out_log (LAssistant text true now)], with_text buffer st)
      else ([], st)
  | _, _ => ([], st)
  end.

Definition parse_system (now : Z) (data : js_object) (st : CcState) : list CcOut * CcState :=
  let subtype := text_or (obj_get data "subtype") "" in
  if bool_decide (subtype ∈ NOISE_SYSTEM_SUBTYPES) then ([], st)
  else ([out_log (LSystem (or_text subtype "system") (as_string (obj_get data "model")) None None None now)], st).

(** The session a line announces *)
Definition announced (data : js_object) : option string :=
  let id k := match as_string (obj_get data k) with
              | Some s => if decide (s = "") then None else Some s
              | None => None
              end in
  match id "session_id" with Some s => Some s | None => id "chat_id" end.

Section Parser.
Context (json_parse : string -> option json) (collectUsage : bool).

Definition tryParseJson (text : string) : option js_object := json_parse text ≫= fun v => as_object (Some v).

Definition parse_event (now : Z) (data : js_object) (st : CcState) : list CcOut * CcState :=
  let st := match announced data with Some id => with_session (Some id) st | None => st end in
  if is_type data "system" then parse_system now data st
  else if is_type data "stream_event" then parse_stream_event now data st
  else if is_type data "assistant" then each_block (assistant_block now) (message_blocks data) st
  else if is_type data "user" then each_block (user_block now) (message_blocks data) st
  else if is_type data "result" then parse_result collectUsage now data st
  else if is_type data "error" then parse_error now data st
  else ([], st).

Definition parseLine (now : Z) (line : string) (st : CcState) : list CcOut * CcState :=
  if decide (trim line = "") then ([], st)
  else match tryParseJson line with Some data => parse_event now data st | None => ([], st) end.

(** Lines with the instants they arrive at *)
Fixpoint parse_lines (lines : list (Z * string)) (st : CcState) : list CcOut * CcState :=
  match lines with
  | [] => ([], st)
  | (now, line) :: lines' =>
      let '(o, st1) := parseLine now line st in
      let '(o', st2) := parse_lines lines' st1 in
      (o ++ o', st2)
  end.
End Parser.

(** ** The verdict *)

Definition EXIT_CODE_MESSAGES (code : Z) : option string :=
  match code with
  | 1%Z => Some "Execution failed"
  | 2%Z => Some "Command argument error"
  | 126%Z => Some "Permission denied, cannot execute"
  | 127%Z => Some "Command not found"
  | 128%Z => Some "Invalid exit signal"
  | 130%Z => Some "User interrupted execution (Ctrl+C)"
  | 137%Z => Some "Process forcibly terminated (out of memory or timeout)"
  | 143%Z => Some "Execution cancelled"
  | _ => None
  end.

Definition formatExitError (code : Z) (stderr : string) : string :=
  let friendlyMsg := default ("Execution error (code " +:+ pretty code +:+ ")") (EXIT_CODE_MESSAGES code) in
  let stderrTrimmed := trim stderr in
  if decide (stderrTrimmed = "") then friendlyMsg
  else friendlyMsg +:+ String (Ascii.ascii_of_nat 10) ("Details: " +:+ stderrTrimmed).

(** A successful result, or the message of the error with the usage attached *)
Inductive CliVerdict :=
| verdict_ok (output : string) (chatId : option string) (usage : option TokenUsage)
| verdict_error (message : string) (usage : option TokenUsage).

(** [settle] of both engines; qoder collects no usage, so it has none to attach. *)
Definition settle_stream (engineName : string) (st : CcState) (exitCode : option Z) (stderr : string) : CliVerdict :=
  if cc_resultIsError st then
    verdict_error (or_text (cc_resultErrorText st) (or_text stderr (engineName +:+ " stream execution failed")))
      (cc_lastUsage st)
  else if cc_resultReceived st || bool_decide (exitCode = Some 0%Z) then
    verdict_ok (cc_outputBuffer st) (cc_sessionId st) (cc_lastUsage st)
  else verdict_error (formatExitError (default 1%Z exitCode) stderr) (cc_lastUsage st).

(** [runCliStream], once the process runner's promise has resolved; [usage] is
    what [getUsage] returns then. *)
Definition runCliStream (cliName path : string) (usage : option TokenUsage)
    (settle : option Z -> string -> CliVerdict) (processResult : CliProcessRunResult) (stderr : string) : CliVerdict :=
  match ProcessRunner.res_reason processResult with
  | exit_timeout => verdict_error (cliName +:+ " stream execution timed out") usage
  | exit_cancelled => verdict_error (cliName +:+ " stream execution cancelled") usage
  | exit_spawn_error =>
      let error := default (mkError "Error" "Unknown spawn error") (ProcessRunner.res_error processResult) in
      verdict_error
        (if decide (err_name error = "ENOENT")
         then cliName +:+ " CLI not found in PATH (" +:+ quoted path +:+ "). Please install it first."
         else cliName +:+ " spawn error: " +:+ err_message error) None
  | exit_completed => settle (ProcessRunner.res_exitCode processResult) stderr
  end.

(** A result of the pipeline is a settled success of a process that ended by
    itself. *)
Lemma runCliStream_ok cliName path u settle processResult stderr output chatId usage :
  runCliStream cliName path u settle processResult stderr = verdict_ok output chatId usage <->
  ProcessRunner.res_reason processResult = exit_completed /\
  settle (ProcessRunner.res_exitCode processResult) stderr = verdict_ok output chatId usage.
Proof.
  unfold runCliStream. destruct (ProcessRunner.res_reason processResult); [tauto|split; [done|by intros [? _]]..].
Qed.

(** ** Heartbeats *)

(** The tracker follows the names of the calls the parser waits for. *)
Record calls_tracked (st : CcState) : Prop := {
  ct_names id : rec_get (cc_toolNameByCallId st) id = fst <$> rec_get (hb_open (cc_heartbeat st)) id;
  ct_timer : hb_timer (cc_heartbeat st) = bool_decide (hb_open (cc_heartbeat st) <> []);
  ct_running : hb_stopped (cc_heartbeat st) = false;
  ct_wf : rec_wf (hb_open (cc_heartbeat st))
}.

Lemma map_put_nonempty {A} (o : js_record A) k v : map_put o k v <> [].
Proof.
  intros Hn. assert (rec_get (map_put o k v) k = None) as H by by rewrite Hn.
  rewrite rec_get_put, decide_True in H; done.
Qed.

Lemma tracked_started now id name st :
  calls_tracked st ->
  calls_tracked (with_calls (map_put (cc_toolNameByCallId st) id name) (onStarted now id name (cc_heartbeat st)) st).
Proof.
  intros [Hn Ht Hr Hw]. unfold onStarted. rewrite Hr. split; simpl; [|by rewrite bool_decide_eq_true_2 by apply map_put_nonempty|done|by apply map_put_wf].
  intros id'. rewrite !rec_get_put. by case_decide.
Qed.

Lemma tracked_settled id st :
  calls_tracked st ->
  calls_tracked (with_calls (rec_delete (cc_toolNameByCallId st) id) (onSettled id (cc_heartbeat st)) st).
Proof.
  intros [Hn Ht Hr Hw]. split; simpl; [|rewrite Ht|done|by apply rec_delete_wf].
  - intros id'. rewrite !rec_get_delete. by case_decide.
  - destruct (decide (hb_open (cc_heartbeat st) = [])) as [Hnil|Hnn].
    + rewrite Hnil. done.
    + rewrite (bool_decide_eq_true_2 _ Hnn). repeat case_bool_decide; done.
Qed.

Lemma tracked_same st st' :
  cc_toolNameByCallId st' = cc_toolNameByCallId st -> cc_heartbeat st' = cc_heartbeat st ->
  calls_tracked st -> calls_tracked st'.
Proof. intros Hn Hh [? ? ? ?]. split; rewrite ?Hn, ?Hh; done. Qed.

Lemma tracked_blocks f l st :
  (forall b st, calls_tracked st -> calls_tracked (f b st).2) ->
  calls_tracked st -> calls_tracked (each_block f l st).2.
Proof.
  intros Hf. revert st. induction l as [|b l IH]; intros st Hst; [done|]. cbn [each_block].
  destruct (as_object (Some b)) as [block|].
  - specialize (Hf block st Hst). destruct (f block st) as [o st1]. specialize (IH st1 Hf).
    by destruct (each_block f l st1).
  - specialize (IH st Hst). by destruct (each_block f l st).
Qed.

Lemma tracked_line json_parse collectUsage now line st :
  calls_tracked st -> calls_tracked (parseLine json_parse collectUsage now line st).2.
Proof.
  intros Hst. unfold parseLine. case_decide; [done|]. destruct (tryParseJson json_parse line) as [data|]; [|done].
  unfold parse_event. set (st1 := match announced data with Some id => with_session (Some id) st | None => st end).
  assert (calls_tracked st1) as H1.
  { apply (tracked_same st); [..|done]; unfold st1; by destruct (announced data). }
  clearbody st1. destruct (is_type data "system").
  { unfold parse_system. by destruct (bool_decide _). }
  destruct (is_type data "stream_event").
  { unfold parse_stream_event. repeat (case_match; [|done]). case_decide; [|done]. by apply (tracked_same st1). }
  destruct (is_type data "assistant").
  { apply tracked_blocks; [|done]. intros block st2 H2. unfold assistant_block.
    destruct (if is_type block "text" then _ else _) as [o st3] eqn:Hb.
    assert (calls_tracked st3) as H3.
    { revert Hb. repeat case_match; intros [= _ <-]; try done. by apply (tracked_same st2). }
    destruct (is_type block "tool_use"); [|done]. cbn [snd]. case_decide; [done|]. by apply tracked_started. }
  destruct (is_type data "user").
  { apply tracked_blocks; [|done]. intros block st2 H2. unfold user_block. destruct (negb _); [done|].
    case_decide; [done|]. by apply tracked_settled. }
  destruct (is_type data "result"); [by apply (tracked_same st1)|].
  destruct (is_type data "error"); [by apply (tracked_same st1)|done].
Qed.

Lemma tracked_lines json_parse collectUsage lines st :
  calls_tracked st -> calls_tracked (parse_lines json_parse collectUsage lines st).2.
Proof.
  revert st. induction lines as [|[now line] lines IH]; intros st Hst; [done|]. cbn [parse_lines].
  pose proof (tracked_line json_parse collectUsage now line st Hst) as H1.
  destruct (parseLine json_parse collectUsage now line st) as [o st1]. specialize (IH st1 H1).
  by destruct (parse_lines json_parse collectUsage lines st1).
Qed.

(** A heartbeat names a call the parser waits for, by the name it started under
    and the time since, and every call that has waited for an interval has one. *)
Lemma heartbeats_exact json_parse collectUsage initial lines intervalMs now id name elapsedMs :
  let st := (parse_lines json_parse collectUsage lines (createCcStreamParser initial)).2 in
  LToolHeartbeat id name elapsedMs now ∈ heartbeat_tick intervalMs now (cc_heartbeat st) <->
  rec_get (hb_open (cc_heartbeat st)) id = Some (name, (now - elapsedMs)%Z) /\
  rec_get (cc_toolNameByCallId st) id = Some name /\ (intervalMs <= 2 * elapsedMs)%Z.
Proof.
  cbn zeta. pose proof (tracked_lines json_parse collectUsage lines (createCcStreamParser initial)) as Ht.
  destruct Ht as [Hn Ht Hr Hw]; [by split; [| | |apply NoDup_nil]|].
  set (st := (parse_lines json_parse collectUsage lines (createCcStreamParser initial)).2) in *. clearbody st.
  rewrite Hn. unfold heartbeat_tick. rewrite Ht. case_bool_decide as Hopen.
  - rewrite list_elem_of_omap. split.
    + intros ([callId [toolName startedAt]] & Hin & Hb). case_match; [done|]. injection Hb as -> -> <-.
      rewrite (rec_in_get _ _ _ Hw Hin). split; [do 2 f_equal; lia|]. split; [done|]. lia.
    + intros (Hg & _ & Hle). exists (id, (name, (now - elapsedMs)%Z)). split; [by apply rec_get_in|].
      replace (now - (now - elapsedMs))%Z with elapsedMs by lia. by rewrite (proj2 (Z.ltb_ge _ _) Hle).
  - rewrite Hopen. split; [by intros ?%not_elem_of_nil|by intros (? & _)].
Qed.

(** ** What a stream says *)

(** The text a line adds to the reply *)
Definition block_text (b : json) : string :=
  match as_object (Some b) with
  | Some block => if is_type block "text" then default "" (as_string (obj_get block "text")) else ""
  | None => ""
  end.
Definition texts (l : list string) : string := foldr String.append "" l.
Definition event_text (data : js_object) : string :=
  if is_type data "stream_event" then
    let delta := opt_get (obj_get data "event") "delta" in
    if decide (as_string (opt_get delta "type") = Some "text_delta")
    then default "" (as_string (opt_get delta "text")) else ""
  else if is_type data "assistant" then texts (block_text <$> message_blocks data)
  else "".

(** The reply a result event states *)
Definition stated_reply (data : js_object) : option string :=
  if is_type data "result" then
    match as_string (obj_get data "result") with
    | Some s => if decide (s = "") then None else Some (trim s)
    | None => None
    end
  else None.

Definition is_result (data : js_object) : bool := is_type data "result".
Definition is_failure (data : js_object) : bool :=
  is_type data "error" || is_type data "result" && bool_decide (obj_get data "is_error" = Some (JBool true)).

(** The reply: what the last stated reply says, with the texts after it, or all
    the texts *)
Fixpoint reply (evs : list js_object) : string :=
  match evs with
  | [] => ""
  | data :: evs' =>
      if existsb (fun d => bool_decide (is_Some (stated_reply d))) evs' then reply evs'
      else default (event_text data) (stated_reply data) +:+ texts (event_text <$> evs')
  end.

(** The last value of an optional observation *)
Definition last_of {E A} (f : E -> option A) (initial : option A) (evs : list E) : option A :=
  foldl (fun acc d => match f d with Some x => Some x | None => acc end) initial evs.

Definition stated_usage (collectUsage : bool) (data : js_object) : option TokenUsage :=
  if is_result data && collectUsage then extractClaudeStyleUsage data else None.

Lemma is_type_only data a b : is_type data a = true -> a <> b -> is_type data b = false.
Proof.
  unfold is_type. intros Ha Hab. apply bool_decide_eq_true in Ha. apply bool_decide_eq_false. congruence.
Qed.

Lemma append_empty_r s : s +:+ "" = s.
Proof. induction s as [|c s IH]; [done|]. by rewrite append_cons, IH. Qed.

Lemma texts_app l k : texts (l ++ k) = texts l +:+ texts k.
Proof. induction l as [|s l IH]; [done|]. simpl. by rewrite IH, append_assoc. Qed.

(** The part of the state the verdict reads *)
Definition outcome_of (st : CcState) : option string * string * bool * bool * option TokenUsage :=
  (cc_sessionId st, cc_outputBuffer st, cc_resultReceived st, cc_resultIsError st, cc_lastUsage st).

Lemma assistant_blocks now l st :
  outcome_of (each_block (assistant_block now) l st).2 =
  (cc_sessionId st, cc_outputBuffer st +:+ texts (block_text <$> l), cc_resultReceived st, cc_resultIsError st,
   cc_lastUsage st).
Proof.
  revert st. induction l as [|b l IH]; intros st; cbn [each_block fmap list_fmap texts foldr].
  { unfold outcome_of. by rewrite append_empty_r. }
  unfold block_text at 1. destruct (as_object (Some b)) as [block|].
  - assert (outcome_of (assistant_block now block st).2 =
      (cc_sessionId st,
       cc_outputBuffer st +:+ (if is_type block "text" then default "" (as_string (obj_get block "text")) else ""),
       cc_resultReceived st, cc_resultIsError st, cc_lastUsage st)) as Hb.
    { unfold assistant_block, outcome_of. destruct (is_type block "text") eqn:Ht.
      - rewrite (is_type_only _ _ "tool_use" Ht) by done.
        destruct (as_string (obj_get block "text")) as [s|]; simpl; by rewrite ?append_empty_r.
      - destruct (is_type block "tool_use"); simpl; rewrite append_empty_r; [by case_decide|done]. }
    destruct (assistant_block now block st) as [o st1]. simpl in Hb. specialize (IH st1).
    destruct (each_block (assistant_block now) l st1) as [o' st2]. simpl in *. rewrite IH.
    unfold outcome_of in Hb. injection Hb as -> -> -> -> ->. by rewrite append_assoc.
  - specialize (IH st). destruct (each_block (assistant_block now) l st) as [o' st2]. simpl in *. by rewrite IH.
Qed.

Lemma user_blocks now l st : outcome_of (each_block (user_block now) l st).2 = outcome_of st.
Proof.
  revert st. induction l as [|b l IH]; intros st; [done|]. cbn [each_block].
  destruct (as_object (Some b)) as [block|].
  - assert (outcome_of (user_block now block st).2 = outcome_of st) as Hb.
    { unfold user_block. destruct (negb _); [done|]. by case_decide. }
    destruct (user_block now block st) as [o st1]. specialize (IH st1).
    destruct (each_block (user_block now) l st1). simpl in *. by rewrite IH, Hb.
  - specialize (IH st). by destruct (each_block (user_block now) l st).
Qed.

Section Verdict.
Context (json_parse : string -> option json) (collectUsage : bool).

Lemma event_outcome now data st :
  outcome_of (parse_event collectUsage now data st).2 =
  (match announced data with Some id => Some id | None => cc_sessionId st end,
   match stated_reply data with Some t => t | None => cc_outputBuffer st +:+ event_text data end,
   cc_resultReceived st || is_result data, cc_resultIsError st || is_failure data,
   match stated_usage collectUsage data with Some u => Some u | None => cc_lastUsage st end).
Proof.
  unfold parse_event. set (st1 := match announced data with Some id => with_session (Some id) st | None => st end).
  assert (outcome_of st1 = (match announced data with Some id => Some id | None => cc_sessionId st end,
    cc_outputBuffer st, cc_resultReceived st, cc_resultIsError st, cc_lastUsage st)) as H1
    by (unfold st1; by destruct (announced data)).
  clearbody st1. unfold outcome_of in H1. injection H1 as Hse Hbu Hre Her Hus.
  unfold stated_reply, event_text, is_failure, stated_usage, is_result.
  destruct (is_type data "system") eqn:Hsys.
  { rewrite !(is_type_only _ _ _ Hsys) by done. rewrite append_empty_r, !orb_false_r. unfold parse_system.
    destruct (bool_decide _); unfold outcome_of; simpl; congruence. }
  destruct (is_type data "stream_event") eqn:Hev.
  { rewrite !(is_type_only _ _ _ Hev) by done. rewrite !orb_false_r. unfold parse_stream_event, outcome_of. simpl.
    destruct (as_string (opt_get (opt_get (obj_get data "event") "delta") "type")) as [t|].
    - destruct (as_string (opt_get (opt_get (obj_get data "event") "delta") "text")) as [s|].
      + repeat case_decide; simplify_eq; simpl; rewrite ?append_empty_r; congruence.
      + case_decide; simpl; rewrite append_empty_r; congruence.
    - rewrite decide_False by done. simpl. rewrite append_empty_r. congruence. }
  destruct (is_type data "assistant") eqn:Has.
  { rewrite !(is_type_only _ _ _ Has) by done. rewrite !orb_false_r, assistant_blocks. simpl. congruence. }
  destruct (is_type data "user") eqn:Hu.
  { rewrite !(is_type_only _ _ _ Hu) by done. rewrite !orb_false_r, append_empty_r, user_blocks.
    unfold outcome_of. simpl. congruence. }
  destruct (is_type data "result") eqn:Hr.
  { rewrite !(is_type_only _ _ _ Hr) by done. unfold parse_result, outcome_of. cbn [snd cc_sessionId cc_outputBuffer
      cc_resultReceived cc_resultIsError cc_lastUsage andb orb]. rewrite orb_true_r, append_empty_r, Hse, Hbu, Hus, Her.
    rewrite (orb_comm (bool_decide _)).
    destruct (as_string (obj_get data "result")) as [s|], collectUsage; cbn [default]; repeat case_decide;
      unfold default, id; simpl; by rewrite ?append_empty_r, ?andb_true_l, ?andb_false_r. }
  destruct (is_type data "error") eqn:He; unfold outcome_of; simpl; rewrite append_empty_r, ?orb_true_r, ?orb_false_r; congruence.
Qed.

(** The events of a stream: the lines that hold an object *)
Definition events (lines : list (Z * string)) : list js_object :=
  omap (fun '(_, line) => if decide (trim line = "") then None else tryParseJson json_parse line) lines.

Definition replied (evs : list js_object) : bool :=
  existsb (fun d => bool_decide (is_Some (stated_reply d))) evs.

Definition reply_from (buffer : string) (evs : list js_object) : string :=
  if replied evs then reply evs else buffer +:+ texts (event_text <$> evs).

Lemma reply_from_cons buffer data evs :
  reply_from buffer (data :: evs) =
  reply_from (match stated_reply data with Some t => t | None => buffer +:+ event_text data end) evs.
Proof.
  unfold reply_from, replied. cbn [existsb reply fmap list_fmap texts foldr].
  destruct (existsb _ evs) eqn:Hevs; [by rewrite orb_true_r|]. rewrite orb_false_r.
  destruct (stated_reply data) as [t|]; simpl; [done|]. by rewrite append_assoc.
Qed.

Lemma lines_outcome lines st :
  let evs := events lines in
  outcome_of (parse_lines json_parse collectUsage lines st).2 =
  (last_of announced (cc_sessionId st) evs, reply_from (cc_outputBuffer st) evs,
   cc_resultReceived st || existsb is_result evs, cc_resultIsError st || existsb is_failure evs,
   last_of (stated_usage collectUsage) (cc_lastUsage st) evs).
Proof.
  revert st. induction lines as [|[now line] lines IH]; intros st; cbn zeta.
  { unfold outcome_of, reply_from. simpl. by rewrite append_empty_r, !orb_false_r. }
  cbn [parse_lines]. unfold parseLine, events. cbn [omap list_omap].
  destruct (decide (trim line = "")); [|destruct (tryParseJson json_parse line) as [data|]].
  1, 3: specialize (IH st); destruct (parse_lines json_parse collectUsage lines st); exact IH.
  pose proof (event_outcome now data st) as Hev.
  destruct (parse_event collectUsage now data st) as [o st1]. specialize (IH st1).
  destruct (parse_lines json_parse collectUsage lines st1) as [o' st2]. simpl in IH, Hev |- *. rewrite IH.
  unfold outcome_of in Hev. injection Hev as -> -> -> -> ->. unfold last_of. simpl. rewrite reply_from_cons.
  by rewrite !orb_assoc.
Qed.

(** C17. An execution succeeds exactly when its process ended by itself, no event
    of its stream reports an error, however the later ones end, and the stream
    states a result or the process exited with 0; and then the answer is the
    last stated reply with what was said after it, or else everything the
    assistant said, in the session the stream announced last and with the usage
    it stated last.  Nothing else of the stream, the output of tools in
    particular, has a part in it. *)
Theorem stream_verdict_exact (initial : option string) (lines : list (Z * string))
    (cliName engineName path stderr : string) (processResult : CliProcessRunResult)
    (output : string) (chatId : option string) (usage : option TokenUsage) :
  let st := (parse_lines json_parse collectUsage lines (createCcStreamParser initial)).2 in
  let evs := events lines in
  runCliStream cliName path (cc_lastUsage st) (settle_stream engineName st) processResult stderr
    = verdict_ok output chatId usage <->
  ProcessRunner.res_reason processResult = exit_completed /\
  existsb is_failure evs = false /\
  (existsb is_result evs = true \/ ProcessRunner.res_exitCode processResult = Some 0%Z) /\
  output = reply evs /\ chatId = last_of announced initial evs /\
  usage = last_of (stated_usage collectUsage) None evs.
Proof.
  cbn zeta. pose proof (lines_outcome lines (createCcStreamParser initial)) as Ho. cbn zeta in Ho.
  set (st := (parse_lines json_parse collectUsage lines (createCcStreamParser initial)).2) in *. clearbody st.
  set (evs := events lines) in *. clearbody evs. simpl in Ho. unfold outcome_of in Ho.
  injection Ho as Hse Hbu Hre Her Hus.
  assert (reply_from "" evs = reply evs) as Hreply.
  { unfold reply_from. destruct (replied evs) eqn:Hevs; [reflexivity|]. destruct evs as [|d evs]; [reflexivity|].
    unfold replied in Hevs. cbn [existsb reply] in Hevs |- *. apply orb_false_iff in Hevs as [Hd ->]. apply bool_decide_eq_false in Hd.
    destruct (stated_reply d); [exfalso; apply Hd; by eexists|reflexivity]. }
  rewrite Hreply in Hbu. rewrite runCliStream_ok. unfold settle_stream. rewrite Her, Hre, Hbu, Hse, Hus.
  apply and_iff_compat_l.
  destruct (existsb is_failure evs); [split; [done|by intros (? & _)]|].
  destruct (existsb is_result evs); simpl.
  - split; [intros [= <- <- <-]; auto 10|]. by intros (_ & _ & -> & -> & ->).
  - case_bool_decide as Hx; [split; [intros [= <- <- <-]; auto 10|]; by intros (_ & _ & -> & -> & ->)|].
    split; [done|]. by intros (_ & [? | ?] & _).
Qed.
End Verdict.
