(* ===== verification/CodexStream.v ===== *)
(** * The event stream of the Codex engine

    engine/codex-stream-parser.ts, mapCodexUsage of usage.ts and the closure of
    codex-agent.ts that interprets the events and settles the execution.
    [JSON.parse] and [JSON.stringify] are parameters.  The names, ids and texts
    of an event are strings where they are present and its counts integers; one
    of another type counts as absent.  The statistics of the messages, which are
    only logged, are left out. *)
From S2P Require Import Prelude Json Records Schema ExecuteRetry ProcessRunner CcStream.

(** ** codex-stream-parser.ts *)

Inductive Phase := phase_started | phase_updated | phase_completed.

Record CodexUsage := mkCodexUsage {
  cu_inputTokens : option Z;
  cu_cachedInputTokens : option Z;
  cu_outputTokens : option Z
}.

Inductive ParsedCodexEvent :=
| ev_non_json
| ev_unknown (msgType : string) (subtype : option string)
| ev_session (chatId : string)
| ev_turn_started
| ev_turn_completed (usage : option CodexUsage)
| ev_result_other (error : option string)
| ev_assistant_text (text : string)
| ev_tool_call (toolName callId : string) (input : option js_object) (subtype : string)
    (error : option string) (metadata : option js_object) (output : option string)
| ev_error (message : string).

(** The first text from the back that is not blank, trimmed *)
Fixpoint last_nonblank (texts : list string) : string :=
  match texts with
  | [] => ""
  | t :: texts' => or_text (last_nonblank texts') (trim t)
  end.

Definition composeCodexAssistantOutput (texts : list string) (cleanResult : bool) : string :=
  if cleanResult then last_nonblank texts else String.concat (String (Ascii.ascii_of_nat 10) "") texts.

Definition non_empty (s : string) : option string := if decide (s = "") then None else Some s.

(** [Object.keys(o).length > 0 ? o : undefined] *)
Definition some_keys (o : js_object) : option js_object := match o with [] => None | _ => Some o end.

(** [value && typeof value === 'object'] *)
Definition object_or_array (v : option json) : option json :=
  match v with Some (JObj o) => Some (JObj o) | Some (JArr l) => Some (JArr l) | _ => None end.

Definition parseCommandItem (item : js_object) (completed : bool) : ParsedCodexEvent :=
  let str k := as_string (obj_get item k) in
  let toolName :=
    if decide (str "type" = Some "mcp_tool_call")
    then text_or (obj_get item "tool") (text_or (obj_get item "name") "mcp") else "shell" in
  let rawInput :=
    obj_set_opt
      (obj_set_opt (obj_set_opt [] "command" (JStr <$> str "command")) "tool" (JStr <$> str "tool"))
      "arguments" (object_or_array (obj_get item "arguments")) in
  let failed := completed && bool_decide (str "status" ∈ [Some "failed"; Some "error"]) in
  ev_tool_call toolName (text_or (obj_get item "id") "") (some_keys rawInput)
    (if completed then if failed then "failed" else "completed" else "started")
    (if failed then str "error" ≫= non_empty else None)
    (if completed then (fun n => [("exit_code", JNum n)]) <$> as_number (obj_get item "exit_code") else None)
    (if completed then toolResultText (obj_get item "aggregated_output") else None).

Definition GENERIC_ITEMS : list string := ["file_change"; "plan_update"; "web_search"].

Definition parseItemEvent (data : js_object) (phase : Phase) : list ParsedCodexEvent :=
  match obj_get data "item" with
  | Some (JArr _) => [ev_unknown "item" (Some "unknown")]
  | Some (JObj item) =>
      let itemType := text_or (obj_get item "type") "unknown" in
      if decide (itemType = "agent_message") then
        match phase with
        | phase_completed =>
            match as_string (obj_get item "text") ≫= non_empty with
            | Some text => [ev_assistant_text text]
            | None => []
            end
        | _ => []
        end
      else if decide (itemType = "command_execution" \/ itemType = "mcp_tool_call") then
        match phase with
        | phase_updated => []
        | phase_started => [parseCommandItem item false]
        | phase_completed => [parseCommandItem item true]
        end
      else if decide (itemType = "reasoning") then []
      else if decide (itemType ∈ GENERIC_ITEMS) then
        match phase with
        | phase_updated => []
        | phase_started => [ev_tool_call itemType (text_or (obj_get item "id") "") None "started" None None None]
        | phase_completed => [ev_tool_call itemType (text_or (obj_get item "id") "") None "completed" None None None]
        end
      else [ev_unknown "item" (Some itemType)]
  | _ => []
  end.

Definition extractUsage (data : js_object) : option CodexUsage :=
  match obj_get data "usage" with
  | Some (JObj u) =>
      match as_integer (obj_get u "input_tokens"), as_integer (obj_get u "cached_input_tokens"),
            as_integer (obj_get u "output_tokens") with
      | None, None, None => None
      | i, c, o => Some (mkCodexUsage i c o)
      end
  | _ => None
  end.

Definition mapCodexUsage (u : option CodexUsage) : option TokenUsage :=
  match u with
  | None | Some (mkCodexUsage None None None) => None
  | Some (mkCodexUsage input cached output) =>
      Some (mkUsage
        ((fun i => match cached with Some c => Z.max 0 (i - c) | None => i end) <$> input)
        output None cached None)
  end.

(** A string, the value of its key, or the key of its [error] object *)
Definition string_at (o : js_object) (k : string) : option string := as_string (obj_get o k) ≫= non_empty.

Section Codex.
Context (json_parse : string -> option json) (json_stringify : json -> string).

Definition extractErrorMessage (raw : option json) : option string :=
  match raw with
  | None | Some JNull => None
  | Some (JStr s) => non_empty s
  | Some (JObj o) =>
      match string_at o "message", string_at o "error", as_object (obj_get o "error") ≫= fun e => string_at e "message" with
      | Some m, _, _ => Some m
      | _, Some e, _ => Some e
      | _, _, Some m => Some m
      | _, _, _ => Some (json_stringify (JObj o))
      end
  | Some v => Some (json_stringify v)
  end.

(** The events of a parsed object *)
Definition codex_events (data : js_object) : list ParsedCodexEvent :=
  match as_string (obj_get data "type") with
  | None => []
  | Some msgType =>
      if decide (msgType = "thread.started") then
        match string_at data "thread_id" with Some threadId => [ev_session threadId] | None => [] end
      else if decide (msgType = "thread.error") then
        [ev_error (or_text (default "" (extractErrorMessage (obj_get data "error")))
                     (or_text (default "" (extractErrorMessage (obj_get data "message"))) "Unknown thread error"))]
      else if decide (msgType = "turn.started") then [ev_turn_started]
      else if decide (msgType = "turn.completed") then [ev_turn_completed (extractUsage data)]
      else if decide (msgType = "turn.failed") then
        [ev_result_other ((match extractErrorMessage (obj_get data "error") with
                           | Some m => Some m
                           | None => extractErrorMessage (obj_get data "message")
                           end) ≫= non_empty)]
      else if decide (msgType = "item.started") then parseItemEvent data phase_started
      else if decide (msgType = "item.updated") then parseItemEvent data phase_updated
      else if decide (msgType = "item.completed") then parseItemEvent data phase_completed
      else if decide (msgType = "") then [] else [ev_unknown msgType None]
  end.

(** [None] where it throws: [data.type] of the value [null] *)
Definition parseCodexStreamLine (line : string) : option (list ParsedCodexEvent) :=
  match json_parse line with
  | None => Some [ev_non_json]
  | Some JNull => None
  | Some (JObj data) => Some (codex_events data)
  | Some _ => Some []
  end.

(** ** codex-agent.ts *)

Definition truncate (s : string) (maxLen : nat) : string :=
  if (String.length s <=? maxLen)%nat then s else String.substring 0 maxLen s +:+ "...".

(** The variables of the closure *)
Record CodexState := mkCodex {
  cx_sessionId : option string;
  cx_outputBuffer : string;
  cx_assistantTexts : list string;
  cx_resultReceived : bool;
  cx_resultIsError : bool;
  cx_resultErrorText : string;
  cx_lastUsage : option TokenUsage;
  cx_heartbeat : Heartbeat
}.

Definition codex_start (inputChatId : option string) : CodexState :=
  mkCodex inputChatId "" [] false false "" None createHeartbeatTracker.

Section Engine.
Context (model : string) (cleanResult fastMode : bool) (streamStartedAt : Z).

Definition codex_event (now : Z) (ev : ParsedCodexEvent) (st : CodexState) : list CcOut * CodexState :=
  let '(mkCodex se buf texts rr err et us hb) := st in
  match ev with
  | ev_non_json | ev_turn_started | ev_unknown _ _ => ([], st)
  | ev_session chatId =>
      ([out_log (LSystem "init" (non_empty model) None None None now)],
       mkCodex (Some chatId) buf texts rr err et us hb)
  | ev_turn_completed usage =>
      let us' := match mapCodexUsage usage with Some u => Some u | None => us end in
      ([out_log (LResult "success" (Some (now - streamStartedAt)%Z) us'
          (if fastMode then Some "requested" else None) now)],
       mkCodex se buf texts true err et us' hb)
  | ev_result_other error =>
      ([out_log (LResult "error" (Some (now - streamStartedAt)%Z) None None now)],
       mkCodex se buf texts true true (default "Codex turn failed" error) us hb)
  | ev_assistant_text text =>
      let texts' := texts ++ [text] in
      let buf' := composeCodexAssistantOutput texts' cleanResult in
      ([out_update buf'; out_log (LAssistant text false now)], mkCodex se buf' texts' rr err et us hb)
  | ev_tool_call toolName callId input subtype error metadata output =>
      ([out_log (LToolCall subtype callId toolName input error metadata output now)],
       mkCodex se buf texts rr err et us
         (if decide (callId = "") then hb
          else if decide (subtype = "started") then onStarted now callId toolName hb else onSettled callId hb))
  | ev_error message =>
      ([out_log (LError (truncate message 500) now)], mkCodex se buf texts rr err message us hb)
  end.

Fixpoint codex_each (now : Z) (evs : list ParsedCodexEvent) (st : CodexState) : list CcOut * CodexState :=
  match evs with
  | [] => ([], st)
  | ev :: evs' =>
      let '(o, st1) := codex_event now ev st in
      let '(o', st2) := codex_each now evs' st1 in
      (o ++ o', st2)
  end.

(** [parseLine] of the engine *)
Definition codex_line (now : Z) (line : string) (st : CodexState) : option (list CcOut * CodexState) :=
  if decide (trim line = "") then Some ([], st)
  else evs ← parseCodexStreamLine line; Some (codex_each now evs st).

Fixpoint codex_lines (lines : list (Z * string)) (st : CodexState) : option (list CcOut * CodexState) :=
  match lines with
  | [] => Some ([], st)
  | (now, line) :: lines' =>
      '(o, st1) ← codex_line now line st;
      '(o', st2) ← codex_lines lines' st1;
      Some (o ++ o', st2)
  end.
End Engine.
End Codex.

Definition settle_codex (st : CodexState) (exitCode : option Z) (stderr : string) : CliVerdict :=
  if cx_resultIsError st then
    verdict_error (or_text (cx_resultErrorText st) (or_text stderr "Codex returned an error")) (cx_lastUsage st)
  else if cx_resultReceived st then verdict_ok (cx_outputBuffer st) (cx_sessionId st) (cx_lastUsage st)
  else if decide (exitCode = Some 0%Z) then
    verdict_error "codex exited without producing a result (exit 0, no turn.completed)" (cx_lastUsage st)
  else verdict_error (formatExitError (default 1%Z exitCode) stderr) (cx_lastUsage st).

(** ** What a stream says *)

Definition said (ev : ParsedCodexEvent) : option string :=
  match ev with ev_assistant_text text => Some text | _ => None end.
Definition thread_of (ev : ParsedCodexEvent) : option string :=
  match ev with ev_session chatId => Some chatId | _ => None end.
Definition turn_usage (ev : ParsedCodexEvent) : option TokenUsage :=
  match ev with ev_turn_completed usage => mapCodexUsage usage | _ => None end.
Definition turn_over (ev : ParsedCodexEvent) : bool :=
  match ev with ev_turn_completed _ | ev_result_other _ => true | _ => false end.
Definition turn_failed (ev : ParsedCodexEvent) : bool :=
  match ev with ev_result_other _ => true | _ => false end.

(** The cached part of the input is counted once: what is stored for it and for
    the rest is the input Codex reports. *)
Lemma mapCodexUsage_total i c o :
  (0 <= c <= i)%Z ->
  exists u, mapCodexUsage (Some (mkCodexUsage (Some i) (Some c) o)) = Some u /\
    inputTokens u = Some (i - c)%Z /\ cacheReadTokens u = Some c /\ outputTokens u = o.
Proof. intros H. eexists. split; [reflexivity|]. simpl. split; [f_equal; lia|done]. Qed.

(** A clean result is what the agent said last: later blank frames do not
    replace it. *)
Lemma clean_result_last texts t blanks :
  trim t <> "" -> Forall (fun b => trim b = "") blanks ->
  composeCodexAssistantOutput (texts ++ t :: blanks) true = trim t.
Proof.
  intros Ht Hb. unfold composeCodexAssistantOutput. induction texts as [|x texts IH]; simpl.
  - assert (last_nonblank blanks = "") as ->.
    { induction Hb as [|b blanks Hx Hb IH]; [done|]. simpl. by rewrite IH, Hx. }
    done.
  - rewrite IH. unfold or_text. by rewrite decide_False.
Qed.

Section Verdict.
Context (json_parse : string -> option json) (json_stringify : json -> string).
Context (model : string) (cleanResult fastMode : bool) (streamStartedAt : Z).

(** The events of the lines, up to one that cannot be read *)
Fixpoint codex_stream (lines : list (Z * string)) : option (list ParsedCodexEvent) :=
  match lines with
  | [] => Some []
  | (_, line) :: lines' =>
      evs ← (if decide (trim line = "") then Some [] else parseCodexStreamLine json_parse json_stringify line);
      evs' ← codex_stream lines';
      Some (evs ++ evs')
  end.

(** The variables as the events leave them *)
Definition codex_follows (st : CodexState) (evs : list ParsedCodexEvent) (st' : CodexState) : Prop :=
  cx_sessionId st' = last_of thread_of (cx_sessionId st) evs /\
  cx_assistantTexts st' = cx_assistantTexts st ++ omap said evs /\
  cx_resultReceived st' = cx_resultReceived st || existsb turn_over evs /\
  cx_resultIsError st' = cx_resultIsError st || existsb turn_failed evs /\
  cx_lastUsage st' = last_of turn_usage (cx_lastUsage st) evs /\
  (cx_outputBuffer st = composeCodexAssistantOutput (cx_assistantTexts st) cleanResult ->
   cx_outputBuffer st' = composeCodexAssistantOutput (cx_assistantTexts st') cleanResult).

Lemma codex_follows_nil st : codex_follows st [] st.
Proof. repeat split; rewrite ?orb_false_r, ?app_nil_r; done. Qed.

Lemma last_of_app {A B} (f : A -> option B) initial l k : last_of f initial (l ++ k) = last_of f (last_of f initial l) k.
Proof. apply foldl_app. Qed.

Lemma codex_follows_app st evs st1 evs' st2 :
  codex_follows st evs st1 -> codex_follows st1 evs' st2 -> codex_follows st (evs ++ evs') st2.
Proof.
  intros (H1 & H2 & H3 & H4 & H5 & H6) (K1 & K2 & K3 & K4 & K5 & K6). unfold codex_follows.
  rewrite K1, K2, K3, K4, K5, H1, H2, H3, H4, H5, !last_of_app, !existsb_app, omap_app, !orb_assoc, app_assoc.
  repeat split; try done. intros Hb. rewrite <- app_assoc, <- omap_app, omap_app, app_assoc, <- H2, <- K2. auto.
Qed.

Lemma codex_event_follows now ev st :
  codex_follows st [ev] (codex_event model cleanResult fastMode streamStartedAt now ev st).2.
Proof.
  destruct st, ev; simpl; repeat split; simpl; rewrite ?orb_false_r, ?orb_true_r, ?app_nil_r; done.
Qed.

Lemma codex_each_follows now evs st :
  codex_follows st evs (codex_each model cleanResult fastMode streamStartedAt now evs st).2.
Proof.
  revert st. induction evs as [|ev evs IH]; intros st; [apply codex_follows_nil|]. cbn [codex_each].
  pose proof (codex_event_follows now ev st) as H1.
  destruct (codex_event model cleanResult fastMode streamStartedAt now ev st) as [o st1]. specialize (IH st1).
  destruct (codex_each model cleanResult fastMode streamStartedAt now evs st1) as [o' st2].
  exact (codex_follows_app _ [ev] _ _ _ H1 IH).
Qed.

Lemma codex_lines_follow lines st :
  match codex_lines json_parse json_stringify model cleanResult fastMode streamStartedAt lines st,
        codex_stream lines with
  | Some (_, st'), Some evs => codex_follows st evs st'
  | None, None => True
  | _, _ => False
  end.
Proof.
  revert st. induction lines as [|[now line] lines IH]; intros st; [apply codex_follows_nil|].
  cbn [codex_lines codex_stream]. unfold codex_line.
  destruct (decide (trim line = "")); [|destruct (parseCodexStreamLine json_parse json_stringify line) as [evs|]]; cbn.
  - specialize (IH st). by destruct (codex_lines _ _ _ _ _ _ lines st) as [[o st2]|], (codex_stream lines) as [evs'|].
  - pose proof (codex_each_follows now evs st) as H1.
    destruct (codex_each model cleanResult fastMode streamStartedAt now evs st) as [o st1]. cbn. specialize (IH st1).
    destruct (codex_lines _ _ _ _ _ _ lines st1) as [[o' st2]|], (codex_stream lines) as [evs'|]; try done.
    cbn. eapply codex_follows_app; done.
  - done.
Qed.

Lemma codex_stream_None lines :
  codex_stream lines = None <->
  exists now line, (now, line) ∈ lines /\ trim line <> "" /\ json_parse line = Some JNull.
Proof.
  induction lines as [|[now line] lines IH]; cbn [codex_stream].
  { split; [done|]. by intros (? & ? & ?%not_elem_of_nil & _). }
  assert ((if decide (trim line = "") then Some [] else parseCodexStreamLine json_parse json_stringify line) = None
          <-> trim line <> "" /\ json_parse line = Some JNull) as Hline.
  { unfold parseCodexStreamLine. case_decide; [naive_solver|].
    destruct (json_parse line) as [[]|]; naive_solver. }
  destruct (if decide _ then _ else _) as [evs|]; cbn.
  - destruct (codex_stream lines) as [evs'|]; cbn.
    + split; [done|]. intros (n & l & Hin & Hl). apply elem_of_cons in Hin as [[= -> ->]|Hin].
      * by apply Hline in Hl.
      * discriminate (proj2 IH (ex_intro _ n (ex_intro _ l (conj Hin Hl)))).
    + split; [intros _|done]. destruct (proj1 IH eq_refl) as (n & l & Hin & Hl).
      exists n, l. split; [by right|done].
  - split; [intros _|done]. exists now, line. split; [by left|]. by apply Hline.
Qed.

(** C18. The lines of a Codex execution are read up to one that holds the JSON
    value null, which no other value or text is mistaken for; without one, the
    execution succeeds exactly when its process ended by itself, a turn was
    completed and none failed, whatever the exit code and the errors of the
    thread.  The answer is composed of everything the agent said, in order, in
    the thread announced last and with the usage of the last turn that states
    it. *)
Theorem codex_verdict_exact (initial : option string) (lines : list (Z * string))
    (cliName path stderr : string) (processResult : CliProcessRunResult)
    (output : string) (chatId : option string) (usage : option TokenUsage) :
  match codex_lines json_parse json_stringify model cleanResult fastMode streamStartedAt lines (codex_start initial),
        codex_stream lines with
  | Some (_, st), Some evs =>
      runCliStream cliName path (cx_lastUsage st) (settle_codex st) processResult stderr
        = verdict_ok output chatId usage <->
      ProcessRunner.res_reason processResult = exit_completed /\
      existsb turn_failed evs = false /\ existsb turn_over evs = true /\
      output = composeCodexAssistantOutput (omap said evs) cleanResult /\
      chatId = last_of thread_of initial evs /\ usage = last_of turn_usage None evs
  | None, None => exists now line, (now, line) ∈ lines /\ trim line <> "" /\ json_parse line = Some JNull
  | _, _ => False
  end.
Proof.
  pose proof (codex_lines_follow lines (codex_start initial)) as Hf.
  pose proof (codex_stream_None lines) as Hn.
  destruct (codex_lines _ _ _ _ _ _ lines (codex_start initial)) as [[o st]|], (codex_stream lines) as [evs|];
    try done; [|by apply Hn].
  destruct Hf as (Hse & Hte & Hre & Her & Hus & Hbu). cbn in Hse, Hte, Hre, Her, Hus, Hbu.
  rewrite runCliStream_ok. apply and_iff_compat_l. unfold settle_codex.
  rewrite Hbu by (by destruct cleanResult). rewrite Hte, Hre, Her, Hse, Hus.
  destruct (existsb turn_failed evs); [split; [done|by intros (? & _)]|].
  destruct (existsb turn_over evs); [|by case_decide; (split; [done|intros (_ & ? & _)])].
  split; [intros [= <- <- <-]; auto 10|]. by intros (_ & _ & -> & -> & ->).
Qed.
End Verdict.

(** No item announces a session. *)
Lemma item_no_session data phase id : ev_session id ∉ parseItemEvent data phase.
Proof.
  unfold parseItemEvent. destruct (obj_get data "item") as [[| | | | |item]|]; try apply not_elem_of_nil.
  { by intros ?%list_elem_of_singleton. }
  repeat case_decide; destruct phase; try apply not_elem_of_nil; try (by intros ?%list_elem_of_singleton).
  destruct (as_string (obj_get item "text") ≫= non_empty); [by intros ?%list_elem_of_singleton|apply not_elem_of_nil].
Qed.

(** A session comes from the start of a thread only. *)
Lemma session_from_thread json_stringify data id :
  ev_session id ∈ codex_events json_stringify data ->
  as_string (obj_get data "type") = Some "thread.started" /\ string_at data "thread_id" = Some id.
Proof.
  unfold codex_events. destruct (as_string (obj_get data "type")) as [ty|]; [|by intros ?%not_elem_of_nil].
  case_decide as Hty.
  { destruct (string_at data "thread_id"); [|by intros ?%not_elem_of_nil].
    intros H%list_elem_of_singleton. injection H as ->. by subst. }
  repeat case_decide; intros Hin; exfalso; revert Hin;
    try apply item_no_session; try apply not_elem_of_nil; by intros ?%list_elem_of_singleton.
Qed.

(** A line holding the value null makes the parser throw, and the process runner
    fails the run for it. *)
Lemma null_line_throws json_parse json_stringify model cleanResult fastMode t0 now line st :
  trim line <> "" -> json_parse line = Some JNull ->
  codex_line json_parse json_stringify model cleanResult fastMode t0 now line st = None.
Proof. intros Ht Hj. unfold codex_line, parseCodexStreamLine. by rewrite decide_False, Hj. Qed.
