(* ===== verification/LiveSession.v ===== *)
(** * The session of a run that is still executing

    engine/live-session-id.ts, engine/live-session-tap.ts and
    lib/live-session-recorder.ts with the task ids of engine/task-id.ts and
    extractRunId of engine/runtime-context.ts: every line a command line client
    prints is searched for its session, and the session and the fact that the
    client started are written to the run, where Resume.v reads them after a
    crash.  The writes are those of Resume.v, with the writes of other clients
    in between; the promises of the tap are steps of their own, in any order. *)
From Stdlib Require Import Ascii.
From S2P Require Import Prelude Json Records Schema World Resume ExecuteRetry ProcessRunner CcStream CodexStream.

(** ** task-id.ts, extractRunId *)

Definition TASK_ID_PREFIXES : list string := [""; "chat/"; "feishu/"; "invoke/"].

Definition buildTaskId (prefix runId stepId : string) : string := prefix +:+ runId +:+ "/" +:+ stepId.

Definition allTaskIdVariants (runId stepId : string) : list string :=
  (fun p => buildTaskId p runId stepId) <$> TASK_ID_PREFIXES.

(** The parts of [s] between slashes *)
Fixpoint segments (s : string) : list string :=
  match s with
  | "" => [""]
  | String c s' =>
      if Ascii.eqb c "/"%char then "" :: segments s'
      else match segments s' with
           | seg :: segs => String c seg :: segs
           | [] => [String c ""]
           end
  end.

(** [taskId.match(/(?:^|\/)(run_[^/]+)/)?.[1] ?? taskId] *)
Definition extractRunId (taskId : string) : string :=
  default taskId (find (fun seg => String.prefix "run_" seg && (4 <? String.length seg)%nat) (segments taskId)).

(** ** live-session-id.ts *)

Definition TYPE_SCOPED_SESSION_KEYS (type : string) : option string :=
  match type with
  | "session" => Some "id"
  | "thread.started" => Some "thread_id"
  | _ => None
  end.

Definition GLOBAL_SESSION_KEYS : list string := ["session_id"; "chat_id"; "sessionID"; "sessionId"].

Definition readStringField (record : js_object) (key : string) : option string :=
  as_string (obj_get record key) ≫= non_empty.

Fixpoint first_field (record : js_object) (keys : list string) : option string :=
  match keys with
  | [] => None
  | k :: keys' => match readStringField record k with Some v => Some v | None => first_field record keys' end
  end.

(** An array has none of the keys. *)
Definition session_of_record (record : js_object) : option string :=
  match (as_string (obj_get record "type") ≫= TYPE_SCOPED_SESSION_KEYS) ≫= readStringField record with
  | Some scoped => Some scoped
  | None => first_field record GLOBAL_SESSION_KEYS
  end.

Section Extract.
Context (json_parse : string -> option json).

Definition extractLiveSessionId (line : string) : option string :=
  let trimmed := trim line in
  if String.prefix "{" trimmed then
    match json_parse trimmed with Some (JObj record) => session_of_record record | _ => None end
  else None.

(** ** live-session-recorder.ts and live-session-tap.ts *)

(** The variables of the two closures, the ids whose [persist] is in flight, how
    many records have settled with their continuation still to run, and the
    writes of the start mark in flight *)
Record Tap := mkTap {
  tap_recorded : option string;
  tap_runGone : bool;
  tap_sessionRecorded : bool;
  tap_startMarked : bool;
  tap_persisting : list string;
  tap_continuations : nat;
  tap_marking : nat
}.

Definition tap_start : Tap := mkTap None false false false [] 0 0.

Definition continue_tap (t : Tap) : Tap :=
  mkTap (tap_recorded t) (tap_runGone t) (tap_sessionRecorded t) (tap_startMarked t) (tap_persisting t)
    (S (tap_continuations t)) (tap_marking t).

(** [record(line)], up to its await *)
Definition record (line : string) (t : Tap) : Tap :=
  if tap_runGone t then continue_tap t
  else match extractLiveSessionId line with
       | None => continue_tap t
       | Some sessionId =>
           if decide (Some sessionId = tap_recorded t) then continue_tap t
           else mkTap (tap_recorded t) (tap_runGone t) (tap_sessionRecorded t) (tap_startMarked t)
                  (tap_persisting t ++ [sessionId]) (tap_continuations t) (tap_marking t)
       end.

(** What is left of a [record] once its [persist] has returned [outcome], [None]
    when it threw *)
Definition persisted (k : nat) (sessionId : string) (outcome : option bool) (t : Tap) : Tap :=
  let rest := delete k (tap_persisting t) in
  match outcome with
  | Some true =>
      mkTap (Some sessionId) (tap_runGone t) true (tap_startMarked t) rest (S (tap_continuations t)) (tap_marking t)
  | Some false =>
      mkTap (tap_recorded t) true (tap_sessionRecorded t) (tap_startMarked t) rest (S (tap_continuations t))
        (tap_marking t)
  | None =>
      mkTap (tap_recorded t) (tap_runGone t) (tap_sessionRecorded t) (tap_startMarked t) rest
        (S (tap_continuations t)) (tap_marking t)
  end.

(** The continuation after a [record]: it starts the mark, once. *)
Definition continuation (t : Tap) : Tap :=
  match tap_continuations t with
  | 0 => t
  | S n =>
      if tap_startMarked t || tap_sessionRecorded t then
        mkTap (tap_recorded t) (tap_runGone t) (tap_sessionRecorded t) (tap_startMarked t) (tap_persisting t) n
          (tap_marking t)
      else
        mkTap (tap_recorded t) (tap_runGone t) (tap_sessionRecorded t) true (tap_persisting t) n (S (tap_marking t))
  end.

Definition mark_settled (t : Tap) : Tap :=
  mkTap (tap_recorded t) (tap_runGone t) (tap_sessionRecorded t) (tap_startMarked t) (tap_persisting t)
    (tap_continuations t) (pred (tap_marking t)).

(** One thing that happens to a tap: a line arrives, a write in flight ends, with
    the rivals that committed around its attempts or by throwing, a continuation
    runs, or other clients write *)
Inductive TapEvent :=
| tap_line (line : string)
| tap_write (k : nat) (rivals : nat -> World -> World)
| tap_write_throws (k : nat)
| tap_continue
| tap_mark (rivals : nat -> World -> World)
| tap_mark_throws
| tap_others (f : World -> World).

Definition tap_step (runId : string) (ev : TapEvent) (s : Tap * World) : Tap * World :=
  let '(t, w) := s in
  match ev with
  | tap_line line => (record line t, w)
  | tap_write k rivals =>
      match tap_persisting t !! k with
      | None => s
      | Some sessionId =>
          match persistLiveSessionId rivals runId sessionId w with
          | (Ret written, w') => (persisted k sessionId (Some written) t, w')
          | (Throw _, w') => (persisted k sessionId None t, w')
          end
      end
  | tap_write_throws k =>
      match tap_persisting t !! k with
      | None => s
      | Some sessionId => (persisted k sessionId None t, w)
      end
  | tap_continue => (continuation t, w)
  | tap_mark rivals =>
      match tap_marking t with
      | 0 => s
      | S _ => (mark_settled t, (markExecutionStarted rivals runId w).2)
      end
  | tap_mark_throws => (mark_settled t, w)
  | tap_others f => (t, f w)
  end.

Definition tap_run (runId : string) (evs : list TapEvent) (s : Tap * World) : Tap * World :=
  foldl (fun s ev => tap_step runId ev s) s evs.
End Extract.

(** [tapLiveSessionId]: the run a task's lines are recorded for *)
Definition tapped_run (taskId : string) : option string :=
  let runId := extractRunId taskId in
  if String.prefix "run_" runId then Some runId else None.

(** ** Task ids name their run *)

Fixpoint no_slash (s : string) : bool :=
  match s with "" => true | String c s' => negb (Ascii.eqb c "/"%char) && no_slash s' end.

Lemma segments_app a s : no_slash a = true -> segments (a +:+ "/" +:+ s) = a :: segments s.
Proof.
  induction a as [|c a IH]; intros Ha; [done|]. rewrite append_cons. simpl in Ha |- *.
  apply andb_true_iff in Ha as [Hc Ha]. apply negb_true_iff in Hc. by rewrite Hc, (IH Ha).
Qed.

(** Whatever starts a run, its task id gives the run id back. *)
Lemma task_id_names_run prefix (id stepId : string) :
  prefix ∈ TASK_ID_PREFIXES -> id <> "" -> no_slash id = true ->
  extractRunId (buildTaskId prefix ("run_" +:+ id) stepId) = "run_" +:+ id /\
  tapped_run (buildTaskId prefix ("run_" +:+ id) stepId) = Some ("run_" +:+ id).
Proof.
  intros Hp Hid Hs.
  assert (extractRunId (buildTaskId prefix ("run_" +:+ id) stepId) = "run_" +:+ id) as He.
  { assert (segments (("run_" +:+ id) +:+ "/" +:+ stepId) = ("run_" +:+ id) :: segments stepId) as Hseg
      by (by apply segments_app).
    assert (String.prefix "run_" ("run_" +:+ id) && (4 <? String.length ("run_" +:+ id))%nat = true) as Hrun.
    { rewrite !append_cons. destruct id as [|c id]; [done|]. reflexivity. }
    unfold extractRunId, buildTaskId.
    repeat (apply elem_of_cons in Hp as [-> | Hp]); [| | | |by apply not_elem_of_nil in Hp].
    - change ("" +:+ ("run_" +:+ id) +:+ "/" +:+ stepId) with (("run_" +:+ id) +:+ "/" +:+ stepId).
      rewrite Hseg. cbn [find]. by rewrite Hrun.
    - change ("chat/" +:+ ("run_" +:+ id) +:+ "/" +:+ stepId)
        with ("chat" +:+ "/" +:+ (("run_" +:+ id) +:+ "/" +:+ stepId)).
      rewrite segments_app, Hseg by done. cbn [find]. by rewrite Hrun.
    - change ("feishu/" +:+ ("run_" +:+ id) +:+ "/" +:+ stepId)
        with ("feishu" +:+ "/" +:+ (("run_" +:+ id) +:+ "/" +:+ stepId)).
      rewrite segments_app, Hseg by done. cbn [find]. by rewrite Hrun.
    - change ("invoke/" +:+ ("run_" +:+ id) +:+ "/" +:+ stepId)
        with ("invoke" +:+ "/" +:+ (("run_" +:+ id) +:+ "/" +:+ stepId)).
      rewrite segments_app, Hseg by done. cbn [find]. by rewrite Hrun. }
  split; [done|]. unfold tapped_run. by rewrite He, prefix_self.
Qed.

(** ** What the row holds *)

Definition row_meta (runId : string) (w : World) (k : string) : option json :=
  meta_get (db_runs (w_db w) !! runId ≫= run_executionMetadata) k.

(** Other clients keep the run, its session and its start mark. *)
Definition keeps (runId : string) (f : World -> World) : Prop := forall w,
  (is_Some (db_runs (w_db w) !! runId) -> is_Some (db_runs (w_db (f w)) !! runId)) /\
  row_meta runId (f w) "liveChatId" = row_meta runId w "liveChatId" /\
  row_meta runId (f w) "executionStarted" = row_meta runId w "executionStarted".

Lemma after_rivals_keeps runId rivals n w :
  (forall i, keeps runId (rivals i)) ->
  row_meta runId (after_rivals rivals n w) "liveChatId" = row_meta runId w "liveChatId" /\
  row_meta runId (after_rivals rivals n w) "executionStarted" = row_meta runId w "executionStarted".
Proof.
  intros Hk. induction n as [|n [IH1 IH2]]; [done|]. simpl.
  destruct (Hk n (after_rivals rivals n w)) as (_ & -> & ->). done.
Qed.

Lemma merged_meta runId produce r w k :
  row_meta runId (merged_world runId produce r w) k =
  obj_get (merge_fields (metadata_of r) (produce (metadata_of r))) k.
Proof. unfold row_meta, merged_world. simpl. by rewrite lookup_insert_eq. Qed.

Lemma metadata_get r k : obj_get (metadata_of r) k = meta_get (run_executionMetadata r) k.
Proof. unfold metadata_of. by destruct (run_executionMetadata r). Qed.

(** What the two writes of the tap leave in the row *)
Lemma persist_meta rivals runId sessionId w o w' :
  (forall i, keeps runId (rivals i)) ->
  persistLiveSessionId rivals runId sessionId w = (o, w') ->
  (o = Ret true /\ row_meta runId w' "liveChatId" = Some (JStr sessionId) /\
   row_meta runId w' "executionStarted" = Some (JBool true)) \/
  (o = Ret false /\ row_meta runId w' "liveChatId" = row_meta runId w "liveChatId" /\
   row_meta runId w' "executionStarted" = row_meta runId w "executionStarted").
Proof.
  intros Hk Hm. unfold persistLiveSessionId, mergeExecutionMetadata in Hm.
  apply (merge_loop_Ret rivals runId _ _ 0 w) in Hm as (n & _ & [(-> & _ & r & _ & ->)|[-> ->]]).
  - left. rewrite !merged_meta. unfold merge_fields. simpl. split; [done|].
    rewrite obj_get_set_eq, obj_get_set_ne, obj_get_set_eq by done. done.
  - right. split; [done|]. by apply after_rivals_keeps.
Qed.

Lemma mark_meta rivals runId w :
  (forall i, keeps runId (rivals i)) ->
  let w' := (markExecutionStarted rivals runId w).2 in
  row_meta runId w' "liveChatId" = row_meta runId w "liveChatId" /\
  (row_meta runId w "executionStarted" = Some (JBool true) -> row_meta runId w' "executionStarted" = Some (JBool true)).
Proof.
  intros Hk. cbn zeta. destruct (markExecutionStarted rivals runId w) as [o w'] eqn:Hm. cbn [snd].
  unfold markExecutionStarted, mergeExecutionMetadata in Hm.
  apply (merge_loop_Ret rivals runId _ _ 0 w) in Hm as (n & _ & [(-> & _ & r & Hr & ->)|[-> ->]]).
  - rewrite !merged_meta. unfold merge_fields. simpl. rewrite obj_get_set_eq, obj_get_set_ne by done.
    split; [|done]. rewrite metadata_get. destruct (after_rivals_keeps runId rivals (S n) w Hk) as [Hl _].
    rewrite <- Hl. unfold row_meta. cbn [after_rivals] in Hr. cbn [after_rivals]. by rewrite Hr.
  - destruct (after_rivals_keeps runId rivals n w Hk) as [-> ->]. done.
Qed.

Section TapLemmas.
Context (json_parse : string -> option json) (runId : string).

Definition event_keeps (ev : TapEvent) : Prop :=
  match ev with
  | tap_write _ rivals | tap_mark rivals => forall i, keeps runId (rivals i)
  | tap_others f => keeps runId f
  | _ => True
  end.

(** What the tap believes recorded is in the row. *)
Record tap_true (s : Tap * World) : Prop := {
  tt_session id : tap_recorded s.1 = Some id -> row_meta runId s.2 "liveChatId" = Some (JStr id);
  tt_started : tap_sessionRecorded s.1 = true -> row_meta runId s.2 "executionStarted" = Some (JBool true);
  tt_both : is_Some (tap_recorded s.1) -> tap_sessionRecorded s.1 = true
}.

Lemma tap_true_same t t' w :
  tap_recorded t' = tap_recorded t -> tap_sessionRecorded t' = tap_sessionRecorded t ->
  tap_true (t, w) -> tap_true (t', w).
Proof. intros Hr Hs [? ? ?]. split; simpl in *; rewrite ?Hr, ?Hs; done. Qed.

Lemma record_fields line t :
  tap_recorded (record json_parse line t) = tap_recorded t /\
  tap_sessionRecorded (record json_parse line t) = tap_sessionRecorded t /\
  tap_runGone (record json_parse line t) = tap_runGone t.
Proof. unfold record. repeat case_match; done. Qed.

Lemma continuation_fields t :
  tap_recorded (continuation t) = tap_recorded t /\ tap_sessionRecorded (continuation t) = tap_sessionRecorded t /\
  tap_runGone (continuation t) = tap_runGone t /\ tap_persisting (continuation t) = tap_persisting t.
Proof. unfold continuation. repeat case_match; done. Qed.

Lemma tap_step_true ev s : event_keeps ev -> tap_true s -> tap_true (tap_step json_parse runId ev s).
Proof.
  destruct s as [t w]. intros Hk Ht. destruct ev as [line|k rivals|k| |rivals| |f]; simpl in Hk |- *.
  - destruct (record_fields line t) as (? & ? & _). by apply (tap_true_same t).
  - destruct (tap_persisting t !! k) as [sessionId|]; [|done].
    destruct (persistLiveSessionId rivals runId sessionId w) as [o w'] eqn:Hp.
    destruct (persist_meta _ _ _ _ _ _ Hk Hp) as [(-> & Hl & He)|(-> & Hl & He)].
    + split; simpl; [by intros ? [= <-]|done|done].
    + destruct Ht as [? ? ?]. split; simpl in *; rewrite ?Hl, ?He; done.
  - destruct (tap_persisting t !! k); [|done]. by apply (tap_true_same t).
  - destruct (continuation_fields t) as (? & ? & _). by apply (tap_true_same t).
  - destruct (tap_marking t); [done|]. pose proof (mark_meta rivals runId w Hk) as [Hl He].
    destruct Ht as [H1 H2 H3]. split; simpl in *; rewrite ?Hl; auto.
  - by apply (tap_true_same t).
  - destruct (Hk w) as (_ & Hl & He). destruct Ht as [? ? ?]. split; simpl in *; rewrite ?Hl, ?He; done.
Qed.

Lemma tap_run_true evs s : Forall event_keeps evs -> tap_true s -> tap_true (tap_run json_parse runId evs s).
Proof.
  intros Hk. revert s. induction Hk as [|ev evs He Hk IH]; intros s Hs; [done|]. apply IH. by apply tap_step_true.
Qed.

(** The lines announce one session at most. *)
Definition announces_only (id : string) (ev : TapEvent) : Prop :=
  match ev with
  | tap_line line => extractLiveSessionId json_parse line = None \/ extractLiveSessionId json_parse line = Some id
  | tap_write_throws _ => False
  | _ => True
  end.

Definition announces (id : string) (ev : TapEvent) : Prop :=
  match ev with tap_line line => extractLiveSessionId json_parse line = Some id | _ => False end.

(** A session that was announced is on its way to the row, or recorded. *)
Record tap_follows (id : string) (seen : Prop) (t : Tap) : Prop := {
  tf_recorded x : tap_recorded t = Some x -> x = id;
  tf_persisting : Forall (fun x => x = id) (tap_persisting t);
  tf_seen : seen -> tap_runGone t = true \/ tap_persisting t <> [] \/ tap_recorded t = Some id
}.

Lemma follows_seen id (P Q : Prop) t : (Q -> P) -> tap_follows id P t -> tap_follows id Q t.
Proof. intros HQ [? ? Hs]. split; auto. Qed.

Lemma persisted_follows id P k x outcome t :
  tap_persisting t !! k = Some x -> is_Some outcome -> tap_follows id P t -> tap_follows id P (persisted k x outcome t).
Proof.
  intros Hx [b ->] [Hr Hp Hs]. assert (x = id) as -> by exact (Forall_lookup_1 _ _ _ _ Hp Hx).
  assert (Forall (fun x => x = id) (delete k (tap_persisting t))) as Hp' by by apply Forall_delete.
  destruct b; split; simpl; auto. by intros ? [= <-].
Qed.

Lemma tap_step_follows id P ev s :
  announces_only id ev -> tap_follows id P s.1 ->
  tap_follows id (P \/ announces id ev) (tap_step json_parse runId ev s).1.
Proof.
  destruct s as [t w]. intros Ha Ht. destruct ev as [line|k rivals|k| |rivals| |f]; simpl in Ha |- *;
    try (apply (follows_seen id P); [tauto|]).
  - destruct Ht as [Hr Hp Hs]. simpl in Hr, Hp, Hs. unfold record. destruct (tap_runGone t) eqn:Hgone; [by split; auto|].
    destruct Ha as [Ha|Ha]; rewrite Ha.
    { split; simpl; try done. intros [HP|?]; [|congruence]. rewrite Hgone. exact (Hs HP). }
    case_decide as Hd.
    + split; simpl; auto.
    + split; simpl; [done| |].
      * apply Forall_app. auto.
      * intros _. right; left. by destruct (tap_persisting t).
  - destruct (tap_persisting t !! k) as [x|] eqn:Hx; [|done].
    destruct (persistLiveSessionId rivals runId x w) as [o w'] eqn:Hp.
    unfold persistLiveSessionId, mergeExecutionMetadata in Hp.
    apply (merge_loop_Ret rivals runId _ _ 0 w) in Hp as (n & _ & [(-> & _)|[-> _]]);
      [apply (persisted_follows id P k x (Some true))|apply (persisted_follows id P k x (Some false))]; done.
  - done.
  - destruct (continuation_fields t) as (Hr & _ & Hg & Hp). destruct Ht as [H1 H2 H3].
    split; rewrite ?Hr, ?Hg, ?Hp; done.
  - destruct (tap_marking t); [done|]. destruct Ht as [H1 H2 H3]. by split.
  - destruct Ht as [H1 H2 H3]. by split.
  - done.
Qed.

Lemma tap_run_follows id P evs s :
  Forall (announces_only id) evs -> tap_follows id P s.1 ->
  tap_follows id (P \/ Exists (announces id) evs) (tap_run json_parse runId evs s).1.
Proof.
  intros Ha. revert P s. induction Ha as [|ev evs Hev Ha IH]; intros P s Hs.
  { apply (follows_seen id P); [|done]. intros [?|He]; [done|]. by apply Exists_nil in He. }
  apply (follows_seen id ((P \/ announces id ev) \/ Exists (announces id) evs)).
  { rewrite Exists_cons. tauto. }
  apply (IH (P \/ announces id ev)). by apply tap_step_follows.
Qed.
End TapLemmas.


(** ** Where the tap loses what it saw *)

Definition tap_demo_parse (s : string) : option json :=
  if decide (s = "{1}") then Some (JObj [("type", JStr "thread.started"); ("thread_id", JStr "s1")]) else None.
Definition tap_demo (metadata : js_object) : World :=
  set_db (set_runs (fun _ => {["run_1" := resume_demo_run metadata]})) empty_world.

(** A client that writes another value into the metadata at every attempt *)
Definition tap_busy (n : nat) (w : World) : World :=
  set_db (set_runs (alter (fun r => with_metadata (Some (obj_set (metadata_of r) "n" (JNum (JInt (Z.of_nat n))))) r)
    "run_1")) w.

(** A write that loses five races to writers of other keys returns false like
    one whose run is gone, and the recorder stands down for good: the session is
    announced on every line, the run is there, and it is never recorded. *)
Lemma stands_down_on_conflict :
  let evs := [tap_line "{1}"; tap_write 0 tap_busy; tap_line "{1}"; tap_line "{1}"] in
  let '(t, w) := tap_run tap_demo_parse "run_1" evs (tap_start, tap_demo []) in
  tap_runGone t = true /\ tap_persisting t = [] /\ is_Some (db_runs (w_db w) !! "run_1") /\
  row_meta "run_1" w "liveChatId" = None.
Proof. vm_compute. split_and!; [done|done|by eexists|done]. Qed.

(** The start mark is written once, whether the write succeeds or not: with a
    client that announces no session, a failed write leaves a run that has
    printed output to be restarted from its prompt. *)
Lemma start_mark_lost :
  let evs := [tap_line "x"; tap_continue; tap_mark_throws; tap_line "y"; tap_continue] in
  let '(t, w) := tap_run tap_demo_parse "run_1" evs
    (tap_start, tap_demo [("resumePending", JStr "SERVER_RESTART_DURING_EXEC")]) in
  tap_startMarked t = true /\ tap_marking t = 0 /\
  (fun row => resumeDecisionForRow row None) <$> db_runs (w_db w) !! "run_1" = Some (resume_yes None 1).
Proof. vm_compute. by repeat split. Qed.

(** ** The session of the tap is the session of the parser *)

Section Agreement.
Context (json_parse : string -> option json).
(** Whitespace around a document is not part of it, and an object begins with a
    brace. *)
Context (parse_trim : forall s v, json_parse s = Some v -> json_parse (trim s) = Some v).
Context (parse_brace : forall s o, json_parse s = Some (JObj o) -> String.prefix "{" (trim s) = true).

Lemma extract_of_parsed line data :
  json_parse line = Some (JObj data) -> extractLiveSessionId json_parse line = session_of_record data.
Proof. intros H. unfold extractLiveSessionId. by rewrite (parse_brace _ _ H), (parse_trim _ _ H). Qed.

(** The session recorded while a run executes is the one its success would
    report: a line in which the Claude-style parser or the Codex parser finds a
    session gives the tap the same one, if a Claude-style line is not of one of
    the two types that name the session otherwise. *)
Theorem tap_agrees_with_parsers (line id : string) :
  (forall data, tryParseJson json_parse line = Some data ->
     as_string (obj_get data "type") ≫= TYPE_SCOPED_SESSION_KEYS = None ->
     announced data = Some id -> extractLiveSessionId json_parse line = Some id) /\
  (forall json_stringify evs, parseCodexStreamLine json_parse json_stringify line = Some evs ->
     ev_session id ∈ evs -> extractLiveSessionId json_parse line = Some id).
Proof.
  split.
  - intros data Hd Ht Ha. unfold tryParseJson in Hd. destruct (json_parse line) as [[]|] eqn:Hj; try done.
    injection Hd as ->. rewrite (extract_of_parsed _ _ Hj). unfold session_of_record. rewrite Ht. simpl.
    unfold announced in Ha. unfold readStringField, non_empty.
    destruct (as_string (obj_get data "session_id")) as [s|]; simpl; repeat case_decide; simplify_eq; try done;
      destruct (as_string (obj_get data "chat_id")) as [c|]; simpl; repeat case_decide; simplify_eq; done.
  - intros js evs Hp Hin. unfold parseCodexStreamLine in Hp.
    destruct (json_parse line) as [v|] eqn:Hj; [|injection Hp as <-; by apply list_elem_of_singleton in Hin].
    destruct v as [| | | | |data]; try done; injection Hp as <-; try by apply not_elem_of_nil in Hin.
    apply session_from_thread in Hin as [Hty Hth].
    rewrite (extract_of_parsed _ _ Hj). unfold session_of_record. rewrite Hty. simpl.
    unfold readStringField. unfold string_at in Hth. by rewrite Hth.
Qed.
End Agreement.

(** ** Witnesses *)

Definition tap_demo_events : list TapEvent :=
  [tap_line "hello"; tap_continue; tap_line "{1}"; tap_mark (fun _ w => w); tap_line "{1}"; tap_write 0 (fun _ w => w);
   tap_others (fun w => w); tap_continue; tap_write 0 (fun _ w => w); tap_continue].

Lemma keeps_id runId : keeps runId (fun w => w).
Proof. by intros w. Qed.


Lemma tap_agrees_with_parsers_witness :
  parseCodexStreamLine tap_demo_parse (fun _ => "") "{1}" = Some [ev_session "s1"] /\
  extractLiveSessionId tap_demo_parse "{1}" = Some "s1".
Proof.
  split; [reflexivity|].
  assert (forall s v, tap_demo_parse s = Some v -> s = "{1}") as Hs
    by (intros s v; unfold tap_demo_parse; case_decide; done).
  refine (proj2 (tap_agrees_with_parsers tap_demo_parse _ _ "{1}" "s1") (fun _ => "") [ev_session "s1"] _ _).
  - intros s v H. by rewrite (Hs _ _ H) in H |- *.
  - intros s o H. by rewrite (Hs _ _ H).
  - reflexivity.
  - by left.
Defined.
