(* ===== verification/KeyedMutex.v ===== *)
(** * The keyed lock

    [withKeyedLock] of [apps/api/src/lib/keyed-mutex.ts]: per key a chain of
    promises, so that critical sections under one key never interleave.  The
    handlers of the other files run inside such locks and are modelled as one
    step each; this file shows that the lock gives them that.

    A call makes one task.  Its [result] promise is pending until the previous
    task of the key has settled, then its body runs and settles, and its [tail]
    then removes the map entry if it is still its own. *)
From S2P Require Import Prelude.

Inductive phase := Waiting | Running | Settled | Cleaned.

#[export] Instance phase_eq_dec : EqDecision phase.
Proof. solve_decision. Defined.

(** [prev] is the tail the task's body is chained on; [None] is the resolved
    promise. *)
Record Task := mkTask { task_key : string; task_prev : option nat; task_phase : phase }.

(** Tasks by creation order; a tail promise is the index of its task *)
Record Mutex := mkMutex { tails : gmap string nat; tasks : list Task }.

Definition empty_mutex : Mutex := mkMutex ∅ [].

Definition with_phase (p : phase) (t : Task) : Task := mkTask (task_key t) (task_prev t) p.

(** The call: chain on the current tail and become the tail *)
Definition withKeyedLock (key : string) (m : Mutex) : Mutex :=
  mkMutex (<[key := length (tasks m)]> (tails m))
    (tasks m ++ [mkTask key (tails m !! key) Waiting]).

Definition has_settled (t : Task) : bool :=
  match task_phase t with Settled | Cleaned => true | _ => false end.

(** The tail a task waits for has resolved *)
Definition prev_settled (m : Mutex) (t : Task) : bool :=
  match task_prev t with
  | None => true
  | Some i => match tasks m !! i with Some p => has_settled p | None => false end
  end.

(** [prev.then(() => fn())] fires *)
Definition start_body (n : nat) (m : Mutex) : option Mutex :=
  t ← tasks m !! n;
  if bool_decide (task_phase t = Waiting) && prev_settled m t
  then Some (mkMutex (tails m) (alter (with_phase Running) n (tasks m))) else None.

(** [fn()] resolves or rejects, and with it the tail resolves *)
Definition settle_body (n : nat) (m : Mutex) : option Mutex :=
  t ← tasks m !! n;
  if bool_decide (task_phase t = Running)
  then Some (mkMutex (tails m) (alter (with_phase Settled) n (tasks m))) else None.

(** [tail.then(() => { if (tails.get(key) === tail) tails.delete(key) })] fires *)
Definition clean_tail (n : nat) (m : Mutex) : option Mutex :=
  t ← tasks m !! n;
  if bool_decide (task_phase t = Settled)
  then Some (mkMutex (if decide (tails m !! task_key t = Some n)
                      then delete (task_key t) (tails m) else tails m)
               (alter (with_phase Cleaned) n (tasks m)))
  else None.

Inductive mutex_step : Mutex -> Mutex -> Prop :=
| step_call k m : mutex_step m (withKeyedLock k m)
| step_start n m m' : start_body n m = Some m' -> mutex_step m m'
| step_settle n m m' : settle_body n m = Some m' -> mutex_step m m'
| step_clean n m m' : clean_tail n m = Some m' -> mutex_step m m'.

(** ** The invariant *)

Definition of_key (m : Mutex) (k : string) (i : nat) (t : Task) : Prop :=
  tasks m !! i = Some t /\ task_key t = k.

Record chained (m : Mutex) : Prop := {
  (* the tail of a key is its last task, not cleaned up yet *)
  ch_tail : forall k i, tails m !! k = Some i -> (exists t, of_key m k i t /\ task_phase t <> Cleaned) /\
    forall j t, of_key m k j t -> j <= i;
  (* a key without tail has only cleaned-up tasks *)
  ch_none : forall k j t, tails m !! k = None -> of_key m k j t -> has_settled t = true;
  (* a task waits for the task of its key just before it *)
  ch_prev : forall n t i, tasks m !! n = Some t -> task_prev t = Some i ->
    i < n /\ (exists p, of_key m (task_key t) i p) /\
    forall j u, of_key m (task_key t) j u -> i < j -> n <= j;
  (* or for none, when every earlier one has settled *)
  ch_first : forall n t j u, tasks m !! n = Some t -> task_prev t = None ->
    of_key m (task_key t) j u -> j < n -> has_settled u = true;
  (* only a task whose predecessor settled has run *)
  ch_run : forall n t, tasks m !! n = Some t -> task_phase t <> Waiting -> prev_settled m t = true
}.

(** Steps that change the phase of one task, forwards only *)
Definition advances (p q : phase) : Prop :=
  match p, q with
  | Waiting, Running | Running, Settled | Settled, Cleaned => True
  | _, _ => False
  end.

Lemma lookup_advance m n q i t :
  alter (with_phase q) n (tasks m) !! i = Some t <->
  exists u, tasks m !! i = Some u /\ t = if decide (n = i) then with_phase q u else u.
Proof.
  rewrite list_lookup_alter_if. destruct (tasks m !! i) as [u|]; simpl.
  - split; [intros [= <-]; eauto|]. by intros (x & [= <-] & ->).
  - split; [done|]. by intros (? & ? & _).
Qed.

Lemma lookup_snoc (l : list Task) x i t :
  (l ++ [x]) !! i = Some t <-> l !! i = Some t \/ i = length l /\ t = x.
Proof.
  rewrite lookup_app_Some. split; intros [?|Hr]; auto; right.
  - destruct Hr as [Hge Hr]. apply list_lookup_singleton_Some in Hr as [? <-]. split; [lia|done].
  - destruct Hr as [-> ->]. split; [done|]. by rewrite Nat.sub_diag.
Qed.

Lemma chained_empty : chained empty_mutex.
Proof.
  split.
  - intros k i Hi. simpl in Hi. by rewrite lookup_empty in Hi.
  - by intros k j t _ [? _].
  - by intros n t i ?.
  - by intros n t j u ?.
  - by intros n t ?.
Qed.

Lemma chained_call k m : chained m -> chained (withKeyedLock k m).
Proof.
  intros [Htail Hnone Hprev Hfirst Hrun]. unfold withKeyedLock. split; unfold of_key; simpl.
  - intros k' i. destruct (decide (k' = k)) as [->|Hne].
    + rewrite lookup_insert_eq. intros [= <-]. split.
      * eexists. rewrite lookup_snoc. split; [split; [by right|done]|done].
      * intros j t [[Hj%lookup_lt_Some|[-> _]]%lookup_snoc _]; lia.
    + rewrite lookup_insert_ne by done. intros Hi. destruct (Htail _ _ Hi) as [(t & [Ht Hk] & Hp) Hmax].
      split; [exists t; rewrite lookup_snoc; auto|].
      intros j u [[Hj|[-> ->]]%lookup_snoc Hu]; [by eapply Hmax|done].
  - intros k' j t. destruct (decide (k' = k)) as [->|Hne]; [by rewrite lookup_insert_eq|].
    rewrite lookup_insert_ne by done. intros Hk [[Hj|[-> ->]]%lookup_snoc Hu]; [by eapply Hnone|done].
  - intros n t i [Hn|[-> ->]]%lookup_snoc Hi; simpl in *.
    + destruct (Hprev _ _ _ Hn Hi) as (Hlt & (p & Hp & Hk) & Hnext). split; [done|].
      split; [exists p; rewrite lookup_snoc; auto|].
      intros j u [[Hj|[-> ->]]%lookup_snoc Hu] Hij; [by eapply Hnext|].
      apply lookup_lt_Some in Hn. lia.
    + destruct (Htail _ _ Hi) as [(p & [Hp Hk] & _) Hmax]. split; [by eapply lookup_lt_Some|].
      split; [exists p; rewrite lookup_snoc; auto|].
      intros j u [[Hj|[-> ->]]%lookup_snoc Hu] Hij; [|done].
      specialize (Hmax j u (conj Hj Hu)). lia.
  - intros n t j u [Hn|[-> ->]]%lookup_snoc Hp [[Hj|[-> ->]]%lookup_snoc Hu] Hlt; simpl in *.
    + by apply (Hfirst n t j u).
    + apply lookup_lt_Some in Hn. lia.
    + by apply (Hnone k j u).
    + lia.
  - intros n t [Hn|[-> ->]]%lookup_snoc Hw; [|done].
    specialize (Hrun _ _ Hn Hw). unfold prev_settled in *. simpl.
    destruct (task_prev t) as [i|]; [|done].
    destruct (tasks m !! i) as [p|] eqn:Hi; [|done]. by rewrite (lookup_app_l_Some _ _ _ _ Hi).
Qed.

(** Once a task has left its wait, every earlier task of its key has settled. *)
Lemma earlier_settled m : chained m -> forall n t j u,
  tasks m !! n = Some t -> task_phase t <> Waiting -> of_key m (task_key t) j u -> j < n ->
  has_settled u = true.
Proof.
  intros [_ _ Hprev Hfirst Hrun] n. induction n as [n IH] using lt_wf_ind.
  intros t j u Ht Hw Hu Hj. specialize (Hrun _ _ Ht Hw). unfold prev_settled in Hrun.
  destruct (task_prev t) as [i|] eqn:Hp; [|by eapply Hfirst].
  destruct (Hprev _ _ _ Ht Hp) as (Hlt & (p & Hpi & Hpk) & Hnext). rewrite Hpi in Hrun.
  destruct (Nat.lt_trichotomy j i) as [Hji|[->|Hij]].
  - apply (IH i Hlt p j u Hpi); [|by rewrite Hpk|done]. intros Hc. unfold has_settled in Hrun.
    by rewrite Hc in Hrun.
  - destruct Hu. congruence.
  - specialize (Hnext _ _ Hu Hij). lia.
Qed.

Section Advance.
Context (m : Mutex) (n : nat) (t : Task) (q : phase) (tails' : gmap string nat).
Context (Hm : chained m) (Ht : tasks m !! n = Some t) (Hq : advances (task_phase t) q).
Context (Hstart : q = Running -> prev_settled m t = true).
Context (Htails : forall k i, tails' !! k = Some i <->
  tails m !! k = Some i /\ ~ (q = Cleaned /\ i = n)).

Let m' := mkMutex tails' (alter (with_phase q) n (tasks m)).

Lemma settled_advance u i : tasks m !! i = Some u ->
  has_settled u = true -> has_settled (if decide (n = i) then with_phase q u else u) = true.
Proof.
  intros Hu. case_decide as Hi; [|done]. subst i. assert (u = t) as -> by congruence.
  unfold has_settled. simpl. by destruct (task_phase t), q.
Qed.

Lemma of_key_advance k i u' : of_key m' k i u' <->
  exists u, of_key m k i u /\ u' = if decide (n = i) then with_phase q u else u.
Proof.
  unfold of_key, m'. simpl. rewrite lookup_advance. split.
  - intros [(u & Hu & ->) Hk]. exists u. split; [|done]. split; [done|]. by case_decide.
  - intros (u & [Hu Hk] & ->). split; [eauto|]. by case_decide.
Qed.

Lemma prev_settled_advance u : prev_settled m u = true -> prev_settled m' u = true.
Proof.
  unfold prev_settled. destruct (task_prev u) as [i|]; [|done].
  destruct (tasks m !! i) as [p|] eqn:Hp; [|done]. intros Hs.
  assert (alter (with_phase q) n (tasks m) !! i = Some (if decide (n = i) then with_phase q p else p))
    as Hp' by (apply lookup_advance; eauto).
  simpl. rewrite Hp'. by apply settled_advance.
Qed.

Lemma chained_advance : chained m'.
Proof.
  destruct Hm as [Htail Hnone Hprev Hfirst Hrun]. split.
  - intros k i [Hi Hnc]%Htails. destruct (Htail _ _ Hi) as [(u & Hu & Hp) Hmax]. split.
    + eexists. rewrite of_key_advance. split; [eauto|]. case_decide; [|done]. intros Hc. auto.
    + intros j v (w & Hw & _)%of_key_advance. by eapply Hmax.
  - intros k j v Hk (u & Hu & ->)%of_key_advance. change (tails' !! k = None) in Hk.
    apply settled_advance; [apply Hu|].
    destruct (tails m !! k) as [i|] eqn:Hi; [|by eapply Hnone].
    assert (q = Cleaned /\ i = n) as [Hc ->].
    { destruct (decide (q = Cleaned /\ i = n)) as [|Hn]; [done|].
      assert (tails' !! k = Some i) by (by apply Htails). congruence. }
    destruct (Htail _ _ Hi) as [(x & [Hx Hxk] & _) Hmax].
    assert (x = t) as -> by congruence. subst q.
    assert (task_phase t = Settled) as Hs by (by destruct (task_phase t)).
    specialize (Hmax _ _ Hu). destruct (decide (j = n)) as [->|Hne].
    + destruct Hu as [Hu _]. assert (u = t) as -> by congruence. unfold has_settled. by rewrite Hs.
    + eapply (earlier_settled m Hm n t); [done|by rewrite Hs|by rewrite Hxk|lia].
  - intros i u' p (u & Hu & ->)%lookup_advance Hp.
    assert (task_prev u = Some p /\ task_key (if decide (n = i) then with_phase q u else u) = task_key u)
      as [Hp' ->] by (by case_decide).
    destruct (Hprev _ _ _ Hu Hp') as (Hlt & (x & Hx) & Hnext). split; [done|]. split.
    + eexists. apply of_key_advance. eauto.
    + intros j v (w & Hw & _)%of_key_advance. by eapply Hnext.
  - intros i u' j v (u & Hu & ->)%lookup_advance Hp Hv Hlt.
    assert (task_prev u = None /\ task_key (if decide (n = i) then with_phase q u else u) = task_key u)
      as [Hp' Hk] by (by case_decide). rewrite Hk in Hv.
    apply of_key_advance in Hv as (w & Hw & ->). apply settled_advance; [apply Hw|]. by eapply Hfirst.
  - intros i u' (u & Hu & ->)%lookup_advance Hw.
    assert (prev_settled m u = true) as Hs.
    { destruct (decide (n = i)) as [<-|Hne].
      - assert (u = t) as -> by congruence. simpl in Hw. destruct q; [done|by apply Hstart|..];
          (apply (Hrun n); [done|]); by destruct (task_phase t).
      - by eapply Hrun. }
    apply prev_settled_advance in Hs. by case_decide.
Qed.
End Advance.

Lemma chained_step m m' : mutex_step m m' -> chained m -> chained m'.
Proof.
  intros [k m1|n m1 m1' Hs|n m1 m1' Hs|n m1 m1' Hs] Hm.
  - by apply chained_call.
  - unfold start_body in Hs. simpl in Hs. destruct (tasks m1 !! n) as [t|] eqn:Ht; [|done].
    simpl in Hs. destruct (bool_decide_reflect (task_phase t = Waiting)) as [Hp|]; [|done].
    destruct (prev_settled m1 t) eqn:Hpr; [|done]. injection Hs as <-.
    apply (chained_advance m1 n t); [done|done|by rewrite Hp|done|]. intros k i. split; [|tauto].
    intros ?. split; [done|]. by intros [? _].
  - unfold settle_body in Hs. destruct (tasks m1 !! n) as [t|] eqn:Ht; [|done].
    simpl in Hs. destruct (bool_decide_reflect (task_phase t = Running)) as [Hp|]; [|done].
    injection Hs as <-.
    apply (chained_advance m1 n t); [done|done|by rewrite Hp|done|]. intros k i. split; [|tauto].
    intros ?. split; [done|]. by intros [? _].
  - unfold clean_tail in Hs. destruct (tasks m1 !! n) as [t|] eqn:Ht; [|done].
    simpl in Hs. destruct (bool_decide_reflect (task_phase t = Settled)) as [Hp|]; [|done].
    injection Hs as <-.
    apply (chained_advance m1 n t); [done|done|by rewrite Hp|done|]. intros k i.
    assert (tails m1 !! k = Some n -> k = task_key t) as Hkey.
    { intros Hk. destruct (ch_tail _ Hm _ _ Hk) as [(x & [Hx <-] & _) _]. congruence. }
    case_decide as Hd.
    + rewrite lookup_delete_Some. split.
      * intros [Hne Hk]. split; [done|]. intros [_ ->]. apply Hne. symmetry. auto.
      * intros [Hk Hn]. split; [|done]. intros <-. apply Hn. split; [done|]. congruence.
    + split; [|tauto]. intros Hk. split; [done|]. intros [_ ->]. apply Hd. by rewrite <- (Hkey Hk).
Qed.

Lemma reachable_chained m : rtc mutex_step empty_mutex m -> chained m.
Proof.
  intros Hr. refine (rtc_invariant mutex_step chained _ _ _ Hr chained_empty).
  intros a b. apply chained_step.
Qed.

(** ** Properties *)

(** The keyed lock serialises in call order: in every reachable state a
    critical section runs only after every earlier call under its key has
    settled, so two of them never run at once. *)
Theorem keyed_lock_exclusion m i j t u :
  rtc mutex_step empty_mutex m ->
  tasks m !! i = Some t -> tasks m !! j = Some u -> task_key t = task_key u -> i < j ->
  task_phase u <> Waiting -> has_settled t = true.
Proof.
  intros Hr%reachable_chained Hi Hj Hk Hlt Hw.
  eapply (earlier_settled m Hr j u); [done|done| |done]. by split.
Qed.

(** The keyed lock makes progress: in every reachable state with a call that
    has not settled, under its key some body is running or can start at once;
    and a key whose calls have all been cleaned up has no map entry left. *)
Theorem keyed_lock_progress m n t :
  rtc mutex_step empty_mutex m -> tasks m !! n = Some t ->
  (has_settled t = false -> exists i u, tasks m !! i = Some u /\ task_key u = task_key t /\
     (task_phase u = Running \/ is_Some (start_body i m))) /\
  ((forall j u, tasks m !! j = Some u -> task_key u = task_key t -> task_phase u = Cleaned) ->
   tails m !! task_key t = None).
Proof.
  intros Hr%reachable_chained Hn. split.
  - revert t Hn. induction n as [n IH] using lt_wf_ind. intros t Hn Hs.
    destruct (task_phase t) eqn:Hp; unfold has_settled in Hs; rewrite Hp in Hs; try done.
    2: { exists n, t. auto. }
    destruct (prev_settled m t) eqn:Hpr.
    { exists n, t. split_and!; [done|done|]. right. unfold start_body. rewrite Hn. simpl.
      rewrite bool_decide_eq_true_2 by done. rewrite Hpr. by eexists. }
    unfold prev_settled in Hpr. destruct (task_prev t) as [i|] eqn:Hi; [|done].
    destruct (ch_prev _ Hr _ _ _ Hn Hi) as (Hlt & (p & Hpi & Hpk) & _). rewrite Hpi in Hpr.
    destruct (IH i Hlt p Hpi Hpr) as (k & u & ? & ? & ?). exists k, u. split_and!; [done|congruence|done].
  - intros Hall. destruct (tails m !! task_key t) as [i|] eqn:Hi; [|done].
    destruct (ch_tail _ Hr _ _ Hi) as [(u & [Hu Hk] & Hc) _]. destruct Hc. by apply (Hall i).
Qed.

(** ** Witnesses *)

(** Two calls under one key, the first one running *)
Definition two_calls : Mutex := withKeyedLock "k" (withKeyedLock "k" empty_mutex).
Definition first_running : Mutex := default two_calls (start_body 0 two_calls).
Definition first_settled : Mutex := default two_calls (settle_body 0 first_running).
Definition second_running : Mutex := default two_calls (start_body 1 first_settled).

Lemma second_reachable : rtc mutex_step empty_mutex second_running.
Proof.
  eapply rtc_l; [apply (step_call "k")|]. eapply rtc_l; [apply (step_call "k")|].
  eapply rtc_l; [by apply (step_start 0 _ first_running)|].
  eapply rtc_l; [by apply (step_settle 0 _ first_settled)|].
  apply rtc_once. by apply (step_start 1).
Qed.

Lemma keyed_lock_exclusion_witness :
  exists t u, tasks second_running !! 0 = Some t /\ tasks second_running !! 1 = Some u /\
    task_phase u = Running /\ has_settled t = true /\ start_body 1 two_calls = None.
Proof.
  eexists _, _. do 3 (split; [reflexivity|]). split; [|reflexivity].
  eapply (keyed_lock_exclusion second_running 0 1); [apply second_reachable|reflexivity..| |];
    [lia|discriminate].
Defined.

Lemma keyed_lock_progress_witness :
  exists i u, tasks second_running !! i = Some u /\ task_key u = "k" /\
    (task_phase u = Running \/ is_Some (start_body i second_running)).
Proof.
  refine (proj1 (keyed_lock_progress second_running 1 (mkTask "k" (Some 0) Running)
    second_reachable _) _); reflexivity.
Defined.
