(* ===== verification/NetGuard.v ===== *)
(** * Outbound URL policy and caller addresses

    [apps/api/src/lib/url-safety-core.ts], the server-side request forgery
    guard, and [client-ip.ts], the resolution of the caller's address behind
    proxies.  The address library [ipaddr.js], the [URL] parser of the platform,
    DNS and [fetch] are parameters. *)
From stdpp Require Import pretty.
From S2P Require Import Prelude Json ErrorPatterns.
From Stdlib Require Import Ascii.

(** ** The address library *)

Record IPv4 := mkV4 { oct1 : Z; oct2 : Z; oct3 : Z; oct4 : Z }.

#[export] Instance IPv4_eq_dec : EqDecision IPv4.
Proof. solve_decision. Defined.

(** An IPv6 address is its eight 16-bit parts. *)
Inductive IpAddress := V4 (a : IPv4) | V6 (parts : list Z).

#[export] Instance IpAddress_eq_dec : EqDecision IpAddress.
Proof. solve_decision. Defined.

(** The functions of [ipaddr.js] the code calls: [ip_parse] is [None] where
    [isValid] is false and [parse] throws; [ip_toIPv4] is [toIPv4Address];
    [ip_parseCIDR] is [None] where [parseCIDR] throws. *)
Class IpLib := {
  ip_parse : string -> option IpAddress;
  ip_range : IpAddress -> string;
  ip_toString : IpAddress -> string;
  ip_toIPv4 : list Z -> IPv4;
  ip_isIPv4Mapped : list Z -> bool;
  ip_parseCIDR : string -> option (IpAddress * Z);
  ip_match : IpAddress -> IpAddress -> Z -> bool
}.

(** [host.trim().replace(/^\[|\]$/g, '').toLowerCase()] *)
Definition strip_open (s : string) : string :=
  match s with String "[" s' => s' | _ => s end.

Fixpoint strip_last (c : ascii) (s : string) : string :=
  match s with
  | EmptyString => EmptyString
  | String d EmptyString => if ascii_dec c d then EmptyString else s
  | String d s' => String d (strip_last c s')
  end.

Definition normalizeHost (hostname : string) : string :=
  toLowerCase (strip_last "]" (strip_open (trim hostname))).

Section Policy.
Context `{IpLib}.

Definition part (p : list Z) (i : nat) : Z := default 0%Z (p !! i).

Definition mk (hi lo : Z) : IPv4 :=
  mkV4 (Z.land (Z.shiftr hi 8) 255) (Z.land hi 255) (Z.land (Z.shiftr lo 8) 255) (Z.land lo 255).

Definition embeddedIpv4 (p : list Z) : option IPv4 :=
  let range := ip_range (V6 p) in
  if decide (range = "ipv4Mapped") then Some (ip_toIPv4 p)
  else if decide (range = "rfc6052" \/ range = "rfc6145") then Some (mk (part p 6) (part p 7))
  else if decide (range = "6to4") then Some (mk (part p 1) (part p 2))
  else None.

Definition CLOUD_METADATA_IPV4_ADDRESSES : list string := ["169.254.169.254"; "100.100.100.200"].
Definition CLOUD_METADATA_IPV6_ADDRESSES : list string := ["fd00:ec2::254"].
Definition CLOUD_METADATA_HOSTNAMES : list string :=
  ["metadata.google.internal"; "metadata.goog"; "instance-data"; "instance-data.ec2.internal"].

Definition isCloudMetadataHostname (hostname : string) : bool :=
  bool_decide (strip_last "." (normalizeHost hostname) ∈ CLOUD_METADATA_HOSTNAMES).

(** An embedded address is printed and checked again; two levels are enough
    ([metadata_fuel]). *)
Fixpoint cloud_metadata (fuel : nat) (address : string) : bool :=
  match fuel with
  | O => true
  | S fuel' =>
      match ip_parse (normalizeHost address) with
      | None => false
      | Some (V6 p) =>
          match embeddedIpv4 p with
          | Some v4 => cloud_metadata fuel' (ip_toString (V4 v4))
          | None => bool_decide (ip_toString (V6 p) ∈ CLOUD_METADATA_IPV6_ADDRESSES)
          end
      | Some (V4 v) => bool_decide (ip_toString (V4 v) ∈ CLOUD_METADATA_IPV4_ADDRESSES)
      end
  end.

Definition isCloudMetadataAddress : string -> bool := cloud_metadata 2.

Definition isPublicUnicast (addr : IpAddress) : bool :=
  match addr with
  | V6 p => match embeddedIpv4 p with
            | Some v4 => bool_decide (ip_range (V4 v4) = "unicast")
            | None => bool_decide (ip_range addr = "unicast")
            end
  | V4 _ => bool_decide (ip_range addr = "unicast")
  end.

Definition TRUSTED_PRIVATE_DNS_RANGES : list string := ["private"; "carrierGradeNat"; "uniqueLocal"].

Definition trusted_range (addr : IpAddress) : bool :=
  bool_decide (ip_range addr = "unicast") || bool_decide (ip_range addr ∈ TRUSTED_PRIVATE_DNS_RANGES).

Fixpoint allowed_dns (fuel : nat) (address : string) : bool :=
  match fuel with
  | O => false
  | S fuel' =>
      let host := normalizeHost address in
      match ip_parse host with
      | None => false
      | Some addr =>
          if isCloudMetadataAddress host then false
          else match addr with
               | V6 p => match embeddedIpv4 p with
                         | Some v4 => allowed_dns fuel' (ip_toString (V4 v4))
                         | None => trusted_range addr
                         end
               | V4 _ => trusted_range addr
               end
      end
  end.

Definition isAllowedTrustedDnsAddress : string -> bool := allowed_dns 2.

Definition isPrivateOrReserved (hostname : string) : bool :=
  let host := normalizeHost hostname in
  if bool_decide (host = "localhost") || isCloudMetadataHostname host then true
  else match ip_parse host with
       | None => false
       | Some addr => if isCloudMetadataAddress host then true else negb (isPublicUnicast addr)
       end.

Definition isBlockedHostStrict (hostname : string) : bool := isPrivateOrReserved hostname.

(** ** URLs *)

Record Url := mkUrl { url_protocol : string; url_hostname : string; url_origin : string;
                      url_href : string }.

Inductive UnsafeReason := invalid | protocol | blocked.
Inductive UnsafeUrlErrorCode := private_dns_address | forbidden_dns_address | dns_resolution_failed.
Record UnsafeUrlError := mkUnsafe { unsafe_reason : UnsafeReason; unsafe_code : option UnsafeUrlErrorCode }.

(** [new URL(input, base)], [None] where it throws *)
Context (new_URL : string -> option string -> option Url).

Definition assertSafeHttpUrl (rawUrl : string) (allowPrivateAddresses : bool) : UnsafeUrlError + Url :=
  match new_URL rawUrl None with
  | None => inl (mkUnsafe invalid None)
  | Some parsed =>
      if decide (url_protocol parsed <> "https:" /\ url_protocol parsed <> "http:")
      then inl (mkUnsafe protocol None)
      else
        let hostname := normalizeHost (url_hostname parsed) in
        let blocked_ :=
          if allowPrivateAddresses then
            isCloudMetadataHostname hostname || bool_decide (hostname = "localhost") ||
            (bool_decide (is_Some (ip_parse hostname)) && negb (isAllowedTrustedDnsAddress hostname))
          else isBlockedHostStrict hostname in
        if blocked_ then inl (mkUnsafe blocked None) else inr parsed
  end.

Definition assertSafeStrictUrl (rawUrl : string) : UnsafeUrlError + Url :=
  assertSafeHttpUrl rawUrl false.

Record ResolvePublicUrlOptions := mkResolveOptions {
  allowPrivateDnsAnswers : bool;
  opt_allowPrivateAddresses : bool
}.

(** [resolveHostname] answers with addresses, [None] where it rejects *)
Definition resolvePublicUrl (rawUrl : string) (resolveHostname : string -> option (list string))
    (options : ResolvePublicUrlOptions) : UnsafeUrlError + (Url * list string) :=
  match assertSafeHttpUrl rawUrl (opt_allowPrivateAddresses options) with
  | inl e => inl e
  | inr url =>
      match resolveHostname (normalizeHost (url_hostname url)) with
      | None => inl (mkUnsafe blocked (Some dns_resolution_failed))
      | Some [] => inl (mkUnsafe blocked (Some dns_resolution_failed))
      | Some addresses =>
          let hasForbiddenAddress := existsb (fun a => negb (isAllowedTrustedDnsAddress a)) addresses in
          let hasBlockedAddress := hasForbiddenAddress ||
            (negb (opt_allowPrivateAddresses options) && negb (allowPrivateDnsAnswers options) &&
             existsb isPrivateOrReserved addresses) in
          if hasBlockedAddress
          then inl (mkUnsafe blocked (Some (if hasForbiddenAddress then forbidden_dns_address
                                            else private_dns_address)))
          else inr (url, addresses)
      end
  end.
End Policy.

(** ** Redirects *)

Definition header : Type := string * string.

(** [RequestInit]; a [Headers] object lists lower-case names *)
Record RequestInit := mkRequest {
  req_method : option string;
  req_body : option string;
  req_headers : list header
}.

Record Response := mkResponse { resp_status : Z; resp_location : option string }.

Definition upper_char (c : ascii) : ascii :=
  let n := nat_of_ascii c in
  if ((97 <=? n) && (n <=? 122))%nat then ascii_of_nat (n - 32) else c.
Fixpoint toUpperCase (s : string) : string :=
  match s with EmptyString => EmptyString | String c s' => String (upper_char c) (toUpperCase s') end.

Definition REDIRECT_STATUSES : list Z := [301; 302; 303; 307; 308]%Z.
Definition SAFE_CROSS_ORIGIN_REDIRECT_HEADERS : list string :=
  ["accept"; "accept-language"; "a2a-version"; "cache-control"; "content-language"; "content-type";
   "mcp-protocol-version"; "pragma"; "user-agent"].
Definition BODY_METADATA_HEADERS : list string := ["digest"; "transfer-encoding"].

Definition body_header (h : header) : Prop :=
  String.prefix "content-" h.1 = true \/ h.1 ∈ BODY_METADATA_HEADERS.
#[export] Instance body_header_dec h : Decision (body_header h).
Proof. unfold body_header. apply _. Defined.

Definition safe_header (h : header) : Prop :=
  toLowerCase h.1 ∈ SAFE_CROSS_ORIGIN_REDIRECT_HEADERS.
#[export] Instance safe_header_dec h : Decision (safe_header h).
Proof. unfold safe_header. apply _. Defined.

Definition prepareRedirectRequest (request : RequestInit) (status : Z) (crossOrigin : bool)
    : RequestInit :=
  let next :=
    if decide (status = 301 \/ status = 302 \/ status = 303)%Z then
      let method := toUpperCase (default "GET" (req_method request)) in
      if decide (method <> "GET" /\ method <> "HEAD")
      then mkRequest (Some "GET") None (filter (fun h => ~ body_header h) (req_headers request))
      else request
    else request in
  if negb crossOrigin then next
  else mkRequest (req_method next) (req_body next) (filter safe_header (req_headers next)).

(** How a [safeFetch] ends: with a response, a refused URL, or another error *)
Inductive FetchResult :=
| Fetched (r : Response)
| Refused (e : UnsafeUrlError)
| FetchFailed.

Section Fetch.
Context (new_URL : string -> option string -> option Url).
Context (validateHop : string -> option UnsafeUrlError).
(** The [hop]-th [fetch], [None] where it rejects *)
Context (fetch : nat -> string -> RequestInit -> option Response).

Definition origin_of (u : string) : option string := url_origin <$> new_URL u None.

(** [new URL(current).origin !== new URL(next).origin], [None] where one throws *)
Definition crosses (current next : string) : option bool :=
  a ← origin_of current; b ← origin_of next; Some (bool_decide (a <> b)).

(** The requests sent, and the result; [left] is [maxRedirects - hop] *)
Fixpoint fetch_loop (left : nat) (hop : nat) (current : string) (reqInit : RequestInit)
    : list (string * RequestInit) * FetchResult :=
  match validateHop current with
  | Some e => ([], Refused e)
  | None =>
      match fetch hop current reqInit with
      | None => ([(current, reqInit)], FetchFailed)
      | Some res =>
          if decide (resp_status res ∉ REDIRECT_STATUSES) then ([(current, reqInit)], Fetched res)
          else
            match resp_location res with
            | None | Some EmptyString => ([(current, reqInit)], Fetched res)
            | Some location =>
                match left with
                | O => ([(current, reqInit)], Refused (mkUnsafe blocked None))
                | S left' =>
                    match new_URL location (Some current) with
                    | None => ([(current, reqInit)], FetchFailed)
                    | Some next =>
                        match crosses current (url_href next) with
                        | None => ([(current, reqInit)], FetchFailed)
                        | Some crossOrigin =>
                            let '(sent, r) := fetch_loop left' (S hop) (url_href next)
                              (prepareRedirectRequest reqInit (resp_status res) crossOrigin) in
                            ((current, reqInit) :: sent, r)
                        end
                    end
                end
            end
      end
  end.

Definition safeFetch (url : string) (reqInit : RequestInit) (maxRedirects : nat)
    : list (string * RequestInit) * FetchResult :=
  fetch_loop maxRedirects 0 url reqInit.
End Fetch.

(** ** The caller's address *)

Record ClientIpPolicy := mkPolicy { trustProxy : bool; trustedProxyAddresses : list string }.

(** [s.split(',')] *)
Fixpoint split_comma (s : string) : list string :=
  match s with
  | EmptyString => [""]
  | String c s' =>
      if ascii_dec c "," then "" :: split_comma s'
      else match split_comma s' with
           | [] => [String c ""]
           | x :: l => String c x :: l
           end
  end.

Section ClientIp.
Context `{IpLib}.

Definition normalizeIp (raw : string) : option IpAddress :=
  match ip_parse raw with
  | Some (V6 p) => if ip_isIPv4Mapped p then Some (V4 (ip_toIPv4 p)) else Some (V6 p)
  | r => r
  end.

Definition same_kind (a b : IpAddress) : bool :=
  match a, b with V4 _, V4 _ | V6 _, V6 _ => true | _, _ => false end.

Definition trusted_entry (remote : IpAddress) (entry : string) : bool :=
  if negb (includes entry "/") then
    match normalizeIp entry with
    | Some allowed => same_kind allowed remote &&
                      bool_decide (ip_toString allowed = ip_toString remote)
    | None => false
    end
  else
    match ip_parseCIDR entry with
    | None => false
    | Some (V6 p, prefix) =>
        if ip_isIPv4Mapped p then
          if (prefix <? 96)%Z then false
          else same_kind (V4 (ip_toIPv4 p)) remote &&
               ip_match remote (V4 (ip_toIPv4 p)) (prefix - 96)
        else same_kind (V6 p) remote && ip_match remote (V6 p) prefix
    | Some (network, prefix) => same_kind network remote && ip_match remote network prefix
    end.

Definition isTrustedProxy (remoteAddress : string) (allowlist : list string) : bool :=
  match normalizeIp remoteAddress with
  | None => false
  | Some remote => existsb (trusted_entry remote) allowlist
  end.

(** [c.env?.incoming?.socket?.remoteAddress] *)
Definition readTcpRemoteAddress (remoteAddress : option string) : option string :=
  match remoteAddress with
  | Some EmptyString | None => None
  | Some a => if decide (a <> "unknown") then Some a else None
  end.

Definition peer_ip (remoteAddress : string) : string :=
  match normalizeIp remoteAddress with
  | Some a => ip_toString a
  | None => remoteAddress
  end.

(** The walk from the direct peer outwards; the hops are given last first. *)
Fixpoint first_untrusted (hops : list IpAddress) (allowlist : list string) : option string :=
  match hops with
  | [] => None
  | hop :: rest =>
      let normalized := ip_toString hop in
      if negb (isTrustedProxy normalized allowlist) then Some normalized
      else first_untrusted rest allowlist
  end.

Definition resolveClientIp (policy : ClientIpPolicy) (remoteAddress forwardedFor : option string)
    : option string :=
  match readTcpRemoteAddress remoteAddress with
  | None => None
  | Some remote =>
      if trustProxy policy && isTrustedProxy remote (trustedProxyAddresses policy) then
        match forwardedFor with
        | None | Some EmptyString => Some (peer_ip remote)
        | Some forwarded =>
            let rawHops := trim <$> split_comma forwarded in
            let hops := normalizeIp <$> rawHops in
            if bool_decide ("" ∈ rawHops) || bool_decide (None ∈ hops) then Some (peer_ip remote)
            else match first_untrusted (rev (omap id hops)) (trustedProxyAddresses policy) with
                 | Some ip => Some ip
                 | None => Some (peer_ip remote)
                 end
        end
      else Some (peer_ip remote)
  end.
End ClientIp.

(** ** Lemmas *)

(** *** Redirects *)

Lemma prepare_headers req status cross :
  req_headers (prepareRedirectRequest req status cross) ⊆ req_headers req /\
  (cross = true -> Forall safe_header (req_headers (prepareRedirectRequest req status cross))).
Proof.
  unfold prepareRedirectRequest.
  set (next := if decide (_ \/ _) then _ else _).
  assert (req_headers next ⊆ req_headers req) as Hn.
  { subst next. repeat case_decide; simpl; try done. intros h Hh.
    by apply list_elem_of_filter in Hh as [_ ?]. }
  destruct cross; simpl; (split; [|done || (intros _; apply Forall_forall)]).
  - intros h Hh. apply Hn. by apply list_elem_of_filter in Hh as [_ ?].
  - intros h Hh. by apply list_elem_of_filter in Hh as [? _].
  - done.
Qed.

Section FetchLemmas.
Context (new_URL : string -> option string -> option Url).
Context (validateHop : string -> option UnsafeUrlError).
Context (fetch : nat -> string -> RequestInit -> option Response).

Definition sent_ok (current : string) (req : RequestInit) (x : string * RequestInit) : Prop :=
  validateHop x.1 = None /\ req_headers x.2 ⊆ req_headers req /\
  (origin_of new_URL x.1 = origin_of new_URL current \/ Forall safe_header (req_headers x.2)).

Lemma sent_ok_next current req next status cross x :
  crosses new_URL current next = Some cross ->
  sent_ok next (prepareRedirectRequest req status cross) x -> sent_ok current req x.
Proof.
  intros Hc (Hv & Hh & Ho). destruct (prepare_headers req status cross) as [Hsub Hsafe].
  split; [done|]. split; [set_solver|]. destruct Ho as [Ho|]; [|by right].
  unfold crosses in Hc. destruct (origin_of new_URL current) as [a|]; [|done].
  destruct (origin_of new_URL next) as [b|]; [|done]. simpl in Hc.
  destruct cross; [right|left].
  - specialize (Hsafe eq_refl). rewrite Forall_forall in Hsafe. apply Forall_forall. auto.
  - injection Hc as Hc. apply bool_decide_eq_false in Hc. rewrite Ho.
    by destruct (decide (a = b)) as [->|].
Qed.

Lemma fetch_loop_sent left hop current req :
  let '(sent, _) := fetch_loop new_URL validateHop fetch left hop current req in
  length sent <= S left /\ Forall (sent_ok current req) sent.
Proof.
  revert hop current req. induction left as [|left IH]; intros hop current req; simpl;
    (destruct (validateHop current) eqn:Hv; [split; [simpl; lia|constructor]|]);
    assert (sent_ok current req (current, req)) as Hhere by (split; [done|]; split; [done|by left]);
    (destruct (fetch hop current req) as [res|]; [|split; [simpl; lia|by constructor]]);
    (case_decide; [split; [simpl; lia|by constructor]|]);
    (destruct (resp_location res) as [[|c location]|];
      [split; [simpl; lia|by constructor]| |split; [simpl; lia|by constructor]]).
  - split; [simpl; lia|by constructor].
  - destruct (new_URL _ _) as [next|]; [|split; [simpl; lia|by constructor]].
    destruct (crosses _ _ _) as [cross|] eqn:Hc; [|split; [simpl; lia|by constructor]].
    specialize (IH (S hop) (url_href next) (prepareRedirectRequest req (resp_status res) cross)).
    destruct (fetch_loop _ _ _ _ _ _ _) as [sent r]. destruct IH as [Hl Hs].
    split; [simpl; lia|]. constructor; [done|].
    eapply Forall_impl; [exact Hs|]. intros x. by apply sent_ok_next.
Qed.
End FetchLemmas.

(** *** Addresses *)

Definition octet (x : Z) : Prop := (0 <= x < 256)%Z.
Definition valid_v4 (v : IPv4) : Prop := octet (oct1 v) /\ octet (oct2 v) /\ octet (oct3 v) /\ octet (oct4 v).

(** What the code relies on of the library: the text of an IPv4 address parses
    back to it, [toIPv4Address] gives octets, and a text the library accepts has
    no brackets, blanks or capitals left to normalise. *)
Class IpLaws `{IpLib} : Prop := {
  ip_print4 : forall v, valid_v4 v -> ip_parse (normalizeHost (ip_toString (V4 v))) = Some (V4 v);
  ip_mapped4 : forall p, ip_range (V6 p) = "ipv4Mapped" -> valid_v4 (ip_toIPv4 p);
  ip_normal : forall s a, ip_parse (normalizeHost s) = Some a ->
    normalizeHost (normalizeHost s) = normalizeHost s
}.

Lemma octet_land x : octet (Z.land x 255).
Proof.
  unfold octet. change 255%Z with (Z.ones 8). rewrite Z.land_ones by lia.
  apply Z.mod_pos_bound. lia.
Qed.

Lemma mk_valid hi lo : valid_v4 (mk hi lo).
Proof. unfold mk, valid_v4. simpl. auto using octet_land. Qed.

(** The address the policy is about: an embedded IPv4 address or the address *)
Definition effective `{IpLib} (addr : IpAddress) : IpAddress :=
  match addr with
  | V6 p => match embeddedIpv4 p with Some v4 => V4 v4 | None => addr end
  | V4 _ => addr
  end.

Definition metadata_address `{IpLib} (addr : IpAddress) : Prop :=
  match addr with
  | V4 _ => ip_toString addr ∈ CLOUD_METADATA_IPV4_ADDRESSES
  | V6 _ => ip_toString addr ∈ CLOUD_METADATA_IPV6_ADDRESSES
  end.

Section Addresses.
Context `{IpLaws}.

Lemma embedded_valid p v4 : embeddedIpv4 p = Some v4 -> valid_v4 v4.
Proof.
  unfold embeddedIpv4. repeat case_decide; intros [= <-]; auto using mk_valid, ip_mapped4.
Qed.

Lemma metadata_effective fuel address addr :
  ip_parse (normalizeHost address) = Some addr ->
  cloud_metadata (S (S fuel)) address = true <-> metadata_address (effective addr).
Proof.
  intros Hp. cbn [cloud_metadata]. rewrite Hp. destruct addr as [v|p]; simpl.
  - apply bool_decide_eq_true.
  - destruct (embeddedIpv4 p) as [v4|] eqn:He; simpl; [|apply bool_decide_eq_true].
    rewrite (ip_print4 v4) by (by eapply embedded_valid). apply bool_decide_eq_true.
Qed.

(** Two levels of recursion decide the metadata check. *)
Lemma metadata_fuel fuel address : cloud_metadata (S (S fuel)) address = isCloudMetadataAddress address.
Proof.
  destruct (ip_parse (normalizeHost address)) as [addr|] eqn:Hp.
  - apply eq_true_iff_eq. unfold isCloudMetadataAddress. by rewrite !(metadata_effective _ _ addr).
  - unfold isCloudMetadataAddress. simpl. by rewrite Hp.
Qed.

Lemma allowed_effective address :
  isAllowedTrustedDnsAddress address = true ->
  exists addr, ip_parse (normalizeHost address) = Some addr /\
    ~ metadata_address (effective addr) /\ trusted_range (effective addr) = true.
Proof.
  unfold isAllowedTrustedDnsAddress. cbn [allowed_dns].
  destruct (ip_parse (normalizeHost address)) as [addr|] eqn:Hp; [|done].
  destruct (isCloudMetadataAddress (normalizeHost address)) eqn:Hm; [done|]. intros Ha.
  exists addr. split; [done|].
  assert (~ metadata_address (effective addr)) as Hn.
  { intros Hmeta. apply (metadata_effective 0 (normalizeHost address)) in Hmeta.
    - unfold isCloudMetadataAddress in Hm. congruence.
    - by rewrite (ip_normal _ _ Hp). }
  split; [done|]. destruct addr as [v|p]; simpl in *; [done|].
  destruct (embeddedIpv4 p) as [v4|] eqn:He; [|done].
  rewrite (ip_print4 v4) in Ha by (by eapply embedded_valid).
  by destruct (isCloudMetadataAddress _) in Ha.
Qed.

Lemma public_effective address addr :
  ip_parse (normalizeHost address) = Some addr -> isPrivateOrReserved address = false ->
  ip_range (effective addr) = "unicast".
Proof.
  unfold isPrivateOrReserved. intros Hp. destruct (_ || _); [done|]. rewrite Hp.
  destruct (isCloudMetadataAddress _); [done|]. intros Hu%negb_false_iff.
  destruct addr as [v|p]; simpl in *; [by apply bool_decide_eq_true in Hu|].
  destruct (embeddedIpv4 p); by apply bool_decide_eq_true in Hu.
Qed.
End Addresses.

(** The literal check strips a final dot from metadata host names only. *)
Lemma trailing_dot_localhost `{IpLib} :
  ip_parse "localhost." = None ->
  isPrivateOrReserved "localhost." = false /\ isPrivateOrReserved "metadata.goog." = true.
Proof.
  intros Hp. unfold isPrivateOrReserved.
  change (normalizeHost "localhost.") with "localhost.". by rewrite Hp.
Qed.

(** *** Forwarded hops *)

Lemma first_untrusted_app `{IpLib} q h rest allowlist :
  Forall (fun x => isTrustedProxy (ip_toString x) allowlist = true) q ->
  isTrustedProxy (ip_toString h) allowlist = false ->
  first_untrusted (q ++ h :: rest) allowlist = Some (ip_toString h).
Proof. induction 1 as [|x q Hx _ IH]; simpl; intros Hh; [by rewrite Hh|]. rewrite Hx. auto. Qed.

Lemma first_untrusted_none `{IpLib} q allowlist :
  Forall (fun x => isTrustedProxy (ip_toString x) allowlist = true) q ->
  first_untrusted q allowlist = None.
Proof. induction 1 as [|x q Hx _ IH]; simpl; [done|]. by rewrite Hx. Qed.

Lemma omap_fmap_Some {A} (l : list A) : omap id (Some <$> l) = l.
Proof. induction l as [|x l IH]; [done|]. cbn. f_equal. exact IH. Qed.

(** ** Properties *)

(** Redirects are confined: every URL that [safeFetch] requests has passed
    the hop validator, there are at most [maxRedirects + 1] requests, and a
    request to an origin other than the first one carries allowlisted headers
    only. *)
Theorem safe_fetch_confined new_URL validateHop fetch url req maxRedirects :
  let '(sent, _) := safeFetch new_URL validateHop fetch url req maxRedirects in
  length sent <= S maxRedirects /\
  forall u r, (u, r) ∈ sent -> validateHop u = None /\
    (origin_of new_URL u = origin_of new_URL url \/ Forall safe_header (req_headers r)).
Proof.
  unfold safeFetch. pose proof (fetch_loop_sent new_URL validateHop fetch maxRedirects 0 url req) as Hs.
  destruct (fetch_loop _ _ _ _ _ _ _) as [sent res]. destruct Hs as [Hl Hs].
  split; [done|]. intros u r Hin. rewrite Forall_forall in Hs.
  destruct (Hs _ Hin) as (? & _ & ?). done.
Qed.

(** Resolved addresses are safe: when [resolvePublicUrl] accepts a URL it is
    http or https, the resolver answered, and every address it returns for
    pinning is a valid one that, embedded IPv4 forms decoded, is no cloud
    metadata endpoint and lies in the public unicast range, or in a private
    range if the caller allowed private answers. *)
Theorem resolved_addresses_safe `{IpLaws} new_URL rawUrl resolve options url addresses :
  resolvePublicUrl new_URL rawUrl resolve options = inr (url, addresses) ->
  (url_protocol url = "https:" \/ url_protocol url = "http:") /\ addresses <> [] /\
  resolve (normalizeHost (url_hostname url)) = Some addresses /\
  forall a, a ∈ addresses -> exists addr, ip_parse (normalizeHost a) = Some addr /\
    ~ metadata_address (effective addr) /\
    (ip_range (effective addr) = "unicast" \/
     (opt_allowPrivateAddresses options || allowPrivateDnsAnswers options)%bool = true /\
     ip_range (effective addr) ∈ TRUSTED_PRIVATE_DNS_RANGES).
Proof.
  unfold resolvePublicUrl, assertSafeHttpUrl.
  destruct (new_URL rawUrl None) as [u|]; [|done]. case_decide as Hproto; [done|].
  destruct (if opt_allowPrivateAddresses options then _ else _); [done|].
  destruct (resolve _) as [[|a0 l]|] eqn:Hres; [done| |done].
  destruct (existsb (fun a => negb (isAllowedTrustedDnsAddress a)) (a0 :: l)) eqn:Hforb; [done|].
  destruct (_ && existsb isPrivateOrReserved (a0 :: l)) eqn:Hpriv; [done|].
  intros [= <- <-]. split; [|split; [done|split; [done|]]].
  { destruct (decide (url_protocol u = "https:")), (decide (url_protocol u = "http:")); tauto. }
  intros a Ha. assert (isAllowedTrustedDnsAddress a = true) as Hok.
  { apply negb_false_iff. apply not_true_iff_false. intros Hb.
    apply not_true_iff_false in Hforb. apply Hforb. apply existsb_exists. exists a.
    split; [by apply list_elem_of_In|done]. }
  apply allowed_effective in Hok as (addr & Hp & Hm & Hr). exists addr. do 2 (split; [done|]).
  unfold trusted_range in Hr. apply orb_true_iff in Hr as [Hr|Hr]; bool_to_prop; [by left|].
  destruct (opt_allowPrivateAddresses options || allowPrivateDnsAnswers options) eqn:Hopt; [by right|].
  left. apply orb_false_iff in Hopt as [Ho1 Ho2]. rewrite Ho1, Ho2 in Hpriv. simpl in Hpriv.
  apply (public_effective a); [done|]. apply not_true_iff_false. intros Hb.
  apply not_true_iff_false in Hpriv. apply Hpriv. apply (existsb_exists isPrivateOrReserved (a0 :: l)).
  exists a. split; [by apply list_elem_of_In|done].
Qed.

(** The caller's address cannot be forged by a prefix of [X-Forwarded-For]:
    behind a trusted peer the result is the last hop that is not a trusted
    proxy, whatever hops precede it, and behind any other peer it is the peer
    itself. *)
Theorem client_ip_unforgeable `{IpLib} policy remote forwarded pre h post :
  remote <> "" -> remote <> "unknown" -> forwarded <> "" ->
  normalizeIp <$> (trim <$> split_comma forwarded) = Some <$> (pre ++ h :: post) ->
  "" ∉ trim <$> split_comma forwarded ->
  Forall (fun x => isTrustedProxy (ip_toString x) (trustedProxyAddresses policy) = true) post ->
  isTrustedProxy (ip_toString h) (trustedProxyAddresses policy) = false ->
  resolveClientIp policy (Some remote) (Some forwarded) =
    Some (if trustProxy policy && isTrustedProxy remote (trustedProxyAddresses policy)
          then ip_toString h else peer_ip remote).
Proof.
  intros Hr Hu Hf Hhops Hne Hpost Hh. unfold resolveClientIp.
  assert (readTcpRemoteAddress (Some remote) = Some remote) as ->.
  { destruct remote as [|c r]; [done|]. simpl. by rewrite decide_True. }
  destruct (trustProxy policy && _); [|done]. destruct forwarded as [|c f]; [done|].
  rewrite Hhops, omap_fmap_Some, !bool_decide_eq_false_2.
  - simpl. rewrite rev_app_distr. simpl. rewrite <- app_assoc. simpl.
    rewrite first_untrusted_app; [done| |done]. by apply Forall_rev.
  - by intros (x & [=] & _)%list_elem_of_fmap.
  - done.
Qed.

(** ** Witnesses

    A small address library: an address is written in binary, 32 digits for
    IPv4 and 128 for IPv6. *)

Definition binary_char (c : ascii) : bool := if ascii_dec c "0" then true else if ascii_dec c "1" then true else false.
Fixpoint all_binary (s : string) : bool :=
  match s with EmptyString => true | String c s' => binary_char c && all_binary s' end.

Fixpoint bits (n : nat) (x : Z) : string :=
  match n with
  | O => ""
  | S n' => String (if Z.testbit x (Z.of_nat n') then "1" else "0") (bits n' x)
  end.

Fixpoint value (acc : Z) (s : string) : Z :=
  match s with
  | EmptyString => acc
  | String c s' => value (2 * acc + (if ascii_dec c "1" then 1 else 0))%Z s'
  end.

Definition field (width : Z) (v : Z) (i : Z) : Z := ((v / 2 ^ (width * i)) mod 2 ^ width)%Z.

Definition demo_parse (s : string) : option IpAddress :=
  if negb (all_binary s) then None
  else if decide (String.length s = 32) then
    let v := value 0 s in Some (V4 (mkV4 (field 8 v 3) (field 8 v 2) (field 8 v 1) (field 8 v 0)))
  else if decide (String.length s = 128) then
    let v := value 0 s in Some (V6 (field 16 v <$> [7; 6; 5; 4; 3; 2; 1; 0]%Z))
  else None.

Definition demo_range (a : IpAddress) : string :=
  match a with
  | V4 v => if decide (oct1 v = 10%Z) then "private" else
            if decide (oct1 v = 127%Z) then "loopback" else "unicast"
  | V6 p => if decide (part p 0 = 0x2002%Z) then "6to4" else
            if decide (part p 0 = 0xfd00%Z) then "uniqueLocal" else "unicast"
  end.

#[local] Instance demo_ip : IpLib := {|
  ip_parse := demo_parse;
  ip_range := demo_range;
  ip_toString := fun a => match a with
    | V4 v => bits 8 (oct1 v) +:+ bits 8 (oct2 v) +:+ bits 8 (oct3 v) +:+ bits 8 (oct4 v)
    | V6 p => foldr (fun x s => bits 16 x +:+ s) "" p
    end;
  ip_toIPv4 := fun p => mk (part p 6) (part p 7);
  ip_isIPv4Mapped := fun _ => false;
  ip_parseCIDR := fun _ => None;
  ip_match := fun _ _ _ => false
|}.

Lemma binary_cases c : binary_char c = true -> c = "0"%char \/ c = "1"%char.
Proof. unfold binary_char. destruct (ascii_dec c _); [by left|]. destruct (ascii_dec c _); [by right|done]. Qed.

Lemma all_binary_app s t : all_binary (s +:+ t) = all_binary s && all_binary t.
Proof. induction s as [|c s IH]; simpl; [done|]. by rewrite IH, andb_assoc. Qed.

Lemma all_binary_bits n x : all_binary (bits n x) = true.
Proof. induction n as [|n IH]; simpl; [done|]. rewrite IH. by destruct (Z.testbit x _). Qed.

Lemma length_bits n x : String.length (bits n x) = n.
Proof. induction n as [|n IH]; simpl; auto. Qed.

Lemma value_app acc s t : value acc (s +:+ t) = value (value acc s) t.
Proof. revert acc. induction s as [|c s IH]; intros acc; simpl; auto. Qed.

Lemma value_bits n x acc : value acc (bits n x) = (acc * 2 ^ Z.of_nat n + x mod 2 ^ Z.of_nat n)%Z.
Proof.
  revert acc. induction n as [|n IH]; intros acc; cbn [bits value].
  - rewrite Z.mod_1_r. lia.
  - rewrite IH, Nat2Z.inj_succ, Z.pow_succ_r by lia.
    rewrite (Z.mul_comm 2 (2 ^ Z.of_nat n)), (Z.rem_mul_r x) by lia.
    rewrite <- (Z.testbit_spec' x (Z.of_nat n)) by lia.
    destruct (Z.testbit x _); simpl; nia.
Qed.

Lemma normalize_binary s : all_binary s = true -> normalizeHost s = s.
Proof.
  intros Hs. unfold normalizeHost, trim.
  assert (trim_start s = s) as ->.
  { destruct s as [|c s]; [done|]. simpl in Hs. apply andb_true_iff in Hs as [Hc _].
    by destruct (binary_cases c Hc) as [->| ->]. }
  assert (trim_end s = s) as ->.
  { induction s as [|c s IH]; [done|]. simpl in Hs. apply andb_true_iff in Hs as [Hc Hs].
    simpl. rewrite (IH Hs). by destruct (binary_cases c Hc) as [->| ->]. }
  assert (strip_open s = s) as ->.
  { destruct s as [|c s]; [done|]. simpl in Hs. apply andb_true_iff in Hs as [Hc _].
    by destruct (binary_cases c Hc) as [->| ->]. }
  assert (strip_last "]" s = s) as ->.
  { induction s as [|c s IH]; [done|]. simpl in Hs. apply andb_true_iff in Hs as [Hc Hs].
    specialize (IH Hs). simpl in *. destruct s as [|d s].
    - by destruct (binary_cases c Hc) as [->| ->].
    - by rewrite IH. }
  induction s as [|c s IH]; [done|]. simpl in Hs. apply andb_true_iff in Hs as [Hc Hs].
  simpl. rewrite (IH Hs). by destruct (binary_cases c Hc) as [->| ->].
Qed.

#[local] Instance demo_ip_laws : IpLaws.
Proof.
  split.
  - intros v (H1 & H2 & H3 & H4). unfold octet in *.
    change (demo_parse (normalizeHost (bits 8 (oct1 v) +:+ bits 8 (oct2 v) +:+ bits 8 (oct3 v) +:+
      bits 8 (oct4 v))) = Some (V4 v)).
    rewrite normalize_binary by (by rewrite !all_binary_app, !all_binary_bits).
    unfold demo_parse. rewrite !all_binary_app, !all_binary_bits. cbn [negb andb].
    rewrite decide_True by done.
    rewrite !value_app, !value_bits. change (2 ^ Z.of_nat 8)%Z with 256%Z.
    rewrite !Z.mod_small by lia. unfold field. destruct v as [a b c d]; simpl in *.
    do 2 f_equal. f_equal; Z.to_euclidean_division_equations; lia.
  - intros p _. apply mk_valid.
  - intros s a Hs. apply normalize_binary. simpl in Hs. unfold demo_parse in Hs.
    by destruct (all_binary (normalizeHost s)).
Qed.

Definition demo_text (a : IpAddress) : string := ip_toString a.
Definition public_v4 : IpAddress := V4 (mkV4 8 8 8 8).
Definition proxy_v4 : IpAddress := V4 (mkV4 10 0 0 1).
(** 2002:0808:0808::, the 6to4 form of 8.8.8.8 *)
Definition tunnel_v6 : IpAddress := V6 [0x2002; 0x0808; 0x0808; 0; 0; 0; 0; 1]%Z.
Definition demo_url (input : string) (_ : option string) : option Url :=
  Some (mkUrl "https:" "example.org" "https://example.org" input).
Definition demo_resolver (_ : string) : option (list string) :=
  Some [demo_text public_v4; demo_text tunnel_v6].

Lemma resolved_addresses_safe_witness :
  resolvePublicUrl demo_url "https://example.org/" demo_resolver (mkResolveOptions false false) =
    inr (mkUrl "https:" "example.org" "https://example.org" "https://example.org/",
         [demo_text public_v4; demo_text tunnel_v6]) /\
  exists addr, ip_parse (normalizeHost (demo_text tunnel_v6)) = Some addr /\
    ~ metadata_address (effective addr).
Proof.
  assert (resolvePublicUrl demo_url "https://example.org/" demo_resolver (mkResolveOptions false false) =
    inr (mkUrl "https:" "example.org" "https://example.org" "https://example.org/",
         [demo_text public_v4; demo_text tunnel_v6])) as Hr by (vm_compute; reflexivity).
  split; [exact Hr|].
  destruct (resolved_addresses_safe _ _ _ _ _ _ Hr) as (_ & _ & _ & Hall).
  destruct (Hall (demo_text tunnel_v6)) as (addr & Hp & Hm & _); [right; left|].
  exists addr. split; [exact Hp|exact Hm].
Defined.

(** The same answers are refused once one of them is loopback. *)
Example loopback_answer_refused :
  resolvePublicUrl demo_url "https://example.org/"
    (fun _ => Some [demo_text public_v4; demo_text (V4 (mkV4 127 0 0 1))])
    (mkResolveOptions true true) = inl (mkUnsafe blocked (Some forbidden_dns_address)).
Proof. vm_compute. reflexivity. Qed.

Definition demo_policy : ClientIpPolicy := mkPolicy true [demo_text proxy_v4].
Definition demo_forwarded : string :=
  demo_text (V4 (mkV4 1 2 3 4)) +:+ ", " +:+ demo_text public_v4 +:+ ", " +:+ demo_text proxy_v4.

Lemma client_ip_unforgeable_witness :
  resolveClientIp demo_policy (Some (demo_text proxy_v4)) (Some demo_forwarded) =
    Some (demo_text public_v4).
Proof.
  rewrite (client_ip_unforgeable demo_policy (demo_text proxy_v4) demo_forwarded
    [V4 (mkV4 1 2 3 4)] public_v4 [proxy_v4]); [vm_compute; reflexivity|discriminate..| | | |].
  - vm_compute. reflexivity.
  - apply (bool_decide_unpack _). vm_compute. exact I.
  - repeat constructor; vm_compute; reflexivity.
  - vm_compute. reflexivity.
Defined.

(** A request that carries a token is stripped of it at the first foreign hop. *)
Definition hop_url (input : string) (_ : option string) : option Url :=
  Some (mkUrl "https:" input input input).

Example token_stays_home :
  let sent := (safeFetch hop_url (fun _ => None)
    (fun hop _ _ => Some (if (hop =? 0)%nat then mkResponse 307 (Some "https://b") else mkResponse 200 None))
    "https://a" (mkRequest (Some "POST") (Some "x") [("authorization", "t"); ("accept", "*")]) 5).1 in
  (fun x => (x.1, req_headers x.2)) <$> sent =
    [("https://a", [("authorization", "t"); ("accept", "*")]); ("https://b", [("accept", "*")])].
Proof. vm_compute. reflexivity. Qed.
