(* ===== verification/GitTriggerDiff.v ===== *)
(** * Change detection of the git trigger channels

    lib/git-trigger-diff.ts: the pure diff of a repository's open requests
    against the stored fingerprints, and the roll back of events that were not
    acted on.  The rule the file is written around is [advances_iff_handled]
    below: a stored fingerprint advances exactly when this tick handled the
    request's current state.  [localeCompare] only orders the fingerprints that
    may be dropped when a truncated listing proves nothing. *)
From S2P Require Import Prelude Records.
From stdpp Require Import pretty.
From Stdlib Require Import Ascii Permutation.

Inductive GitTriggerEvent := opened | updated | commented | closed.

#[export] Instance GitTriggerEvent_eq_dec : EqDecision GitTriggerEvent.
Proof. solve_decision. Defined.

Definition GIT_TRIGGER_MAX_RUNS_PER_TICK : nat := 5.
Definition GIT_TRIGGER_MAX_PAGES : nat := 5.
Definition MAX_RETAINED_REQUESTS : nat := GIT_TRIGGER_MAX_PAGES * 100 + 200.

(** A stored fingerprint *)
Record GitTriggerRequestState := mkFingerprint {
  fp_number : Z;
  fp_sha : string;
  fp_comments : Z;
  fp_filtered : option bool;
  fp_updatedAt : option string;
  fp_title : option string;
  fp_url : option string;
  fp_project : option string
}.

Record GitTriggerRepoState := mkRepoState {
  st_requests : js_record GitTriggerRequestState;
  st_polledAt : option string
}.

Record ObservedRequest := mkObserved {
  rq_number : Z;
  rq_sha : string;
  rq_comments : Z;
  rq_title : string;
  rq_url : option string;
  rq_author : option string;
  rq_sourceBranch : option string;
  rq_targetBranch : option string;
  rq_updatedAt : option string;
  rq_isDraft : bool;
  rq_lastCommentAuthor : option string;
  rq_project : option string
}.

Record GitTriggerFiredEvent := mkFired {
  ev_event : GitTriggerEvent;
  ev_request : ObservedRequest;
  ev_newComments : option Z
}.

Record DiffResult := mkDiff {
  df_fired : list GitTriggerFiredEvent;
  df_nextState : GitTriggerRepoState;
  df_deferred : list GitTriggerFiredEvent;
  df_seeded : bool
}.

(** [x ? { k: x } : {}] for an optional string *)
Definition nonempty (x : option string) : option string :=
  match x with Some "" => None | _ => x end.

Definition key_of (project : option string) (number : Z) : string :=
  match nonempty project with
  | Some p => p +:+ "!" +:+ pretty number
  | None => pretty number
  end.

Definition requestKey (request : ObservedRequest) : string :=
  key_of (rq_project request) (rq_number request).

Definition fingerprint (request : ObservedRequest) : GitTriggerRequestState :=
  mkFingerprint (rq_number request) (rq_sha request) (rq_comments request) None
    (nonempty (rq_updatedAt request)) (nonempty (Some (rq_title request)))
    (nonempty (rq_url request)) (nonempty (rq_project request)).

Definition allKnownKeys (observed : list ObservedRequest) (previous : GitTriggerRepoState)
    : list string :=
  foldl set_add (foldl set_add [] (st_requests previous).*1) (requestKey <$> observed).

(** What one stored fingerprint becomes *)
Inductive Retained :=
| Keep (fp : GitTriggerRequestState)
| Unprovable (fp : GitTriggerRequestState)
| Dropped.

Definition keep_prior (prior : option GitTriggerRequestState) : Retained :=
  match prior with Some p => Keep p | None => Dropped end.

Definition with_filtered (p : GitTriggerRequestState) : GitTriggerRequestState :=
  mkFingerprint (fp_number p) (fp_sha p) (fp_comments p) (Some true) (fp_updatedAt p)
    (fp_title p) (fp_url p) (fp_project p).

Definition retainedFingerprint (observed : option ObservedRequest)
    (prior : option GitTriggerRequestState) (deferred stillOpen listingComplete : bool)
    : Retained :=
  match observed with
  | Some request => if deferred then keep_prior prior else Keep (fingerprint request)
  | None =>
      if stillOpen then match prior with Some p => Keep (with_filtered p) | None => Dropped end
      else if negb listingComplete then
        match prior with Some p => Unprovable p | None => Dropped end
      else if deferred then keep_prior prior
      else Dropped
  end.

Definition buildState (requests : list ObservedRequest) (polledAt : string)
    : GitTriggerRepoState :=
  mkRepoState (foldl (fun next request => rec_set next (requestKey request) (fingerprint request))
                 [] requests) (Some polledAt).

Record Filters := mkFilters { targetBranches : list string; ignoreDrafts : bool }.

Definition matchesFilters (request : ObservedRequest) (filters : Filters) : bool :=
  if ignoreDrafts filters && rq_isDraft request then false
  else match targetBranches filters with
       | [] => true
       | branches =>
           match nonempty (rq_targetBranch request) with
           | Some b => bool_decide (b ∈ branches)
           | None => false
           end
       end.

Record DiffParams := mkParams {
  dp_previous : option GitTriggerRepoState;
  dp_observed : list ObservedRequest;
  dp_events : list GitTriggerEvent;
  dp_polledAt : string;
  dp_maxRunsPerTick : option nat;
  dp_observedUnfiltered : option (list ObservedRequest);
  dp_listingComplete : option bool
}.

Definition wants (events : list GitTriggerEvent) (e : GitTriggerEvent) : bool :=
  bool_decide (e ∈ events).

(** The body of the loop over [observed] *)
Definition candidate (events : list GitTriggerEvent) (prior : option GitTriggerRequestState)
    (request : ObservedRequest) : option GitTriggerFiredEvent :=
  match prior with
  | None => if wants events opened then Some (mkFired opened request None) else None
  | Some p =>
      if default false (fp_filtered p) && wants events opened
      then Some (mkFired opened request None)
      else if negb (String.eqb (fp_sha p) (rq_sha request)) && wants events updated
      then Some (mkFired updated request None)
      else if (fp_comments p <? rq_comments request)%Z then
        if wants events commented
        then Some (mkFired commented request (Some (rq_comments request - fp_comments p)%Z))
        else None
      else None
  end.

Definition open_candidates (events : list GitTriggerEvent)
    (previous : js_record GitTriggerRequestState) (observed : list ObservedRequest)
    : list GitTriggerFiredEvent :=
  omap (fun request => candidate events (rec_get previous (requestKey request)) request) observed.

(** The request a [closed] event names, rebuilt from its fingerprint *)
Definition closed_request (prior : GitTriggerRequestState) : ObservedRequest :=
  mkObserved (fp_number prior) (fp_sha prior) (fp_comments prior) (default "" (fp_title prior))
    (nonempty (fp_url prior)) None None None (nonempty (fp_updatedAt prior)) false None
    (nonempty (fp_project prior)).

Definition closed_candidates (previous : js_record GitTriggerRequestState)
    (seen stillOpen : list string) : list GitTriggerFiredEvent :=
  omap (fun '(key, prior) =>
          if bool_decide (key ∈ seen) || bool_decide (key ∈ stillOpen) then None
          else Some (mkFired closed (closed_request prior) None)) previous.

Definition is_closed (c : GitTriggerFiredEvent) : Prop := ev_event c = closed.

#[export] Instance is_closed_dec c : Decision (is_closed c).
Proof. unfold is_closed. apply _. Defined.

Section Diff.
Context (localeCompare : string -> string -> Z).

(** The last loop: what may not be proven gone is kept while the state has room *)
Definition retain_step (decide_key : string -> Retained)
    (acc : js_record GitTriggerRequestState * list (string * GitTriggerRequestState))
    (key : string) :=
  match decide_key key with
  | Keep fp => (rec_set acc.1 key fp, acc.2)
  | Unprovable fp => (acc.1, acc.2 ++ [(key, fp)])
  | Dropped => acc
  end.

Definition by_recency (a b : string * GitTriggerRequestState) : Z :=
  localeCompare (default "" (fp_updatedAt b.2)) (default "" (fp_updatedAt a.2)).

Definition retained (keep : js_record GitTriggerRequestState)
    (unprovable : list (string * GitTriggerRequestState)) : js_record GitTriggerRequestState :=
  foldl (fun next kv => rec_set next kv.1 kv.2) keep
    (take (MAX_RETAINED_REQUESTS - length keep) (sort by_recency unprovable)).

Definition ordered_candidates (params : DiffParams) (previous : GitTriggerRepoState)
    : list GitTriggerFiredEvent :=
  let observed := dp_observed params in
  let stillOpen := requestKey <$> default observed (dp_observedUnfiltered params) in
  let canInferClosed :=
    wants (dp_events params) closed && default true (dp_listingComplete params) in
  let candidates :=
    open_candidates (dp_events params) (st_requests previous) observed ++
    (if canInferClosed
     then closed_candidates (st_requests previous) (requestKey <$> observed) stillOpen
     else []) in
  filter is_closed candidates ++ filter (fun c => ~ is_closed c) candidates.

Definition diffRepoState (params : DiffParams) : DiffResult :=
  let observed := dp_observed params in
  let cap := default GIT_TRIGGER_MAX_RUNS_PER_TICK (dp_maxRunsPerTick params) in
  let stillOpen := requestKey <$> default observed (dp_observedUnfiltered params) in
  let listingComplete := default true (dp_listingComplete params) in
  match dp_previous params with
  | None => mkDiff [] (buildState observed (dp_polledAt params)) [] true
  | Some previous =>
      let observedByNumber := map_of ((fun r => (requestKey r, r)) <$> observed) in
      let ordered := ordered_candidates params previous in
      let fired := take cap ordered in
      let deferred := drop cap ordered in
      let deferredNumbers := (fun d => requestKey (ev_request d)) <$> deferred in
      let decide_key key :=
        retainedFingerprint (rec_get observedByNumber key) (rec_get (st_requests previous) key)
          (bool_decide (key ∈ deferredNumbers)) (bool_decide (key ∈ stillOpen)) listingComplete in
      let '(keep, unprovable) :=
        foldl (retain_step decide_key) ([], []) (allKnownKeys observed previous) in
      mkDiff fired (mkRepoState (retained keep unprovable) (Some (dp_polledAt params)))
        deferred false
  end.

End Diff.

Definition rollback_one (previous : option GitTriggerRepoState)
    (requests : js_record GitTriggerRequestState) (item : GitTriggerFiredEvent)
    : js_record GitTriggerRequestState :=
  let key := requestKey (ev_request item) in
  match previous ≫= fun p => rec_get (st_requests p) key with
  | Some prior => rec_set requests key prior
  | None => rec_delete requests key
  end.

Definition rollbackUnhandled (next : GitTriggerRepoState) (previous : option GitTriggerRepoState)
    (unhandled : list GitTriggerFiredEvent) : GitTriggerRepoState :=
  match unhandled with
  | [] => next
  | _ => mkRepoState (foldl (rollback_one previous) (st_requests next) unhandled) (st_polledAt next)
  end.

(** ** What a tick must do with one key *)

(** The key an event is about *)
Definition event_key (c : GitTriggerFiredEvent) : string := requestKey (ev_request c).
Abbreviation about k := (fun c => event_key c = k).

(** Nothing the configuration listens to moved since [prior]. *)
Definition unmoved (events : list GitTriggerEvent) (prior : option GitTriggerRequestState)
    (r : ObservedRequest) : Prop :=
  match prior with
  | None => opened ∉ events
  | Some p =>
      (fp_filtered p = Some true -> opened ∉ events) /\
      (fp_sha p <> rq_sha r -> updated ∉ events) /\
      ((fp_comments p < rq_comments r)%Z -> commented ∉ events)
  end.

(** An event about the key was fired, was deferred, or there is none. *)
Inductive key_events (res : DiffResult) (k : string) : option GitTriggerFiredEvent -> bool -> Prop :=
| key_fired c : filter (about k) (df_fired res) = [c] -> filter (about k) (df_deferred res) = [] ->
    key_events res k (Some c) true
| key_deferred c : filter (about k) (df_fired res) = [] -> filter (about k) (df_deferred res) = [c] ->
    key_events res k (Some c) false
| key_quiet b : filter (about k) (df_fired res) = [] -> filter (about k) (df_deferred res) = [] ->
    key_events res k None b.

Definition accounted_as (params : DiffParams) (previous : GitTriggerRepoState)
    (res : DiffResult) (k : string) (event : option GitTriggerFiredEvent) (fired : bool) : Prop :=
  let observed := find_key requestKey (dp_observed params) k in
  let prior := rec_get (st_requests previous) k in
  let next := rec_get (st_requests (df_nextState res)) k in
  let stillOpen :=
    k ∈ requestKey <$> default (dp_observed params) (dp_observedUnfiltered params) in
  key_events res k event fired /\
  match observed, prior with
  | Some r, _ =>
      match event with
      | Some c => ev_request c = r /\ ev_event c <> closed /\
                  next = (if fired then Some (fingerprint r) else prior)
      | None => unmoved (dp_events params) prior r /\ next = Some (fingerprint r)
      end
  | None, Some p =>
      match event with
      | Some c => ev_event c = closed /\ ~ stillOpen /\ next = (if fired then None else Some p)
      | None =>
          (stillOpen /\ next = Some (with_filtered p)) \/
          (~ stillOpen /\ dp_listingComplete params = Some false /\
            (next = Some p \/
             next = None /\ MAX_RETAINED_REQUESTS <= length (st_requests (df_nextState res)))) \/
          (~ stillOpen /\ dp_listingComplete params <> Some false /\
            closed ∉ dp_events params /\ next = None)
      end
  | None, None => event = None /\ next = None
  end.

Definition accounted (params : DiffParams) (previous : GitTriggerRepoState) (res : DiffResult)
    (k : string) : Prop :=
  exists event fired, accounted_as params previous res k event fired.

(** Every fingerprint is stored under the key it names. *)
Definition named (kv : string * GitTriggerRequestState) : Prop :=
  key_of (fp_project kv.2) (fp_number kv.2) = kv.1.

Definition state_wf (st : GitTriggerRepoState) : Prop :=
  rec_wf (st_requests st) /\ Forall named (st_requests st).

(** ** Lemmas *)

Section DiffLemmas.
Implicit Types (previous : GitTriggerRepoState) (params : DiffParams) (k : string).

Lemma nonempty_idem x : nonempty (nonempty x) = nonempty x.
Proof. by destruct x as [[]|]. Qed.

Lemma key_of_nonempty p n : key_of (nonempty p) n = key_of p n.
Proof. unfold key_of. by rewrite nonempty_idem. Qed.

Lemma closed_request_key kv : named kv -> requestKey (closed_request kv.2) = kv.1.
Proof. intros <-. apply key_of_nonempty. Qed.

Lemma fingerprint_named r : named (requestKey r, fingerprint r).
Proof. apply key_of_nonempty. Qed.

Lemma candidate_open events prior r c :
  candidate events prior r = Some c -> ev_request c = r /\ ev_event c <> closed.
Proof.
  unfold candidate. destruct prior; repeat case_match; intros [= <-]; done.
Qed.

Lemma candidate_None events prior r : candidate events prior r = None -> unmoved events prior r.
Proof.
  unfold candidate, unmoved, wants. destruct prior as [p|]; repeat case_match; try done;
    intros _; bool_to_prop; try done.
  all: repeat split; try (by intros ->); try done.
  all: repeat match goal with
       | H : (_ && _)%bool = false |- _ => apply andb_false_iff in H
       end; bool_to_prop; try lia.
  all: try (intros He; destruct_or!; bool_to_prop; simplify_eq/=; try done).
  all: try (by rewrite He in *).
  all: try match goal with H : String.eqb _ _ = true |- _ => apply String.eqb_eq in H end; try done.
Qed.

(** The event the change at [k] calls for *)
Definition candidate_at params previous k : option GitTriggerFiredEvent :=
  match find_key requestKey (dp_observed params) k with
  | Some r => candidate (dp_events params) (rec_get (st_requests previous) k) r
  | None =>
      if wants (dp_events params) closed && default true (dp_listingComplete params) &&
         negb (bool_decide (k ∈ requestKey <$>
           default (dp_observed params) (dp_observedUnfiltered params)))
      then (fun p => mkFired closed (closed_request p) None) <$> rec_get (st_requests previous) k
      else None
  end.

Lemma rec_get_find {A} (o : js_record A) k : rec_get o k = snd <$> find_key fst o k.
Proof.
  induction o as [|[k' v] o IH]; [done|]. rewrite find_key_cons. simpl.
  repeat case_decide; by subst.
Qed.

Lemma find_key_fst {A} (o : js_record A) k : find_key fst o k = (k,.) <$> rec_get o k.
Proof.
  rewrite rec_get_find. destruct (find_key fst o k) as [[k' v]|] eqn:Hf; [|done].
  apply find_key_Some in Hf as [_ Hk]. simpl in *. by subst.
Qed.

Lemma rec_named previous k p :
  state_wf previous -> rec_get (st_requests previous) k = Some p -> named (k, p).
Proof. intros [_ Hn] Hk. rewrite Forall_forall in Hn. by apply Hn, rec_get_in. Qed.

Lemma ordered_about params previous k :
  state_wf previous -> NoDup (requestKey <$> dp_observed params) ->
  filter (about k) (ordered_candidates params previous) =
  option_list (candidate_at params previous k).
Proof.
  intros [Hw Hn] Hd. unfold ordered_candidates.
  set (opens := open_candidates _ _ _).
  set (closeds := if _ : bool then _ else _).
  assert (filter (about k) opens = option_list (find_key requestKey (dp_observed params) k ≫=
      fun r => candidate (dp_events params) (rec_get (st_requests previous) (requestKey r)) r)) as Ho.
  { apply filter_omap_key; [done|]. intros r c _ Hc. unfold event_key.
    by apply candidate_open in Hc as [-> _]. }
  assert (filter (about k) closeds = match find_key requestKey (dp_observed params) k with
      Some _ => [] | None => option_list (candidate_at params previous k) end) as Hc.
  { unfold closeds, candidate_at. destruct (wants _ closed && _)%bool.
    - unfold closed_candidates. rewrite filter_omap_key with (key := fst); [|done|].
      + rewrite find_key_fst.
        destruct (find_key requestKey (dp_observed params) k) as [r|] eqn:Hr.
        * apply find_key_Some in Hr as [Hin <-].
          destruct (rec_get _ _); simpl; [|done]. rewrite bool_decide_true; [done|].
          by apply list_elem_of_fmap_2.
        * apply find_key_None in Hr. destruct (rec_get _ _); simpl; [|by case_match].
          rewrite (bool_decide_false _ Hr). simpl. by destruct (bool_decide _).
      + intros [k' p] c Hin. destruct (_ || _); [done|]. intros [= <-].
        unfold event_key. simpl. apply (closed_request_key (k', p)).
        rewrite Forall_forall in Hn. by apply Hn.
    - by destruct (find_key _ _ _). }
  assert (filter (about k) (filter is_closed (opens ++ closeds) ++
      filter (fun c => ~ is_closed c) (opens ++ closeds)) ≡ₚ
    option_list (candidate_at params previous k)) as Hp.
  { rewrite filter_app_complement, filter_app, Ho, Hc. unfold candidate_at.
    destruct (find_key _ _ k) as [r|] eqn:Hr; simpl; [|done].
    apply find_key_Some in Hr as [_ Hr]. by rewrite Hr, app_nil_r. }
  destruct (candidate_at params previous k); simpl in *.
  - by apply Permutation_singleton_r in Hp.
  - by apply Permutation_nil_r in Hp.
Qed.

(** *** The next state *)

Definition kept (r : Retained) : option GitTriggerRequestState :=
  match r with Keep fp => Some fp | _ => None end.
Definition unproven (r : Retained) : option GitTriggerRequestState :=
  match r with Unprovable fp => Some fp | _ => None end.

Lemma retain_fold D keys o un :
  foldl (retain_step D) (o, un) keys =
  (foldl (fun o kv => rec_set o kv.1 kv.2) o (omap (fun k => (k,.) <$> kept (D k)) keys),
   un ++ omap (fun k => (k,.) <$> unproven (D k)) keys).
Proof.
  revert o un. induction keys as [|k keys IH]; intros o un; simpl; [by rewrite app_nil_r|].
  unfold retain_step at 2. destruct (D k); simpl; rewrite IH; simpl; [done| |done].
  by rewrite <- app_assoc.
Qed.

Lemma split_wf (D : string -> Retained) keys :
  NoDup keys ->
  rec_wf (omap (fun k => (k,.) <$> kept (D k)) keys ++ omap (fun k => (k,.) <$> unproven (D k)) keys).
Proof.
  intros Hd. pose proof (rec_wf_omap (fun k => kept (D k)) keys Hd) as H1.
  pose proof (rec_wf_omap (fun k => unproven (D k)) keys Hd) as H2.
  unfold rec_wf in *. rewrite fmap_app. apply NoDup_app. split; [done|]. split; [|done].
  intros k Hk Hu. apply rec_get_is_Some in Hk, Hu.
  rewrite rec_get_omap in Hk by done. rewrite rec_get_omap in Hu by done.
  case_decide; [|by destruct Hk]. destruct (D k); simpl in *; by destruct Hk, Hu.
Qed.

(** *** Well-formedness *)

Lemma named_set (o : js_record GitTriggerRequestState) k p :
  rec_wf o -> Forall named o -> named (k, p) -> Forall named (rec_set o k p).
Proof.
  intros Hw Ho Hp. rewrite Forall_forall in *. intros [k' q] Hin.
  apply (rec_in_get _ _ _ (rec_set_wf o k p Hw)) in Hin. rewrite rec_get_set in Hin.
  case_decide; [by simplify_eq|]. by apply Ho, rec_get_in.
Qed.

Lemma state_wf_intro st :
  rec_wf (st_requests st) ->
  (forall k p, rec_get (st_requests st) k = Some p -> named (k, p)) -> state_wf st.
Proof.
  intros Hw Hn. split; [done|]. apply Forall_forall. intros [k p] Hin. by apply Hn, rec_in_get.
Qed.

Lemma buildState_wf requests at_ : state_wf (buildState requests at_).
Proof.
  unfold buildState, state_wf. simpl.
  assert (forall o, rec_wf o -> Forall named o ->
    let o' := foldl (fun next r => rec_set next (requestKey r) (fingerprint r)) o requests in
    rec_wf o' /\ Forall named o') as H; [|by apply H; constructor].
  induction requests as [|r requests IH]; intros o Hw Ho; simpl; [done|].
  apply IH; [by apply rec_set_wf|]. apply named_set; [done..|]. apply fingerprint_named.
Qed.

Lemma deferred_key (l : list GitTriggerFiredEvent) k :
  k ∈ (fun d => requestKey (ev_request d)) <$> l <-> filter (about k) l <> [].
Proof.
  rewrite list_elem_of_fmap. split.
  - intros (c & -> & Hc) He. change (requestKey (ev_request c)) with (event_key c) in He.
    assert (c ∈ filter (about (event_key c)) l) as Hin; [|rewrite He in Hin; by apply not_elem_of_nil in Hin].
    by apply list_elem_of_filter.
  - destruct (filter (about k) l) as [|c r] eqn:He; [done|]. intros _.
    assert (c ∈ filter (about k) l) as [Hk Hc]%list_elem_of_filter by (rewrite He; set_solver).
    by exists c.
Qed.

Lemma known_keys params previous k :
  k ∈ allKnownKeys (dp_observed params) previous <->
  k ∈ (st_requests previous).*1 \/ k ∈ requestKey <$> dp_observed params.
Proof. unfold allKnownKeys. rewrite !elem_of_fold_set_add. set_solver. Qed.

Lemma known_NoDup params previous : NoDup (allKnownKeys (dp_observed params) previous).
Proof. apply fold_set_add_NoDup, fold_set_add_NoDup. constructor. Qed.

Lemma filter_about_comm (b : bool) (accepts : GitTriggerFiredEvent -> bool) k
    (l : list GitTriggerFiredEvent) :
  filter (about k) (filter (fun c => accepts c = b) l) =
  filter (fun c => accepts c = b) (filter (about k) l).
Proof.
  induction l as [|c l IH]; [done|]. rewrite !filter_cons.
  destruct (decide (accepts c = b)) as [Ha|Ha], (decide (event_key c = k)) as [He|He];
    rewrite ?filter_cons, ?IH.
  - by rewrite (decide_True (P := event_key c = k)), (decide_True (P := accepts c = b)) by done.
  - by rewrite (decide_False (P := event_key c = k)) by done.
  - by rewrite (decide_False (P := accepts c = b)) by done.
  - done.
Qed.

End DiffLemmas.

Section NextState.
Context (localeCompare : string -> string -> Z).
Implicit Types (previous : GitTriggerRepoState) (params : DiffParams) (k : string).

Lemma retained_get D keys k :
  NoDup keys ->
  let '(keep, un) := foldl (retain_step D) ([], []) keys in
  let next := retained localeCompare keep un in
  rec_wf next /\
  (k ∉ keys -> rec_get next k = None) /\
  (k ∈ keys -> match D k with
    | Keep fp => rec_get next k = Some fp
    | Unprovable fp => rec_get next k = Some fp \/
        rec_get next k = None /\ MAX_RETAINED_REQUESTS <= length next
    | Dropped => rec_get next k = None
    end).
Proof.
  intros Hd. rewrite retain_fold. simpl.
  pose proof (split_wf D keys Hd) as Hw.
  pose proof (rec_get_omap (fun k => kept (D k)) keys k Hd) as Hk.
  pose proof (rec_get_omap (fun k => unproven (D k)) keys k Hd) as Hu.
  cbv beta in Hk, Hu.
  set (K := omap (fun k => (k,.) <$> kept (D k)) keys) in *.
  set (U := omap (fun k => (k,.) <$> unproven (D k)) keys) in *.
  assert (foldl (fun o kv => rec_set o kv.1 kv.2) [] K ≡ₚ K) as HK.
  { apply (fold_set_perm K []). unfold rec_wf in *. rewrite fmap_app in Hw.
    by apply NoDup_app in Hw as [Hw _]. }
  set (keep := foldl _ [] K) in *. unfold retained.
  set (n := MAX_RETAINED_REQUESTS - length keep).
  pose proof (sort_perm (by_recency localeCompare) U) as HS.
  set (S := sort _ U) in *.
  assert (rec_wf (K ++ take n S ++ drop n S)) as Hw'.
  { apply (rec_wf_perm (K ++ U)); [|exact Hw]. by rewrite take_drop, HS. }
  assert (rec_wf (K ++ take n S)) as Hkt.
  { unfold rec_wf in *. rewrite app_assoc, fmap_app in Hw'. by apply NoDup_app in Hw' as [Hw' _]. }
  assert (foldl (fun o kv => rec_set o kv.1 kv.2) keep (take n S) ≡ₚ K ++ take n S) as Hp.
  { assert (rec_wf (keep ++ take n S)) as Hkeep.
    { apply (rec_wf_perm (K ++ take n S)); [|exact Hkt]. by rewrite HK. }
    rewrite fold_set_perm by exact Hkeep. by rewrite HK. }
  assert (rec_wf U) as HwU.
  { unfold rec_wf in Hw |- *. rewrite fmap_app in Hw. by apply NoDup_app in Hw as (_ & _ & Hw). }
  assert (rec_get S k = rec_get U k) as HSk by (apply rec_get_perm; [done|by rewrite HS]).
  assert (rec_get S k = match rec_get (take n S) k with
      Some v => Some v | None => rec_get (drop n S) k end) as Hsplit.
  { by rewrite <- rec_get_app, take_drop. }
  assert (rec_get (foldl (fun o kv => rec_set o kv.1 kv.2) keep (take n S)) k =
    match rec_get K k with Some v => Some v | None => rec_get (take n S) k end) as Hg.
  { rewrite <- rec_get_app. symmetry. apply rec_get_perm; [|done]. by eapply rec_wf_perm. }
  split; [by eapply rec_wf_perm|]. rewrite Hg, Hk. split; intros Hin.
  - rewrite decide_False in Hu |- * by done. rewrite HSk, Hu in Hsplit. by destruct (rec_get (take n S) k).
  - rewrite decide_True in Hu |- * by done. rewrite HSk, Hu in Hsplit.
    destruct (D k) as [fp|fp|]; simpl in *; [done| |by destruct (rec_get (take n S) k)].
    destruct (rec_get (take n S) k) as [v|]; [left; congruence|right]. split; [done|].
    rewrite Hp, length_app, <- HK.
    assert (n < length S); [|rewrite length_take; lia].
    assert (drop n S <> []) as Hne by (intros He; by rewrite He in Hsplit).
    destruct (decide (n < length S)); [done|]. by rewrite drop_ge in Hne by lia.
Qed.

(** *** One tick *)

Lemma diff_events params previous k :
  dp_previous params = Some previous -> state_wf previous ->
  NoDup (requestKey <$> dp_observed params) ->
  exists fired, key_events (diffRepoState localeCompare params) k (candidate_at params previous k) fired.
Proof.
  intros Hp Hw Hd. pose proof (ordered_about params previous k Hw Hd) as Ho.
  unfold diffRepoState. rewrite Hp. case_match eqn:Hf.
  set (cap := default _ (dp_maxRunsPerTick params)).
  rewrite <- (take_drop cap (ordered_candidates params previous)), filter_app in Ho.
  destruct (candidate_at params previous k) as [c|]; simpl in Ho.
  - apply app_eq_unit in Ho as [[H1 H2]|[H1 H2]]; [exists false|exists true]; by constructor.
  - apply app_nil in Ho as [H1 H2]. exists true. by constructor.
Qed.

Lemma diff_next params previous k :
  dp_previous params = Some previous -> state_wf previous ->
  NoDup (requestKey <$> dp_observed params) ->
  let res := diffRepoState localeCompare params in
  let next := st_requests (df_nextState res) in
  rec_wf next /\
  match retainedFingerprint (find_key requestKey (dp_observed params) k)
          (rec_get (st_requests previous) k)
          (bool_decide (filter (about k) (df_deferred res) <> []))
          (bool_decide (k ∈ requestKey <$>
             default (dp_observed params) (dp_observedUnfiltered params)))
          (default true (dp_listingComplete params)) with
  | Keep fp => rec_get next k = Some fp
  | Unprovable fp => rec_get next k = Some fp \/
      rec_get next k = None /\ MAX_RETAINED_REQUESTS <= length next
  | Dropped => rec_get next k = None
  end.
Proof.
  intros Hp Hw Hd. unfold diffRepoState. rewrite Hp.
  set (deferred := drop _ _).
  match goal with |- context [foldl (retain_step ?d) _ _] => set (D := d) end.
  pose proof (retained_get D (allKnownKeys (dp_observed params) previous) k
    (known_NoDup params previous)) as Hr.
  destruct (foldl _ _ _) as [keep un]. simpl. destruct Hr as (Hwf & Hout & Hin).
  split; [done|].
  assert (bool_decide (filter (about k) deferred <> []) =
    bool_decide (k ∈ (fun d => requestKey (ev_request d)) <$> deferred)) as ->.
  { apply bool_decide_ext. by rewrite deferred_key. }
  assert (D k = retainedFingerprint (find_key requestKey (dp_observed params) k)
    (rec_get (st_requests previous) k)
    (bool_decide (k ∈ (fun d => requestKey (ev_request d)) <$> deferred))
    (bool_decide (k ∈ requestKey <$>
       default (dp_observed params) (dp_observedUnfiltered params)))
    (default true (dp_listingComplete params))) as <-.
  { unfold D. by rewrite rec_get_map_of_keyed. }
  destruct (decide (k ∈ allKnownKeys (dp_observed params) previous)) as [Hk|Hk]; [by apply Hin|].
  specialize (Hout Hk). rewrite known_keys in Hk.
  unfold D. rewrite rec_get_map_of_keyed by done.
  rewrite (proj2 (find_key_None requestKey (dp_observed params) k)) by tauto.
  rewrite (proj2 (rec_get_None (st_requests previous) k)) by tauto.
  simpl. by repeat case_match.
Qed.

Lemma diff_accounted params previous k :
  dp_previous params = Some previous -> state_wf previous ->
  NoDup (requestKey <$> dp_observed params) ->
  exists fired, accounted_as params previous (diffRepoState localeCompare params) k
    (candidate_at params previous k) fired.
Proof.
  intros Hp Hw Hd. destruct (diff_events params previous k Hp Hw Hd) as [b Hev].
  pose proof (diff_next params previous k Hp Hw Hd) as [_ Hn].
  unfold accounted_as. set (res := diffRepoState localeCompare params) in *.
  set (next := rec_get (st_requests (df_nextState res)) k) in *.
  exists b. split; [done|].
  assert (candidate_at params previous k <> None ->
    bool_decide (filter (about k) (df_deferred res) <> []) = negb b) as Hb.
  { inversion Hev as [c H1 H2|c H1 H2|]; subst; intros Hx; try done;
      rewrite H2; [by apply bool_decide_false; intros []|by apply bool_decide_true]. }
  assert (candidate_at params previous k = None ->
    bool_decide (filter (about k) (df_deferred res) <> []) = false) as Hq.
  { inversion Hev as [c H1 H2|c H1 H2|? H1 H2]; subst; try done.
    intros _. rewrite H2. by apply bool_decide_false; intros []. }
  unfold candidate_at in *. unfold retainedFingerprint in Hn.
  destruct (find_key requestKey (dp_observed params) k) as [r|] eqn:Hr.
  - destruct (find_key_Some _ _ _ _ Hr) as [_ <-].
    destruct (candidate _ _ r) as [c|] eqn:Hc.
    + rewrite Hb in Hn by done. apply candidate_open in Hc as [-> ?]. do 2 (split; [done|]).
      destruct b; simpl in Hn; [done|]. by destruct (rec_get (st_requests previous) _).
    + rewrite Hq in Hn by done. split; [by apply candidate_None|done].
  - destruct (rec_get (st_requests previous) k) as [p|] eqn:Hk;
      [|split; [by case_match|by repeat case_match]].
    set (stillOpen := k ∈ _) in *. unfold wants in *.
    destruct (decide stillOpen) as [Hs|Hs].
    + rewrite (bool_decide_true _ Hs) in *. rewrite andb_false_r in *. by left.
    + rewrite (bool_decide_false _ Hs) in *. rewrite andb_true_r in *.
      destruct (dp_listingComplete params) as [[]|] eqn:Hl; simpl in *;
        try (rewrite andb_false_r in *; right; left; done);
        rewrite andb_true_r in *; case_bool_decide; simpl in *;
        try (rewrite Hb in Hn by done; do 2 (split; [done|]); by destruct b);
        rewrite Hq in Hn by done; right; right; done.
Qed.

Lemma diff_wf params previous :
  dp_previous params = Some previous -> state_wf previous ->
  NoDup (requestKey <$> dp_observed params) ->
  state_wf (df_nextState (diffRepoState localeCompare params)).
Proof.
  intros Hp Hw Hd. apply state_wf_intro; [by apply (diff_next params previous "" Hp Hw Hd)|].
  intros k p Hk. pose proof (diff_next params previous k Hp Hw Hd) as [_ Hn].
  unfold retainedFingerprint, keep_prior in Hn.
  destruct (find_key requestKey (dp_observed params) k) as [r|] eqn:Hr.
  - apply find_key_Some in Hr as [_ Hr].
    assert (named (k, fingerprint r)) by (rewrite <- Hr; apply fingerprint_named).
    destruct (bool_decide (filter _ _ <> [])); [|congruence].
    destruct (rec_get (st_requests previous) k) as [q|] eqn:Hq; [|congruence].
    rewrite Hk in Hn. simplify_eq. by eapply rec_named.
  - destruct (rec_get (st_requests previous) k) as [q|] eqn:Hq;
      [|repeat case_match; congruence].
    pose proof (rec_named previous k q Hw Hq) as Hname.
    repeat case_match; destruct_or?; destruct_and?; simplify_eq/=; congruence || done.
Qed.

(** The same for a listing that names a request twice: the last one is kept. *)
Lemma diff_keeps_wf params previous :
  dp_previous params = Some previous -> state_wf previous ->
  state_wf (df_nextState (diffRepoState localeCompare params)).
Proof.
  intros Hp Hw. unfold diffRepoState. rewrite Hp. set (deferred := drop _ _).
  match goal with |- context [foldl (retain_step ?d) _ _] => set (D := d) end.
  assert (forall k fp, D k = Keep fp \/ D k = Unprovable fp -> named (k, fp)) as HD.
  { intros k fp. unfold D, retainedFingerprint, keep_prior.
    destruct (rec_get (map_of _) k) as [r|] eqn:Hr.
    - assert (named (k, fingerprint r)).
      { rewrite rec_get_map_of in Hr. apply rec_get_in in Hr. rewrite reverse_Permutation in Hr.
        apply list_elem_of_fmap in Hr as (r' & [= -> ->] & _). apply fingerprint_named. }
      destruct (rec_get (st_requests previous) k) as [q|] eqn:Hq; repeat case_match; intros [|];
        simplify_eq; try done; by eapply rec_named.
    - destruct (rec_get (st_requests previous) k) as [q|] eqn:Hq.
      + pose proof (rec_named previous k q Hw Hq). repeat case_match; intros [|]; by simplify_eq.
      + repeat case_match; intros [|]; by simplify_eq. }
  set (keys := allKnownKeys _ _).
  pose proof (fun k => retained_get D keys k (known_NoDup params previous)) as Hr.
  fold keys in Hr. destruct (foldl _ _ keys) as [keep un]. simpl.
  apply state_wf_intro; [by apply (Hr "")|]. intros k fp Hk. simpl in Hk.
  destruct (Hr k) as (_ & Hout & Hin). destruct (decide (k ∈ keys)) as [He|He].
  - specialize (Hin He). apply HD. destruct (D k) as [g|g|]; [left|right|]; try congruence.
    destruct Hin as [Hin|[Hin _]]; congruence.
  - rewrite Hout in Hk by done. done.
Qed.

End NextState.

Section RollBack.
Implicit Types (previous : GitTriggerRepoState) (k : string).

(** *** Roll back *)

Lemma rollback_get previous l o k :
  rec_get (foldl (rollback_one (Some previous)) o l) k =
  if decide (k ∈ event_key <$> l) then rec_get (st_requests previous) k else rec_get o k.
Proof.
  revert o. induction l as [|c l IH]; intros o; simpl; [done|]. rewrite IH.
  unfold rollback_one. simpl. fold (event_key c).
  destruct (decide (k = event_key c)) as [->|Hne].
  - rewrite (decide_True (P := event_key c ∈ event_key c :: _)) by set_solver.
    case_decide; [done|]. destruct (rec_get (st_requests previous) (event_key c)) eqn:Hp.
    + by rewrite rec_get_set, decide_True.
    + by rewrite rec_get_delete, decide_True.
  - assert (rec_get match rec_get (st_requests previous) (event_key c) with
      Some prior => rec_set o (event_key c) prior | None => rec_delete o (event_key c) end k =
      rec_get o k) as ->.
    { destruct (rec_get _ (event_key c)); [by rewrite rec_get_set, decide_False|].
      by rewrite rec_get_delete, decide_False. }
    destruct (decide (k ∈ event_key <$> l)); [rewrite decide_True; set_solver|].
    rewrite decide_False; set_solver.
Qed.

Lemma rollback_requests next previous l :
  st_requests (rollbackUnhandled next (Some previous) l) =
  foldl (rollback_one (Some previous)) (st_requests next) l.
Proof. by destruct l. Qed.

Lemma rollback_wf next previous l :
  state_wf next -> state_wf previous -> state_wf (rollbackUnhandled next (Some previous) l).
Proof.
  intros [Hw Hn] Hp. apply state_wf_intro.
  - rewrite rollback_requests. revert Hw. generalize (st_requests next).
    induction l as [|c l IH]; intros o Ho; simpl; [done|]. apply IH.
    unfold rollback_one. case_match; [by apply rec_set_wf|by apply rec_delete_wf].
  - intros k q. rewrite rollback_requests, rollback_get. case_decide; [by apply rec_named|].
    apply rec_named. done.
Qed.
End RollBack.

(** ** Repeated ticks

    The caller turns some of the fired events into runs and rolls the others
    back (a full queue refuses them): [accepts] says which. *)
Definition with_previous (params : DiffParams) (st : GitTriggerRepoState) : DiffParams :=
  mkParams (Some st) (dp_observed params) (dp_events params) (dp_polledAt params)
    (dp_maxRunsPerTick params) (dp_observedUnfiltered params) (dp_listingComplete params).

Section Ticks.
Context (localeCompare : string -> string -> Z).
Implicit Types (params : DiffParams) (st : GitTriggerRepoState).

Definition tick params (accepts : GitTriggerFiredEvent -> bool) st
    : list GitTriggerFiredEvent * GitTriggerRepoState :=
  let res := diffRepoState localeCompare (with_previous params st) in
  (filter (fun c => accepts c = true) (df_fired res),
   rollbackUnhandled (df_nextState res) (Some st) (filter (fun c => accepts c = false) (df_fired res))).

Fixpoint ticks params (oracles : list (GitTriggerFiredEvent -> bool)) st
    : list GitTriggerFiredEvent * GitTriggerRepoState :=
  match oracles with
  | [] => ([], st)
  | accepts :: oracles' =>
      let '(now, st1) := tick params accepts st in
      let '(later, st2) := ticks params oracles' st1 in
      (now ++ later, st2)
  end.

Lemma tick_wf params accepts st :
  state_wf st -> NoDup (requestKey <$> dp_observed params) ->
  state_wf (tick params accepts st).2.
Proof.
  intros Hw Hd. apply rollback_wf; [|done]. by apply (diff_wf _ (with_previous params st) st).
Qed.

(** Nothing is pending at a key whose current state was handled. *)
Lemma handled_quiet params st st' res k event fired :
  accounted_as (with_previous params st) st res k event fired ->
  event = candidate_at params st k -> event = None \/ fired = true ->
  rec_get (st_requests st') k = rec_get (st_requests (df_nextState res)) k ->
  candidate_at params st' k = None.
Proof.
  intros [_ Ha] He Hf Hk. unfold candidate_at in *. rewrite Hk. clear Hk. simpl in Ha.
  destruct (find_key requestKey (dp_observed params) k) as [r|].
  - assert (rec_get (st_requests (df_nextState res)) k = Some (fingerprint r)) as ->.
    { destruct event, fired; naive_solver. }
    unfold candidate. simpl. by rewrite String.eqb_refl, Z.ltb_irrefl.
  - destruct (rec_get (st_requests st) k) as [p|]; [|destruct Ha as [_ ->]; by case_match].
    destruct event as [c|].
    + destruct Hf as [|Hf]; [done|]. subst fired. destruct Ha as (_ & _ & ->). by case_match.
    + by case_match.
Qed.

(** What stays pending is what was deferred or refused. *)
Lemma tick_pending params accepts st :
  state_wf st -> NoDup (requestKey <$> dp_observed params) ->
  let res := diffRepoState localeCompare (with_previous params st) in
  ordered_candidates params (tick params accepts st).2 ≡ₚ
  df_deferred res ++ filter (fun c => accepts c = false) (df_fired res).
Proof.
  intros Hw Hd res. apply (perm_by_key event_key). intros k.
  match goal with |- ?a ≡ₚ ?b => enough (a = b) as -> by done end.
  rewrite (ordered_about params) by (done || by apply tick_wf).
  rewrite filter_app, filter_about_comm.
  destruct (diff_accounted localeCompare (with_previous params st) st k eq_refl Hw Hd)
    as (fired & Ha). fold res in Ha.
  change (candidate_at (with_previous params st) st k) with (candidate_at params st k) in Ha.
  assert (rec_get (st_requests (tick params accepts st).2) k =
    if decide (k ∈ event_key <$> filter (fun c => accepts c = false) (df_fired res))
    then rec_get (st_requests st) k else rec_get (st_requests (df_nextState res)) k) as Hst.
  { unfold tick. cbn [snd]. by rewrite rollback_requests, rollback_get. }
  assert (k ∈ event_key <$> filter (fun c => accepts c = false) (df_fired res) <->
    filter (fun c => accepts c = false) (filter (about k) (df_fired res)) <> []) as Hrej.
  { rewrite <- filter_about_comm. apply deferred_key. }
  generalize dependent (tick params accepts st).2. intros st' Hst.
  pose proof (handled_quiet params st st' res k _ _ Ha eq_refl) as Hq.
  assert (rec_get (st_requests st') k = rec_get (st_requests st) k ->
    candidate_at params st' k = candidate_at params st k) as Hsame.
  { intros He. unfold candidate_at. by rewrite He. }
  destruct Ha as [Hev Hnext]. simpl in Hnext.
  inversion Hev as [c H1 H2 Hc Hb|c H1 H2 Hc Hb|b H1 H2 Hc Hb]; rewrite H1 in Hrej |- *; rewrite H2.
  - rewrite filter_cons, filter_nil in Hrej |- *.
    destruct (decide (accepts c = false)) as [Hacc|Hacc].
    + rewrite decide_True in Hst by (by apply Hrej). by rewrite Hsame, <- Hc.
    + rewrite decide_False in Hst by (rewrite Hrej; by intros []). by rewrite Hq by auto.
  - rewrite decide_False in Hst by (rewrite Hrej; by intros []).
    rewrite Hsame, <- Hc; [done|]. rewrite Hst, <- Hc in *.
    destruct (find_key _ _ k); [naive_solver|].
    destruct (rec_get (st_requests st) k); [|naive_solver].
    destruct Hnext as (_ & _ & ->). by subst.
  - rewrite decide_False in Hst by (rewrite Hrej; by intros []). by rewrite Hq by auto.
Qed.

Definition tick_cap params : nat := default GIT_TRIGGER_MAX_RUNS_PER_TICK (dp_maxRunsPerTick params).

Lemma tick_split params st :
  let res := diffRepoState localeCompare (with_previous params st) in
  df_fired res = take (tick_cap params) (ordered_candidates params st) /\
  df_deferred res = drop (tick_cap params) (ordered_candidates params st).
Proof. cbv zeta. unfold diffRepoState. simpl. by case_match. Qed.

Lemma filter_accepts_perm (accepts : GitTriggerFiredEvent -> bool) (l : list GitTriggerFiredEvent) :
  filter (fun c => accepts c = true) l ++ filter (fun c => accepts c = false) l ≡ₚ l.
Proof.
  induction l as [|c l IH]; [done|]. rewrite !filter_cons. destruct (accepts c); simpl.
  - by rewrite IH.
  - by rewrite <- Permutation_middle, IH.
Qed.

Lemma filter_accepts_none (accepts : GitTriggerFiredEvent -> bool) l :
  (forall c, accepts c = true) -> filter (fun c => accepts c = false) l = [].
Proof. intros Ha. induction l as [|c l IH]; [done|]. rewrite filter_cons, Ha. by simpl. Qed.

(** What a tick delivers leaves the pending events. *)
Lemma tick_delivers params accepts st :
  state_wf st -> NoDup (requestKey <$> dp_observed params) ->
  (tick params accepts st).1 ++ ordered_candidates params (tick params accepts st).2 ≡ₚ
  ordered_candidates params st.
Proof.
  intros Hw Hd. rewrite tick_pending by done. unfold tick. cbn [fst].
  destruct (tick_split params st) as [-> ->].
  rewrite (Permutation_app_comm (drop _ _)), app_assoc, filter_accepts_perm.
  by rewrite take_drop.
Qed.

Lemma ticks_cons params a os st :
  ticks params (a :: os) st =
  let rest := ticks params os (tick params a st).2 in ((tick params a st).1 ++ rest.1, rest.2).
Proof. cbn [ticks]. destruct (tick params a st). by destruct (ticks params os _). Qed.

Lemma ticks_delivered params oracles st :
  state_wf st -> NoDup (requestKey <$> dp_observed params) ->
  state_wf (ticks params oracles st).2 /\
  (ticks params oracles st).1 ++ ordered_candidates params (ticks params oracles st).2 ≡ₚ
  ordered_candidates params st.
Proof.
  revert st. induction oracles as [|a os IH]; intros st Hw Hd; [done|]. rewrite ticks_cons.
  pose proof (tick_wf params a st Hw Hd) as Hw1.
  pose proof (tick_delivers params a st Hw Hd) as Hp1.
  destruct (tick params a st) as [now st1]. simpl in *.
  destruct (IH st1 Hw1 Hd) as [Hw2 Hp2]. destruct (ticks params os st1) as [later st2].
  simpl in *. split; [done|]. by rewrite <- Hp1, <- Hp2, app_assoc.
Qed.

(** No change is lost and none is delivered twice: over any number of ticks on the same
    open requests, whatever runs the queue refuses, the delivered events and the still pending
    ones are together exactly the events pending at the start.  When nothing is refused the
    pending events shrink by the cap per tick until none is left. *)
Theorem deliveries_exactly_once params oracles st
    (Hw : state_wf st) (Hd : NoDup (requestKey <$> dp_observed params)) :
  let '(delivered, st') := ticks params oracles st in
  delivered ++ ordered_candidates params st' ≡ₚ ordered_candidates params st /\
  ((forall accepts c, accepts ∈ oracles -> accepts c = true) ->
   length (ordered_candidates params st') =
   length (ordered_candidates params st) - length oracles * tick_cap params).
Proof.
  pose proof (ticks_delivered params oracles st Hw Hd) as [_ Hp].
  destruct (ticks params oracles st) as [delivered st'] eqn:Ht. split; [done|]. clear Hp.
  revert st delivered Hw Ht. induction oracles as [|a os IH]; intros st delivered Hw Ht Hall.
  - simpl in Ht. simplify_eq. simpl. lia.
  - rewrite ticks_cons in Ht. pose proof (tick_wf params a st Hw Hd) as Hw1.
    pose proof (tick_pending params a st Hw Hd) as Hpend.
    destruct (tick params a st) as [now st1]. cbn [fst snd] in *.
    destruct (ticks params os st1) as [later st2] eqn:H2.
    simplify_eq. simpl in *. rewrite (IH st1 later); [|done..|set_solver].
    apply Permutation_length in Hpend. rewrite Hpend, length_app.
    destruct (tick_split params st) as [-> ->].
    assert (filter (fun c => a c = false) (take (tick_cap params) (ordered_candidates params st)) = [])
      as ->; [|rewrite length_drop; simpl; lia].
    apply filter_accepts_none. intros c. apply Hall. set_solver.
Qed.
End Ticks.


(** *** Keys *)

Fixpoint no_bang (s : string) : bool :=
  match s with
  | EmptyString => true
  | String c s' => negb (Ascii.eqb c "!"%char) && no_bang s'
  end.

Lemma no_bang_go x s : no_bang s -> no_bang (pretty_N_go x s).
Proof.
  revert s. induction (N.lt_wf_0 x) as [x _ IH]. intros s Hs.
  destruct (decide (0 < x)%N) as [Hx|Hx]; [|by assert (x = 0%N) as -> by lia].
  rewrite pretty_N_go_step by done. apply IH; [apply N.div_lt; lia|]. simpl.
  destruct s as [|c s]; rewrite ?Hs; unfold pretty_N_char; by repeat case_match.
Qed.

Lemma no_bang_N x : no_bang (pretty (x : N)).
Proof. unfold pretty, pretty_N. case_decide; [done|]. by apply no_bang_go. Qed.

Lemma no_bang_Z (z : Z) : no_bang (pretty z).
Proof. destruct z; [done|apply no_bang_N|]. simpl. apply no_bang_N. Qed.

Lemma no_bang_app s1 s2 : no_bang (s1 +:+ String "!"%char s2) = false.
Proof. induction s1 as [|c s1 IH]; simpl; [done|]. by rewrite IH, andb_false_r. Qed.

Lemma last_bang s1 t1 s2 t2 :
  no_bang t1 -> no_bang t2 -> s1 +:+ String "!"%char t1 = s2 +:+ String "!"%char t2 -> s1 = s2 /\ t1 = t2.
Proof.
  intros H1 H2. revert s2. induction s1 as [|c s1 IH]; intros [|c2 s2]; simpl; intros He.
  - by simplify_eq.
  - injection He as <- ->. by rewrite no_bang_app in H1.
  - injection He as -> <-. by rewrite no_bang_app in H2.
  - injection He as <- He. by destruct (IH s2 He) as [-> ->].
Qed.

(** Requests of different repositories, or of different numbers, never share a key. *)
Lemma key_of_inj p n p' n' : key_of p n = key_of p' n' -> nonempty p = nonempty p' /\ n = n'.
Proof.
  unfold key_of. destruct (nonempty p) as [s|], (nonempty p') as [s'|]; simpl; intros He.
  - apply last_bang in He as [-> He]; [|apply no_bang_Z..]. split; [done|]. by apply (inj pretty).
  - pose proof (no_bang_Z n') as Hb. rewrite <- He in Hb.
    pose proof (no_bang_app s (pretty n)) as Hn. by destruct (no_bang (s +:+ _)).
  - pose proof (no_bang_Z n) as Hb. rewrite He in Hb.
    pose proof (no_bang_app s' (pretty n')) as Hn. by destruct (no_bang (s' +:+ _)).
  - split; [done|]. by apply (inj pretty).
Qed.

(** ** Examples *)

Definition demo_compare (a b : string) : Z :=
  match String.compare a b with Lt => -1 | Eq => 0 | Gt => 1 end%Z.

Definition demo_request (n : Z) (sha : string) (comments : Z) : ObservedRequest :=
  mkObserved n sha comments "t" None None None (Some "main") None false None None.

(** Request 1 got commits, 2 was commented on, 3 is new, 4 was closed; one run per tick. *)
Definition demo_previous : GitTriggerRepoState :=
  buildState [demo_request 1 "a" 0; demo_request 2 "a" 0; demo_request 4 "a" 0] "t0".

Definition demo_params : DiffParams :=
  mkParams (Some demo_previous) [demo_request 1 "b" 0; demo_request 2 "a" 2; demo_request 3 "a" 0]
    [opened; updated; commented; closed] "t1" (Some 1) None None.

Lemma demo_previous_wf : state_wf demo_previous.
Proof. apply buildState_wf. Qed.

Lemma demo_keys : NoDup (requestKey <$> dp_observed demo_params).
Proof. apply (bool_decide_unpack _). by vm_compute. Qed.


(** The queue refuses the first event of the second tick. *)
Lemma deliveries_exactly_once_witness :
  let oracles := [(fun _ => true); (fun _ => false); (fun _ => true); (fun _ => true)] in
  (ticks demo_compare demo_params oracles demo_previous).1 ++
    ordered_candidates demo_params (ticks demo_compare demo_params oracles demo_previous).2 ≡ₚ
  ordered_candidates demo_params demo_previous /\
  length (ticks demo_compare demo_params oracles demo_previous).1 = 3.
Proof.
  split; [|by vm_compute].
  pose proof (deliveries_exactly_once demo_compare demo_params
    [(fun _ => true); (fun _ => false); (fun _ => true); (fun _ => true)] demo_previous
    demo_previous_wf demo_keys) as H.
  destruct (ticks _ _ _ _) as [d st]. apply H.
Defined.

(** A listing fetched page by page may name a request twice, when it moves down a page between
    two calls; nothing removes the duplicate, and one change then starts two runs. *)
Lemma duplicate_listing_fires_twice :
  let r := demo_request 3 "a" 0 in
  let params := mkParams (Some demo_previous) [r; r] [opened] "t1" None None (Some false) in
  df_fired (diffRepoState demo_compare params) = [mkFired opened r None; mkFired opened r None].
Proof. by vm_compute. Qed.
