(* ===== verification/TimeBuckets.v ===== *)
(** * Time series buckets

    lib/time-buckets.ts: the buckets a run or a step is counted in, computed
    here and once more in SQL.  Three groups: the fixed-width buckets and their
    SQL forms for both databases, the lookup of an instant among explicit
    boundaries and its CASE ladder, and the local days of a time zone.

    Instants are epoch seconds in [Z].  SQL expressions are terms evaluated on
    the stored value: SQLite divides integers by truncation and casts a real to
    an integer by truncation, PostgreSQL extracts the epoch as a numeric.  The
    offset of a zone at an instant is a parameter (the time zone data of the
    runtime); what the local-day code relies on is [civil_zone]. *)
From S2P Require Import Prelude Records.
From stdpp Require Import sorting.
From Stdlib Require Import QArith Qround Ascii Permutation.
Open Scope Z_scope.

(** ** Fixed-width buckets *)

Inductive BucketUnit := hour | day.

Definition BUCKET_SECONDS (u : BucketUnit) : Z :=
  match u with hour => 3600 | day => 86400 end.

Definition MAX_BUCKETS : nat := 400.

Definition bucketStartSeconds (seconds : Z) (u : BucketUnit) (offsetSeconds : Z) : Z :=
  let width := BUCKET_SECONDS u in
  (seconds + offsetSeconds) / width * width - offsetSeconds.

Definition bucketCount (fromSeconds toSeconds : Z) (u : BucketUnit) (offsetSeconds : Z) : Z :=
  let width := BUCKET_SECONDS u in
  let first := bucketStartSeconds fromSeconds u offsetSeconds in
  let last := bucketStartSeconds toSeconds u offsetSeconds in
  (last - first) / width + 1.

Definition presetRangeStart (nowSeconds days offsetSeconds : Z) : Z :=
  let todayStart := bucketStartSeconds nowSeconds day offsetSeconds in
  todayStart - (days - 1) * BUCKET_SECONDS day.

(** [for (let s = first; s <= last; s += width) out.push(s)] *)
Fixpoint push_from (fuel : nat) (s last width : Z) : list Z :=
  match fuel with
  | O => []
  | S fuel' => if s <=? last then s :: push_from fuel' (s + width) last width else []
  end.

Definition bucketSequence (fromSeconds toSeconds : Z) (u : BucketUnit) (offsetSeconds : Z) : list Z :=
  let width := BUCKET_SECONDS u in
  let first := bucketStartSeconds fromSeconds u offsetSeconds in
  let last := bucketStartSeconds toSeconds u offsetSeconds in
  push_from (Z.to_nat ((last - first) / width + 1)) first last width.

(** ** SQL *)

Inductive sql_value := VNull | VInt (z : Z) | VReal (q : Q).

#[local] Set Warnings "-register-all".
Inductive sql_expr :=
| Col                                     (* the timestamp column *)
| Lit (z : Z)
| Add (a b : sql_expr) | Sub (a b : sql_expr) | Mul (a b : sql_expr) | Div (a b : sql_expr)
| CastInteger (a : sql_expr)              (* SQLite's CAST(a AS INTEGER) *)
| Floor (a : sql_expr)
| ExtractEpoch (a : sql_expr)             (* PostgreSQL's EXTRACT(EPOCH FROM a) *)
| Case (arms : list (sql_expr * Z * Z)).  (* WHEN e >= b THEN v ... ELSE NULL *)

(** The number a value is; SQL numbers compare as numbers. *)
Definition numeric (v : sql_value) : option Q :=
  match v with VNull => None | VInt z => Some (inject_Z z) | VReal q => Some q end.

Definition arith (onInt : Z -> Z -> Z) (onReal : Q -> Q -> Q) (a b : sql_value) : sql_value :=
  match a, b with
  | VInt x, VInt y => VInt (onInt x y)
  | _, _ =>
      match numeric a, numeric b with
      | Some x, Some y => VReal (onReal x y)
      | _, _ => VNull
      end
  end.

(** Rounding towards zero *)
Definition truncate (q : Q) : Z := Z.quot (Qnum q) (Zpos (Qden q)).

Fixpoint eval_sql (col : sql_value) (e : sql_expr) : sql_value :=
  match e with
  | Col => col
  | Lit z => VInt z
  | Add a b => arith Z.add Qplus (eval_sql col a) (eval_sql col b)
  | Sub a b => arith Z.sub Qminus (eval_sql col a) (eval_sql col b)
  | Mul a b => arith Z.mul Qmult (eval_sql col a) (eval_sql col b)
  | Div a b => arith Z.quot Qdiv (eval_sql col a) (eval_sql col b)
  | CastInteger a =>
      match eval_sql col a with VReal q => VInt (truncate q) | v => v end
  | Floor a =>
      match eval_sql col a with VReal q => VReal (inject_Z (Qfloor q)) | v => v end
  | ExtractEpoch a =>
      match numeric (eval_sql col a) with Some q => VReal q | None => VNull end
  | Case arms =>
      (fix first (l : list (sql_expr * Z * Z)) : sql_value :=
         match l with
         | [] => VNull
         | (a, b, v) :: l' =>
             match numeric (eval_sql col a) with
             | Some q => if Qle_bool (inject_Z b) q then VInt v else first l'
             | None => first l'
             end
         end) arms
  end.

Inductive Dialect := sqlite | postgres.

Definition epochSeconds (d : Dialect) : sql_expr :=
  match d with postgres => ExtractEpoch Col | sqlite => CastInteger Col end.

Definition bucketStartSql (d : Dialect) (u : BucketUnit) (offsetSeconds : Z) : sql_expr :=
  let width := BUCKET_SECONDS u in
  let quotient := Div (Add (epochSeconds d) (Lit offsetSeconds)) (Lit width) in
  match d with
  | postgres => Sub (Mul (Floor quotient) (Lit width)) (Lit offsetSeconds)
  | sqlite => Sub (Mul (CastInteger quotient) (Lit width)) (Lit offsetSeconds)
  end.

Definition boundaryBucketSql (d : Dialect) (boundaries : list Z) : sql_expr :=
  Case ((fun b => (epochSeconds d, b, b)) <$> Records.sort (fun a b => b - a) boundaries).

(** [while (lo <= hi) { ... }] *)
Fixpoint search (fuel : nat) (seconds : Z) (boundaries : list Z) (lo hi : Z) (found : option Z)
    : option Z :=
  match fuel with
  | O => found
  | S fuel' =>
      if lo <=? hi then
        let mid := Z.shiftr (lo + hi) 1 in
        match boundaries !! Z.to_nat mid with
        | Some b =>
            if b <=? seconds then search fuel' seconds boundaries (mid + 1) hi (Some b)
            else search fuel' seconds boundaries lo (mid - 1) found
        | None => found
        end
      else found
  end.

Definition bucketForBoundaries (seconds : Z) (boundaries : list Z) : option Z :=
  search (length boundaries) seconds boundaries 0 (Z.of_nat (length boundaries) - 1) None.

(** ** Time zones *)

Definition two_digits (s : string) : option (Z * string) :=
  match s with
  | String a (String b s') =>
      match digit_value a, digit_value b with
      | Some x, Some y => Some (Z.of_N (x * 10 + y)%N, s')
      | _, _ => None
      end
  | _ => None
  end.

(** [/GMT([+-])(\d{2}):(\d{2})/] at the start of a string *)
Definition match_gmt (s : string) : option Z :=
  match s with
  | String "G" (String "M" (String "T" (String sign s1))) =>
      if decide (sign = "+"%char \/ sign = "-"%char) then
        '(h, s2) ← two_digits s1;
        match s2 with
        | String ":" s3 =>
            '(m, _) ← two_digits s3;
            Some ((if decide (sign = "-"%char) then -1 else 1) * (h * 3600 + m * 60))
        | _ => None
        end
      else None
  | _ => None
  end.

Fixpoint exec_gmt (s : string) : option Z :=
  match match_gmt s with
  | Some z => Some z
  | None => match s with String _ s' => exec_gmt s' | EmptyString => None end
  end.

Section Zone.
(** The [timeZoneName] part [Intl.DateTimeFormat] renders; [None] when the zone is refused *)
Context (longOffset : string -> Z -> option string).

Definition zoneOffsetSecondsAt (timeZone : string) (atSeconds : Z) : option Z :=
  match longOffset timeZone atSeconds with
  | None => None
  | Some name => if decide (name = "GMT"%string) then Some 0 else exec_gmt name
  end.

Definition localDayStartSeconds (seconds : Z) (timeZone : string) : option Z :=
  guessOffset ← zoneOffsetSecondsAt timeZone seconds;
  let naiveStart := (seconds + guessOffset) / 86400 * 86400 - guessOffset in
  trueOffset ← zoneOffsetSecondsAt timeZone naiveStart;
  if trueOffset =? guessOffset then Some naiveStart
  else Some ((seconds + trueOffset) / 86400 * 86400 - trueOffset).

(** [remaining] more days fit below [MAX_BUCKETS]. *)
Fixpoint day_loop (remaining : nat) (cursor last : Z) (timeZone : string) : list Z :=
  match remaining with
  | O => []
  | S remaining' =>
      if cursor <=? last then
        cursor ::
          match localDayStartSeconds (cursor + 86400 + 7200) timeZone with
          | Some next => if next <=? cursor then [] else day_loop remaining' next last timeZone
          | None => []
          end
      else []
  end.

Definition localDaySequence (fromSeconds toSeconds : Z) (timeZone : string) : option (list Z) :=
  cursor ← localDayStartSeconds fromSeconds timeZone;
  last ← localDayStartSeconds toSeconds timeZone;
  Some (day_loop (S MAX_BUCKETS) cursor last timeZone).
End Zone.

(** ** Fixed-width buckets: lemmas *)

Lemma width_pos u : 0 < BUCKET_SECONDS u.
Proof. by destruct u. Qed.

Lemma bucket_bounds s u off :
  let b := bucketStartSeconds s u off in b <= s < b + BUCKET_SECONDS u.
Proof.
  cbv zeta. unfold bucketStartSeconds. pose proof (width_pos u).
  pose proof (Z.mul_div_le (s + off) (BUCKET_SECONDS u)).
  pose proof (Z.mul_succ_div_gt (s + off) (BUCKET_SECONDS u)). lia.
Qed.

(** Bucket starts are a whole number of widths apart. *)
Lemma bucket_apart s s' u off :
  (BUCKET_SECONDS u | bucketStartSeconds s' u off - bucketStartSeconds s u off).
Proof.
  unfold bucketStartSeconds.
  exists ((s' + off) / BUCKET_SECONDS u - (s + off) / BUCKET_SECONDS u). lia.
Qed.

Lemma bucket_mono s s' u off :
  s <= s' -> bucketStartSeconds s u off <= bucketStartSeconds s' u off.
Proof.
  intros Hs. unfold bucketStartSeconds. pose proof (width_pos u).
  pose proof (Z.div_le_mono (s + off) (s' + off) (BUCKET_SECONDS u)). nia.
Qed.

Lemma push_from_spec n s w :
  0 < w -> push_from n s (s + (Z.of_nat n - 1) * w) w = (fun i => s + Z.of_nat i * w) <$> seq 0 n.
Proof.
  intros Hw. revert s. induction n as [|n IH]; intros s; [done|].
  cbn [push_from]. rewrite (proj2 (Z.leb_le _ _)) by nia.
  replace (s + (Z.of_nat (S n) - 1) * w) with ((s + w) + (Z.of_nat n - 1) * w) by lia.
  rewrite IH. cbn [seq fmap list_fmap]. f_equal; [lia|].
  rewrite <- fmap_S_seq, <- list_fmap_compose. apply list_fmap_ext. intros i x _. simpl. lia.
Qed.

(** The rows of a range are its bucket starts, one per width. *)
Lemma bucketSequence_spec f t u off :
  f <= t ->
  bucketSequence f t u off =
  (fun i => bucketStartSeconds f u off + Z.of_nat i * BUCKET_SECONDS u) <$>
  seq 0 (Z.to_nat (bucketCount f t u off)).
Proof.
  intros Hft. unfold bucketSequence, bucketCount.
  pose proof (width_pos u) as Hw. pose proof (bucket_mono f t u off Hft).
  destruct (bucket_apart f t u off) as [n Hn].
  set (w := BUCKET_SECONDS u) in *. set (a := bucketStartSeconds f u off) in *.
  set (b := bucketStartSeconds t u off) in *.
  rewrite Hn, Z.div_mul by lia.
  replace b with (a + (Z.of_nat (Z.to_nat (n + 1)) - 1) * w) by nia.
  apply push_from_spec. done.
Qed.

(** ** SQL: lemmas *)

Lemma Qfloor_quotient (q : Q) (off w : Z) :
  0 < w -> Qfloor ((q + inject_Z off) / inject_Z w) = (Qfloor q + off) / w.
Proof.
  intros Hw. destruct q as [n d], w as [|p|p]; try lia.
  unfold Qdiv, Qinv, inject_Z, Qplus, Qmult, Qfloor. cbn [Qnum Qden].
  rewrite !Pos2Z.inj_mul, !Z.mul_1_r.
  rewrite <- Z.div_div by lia. by rewrite Z.div_add by lia.
Qed.

Lemma truncate_floor q : (0 <= q)%Q -> truncate q = Qfloor q.
Proof.
  destruct q as [n d]. unfold Qle, truncate, Qfloor. simpl. intros Hn. apply Z.quot_div_nonneg; lia.
Qed.

(** What the column stores of an instant: SQLite an integer or a real, PostgreSQL a
    timestamp with a fraction *)
Inductive stored : Dialect -> Q -> sql_value -> Prop :=
| stored_int z : stored sqlite (inject_Z z) (VInt z)
| stored_real q : stored sqlite q (VReal q)
| stored_timestamp q : stored postgres q (VReal q).

Lemma epoch_eval d q v :
  stored d q v -> (0 <= q)%Q ->
  eval_sql v (epochSeconds d) =
  match d with sqlite => VInt (Qfloor q) | postgres => VReal q end.
Proof.
  intros [] Hq; cbn [eval_sql epochSeconds numeric];
    [by rewrite Qfloor_Z|by rewrite truncate_floor|done].
Qed.

(** ** Boundaries: lemmas *)

(** The last boundary not after the instant *)
Definition bucket_of (seconds : Z) (boundaries : list Z) : option Z :=
  last (filter (fun b => b <= seconds) boundaries).

Lemma sorted_lookup (R : relation Z) `{!Reflexive R} (bs : list Z) i j a b :
  StronglySorted R bs -> (i <= j)%nat -> bs !! i = Some a -> bs !! j = Some b -> R a b.
Proof.
  intros Hs. revert i j. induction Hs as [|x bs Hs IH Hx]; [done|].
  intros [|i] [|j] Hij; simpl; intros Ha Hb; simplify_eq; try done; try lia.
  - rewrite Forall_forall in Hx. apply Hx. by eapply list_elem_of_lookup_2.
  - eapply IH; [|done..]. lia.
Qed.

Lemma filter_prefix (P : Z -> Prop) `{!forall x, Decision (P x)} (bs : list Z) n :
  (forall i b, bs !! i = Some b -> P b <-> (i < n)%nat) -> filter P bs = take n bs.
Proof.
  revert n. induction bs as [|x bs IH]; intros n Hp; [by destruct n|].
  pose proof (Hp 0%nat x eq_refl) as H0. rewrite filter_cons.
  destruct n as [|n].
  - rewrite decide_False by (intros Hx; apply H0 in Hx; lia). simpl.
    rewrite (IH 0%nat); [by destruct bs|]. intros i b Hb. rewrite (Hp (S i) b Hb). lia.
  - rewrite decide_True by (apply H0; lia). simpl. f_equal. apply IH.
    intros i b Hb. rewrite (Hp (S i) b Hb). lia.
Qed.

Lemma search_spec seconds bs :
  StronglySorted Z.le bs ->
  forall fuel lo hi found,
  0 <= lo -> hi < Z.of_nat (length bs) -> lo <= hi + 1 -> hi - lo < Z.of_nat fuel ->
  (forall i b, bs !! i = Some b -> Z.of_nat i < lo -> b <= seconds) ->
  (forall i b, bs !! i = Some b -> hi < Z.of_nat i -> seconds < b) ->
  found = (if lo =? 0 then None else bs !! Z.to_nat (lo - 1)) ->
  search fuel seconds bs lo hi found = bucket_of seconds bs.
Proof.
  intros Hs fuel. induction fuel as [|fuel IH]; intros lo hi found Hlo Hhi Hlh Hf Hl Hr ->.
  2: cbn [search]; destruct (Z.leb_spec lo hi) as [Hle|Hgt].
  2: { rewrite Z.shiftr_div_pow2 by lia. change (2 ^ 1) with 2.
    set (mid := (lo + hi) / 2).
    assert (lo <= mid <= hi) as Hmid.
    { unfold mid. split; [apply Z.div_le_lower_bound|apply Z.div_le_upper_bound]; lia. }
    destruct (lookup_lt_is_Some_2 bs (Z.to_nat mid)) as [b Hb]; [lia|]. rewrite Hb.
    destruct (Z.leb_spec b seconds) as [Hbs|Hbs].
    - apply IH; try lia; try done.
      + intros i c Hc Hi. destruct (decide (Z.of_nat i < lo)); [by eapply Hl|].
        pose proof (sorted_lookup Z.le bs i (Z.to_nat mid) c b Hs ltac:(lia) Hc Hb). lia.
      + rewrite (proj2 (Z.eqb_neq _ _)) by lia. rewrite <- Hb. f_equal. lia.
    - apply IH; try lia; try done.
      intros i c Hc Hi. destruct (decide (hi < Z.of_nat i)); [by eapply Hr|].
      pose proof (sorted_lookup Z.le bs (Z.to_nat mid) i b c Hs ltac:(lia) Hb Hc). lia. }
  all: assert (lo = hi + 1) as -> by lia; unfold bucket_of; cbn [search];
    rewrite (filter_prefix _ bs (Z.to_nat (hi + 1)));
    [|intros i b Hb; pose proof (Hl i b Hb); pose proof (Hr i b Hb); lia].
  all: rewrite last_lookup, length_take_le by lia; destruct (Z.eqb_spec (hi + 1) 0) as [He|He];
    [by rewrite He|].
  all: rewrite lookup_take_lt by lia; f_equal; lia.
Qed.

Lemma bucketForBoundaries_spec seconds bs :
  StronglySorted Z.le bs -> bucketForBoundaries seconds bs = bucket_of seconds bs.
Proof.
  intros Hs. apply search_spec; try done; try lia.
  intros i b Hb%lookup_lt_Some. lia.
Qed.

(** The first arm that holds is the latest boundary. *)
Lemma case_ladder d q v (bs : list Z) :
  stored d q v -> (0 <= q)%Q ->
  eval_sql v (Case ((fun b => (epochSeconds d, b, b)) <$> bs)) =
  match head (filter (fun b => b <= Qfloor q) bs) with Some b => VInt b | None => VNull end.
Proof.
  intros Hst Hq. induction bs as [|b bs IH]; [done|].
  rewrite fmap_cons, filter_cons. cbn [eval_sql] in IH |- *.
  rewrite (epoch_eval d q v) by done.
  assert (exists x, numeric (match d with sqlite => VInt (Qfloor q) | postgres => VReal q end) =
    Some x /\ Qfloor x = Qfloor q) as (x & -> & Hx).
  { destruct d; eexists; split; [done| |done|done]. by rewrite Qfloor_Z. }
  destruct (Qle_bool (inject_Z b) x) eqn:Hb.
  - apply Qle_bool_iff, Qfloor_resp_le in Hb. rewrite Qfloor_Z, Hx in Hb. by rewrite decide_True.
  - rewrite decide_False; [done|]. rewrite <- Hx. intros Hle.
    assert (Qle_bool (inject_Z b) x = true); [|congruence]. apply Qle_bool_iff.
    eapply Qle_trans; [|apply Qfloor_le]. by rewrite <- Zle_Qle.
Qed.

#[local] Instance ge_antisymm : AntiSymm (=) Z.ge.
Proof. intros a b Ha Hb. lia. Qed.

#[local] Instance ge_transitive : Transitive Z.ge.
Proof. intros a b c Ha Hb. lia. Qed.

Lemma sort_descending bs : StronglySorted Z.le bs -> Records.sort (fun a b => b - a) bs = reverse bs.
Proof.
  intros Hs. apply (StronglySorted_unique Z.ge).
  - apply (sort_sorted _ Z.ge); intros; lia.
  - induction Hs as [|x bs Hs IH Hx]; [constructor|]. rewrite reverse_cons.
    apply StronglySorted_app_2; [|done|repeat constructor].
    intros a b Ha ->%list_elem_of_singleton. rewrite reverse_Permutation in Ha.
    rewrite Forall_forall in Hx.
    specialize (Hx a Ha). lia.
  - by rewrite sort_perm, reverse_Permutation.
Qed.

(** The bucket of a row is the same computed here and in SQL: on both databases the GROUP BY
    expression of a fixed-width bucket evaluates to the start [bucketStartSeconds] gives, for
    every stored form of an instant whose local time is not before 1970; the CASE ladder over
    explicit boundaries and the binary search both give the last boundary not after the
    instant. *)
Theorem sql_buckets_agree d q v
    (Hst : stored d q v) (Hq : (0 <= q)%Q) :
  (forall u off, 0 <= Qfloor q + off ->
     numeric (eval_sql v (bucketStartSql d u off)) =
     Some (inject_Z (bucketStartSeconds (Qfloor q) u off))) /\
  (forall bs, StronglySorted Z.le bs ->
     bucketForBoundaries (Qfloor q) bs = bucket_of (Qfloor q) bs /\
     eval_sql v (boundaryBucketSql d bs) =
     match bucketForBoundaries (Qfloor q) bs with Some b => VInt b | None => VNull end).
Proof.
  split.
  - intros u off Hoff. pose proof (width_pos u) as Hw. unfold bucketStartSql, bucketStartSeconds.
    destruct d; cbn [eval_sql]; rewrite (epoch_eval _ q v) by done; cbn [arith numeric].
    + rewrite Z.quot_div_nonneg by lia. done.
    + rewrite Qfloor_quotient by done. f_equal.
      unfold Qminus, Qplus, Qmult, Qopp, inject_Z. simpl. f_equal. lia.
  - intros bs Hs. rewrite bucketForBoundaries_spec by done. split; [done|].
    unfold boundaryBucketSql. rewrite sort_descending, (case_ladder d q) by done.
    unfold bucket_of. by rewrite filter_reverse, head_reverse.
Qed.

(** ** Local days *)

(** What the local-day code relies on: every local day has one midnight, the offset does not
    change within an hour of a midnight and moves by at most an hour within a day, and a day
    lasts 23 to 25 hours. *)
Record civil_zone (off : Z -> Z) (midnight : Z -> Z) : Prop := {
  midnight_at : forall D, midnight D + off (midnight D) = D * 86400;
  midnight_calm : forall D t, Z.abs (t - midnight D) <= 3600 -> off t = off (midnight D);
  local_date : forall D t, midnight D <= t < midnight (D + 1) -> (t + off t) / 86400 = D;
  small_shift : forall D t, midnight D <= t < midnight (D + 1) ->
    Z.abs (off t - off (midnight D)) <= 3600;
  day_length : forall D, 82800 <= midnight (D + 1) - midnight D <= 90000
}.

Section CivilZone.
Context (longOffset : string -> Z -> option string) (tz : string) (off midnight : Z -> Z).
Context (Hoff : forall t, zoneOffsetSecondsAt longOffset tz t = Some (off t)).
Context (Hcivil : civil_zone off midnight).

Let dayStart := localDayStartSeconds longOffset.

(** Within the first 24 hours of a day the start of the day is found; in the 25th hour what is
    found still lies in the day. *)
Lemma day_start_in D t :
  midnight D <= t < midnight (D + 1) ->
  exists r, dayStart t tz = Some r /\ midnight D <= r < midnight (D + 1) /\
    (t < midnight D + 86400 -> r = midnight D).
Proof.
  intros Ht. pose proof (local_date _ _ Hcivil D t Ht) as Hd.
  pose proof (small_shift _ _ Hcivil D t Ht) as Hs.
  pose proof (midnight_at _ _ Hcivil D) as Hm. pose proof (day_length _ _ Hcivil D) as Hl.
  unfold dayStart, localDayStartSeconds. rewrite Hoff. simpl. rewrite Hoff. simpl. rewrite Hd.
  assert (off (D * 86400 - off t) = off (midnight D)) as ->.
  { apply (midnight_calm _ _ Hcivil). lia. }
  destruct (Z.eqb_spec (off (midnight D)) (off t)) as [He|He].
  { eexists. split; [done|]. lia. }
  eexists. split; [done|].
  pose proof (Z.mul_div_le (t + off t) 86400 ltac:(lia)).
  pose proof (Z.mul_succ_div_gt (t + off t) 86400 ltac:(lia)).
  destruct (Z.lt_ge_cases t (midnight D + 86400)).
  - assert ((t + off (midnight D)) / 86400 = D) as -> by (symmetry; apply Z.div_unique with
      (t + off (midnight D) - D * 86400); lia). lia.
  - assert ((t + off (midnight D)) / 86400 = D + 1) as -> by (symmetry; apply Z.div_unique with
      (t + off (midnight D) - (D + 1) * 86400); lia). lia.
Qed.

Lemma day_start D t :
  midnight D <= t < midnight (D + 1) -> t < midnight D + 86400 -> dayStart t tz = Some (midnight D).
Proof. intros Ht H. destruct (day_start_in D t Ht) as (r & Hr & _ & He). by rewrite Hr, He. Qed.

Lemma midnight_mono D n : midnight D + Z.of_nat n * 82800 <= midnight (D + Z.of_nat n).
Proof.
  induction n as [|n IH]; [replace (D + Z.of_nat 0) with D by lia; lia|].
  pose proof (day_length _ _ Hcivil (D + Z.of_nat n)).
  replace (D + Z.of_nat (S n)) with (D + Z.of_nat n + 1) by lia. lia.
Qed.

Lemma midnight_lt D D' : D < D' -> midnight D < midnight D'.
Proof.
  intros Hlt. pose proof (midnight_mono D (Z.to_nat (D' - D))).
  replace (D + Z.of_nat (Z.to_nat (D' - D))) with D' in * by lia. lia.
Qed.

Lemma next_day D : dayStart (midnight D + 86400 + 7200) tz = Some (midnight (D + 1)).
Proof.
  pose proof (day_length _ _ Hcivil D). pose proof (day_length _ _ Hcivil (D + 1)).
  apply day_start; lia.
Qed.

(** The loop lists the midnights up to the day of [last]. *)
Lemma day_loop_spec n A B last :
  A <= B -> midnight B <= last < midnight (B + 1) ->
  day_loop longOffset n (midnight A) last tz = midnight <$> take n (seqZ A (B - A + 1)).
Proof.
  revert A. induction n as [|n IH]; intros A HA Hlast; [done|]. cbn [day_loop].
  rewrite seqZ_cons by lia. cbn [take fmap list_fmap].
  destruct (Z.leb_spec (midnight A) last) as [Hle|Hgt].
  2: { destruct (Z.eq_dec A B); [subst; lia|]. pose proof (midnight_lt A B). lia. }
  f_equal. fold dayStart. rewrite next_day.
  pose proof (midnight_lt A (A + 1)). rewrite (proj2 (Z.leb_gt _ _)) by lia.
  destruct (Z.eq_dec A B) as [->|Hne].
  - replace (Z.pred (B - B + 1)) with 0 by lia. rewrite seqZ_nil, take_nil by lia.
    destruct n as [|n]; [done|]. cbn [day_loop].
    rewrite (proj2 (Z.leb_gt _ _)); [done|lia].
  - rewrite (IH (A + 1)) by lia. replace (B - (A + 1) + 1) with (Z.pred (B - A + 1)) by lia.
    by replace (Z.succ A) with (A + 1) by lia.
Qed.
End CivilZone.

Lemma midnights_sorted off midnight (Hc : civil_zone off midnight) A n :
  StronglySorted Z.le (midnight <$> seqZ A n).
Proof.
  remember (Z.to_nat n) as k eqn:Hk. revert A n Hk. induction k as [|k IH]; intros A n Hk.
  - rewrite seqZ_nil by lia. constructor.
  - rewrite seqZ_cons by lia. cbn [fmap list_fmap]. constructor; [by apply IH; lia|].
    apply Forall_forall. intros x (D & -> & HD)%list_elem_of_fmap.
    apply elem_of_seqZ in HD. pose proof (midnight_lt off midnight Hc A D). lia.
Qed.

(** The day boundaries of a range are the local midnights of its days, 23, 24 or 25 hours
    apart, and every instant of the range falls in the bucket of its own local day.  The zone is
    any whose clock changes keep an hour away from midnight; the range starts in the first 24
    hours of its first day and has at most [MAX_BUCKETS] + 1 days. *)
Theorem local_days longOffset tz off midnight
    (Hoff : forall t, zoneOffsetSecondsAt longOffset tz t = Some (off t))
    (Hcivil : civil_zone off midnight) from to A B
    (Hfrom : midnight A <= from < midnight (A + 1) /\ from < midnight A + 86400)
    (Hto : midnight B <= to < midnight (B + 1)) (HAB : A <= B <= A + Z.of_nat MAX_BUCKETS) :
  localDaySequence longOffset from to tz = Some (midnight <$> seqZ A (B - A + 1)) /\
  forall t D, A <= D <= B -> midnight D <= t < midnight (D + 1) ->
    bucketForBoundaries t (midnight <$> seqZ A (B - A + 1)) = Some (midnight D).
Proof.
  destruct Hfrom as [Hf1 Hf2]. split.
  - unfold localDaySequence. rewrite (day_start longOffset tz off midnight Hoff Hcivil A from) by done.
    destruct (day_start_in longOffset tz off midnight Hoff Hcivil B to Hto) as (r & Hr & Hin & _).
    rewrite Hr. unfold mbind, option_bind. apply (f_equal Some).
    rewrite (day_loop_spec longOffset tz off midnight Hoff Hcivil _ A B r) by lia.
    rewrite take_ge; [done|]. rewrite length_seqZ. lia.
  - intros t D HD Ht. rewrite bucketForBoundaries_spec by by apply midnights_sorted with off.
    unfold bucket_of. rewrite (filter_prefix _ _ (Z.to_nat (D - A + 1))).
    + rewrite last_lookup, length_take_le by (rewrite length_fmap, length_seqZ; lia).
      rewrite lookup_take_lt, list_lookup_fmap, lookup_seqZ_lt by lia. simpl. do 2 f_equal. lia.
    + intros i b. rewrite list_lookup_fmap. intros Hb.
      apply fmap_Some in Hb as (D' & [-> Hi]%lookup_seqZ & ->).
      destruct (Z.lt_trichotomy D (A + Z.of_nat i)) as [Hlt|[He|Hlt]].
      * pose proof (midnight_lt off midnight Hcivil D (A + Z.of_nat i) Hlt).
        destruct (Z.eq_dec (D + 1) (A + Z.of_nat i)) as [He|]; [rewrite He in Ht; lia|].
        pose proof (midnight_lt off midnight Hcivil (D + 1) (A + Z.of_nat i)). lia.
      * rewrite <- He. lia.
      * pose proof (midnight_lt off midnight Hcivil (A + Z.of_nat i) D Hlt). lia.
Qed.

(** ** Example: a zone whose clock goes back at 02:00 of day 20758 (2026-11-01, New York) *)

Definition fall_back : Z := 20758 * 86400 + 14400 + 7200.
Definition ny_off (t : Z) : Z := if t <? fall_back then -14400 else -18000.
Definition ny_midnight (D : Z) : Z := D * 86400 + (if D <=? 20758 then 14400 else 18000).
Definition ny_name (_ : string) (t : Z) : option string :=
  Some (if t <? fall_back then "GMT-04:00"%string else "GMT-05:00"%string).

Lemma ny_offset t : zoneOffsetSecondsAt ny_name "America/New_York" t = Some (ny_off t).
Proof. unfold zoneOffsetSecondsAt, ny_name, ny_off. by destruct (t <? fall_back). Qed.

Lemma ny_civil : civil_zone ny_off ny_midnight.
Proof.
  unfold ny_off, ny_midnight. change fall_back with 1793512800.
  split; intros D *; repeat match goal with
    | |- context [?a <? ?b] => destruct (Z.ltb_spec a b)
    | |- context [?a <=? ?b] => destruct (Z.leb_spec a b)
    end; try lia.
  all: intros Ht; symmetry; match goal with |- _ = ?x / _ => apply Z.div_unique with (x - D * 86400); lia end.
Qed.

Lemma local_days_witness :
  localDaySequence ny_name (ny_midnight 20757) (ny_midnight 20759 + 3600) "America/New_York" =
    Some (ny_midnight <$> seqZ 20757 3) /\
  bucketForBoundaries (ny_midnight 20758 + 86400 + 1800) (ny_midnight <$> seqZ 20757 3) =
    Some (ny_midnight 20758).
Proof.
  pose proof (local_days ny_name "America/New_York" ny_off ny_midnight ny_offset ny_civil
    (ny_midnight 20757) (ny_midnight 20759 + 3600) 20757 20759) as H.
  destruct H as [H1 H2]; [by vm_compute|by vm_compute|by vm_compute|].
  split; [done|]. apply H2; by vm_compute.
Defined.

(** In the repeated part of a 25 hour day the second pass floors with the offset of the
    morning and lands on 23:00 instead of the start of the day. *)
Lemma local_day_start_25th_hour :
  localDayStartSeconds ny_name (ny_midnight 20758 + 86400 + 1800) "America/New_York" =
  Some (ny_midnight 20758 + 86400) /\
  ny_midnight 20758 <= ny_midnight 20758 + 86400 + 1800 < ny_midnight 20759.
Proof. by vm_compute. Qed.

Lemma sql_buckets_agree_witness :
  numeric (eval_sql (VReal (17834014969 # 10)) (bucketStartSql sqlite day 28800)) =
    Some (inject_Z (bucketStartSeconds (Qfloor (17834014969 # 10)) day 28800)) /\
  eval_sql (VReal (17834014969 # 10)) (boundaryBucketSql sqlite [0; 1783401490; 1783401500]) =
    VInt 1783401490.
Proof.
  destruct (sql_buckets_agree sqlite (17834014969 # 10) (VReal (17834014969 # 10))
    (stored_real _) ltac:(by vm_compute)) as [H1 H2].
  split; [by apply H1; vm_compute|].
  destruct (H2 [0; 1783401490; 1783401500]) as [_ ->]; [|by vm_compute].
  repeat constructor; vm_compute; discriminate.
Defined.
