(* ===== verification/RateLimit.v ===== *)
(** * The request rate limiter

    middleware/rate-limit.ts: a fixed window per caller key.  The store is a
    [Map] that requests and a periodic sweep share; the clock is an input of
    each event and does not go back.  [within_limit] bounds what passes in any
    stretch of time of one window's length, wherever it starts. *)
From S2P Require Import Prelude Records.
From stdpp Require Import sorting.

Record RateLimitEntry := mkEntry { rl_count : Z; rl_resetAt : Z }.

Abbreviation Store := (js_record RateLimitEntry).

(** What the caller is told *)
Record RateLimitAnswer := mkAnswer {
  an_limit : Z;
  an_remaining : Z;
  an_reset : Z;
  an_retryAfter : option Z;       (* set on a 429, [None] when the request passes *)
}.

Definition passes (a : RateLimitAnswer) : bool := bool_decide (an_retryAfter a = None).

Section RateLimit.
Context (windowMs max : Z).

Definition ceil_div (a b : Z) : Z := (a + b - 1) / b.

(** The interval callback: drop the entries whose window ended *)
Definition sweep (now : Z) (store : Store) : Store :=
  filter (fun kv => (now < rl_resetAt kv.2)%Z) store.

(** The entry a request counts in *)
Definition current_entry (now : Z) (key : string) (store : Store) : RateLimitEntry :=
  match rec_get store key with
  | Some entry => if (rl_resetAt entry <=? now)%Z then mkEntry 0 (now + windowMs) else entry
  | None => mkEntry 0 (now + windowMs)
  end.

Definition limit (now : Z) (key : string) (store : Store) : RateLimitAnswer * Store :=
  let entry := current_entry now key store in
  let count := (rl_count entry + 1)%Z in
  (mkAnswer max (Z.max 0 (max - count)) (ceil_div (rl_resetAt entry) 1000)
     (if (max <? count)%Z
      then Some (Z.max 1 (ceil_div (rl_resetAt entry - now) 1000)) else None),
   map_put store key (mkEntry count (rl_resetAt entry))).

(** ** Histories *)

Inductive Event := Request (now : Z) (key : string) | Sweep (now : Z).

Definition at_time (e : Event) : Z := match e with Request now _ | Sweep now => now end.

Definition serve (e : Event) (store : Store) : option RateLimitAnswer * Store :=
  match e with
  | Request now key => let '(a, store') := limit now key store in (Some a, store')
  | Sweep now => (None, sweep now store)
  end.

(** The number of requests of [key] that pass *)
Fixpoint passed (key : string) (events : list Event) (store : Store) : Z :=
  match events with
  | [] => 0
  | e :: events' =>
      let '(a, store') := serve e store in
      ((match e, a with
        | Request _ k, Some a => if decide (k = key) then (if passes a then 1 else 0) else 0
        | _, _ => 0
        end) + passed key events' store')%Z
  end.

Fixpoint serve_all (events : list Event) (store : Store) : Store :=
  match events with [] => store | e :: events' => serve_all events' (serve e store).2 end.

(** ** Lemmas *)

Lemma rec_get_sweep now store key :
  rec_wf store ->
  rec_get (sweep now store) key =
  match rec_get store key with
  | Some entry => if (now <? rl_resetAt entry)%Z then Some entry else None
  | None => None
  end.
Proof.
  unfold rec_wf, sweep. induction store as [|[k v] store IH]; [done|]. simpl.
  intros [Hk Hd]%NoDup_cons. rewrite filter_cons. simpl.
  destruct (decide (key = k)) as [->|Hne].
  - apply rec_get_None in Hk. rewrite Hk in IH.
    destruct (Z.ltb_spec (now) (rl_resetAt v)).
    + rewrite decide_True by done. simpl. by rewrite decide_True.
    + rewrite decide_False by lia. auto.
  - case_decide; simpl; [rewrite decide_False by done|]; auto.
Qed.

Lemma sweep_wf now (store : Store) : rec_wf store -> rec_wf (sweep now store).
Proof. apply rec_filter_wf. Qed.

Lemma serve_wf e store : rec_wf store -> rec_wf (serve e store).2.
Proof. destruct e; simpl; auto using sweep_wf, map_put_wf. Qed.

Lemma serve_all_wf events store : rec_wf store -> rec_wf (serve_all events store).
Proof. revert store. induction events; simpl; auto using serve_wf. Qed.

(** Within a running window at most what is left of it passes. *)
Lemma passed_in_window key events store entry :
  rec_wf store -> rec_get store key = Some entry ->
  Forall (fun e => (at_time e < rl_resetAt entry)%Z) events ->
  (passed key events store <= Z.max 0 (max - rl_count entry))%Z.
Proof.
  intros Hw Hk Ht. revert store entry Hw Hk Ht.
  induction events as [|e events IH]; intros store entry Hw Hk Ht; [simpl; lia|].
  apply Forall_cons in Ht as [He Ht]. pose proof (serve_wf e store Hw) as Hw'.
  destruct e as [now k|now]; simpl in *.
  - unfold current_entry in *. destruct (decide (k = key)) as [->|Hne].
    + rewrite Hk in *. rewrite (proj2 (Z.leb_gt _ _) He) in *.
      specialize (IH _ (mkEntry (rl_count entry + 1) (rl_resetAt entry)) Hw').
      rewrite rec_get_put, decide_True in IH by done. specialize (IH eq_refl Ht).
      simpl in IH. unfold passes. simpl. destruct (Z.ltb_spec max (rl_count entry + 1)); simpl; lia.
    + apply (IH _ entry Hw'); [|done]. rewrite rec_get_put. by rewrite decide_False.
  - apply (IH _ entry Hw'); [|done]. rewrite rec_get_sweep, Hk by done.
    by rewrite (proj2 (Z.ltb_lt _ _) He).
Qed.

(** Until a window ends its end does not move. *)
Lemma window_kept key events store entry :
  rec_wf store -> rec_get store key = Some entry ->
  Forall (fun e => (at_time e < rl_resetAt entry)%Z) events ->
  exists entry', rec_get (serve_all events store) key = Some entry' /\
    rl_resetAt entry' = rl_resetAt entry.
Proof.
  revert store entry. induction events as [|e events IH]; intros store entry Hw Hk Ht; [by exists entry|].
  apply Forall_cons in Ht as [He Ht]. pose proof (serve_wf e store Hw) as Hw'. simpl in *.
  destruct e as [now k|now]; simpl in *.
  - destruct (decide (key = k)) as [->|Hne].
    + destruct (IH _ (mkEntry (rl_count entry + 1) (rl_resetAt entry)) Hw') as (e' & ? & ?);
        [|done|by exists e'].
      rewrite rec_get_put, decide_True by done. unfold current_entry. rewrite Hk.
      by rewrite (proj2 (Z.leb_gt _ _) He).
    + apply (IH _ entry Hw'); [|done]. by rewrite rec_get_put, decide_False.
  - apply (IH _ entry Hw'); [|done]. rewrite rec_get_sweep, Hk by done.
    by rewrite (proj2 (Z.ltb_lt _ _) He).
Qed.

(** When no window runs, at most [max] pass until the first new one ends. *)
Lemma passed_fresh key events store a :
  (0 <= max)%Z -> rec_wf store ->
  (forall entry, rec_get store key = Some entry ->
     Forall (fun e => (rl_resetAt entry <= at_time e)%Z) events) ->
  Forall (fun e => (a <= at_time e < a + windowMs)%Z) events ->
  StronglySorted (fun e e' => (at_time e <= at_time e')%Z) events ->
  (passed key events store <= max)%Z.
Proof.
  intros Hmax. revert store. induction events as [|e events IH]; intros store Hw Hk Ht Hs; [simpl; lia|].
  apply Forall_cons in Ht as [He Ht]. apply StronglySorted_inv in Hs as [Hs Hle].
  pose proof (serve_wf e store Hw) as Hw'.
  assert (forall entry, rec_get store key = Some entry -> (rl_resetAt entry <= at_time e)%Z /\
    Forall (fun e => (rl_resetAt entry <= at_time e)%Z) events) as Hk'.
  { intros entry Hg. by apply Hk, Forall_cons in Hg. }
  destruct e as [now k|now]; simpl in *.
  - destruct (decide (k = key)) as [->|Hne].
    + assert (current_entry now key store = mkEntry 0 (now + windowMs)) as Hc.
      { unfold current_entry. destruct (rec_get store key) as [entry|] eqn:Hg; [|done].
        destruct (Hk' entry eq_refl) as [Hr _]. by rewrite (proj2 (Z.leb_le _ _) Hr). }
      rewrite Hc in *. simpl in *.
      pose proof (passed_in_window key events
        (map_put store key (mkEntry 1 (now + windowMs))) (mkEntry 1 (now + windowMs)) Hw') as Hp.
      rewrite rec_get_put, decide_True in Hp by done. specialize (Hp eq_refl).
      assert (passed key events (map_put store key (mkEntry 1 (now + windowMs))) <=
        Z.max 0 (max - 1))%Z as Hle'.
      { apply Hp. eapply Forall_impl; [exact Ht|]. simpl. intros; lia. }
      unfold passes. simpl. change (0 + 1)%Z with 1%Z in *. destruct (Z.ltb_spec max 1); simpl; lia.
    + apply IH; [done| |done..]. intros entry. rewrite rec_get_put, decide_False by done.
      intros Hg. by apply Hk'.
  - apply IH; [done| |done..]. intros entry. rewrite rec_get_sweep by done.
    destruct (rec_get store key) as [e'|] eqn:Hg; [|done].
    destruct (now <? rl_resetAt e')%Z; [|done]. intros [= <-]. by apply Hk'.
Qed.

(** From any store, an old window and a new one *)
Lemma passed_twice key events store a :
  (0 <= max)%Z -> rec_wf store ->
  (forall entry, rec_get store key = Some entry -> (0 <= rl_count entry)%Z) ->
  Forall (fun e => (a <= at_time e < a + windowMs)%Z) events ->
  StronglySorted (fun e e' => (at_time e <= at_time e')%Z) events ->
  (passed key events store <=
   (match rec_get store key with Some entry => Z.max 0 (max - rl_count entry) | None => 0 end) + max)%Z.
Proof.
  intros Hmax. revert store. induction events as [|e events IH]; intros store Hw Hc Ht Hs;
    [simpl; case_match; lia|].
  destruct (rec_get store key) as [entry|] eqn:Hk.
  2: { rewrite Z.add_0_l. apply (passed_fresh key (e :: events) store a); try done. congruence. }
  destruct (Z.le_gt_cases (rl_resetAt entry) (at_time e)) as [Hover|Hrun].
  { assert (passed key (e :: events) store <= max)%Z; [|lia].
    apply (passed_fresh key (e :: events) store a); try done. intros e0. rewrite Hk.
    intros [= <-]. apply Forall_cons. split; [done|]. apply StronglySorted_inv in Hs as [_ Hle].
    eapply Forall_impl; [exact Hle|]. simpl. intros; lia. }
  apply Forall_cons in Ht as [He Ht]. apply StronglySorted_inv in Hs as [Hs Hle].
  pose proof (serve_wf e store Hw) as Hw'.
  destruct e as [now k|now]; simpl in *.
  - unfold current_entry in *. destruct (decide (k = key)) as [->|Hne].
    + rewrite Hk in *. rewrite (proj2 (Z.leb_gt _ _) Hrun) in *.
      specialize (IH _ Hw'). rewrite rec_get_put, decide_True in IH by done. simpl in IH.
      specialize (Hc entry eq_refl).
      assert (passed key events (map_put store key (mkEntry (rl_count entry + 1)
        (rl_resetAt entry))) <= Z.max 0 (max - (rl_count entry + 1)) + max)%Z as Hp.
      { apply IH; try done. intros ? [= <-]. simpl. lia. }
      unfold passes. simpl. destruct (Z.ltb_spec max (rl_count entry + 1)); simpl; lia.
    + specialize (IH _ Hw'). rewrite rec_get_put, decide_False, Hk in IH by done. by apply IH.
  - specialize (IH _ Hw'). rewrite rec_get_sweep, Hk in IH by done.
    rewrite (proj2 (Z.ltb_lt _ _) Hrun) in IH. by apply IH.
Qed.

Lemma serve_all_counts key events store :
  (forall entry, rec_get store key = Some entry -> (0 <= rl_count entry)%Z) -> rec_wf store ->
  forall entry, rec_get (serve_all events store) key = Some entry -> (0 <= rl_count entry)%Z.
Proof.
  revert store. induction events as [|e events IH]; intros store Hc Hw; [done|]. simpl.
  apply IH; [|by apply serve_wf]. destruct e as [now k|now]; simpl; intros entry.
  - rewrite rec_get_put. case_decide; [|apply Hc]. intros [= <-]. simpl. unfold current_entry.
    destruct (rec_get store k) as [e'|] eqn:Hk; [|simpl; lia]. subst.
    specialize (Hc e' Hk). destruct (rl_resetAt e' <=? now)%Z; simpl; lia.
  - rewrite rec_get_sweep by done. destruct (rec_get store key) as [e'|] eqn:Hk; [|done].
    destruct (now <? rl_resetAt e')%Z; [|done]. intros [= <-]. by apply Hc.
Qed.
End RateLimit.

(** However the requests of a caller are spread, in any stretch of time as long as one window
    at most twice the configured maximum of them pass, and at most the maximum when the caller
    has no window running at its start; other callers and the sweeps in between change nothing.
    The events before the stretch are arbitrary, the clock does not go back within it. *)
Theorem within_limit windowMs max key before events a
    (Hmax : (0 <= max)%Z)
    (Ht : Forall (fun e => (a <= at_time e < a + windowMs)%Z) events)
    (Hs : StronglySorted (fun e e' => (at_time e <= at_time e')%Z) events) :
  let store := serve_all windowMs max before [] in
  (passed windowMs max key events store <= 2 * max)%Z /\
  (rec_get store key = None -> passed windowMs max key events store <= max)%Z.
Proof.
  intros store.
  assert (rec_wf store) as Hw by (apply serve_all_wf; constructor).
  split.
  - pose proof (serve_all_counts windowMs max key before [] ltac:(done) ltac:(constructor)) as Hc.
    pose proof (passed_twice windowMs max key events store a Hmax Hw Hc Ht Hs) as Hp.
    fold store in Hc. destruct (rec_get store key) as [entry|]; [|lia].
    specialize (Hc entry eq_refl). lia.
  - intros Hn. apply (passed_fresh windowMs max key events store a); try done. congruence.
Qed.

(** A refused caller that waits the advertised time is served again, whatever it or others
    send until its window ends: the answer names at least one second, and after that the window
    is over. *)
Theorem retry_after_honoured windowMs max key now store events later wait
    (Hmax : (0 < max)%Z) (Hw : rec_wf store)
    (Hwait : an_retryAfter (limit windowMs max now key store).1 = Some wait)
    (Hlater : (now + wait * 1000 <= later)%Z)
    (Hevents : Forall (fun e => (at_time e < rl_resetAt (current_entry windowMs now key store))%Z)
      events) :
  (1 <= wait)%Z /\
  let store' := (limit windowMs max now key store).2 in
  passes (limit windowMs max later key (serve_all windowMs max events store')).1 = true.
Proof.
  unfold limit in *. cbn [fst snd an_retryAfter] in *.
  set (entry := current_entry windowMs now key store) in *.
  destruct (Z.ltb_spec max (rl_count entry + 1)); [|done]. injection Hwait as <-. split; [lia|].
  assert (rl_resetAt entry <= later)%Z as Hend.
  { assert (rl_resetAt entry - now <= ceil_div (rl_resetAt entry - now) 1000 * 1000)%Z; [|lia].
    unfold ceil_div.
    pose proof (Z.mul_succ_div_gt (rl_resetAt entry - now + 1000 - 1) 1000 ltac:(lia)). lia. }
  set (served := mkEntry (rl_count entry + 1) (rl_resetAt entry)).
  destruct (window_kept windowMs max key events (map_put store key served) served)
    as (e' & He & Hr); [by apply map_put_wf|by rewrite rec_get_put, decide_True|done|].
  unfold passes, current_entry. rewrite He, Hr. simpl. rewrite (proj2 (Z.leb_le _ _) Hend). simpl.
  change (0 + 1)%Z with 1%Z. by rewrite (proj2 (Z.ltb_ge max 1)) by lia.
Qed.

(** ** Example: at most 2 requests per 1000 ms *)

Lemma within_limit_witness :
  passed 1000 2 "a" [Request 1000 "a"; Request 1100 "a"; Request 1200 "b"; Sweep 1500;
    Request 1900 "a"; Request 1910 "a"; Request 1920 "a"]
    (serve_all 1000 2 [Request 900 "a"] []) = 3%Z /\
  (passed 1000 2 "a" [Request 1000 "a"; Request 1100 "a"; Request 1200 "b"; Sweep 1500;
    Request 1900 "a"; Request 1910 "a"; Request 1920 "a"]
    (serve_all 1000 2 [Request 900 "a"] []) <= 2 * 2)%Z.
Proof.
  split; [by vm_compute|].
  apply (within_limit 1000 2 "a" [Request 900 "a"] _ 1000).
  - lia.
  - repeat constructor; simpl; lia.
  - repeat constructor; simpl; lia.
Defined.

Lemma retry_after_honoured_witness :
  let store := serve_all 1000 2 [Request 900 "a"; Request 910 "a"] [] in
  an_retryAfter (limit 1000 2 950 "a" store).1 = Some 1%Z /\
  passes (limit 1000 2 1950 "a"
    (serve_all 1000 2 [Request 1800 "a"] (limit 1000 2 950 "a" store).2)).1 = true.
Proof.
  split; [by vm_compute|].
  apply (retry_after_honoured 1000 2 "a" 950 _ [Request 1800 "a"] 1950 1); [lia| |by vm_compute|lia|].
  - apply serve_all_wf. constructor.
  - repeat constructor.
Defined.
