(* ===== verification/GatewayAuth.v ===== *)
(** * Authentication of published agents

    middleware/gateway-auth.ts: who may invoke a published agent over the REST
    gateway, A2A and the OAuth gateway.  Token verification, the OAuth channel
    configuration and the account status are lookups of other modules that
    reach the identity provider or the database; the middleware gets them as an
    interface, [GatewayDeps].  [isIpInWhitelist] computes on the 32-bit
    integers of the language. *)
From S2P Require Import Prelude Json Records ErrorPatterns.
From stdpp Require Import pretty.
From Stdlib Require Import Ascii.

(** ** Strings and 32-bit integers *)

(** [s.split(c)] on one character *)
Fixpoint split_char (c : ascii) (s : string) : list string :=
  match s with
  | EmptyString => [EmptyString]
  | String d s' =>
      if decide (c = d) then EmptyString :: split_char c s'
      else match split_char c s' with
           | x :: l => String d x :: l
           | [] => [String d EmptyString]
           end
  end.

Fixpoint take_digits (acc : option Z) (s : string) : option Z :=
  match s with
  | EmptyString => acc
  | String c s' =>
      match digit_value c with
      | Some d => take_digits (Some (default 0 acc * 10 + Z.of_N d)%Z) s'
      | None => acc
      end
  end.

(** [Number.parseInt(s, 10)], [None] for [NaN] *)
Definition parse_int (s : string) : option Z :=
  match trim_start s with
  | String "-" s' => Z.opp <$> take_digits None s'
  | String "+" s' => take_digits None s'
  | s' => take_digits None s'
  end.

Definition to_uint32 (z : Z) : Z := (z mod 2 ^ 32)%Z.
Definition to_int32 (z : Z) : Z := (let u := z mod 2 ^ 32 in if u <? 2 ^ 31 then u else u - 2 ^ 32)%Z.

(** [a << n] *)
Definition shl32 (a n : Z) : Z := to_int32 (Z.shiftl (to_int32 a) (n mod 32)).

(** [ip.split('.').reduce((acc, oct) => (acc << 8) + parseInt(oct, 10), 0) >>> 0] *)
Definition ipToNum (ip : string) : Z :=
  to_uint32 (default 0%Z (foldl (fun acc oct =>
    (fun n => (shl32 (default 0 acc) 8 + n)%Z) <$> parse_int oct) (Some 0%Z) (split_char "." ip))).

Definition cidr_mask (prefix : Z) : Z :=
  if decide (prefix = 0%Z) then 0%Z
  else to_uint32 (Z.lnot (to_int32 (shl32 1 (32 - prefix) - 1))).

Definition and32 (a b : Z) : Z := to_int32 (Z.land a b).

Definition isIpInWhitelist (clientIp entry : string) : bool :=
  if decide (clientIp = "unknown") then false
  else
    let trimmed := trim entry in
    if decide (trimmed = "") then false
    else if includes trimmed "/" then
      match split_char "/" trimmed with
      | network :: prefixStr :: _ =>
          match parse_int prefixStr with
          | None => false
          | Some prefix =>
              if ((prefix <? 0) || (32 <? prefix))%Z then false
              else
                let mask := cidr_mask prefix in
                (and32 (ipToNum clientIp) mask =? and32 (ipToNum network) mask)%Z
          end
      | _ => false
      end
    else bool_decide (clientIp = trimmed).

(** ** The middleware *)

Inductive NormalizedAuthType := auth_none | auth_api_key | auth_oauth.

#[export] Instance NormalizedAuthType_eq_dec : EqDecision NormalizedAuthType.
Proof. solve_decision. Defined.

Definition normalizeAuthType (value : option string) : NormalizedAuthType :=
  match value with
  | Some v =>
      if decide (v = "none") then auth_none
      else if decide (v = "oauth") then auth_oauth else auth_api_key
  | None => auth_api_key
  end.

Record JwtUserInfo := mkUserInfo {
  ui_issuer : string;
  ui_sub : string;
  ui_email : option string;
  ui_unverifiedEmail : option string
}.

Inductive ApiKeyVerification := key_ok (keyId keyName : string) | key_invalid | key_expired.

Inductive OauthAccessMode := all_idaas_users | specified_users.

Record GatewayAuthAgent := mkGatewayAgent {
  ga_publishIpWhitelist : option (list string);
  ga_publishAuthType : option string;
  ga_endpointApiKey : option string;
  ga_verifyApiKey : option (string -> ApiKeyVerification);
  ga_oauthAccessMode : option OauthAccessMode;
  ga_oauthAllowedEmails : option (list string)
}.

Record GatewayAuthRequest := mkGatewayRequest {
  gr_clientIp : string;
  gr_authorizationHeader : option string
}.

Inductive TokenVerdict := token_ok (u : JwtUserInfo) | token_invalid | idp_unavailable.

(** What the middleware asks of the OAuth channel and of the user table *)
Class GatewayDeps := {
  isOauthChannelConfigured : bool;
  verifyOauthChannelToken : string -> TokenVerdict;
  isSsoAccountDisabled : string -> string -> string -> bool   (* issuer, sub, email *)
}.

Inductive GatewayAuthErrors :=
| IP_NOT_ALLOWED | OAUTH_NOT_CONFIGURED | MISSING_AUTH_HEADER | IDP_UNAVAILABLE | INVALID_TOKEN
| MISSING_EMAIL_CLAIM | ACCOUNT_DISABLED | MISSING_VERIFIED_EMAIL | NOT_IN_ALLOWED_USERS
| API_KEY_EXPIRED.

Inductive GatewayAuthResult :=
| AuthOk (caller : option JwtUserInfo) (apiKey : option (string * string))
| AuthFail (error : GatewayAuthErrors) (status : Z).

(** The string a truthy optional string holds *)
Definition truthy_string (s : option string) : option string :=
  match s with Some "" => None | _ => s end.

Fixpoint skip_ws (s : string) : string * string :=
  match s with
  | EmptyString => (EmptyString, EmptyString)
  | String c s' =>
      if js_whitespace c then let '(w, r) := skip_ws s' in (String c w, r)
      else (EmptyString, s)
  end.

Fixpoint has_newline (s : string) : bool :=
  match s with EmptyString => false | String c s' => is_newline c || has_newline s' end.

Fixpoint last_char (s : string) : option ascii :=
  match s with
  | EmptyString => None
  | String c EmptyString => Some c
  | String _ s' => last_char s'
  end.

(** [/^Bearer\s+(.+)$/i]: the white space is taken greedily and gives one character back when
    nothing follows it. *)
Definition extractBearer (authHeader : string) : string :=
  let scheme := String.substring 0 6 authHeader in
  if decide (toLowerCase scheme = "bearer") then
    let '(w, r) := skip_ws (String.substring 6 (String.length authHeader - 6) authHeader) in
    if decide (w = "") then authHeader
    else match r with
         | EmptyString =>
             match last_char w with
             | Some c =>
                 if decide (String.length w = 1) then authHeader
                 else if is_newline c then authHeader else String c EmptyString
             | None => authHeader
             end
         | _ => if has_newline r then authHeader else r
         end
  else authHeader.

Definition normalizeOauthAllowedEmail (value : string) : string := toLowerCase (trim value).

Section Validate.
Context `{GatewayDeps}.

Definition validate_oauth (agent : GatewayAuthAgent) (request : GatewayAuthRequest)
    : GatewayAuthResult :=
  if negb isOauthChannelConfigured then AuthFail OAUTH_NOT_CONFIGURED 503
  else match truthy_string (gr_authorizationHeader request) with
  | None => AuthFail MISSING_AUTH_HEADER 401
  | Some authHeader =>
      match verifyOauthChannelToken (extractBearer authHeader) with
      | idp_unavailable => AuthFail IDP_UNAVAILABLE 503
      | token_invalid => AuthFail INVALID_TOKEN 401
      | token_ok userInfo =>
          let email_claim :=
            match ui_email userInfo with Some e => Some e | None => ui_unverifiedEmail userInfo end in
          match truthy_string email_claim with
          | None => AuthFail MISSING_EMAIL_CLAIM 403
          | Some revocationEmail =>
              if isSsoAccountDisabled (ui_issuer userInfo) (ui_sub userInfo) revocationEmail
              then AuthFail ACCOUNT_DISABLED 403
              else match default all_idaas_users (ga_oauthAccessMode agent) with
              | all_idaas_users => AuthOk (Some userInfo) None
              | specified_users =>
                  match truthy_string (ui_email userInfo) with
                  | None => AuthFail MISSING_VERIFIED_EMAIL 403
                  | Some email =>
                      if existsb (fun entry => bool_decide (normalizeOauthAllowedEmail entry =
                           normalizeOauthAllowedEmail email))
                           (default [] (ga_oauthAllowedEmails agent))
                      then AuthOk (Some userInfo) None
                      else AuthFail NOT_IN_ALLOWED_USERS 403
                  end
              end
          end
      end
  end.

(** The dual-read fallback on the legacy column *)
Definition legacy_key (agent : GatewayAuthAgent) (token : string) : GatewayAuthResult :=
  match truthy_string (ga_endpointApiKey agent) with
  | Some legacy => if decide (token = legacy) then AuthOk None None else AuthFail INVALID_TOKEN 403
  | None => AuthFail INVALID_TOKEN 403
  end.

Definition validate_api_key (agent : GatewayAuthAgent) (request : GatewayAuthRequest)
    : GatewayAuthResult :=
  match truthy_string (gr_authorizationHeader request) with
  | None => AuthFail MISSING_AUTH_HEADER 401
  | Some authHeader =>
      let token := extractBearer authHeader in
      match ga_verifyApiKey agent with
      | Some verifyApiKey =>
          match verifyApiKey token with
          | key_ok keyId keyName => AuthOk None (Some (keyId, keyName))
          | key_expired => AuthFail API_KEY_EXPIRED 403
          | key_invalid => legacy_key agent token
          end
      | None => legacy_key agent token
      end
  end.

Definition validateGatewayAuth (agent : GatewayAuthAgent) (request : GatewayAuthRequest)
    : GatewayAuthResult :=
  let ipWhitelist := default [] (ga_publishIpWhitelist agent) in
  if negb (bool_decide (ipWhitelist = [])) &&
     negb (existsb (isIpInWhitelist (gr_clientIp request)) ipWhitelist)
  then AuthFail IP_NOT_ALLOWED 403
  else match normalizeAuthType (ga_publishAuthType agent) with
       | auth_none => AuthOk None None
       | auth_oauth => validate_oauth agent request
       | auth_api_key => validate_api_key agent request
       end.
End Validate.

(** ** Who gets in *)

Section Admission.
Context `{GatewayDeps}.

Definition ip_admitted (agent : GatewayAuthAgent) (request : GatewayAuthRequest) : Prop :=
  match ga_publishIpWhitelist agent with
  | None | Some [] => True
  | Some entries => exists entry, entry ∈ entries /\ isIpInWhitelist (gr_clientIp request) entry = true
  end.

(** The user a verified token names, when nothing revokes it and the agent lets it in *)
Definition oauth_admitted (agent : GatewayAuthAgent) (header : string) (u : JwtUserInfo) : Prop :=
  isOauthChannelConfigured = true /\
  verifyOauthChannelToken (extractBearer header) = token_ok u /\
  (exists email, (ui_email u = Some email \/ ui_email u = None /\ ui_unverifiedEmail u = Some email) /\
     email <> "" /\ isSsoAccountDisabled (ui_issuer u) (ui_sub u) email = false) /\
  (ga_oauthAccessMode agent <> Some specified_users \/
   exists email entries entry, ui_email u = Some email /\ email <> "" /\
     ga_oauthAllowedEmails agent = Some entries /\ entry ∈ entries /\
     normalizeOauthAllowedEmail entry = normalizeOauthAllowedEmail email).

(** A key of the agent, or the legacy key when the key table does not know the token *)
Definition key_admitted (agent : GatewayAuthAgent) (header : string)
    (apiKey : option (string * string)) : Prop :=
  let token := extractBearer header in
  let verdict := (fun verify => verify token) <$> ga_verifyApiKey agent in
  (exists keyId keyName, verdict = Some (key_ok keyId keyName) /\ apiKey = Some (keyId, keyName)) \/
  ((verdict = None \/ verdict = Some key_invalid) /\
   ga_endpointApiKey agent = Some token /\ token <> "" /\ apiKey = None).

Lemma truthy_Some s x : truthy_string s = Some x <-> s = Some x /\ x <> "".
Proof. destruct s as [[]|]; simpl; naive_solver. Qed.

Lemma truthy_None s x : truthy_string s = None -> s = Some x -> x = "".
Proof. intros Hs ->. by destruct x. Qed.

Lemma existsb_elem {A} (f : A -> bool) l : existsb f l = true <-> exists x, x ∈ l /\ f x = true.
Proof. rewrite existsb_exists. by setoid_rewrite list_elem_of_In. Qed.

(** The header and the user of the call are the only ones there are. *)
Ltac same_call :=
  repeat match goal with
  | H1 : ?a = Some ?x, H2 : ?a = Some ?y |- _ => assert (y = x) by congruence; clear H2; subst y
  | H1 : ?a = token_ok ?x, H2 : ?a = token_ok ?y |- _ =>
      assert (y = x) by congruence; clear H2; subst y
  end.

Lemma validate_oauth_Ok agent request caller key :
  validate_oauth agent request = AuthOk caller key <->
  exists header u, gr_authorizationHeader request = Some header /\ header <> "" /\
    oauth_admitted agent header u /\ caller = Some u /\ key = None.
Proof.
  unfold validate_oauth, oauth_admitted.
  destruct isOauthChannelConfigured; simpl; [|split; [done|]; by intros (h & u & _ & _ & [? _] & _)].
  destruct (truthy_string (gr_authorizationHeader request)) as [header|] eqn:Hh.
  2: { split; [done|]. intros (h & u & Hr & Hne & _). by rewrite (truthy_None _ h Hh Hr) in Hne. }
  apply truthy_Some in Hh as [Hh Hne].
  destruct (verifyOauthChannelToken (extractBearer header)) as [u| |] eqn:Hv;
    [|split; [done|]; intros (h & u & Hr & _ & (_ & Hu & _) & _); congruence..].
  set (claim := match ui_email u with Some e => Some e | None => ui_unverifiedEmail u end).
  assert (forall e, claim = Some e <->
    ui_email u = Some e \/ ui_email u = None /\ ui_unverifiedEmail u = Some e) as Hclaim.
  { intros e. unfold claim. destruct (ui_email u); naive_solver. }
  destruct (truthy_string claim) as [email|] eqn:He.
  2: { split; [done|]. intros (h & u' & Hr & _ & (_ & Hu & (e & Hc & Hn & _) & _) & _).
    same_call. apply Hclaim in Hc. by rewrite (truthy_None _ e He Hc) in Hn. }
  apply truthy_Some in He as [He Hen].
  destruct (isSsoAccountDisabled (ui_issuer u) (ui_sub u) email) eqn:Hdis.
  { split; [done|]. intros (h & u' & Hr & _ & (_ & Hu & (e & Hc & Hn & Hd) & _) & _).
    same_call. apply Hclaim in Hc. congruence. }
  assert (exists e, (ui_email u = Some e \/ ui_email u = None /\ ui_unverifiedEmail u = Some e) /\
    e <> "" /\ isSsoAccountDisabled (ui_issuer u) (ui_sub u) e = false) as Hacc.
  { exists email. split; [by apply Hclaim|done]. }
  destruct (ga_oauthAccessMode agent) as [[]|] eqn:Hm; simpl.
  - split; [intros [= <- <-]; exists header, u; split_and!; try done; by left|].
    intros (h & u' & Hr & _ & (_ & Hu & _) & -> & ->). by same_call.
  - destruct (truthy_string (ui_email u)) as [e|] eqn:Hve.
    + apply truthy_Some in Hve as [Hve Hvn].
      destruct (existsb _ _) eqn:Hex.
      * split; [|intros (h & u' & Hr & _ & (_ & Hu & _) & -> & ->); by same_call].
        intros [= <- <-]. exists header, u. split_and!; try done. right. apply existsb_elem in Hex as (entry & Hin & Heq). bool_to_prop.
        destruct (ga_oauthAllowedEmails agent) as [entries|]; [|set_solver].
        by exists e, entries, entry.
      * split; [done|].
        intros (h & u' & Hr & _ & (_ & Hu & _ & [|(e' & es & en & H1 & H2 & H3 & H4 & H5)]) & _); [done|].
        same_call. rewrite H3 in Hex. simpl in Hex.
        apply not_true_iff_false in Hex. exfalso. apply Hex. apply existsb_elem. exists en. split; [done|]. by apply bool_decide_true.
    + split; [done|].
      intros (h & u' & Hr & _ & (_ & Hu & _ & [|(e' & es & en & H1 & H2 & _)]) & _); [done|].
      same_call. by rewrite (truthy_None _ e' Hve H1) in H2.
  - split; [intros [= <- <-]; exists header, u; split_and!; try done; by left|].
    intros (h & u' & Hr & _ & (_ & Hu & _) & -> & ->). by same_call.
Qed.

Lemma legacy_key_Ok agent token caller key :
  legacy_key agent token = AuthOk caller key <->
  ga_endpointApiKey agent = Some token /\ token <> "" /\ caller = None /\ key = None.
Proof.
  unfold legacy_key. destruct (truthy_string (ga_endpointApiKey agent)) as [l|] eqn:Hl.
  - apply truthy_Some in Hl as [Hl Hn]. case_decide; subst; split; try naive_solver.
  - split; [done|]. intros (He & Hn & _). by rewrite (truthy_None _ token Hl He) in Hn.
Qed.

Lemma validate_api_key_Ok agent request caller key :
  validate_api_key agent request = AuthOk caller key <->
  exists header, gr_authorizationHeader request = Some header /\ header <> "" /\
    key_admitted agent header key /\ caller = None.
Proof.
  unfold validate_api_key, key_admitted.
  destruct (truthy_string (gr_authorizationHeader request)) as [header|] eqn:Hh.
  2: { split; [done|]. intros (h & Hr & Hne & _). by rewrite (truthy_None _ h Hh Hr) in Hne. }
  apply truthy_Some in Hh as [Hh Hne]. rewrite Hh.
  transitivity (key_admitted agent header key /\ caller = None).
  2: { unfold key_admitted. split; [intros [? ->]; by exists header|].
    by intros (h & [= <-] & _ & ? & ->). }
  unfold key_admitted. generalize (extractBearer header). intros token.
  destruct (ga_verifyApiKey agent) as [verify|]; simpl.
  - destruct (verify token) as [i n| |]; [split|rewrite legacy_key_Ok; split|split; [done|]].
    + intros [= <- <-]. split; [|done]. left. by exists i, n.
    + intros [[(i' & n' & [= -> ->] & ->)|([|] & _)] ->]; done.
    + intros (? & ? & -> & ->). split; [|done]. right. auto.
    + intros [[(i' & n' & [=] & _)|(_ & ? & ? & ->)] ->]. done.
    + by intros [[(i' & n' & [=] & _)|([|] & _)] _].
  - rewrite legacy_key_Ok. split.
    + intros (? & ? & -> & ->). split; [|done]. right. auto.
    + intros [[(i' & n' & [=] & _)|(_ & ? & ? & ->)] ->]. done.
Qed.

(** C32. A call of a published agent is let in exactly when its address is on the whitelist (if
    there is one) and: the agent is published with the type none; or with oauth, and the token
    verifies, the account it names is not disabled, and the agent admits everybody or lists the
    verified email; or with any other or no type, and the token is a live key of the agent or the
    legacy key.  So an unknown type never opens an agent, an expired key never falls through to
    the legacy column, and an unverified email never satisfies an allow list. *)
Theorem gateway_admits_exactly agent request caller key :
  validateGatewayAuth agent request = AuthOk caller key <->
  ip_admitted agent request /\
  (ga_publishAuthType agent = Some "none" /\ caller = None /\ key = None \/
   exists header, gr_authorizationHeader request = Some header /\ header <> "" /\
     (ga_publishAuthType agent = Some "oauth" /\
        (exists u, oauth_admitted agent header u /\ caller = Some u /\ key = None) \/
      ga_publishAuthType agent <> Some "none" /\ ga_publishAuthType agent <> Some "oauth" /\
        key_admitted agent header key /\ caller = None)).
Proof.
  unfold validateGatewayAuth.
  assert (negb (bool_decide (default [] (ga_publishIpWhitelist agent) = [])) &&
    negb (existsb (isIpInWhitelist (gr_clientIp request)) (default [] (ga_publishIpWhitelist agent)))
    = false <-> ip_admitted agent request) as Hip.
  { unfold ip_admitted. destruct (ga_publishIpWhitelist agent) as [[|e l]|]; simpl default; try done.
    rewrite bool_decide_false by done. simpl negb. rewrite andb_true_l, negb_false_iff.
    apply (existsb_elem _ (e :: l)). }
  destruct (_ && _)%bool; [split; [done|]; intros [Hf _]; by apply Hip in Hf|].
  assert (ip_admitted agent request) as Hin by by apply Hip. clear Hip.
  unfold normalizeAuthType.
  destruct (ga_publishAuthType agent) as [v|]; [destruct (decide (v = "none")) as [->|Hv]|].
  - split; [intros [= <- <-]; auto|]. intros [_ [(_ & -> & ->)|(h & _ & _ & [[[=] _]|[Hn _]])]]; done.
  - destruct (decide (v = "oauth")) as [->|Hv'].
    + rewrite validate_oauth_Ok. naive_solver.
    + rewrite validate_api_key_Ok. naive_solver.
  - rewrite validate_api_key_Ok. naive_solver.
Qed.
End Admission.

(** ** Address ranges *)

Definition octet (n : Z) : Prop := (0 <= n < 256)%Z.

Definition dotted (a b c d : Z) : string :=
  pretty a +:+ "." +:+ pretty b +:+ "." +:+ pretty c +:+ "." +:+ pretty d.

Definition address (a b c d : Z) : Z := (((a * 256 + b) * 256 + c) * 256 + d)%Z.

(** No character of [s] is [c]. *)
Fixpoint free_of (c : ascii) (s : string) : bool :=
  match s with EmptyString => true | String d s' => negb (Ascii.eqb c d) && free_of c s' end.

Fixpoint no_space (s : string) : bool :=
  match s with EmptyString => true | String d s' => negb (js_whitespace d) && no_space s' end.

Definition good_number (n : Z) : bool :=
  let s := pretty n in
  bool_decide (parse_int s = Some n) && free_of "." s && free_of "/" s && no_space s &&
  negb (String.eqb s "").

Lemma good_numbers : forallb good_number (seqZ 0 256) = true.
Proof. by vm_compute. Qed.

Lemma octet_good n : octet n -> good_number n = true.
Proof.
  intros Hn. pose proof good_numbers as H. rewrite forallb_forall in H. apply H.
  apply list_elem_of_In, elem_of_seqZ. unfold octet in Hn. lia.
Qed.

Lemma split_free c s t : free_of c s = true -> split_char c (s +:+ String c t) = s :: split_char c t.
Proof.
  induction s as [|d s IH]; simpl; intros Hs; [by rewrite decide_True|]. bool_to_prop.
  rewrite decide_False by (intros ->; by rewrite Ascii.eqb_refl in *). by rewrite IH.
Qed.

Lemma split_last c s : free_of c s = true -> split_char c s = [s].
Proof.
  induction s as [|d s IH]; simpl; intros Hs; [done|]. bool_to_prop.
  rewrite decide_False by (intros ->; by rewrite Ascii.eqb_refl in *). by rewrite IH.
Qed.

Lemma to_int32_small z : (0 <= z < 2 ^ 31)%Z -> to_int32 z = z.
Proof.
  intros Hz. unfold to_int32. rewrite Z.mod_small by lia.
  by rewrite (proj2 (Z.ltb_lt _ _)) by lia.
Qed.

(** Wrapping commutes with what the reduction does. *)
Lemma to_int32_mod z : (to_int32 z mod 2 ^ 32 = z mod 2 ^ 32)%Z.
Proof.
  unfold to_int32. destruct (Z.ltb_spec (z mod 2 ^ 32) (2 ^ 31)); [by rewrite Z.mod_mod|].
  rewrite Zminus_mod, Z_mod_same_full, Z.sub_0_r, !Z.mod_mod by lia. done.
Qed.

Lemma shl8_mod a : (shl32 a 8 mod 2 ^ 32 = (a * 256) mod 2 ^ 32)%Z.
Proof.
  unfold shl32. change (8 mod 32)%Z with 8%Z. rewrite to_int32_mod, Z.shiftl_mul_pow2 by lia.
  change (2 ^ 8)%Z with 256%Z.
  by rewrite Z.mul_mod, to_int32_mod, <- Z.mul_mod by lia.
Qed.

Lemma shl8_small a : (0 <= a < 2 ^ 23)%Z -> shl32 a 8 = (a * 256)%Z.
Proof.
  intros Ha. unfold shl32. change (8 mod 32)%Z with 8%Z.
  rewrite (to_int32_small a), Z.shiftl_mul_pow2 by lia. change (2 ^ 8)%Z with 256%Z.
  apply to_int32_small. lia.
Qed.

Lemma ipToNum_dotted a b c d :
  octet a -> octet b -> octet c -> octet d -> ipToNum (dotted a b c d) = address a b c d.
Proof.
  intros Ha Hb Hc Hd. unfold ipToNum, dotted.
  pose proof (octet_good a Ha) as Ga. pose proof (octet_good b Hb) as Gb.
  pose proof (octet_good c Hc) as Gc. pose proof (octet_good d Hd) as Gd.
  unfold good_number in *. cbv zeta in *. bool_to_prop.
  change (pretty a +:+ "." +:+ pretty b +:+ "." +:+ pretty c +:+ "." +:+ pretty d) with
    (pretty a +:+ String "." (pretty b +:+ String "." (pretty c +:+ String "." (pretty d)))).
  rewrite !split_free, split_last by done. cbn [foldl].
  repeat match goal with Hp : parse_int _ = Some _ |- _ => rewrite Hp; clear Hp end.
  cbn [fmap option_fmap option_map default id]. unfold id, to_uint32, address, octet in *.
  rewrite (shl8_small 0), (shl8_small (0 * 256 + a)), (shl8_small ((0 * 256 + a) * 256 + b)) by lia.
  rewrite Zplus_mod, shl8_mod, <- Zplus_mod, Z.mod_small by lia. lia.
Qed.

Lemma mask_table :
  forallb (fun p => (cidr_mask p =? 2 ^ 32 - 2 ^ (32 - p))%Z) (seqZ 0 33) = true.
Proof. by vm_compute. Qed.

Lemma cidr_mask_eq p : (0 <= p <= 32)%Z -> cidr_mask p = (2 ^ 32 - 2 ^ (32 - p))%Z.
Proof.
  intros Hp. pose proof mask_table as H. rewrite forallb_forall in H. apply Z.eqb_eq, H.
  apply list_elem_of_In, elem_of_seqZ. lia.
Qed.

(** Masking keeps the [p] high bits. *)
Lemma land_mask x p :
  (0 <= x < 2 ^ 32)%Z -> (0 <= p <= 32)%Z ->
  Z.land x (2 ^ 32 - 2 ^ (32 - p)) = (x / 2 ^ (32 - p) * 2 ^ (32 - p))%Z.
Proof.
  intros Hx Hp. set (k := (32 - p)%Z). assert (0 <= k)%Z by (unfold k; lia).
  assert (2 ^ 32 - 2 ^ k = Z.shiftl (Z.ones p) k)%Z as ->.
  { rewrite Z.shiftl_mul_pow2, Z.ones_equiv by done.
    replace 32%Z with (p + k)%Z at 1 by (unfold k; lia). rewrite Z.pow_add_r by lia. lia. }
  rewrite <- Z.shiftr_div_pow2, <- Z.shiftl_mul_pow2 by done.
  apply Z.bits_inj'. intros n Hn. rewrite Z.land_spec.
  destruct (decide (n < k)%Z) as [Hlt|Hge].
  - by rewrite !Z.shiftl_spec_low, andb_false_r by done.
  - rewrite !Z.shiftl_spec_high, Z.shiftr_spec by lia.
    replace (n - k + k)%Z with n by lia.
    destruct (decide (n < 32)%Z).
    + by rewrite Z.ones_spec_low, andb_true_r by (unfold k in *; lia).
    + rewrite Z.ones_spec_high, andb_false_r by (unfold k in *; lia).
      symmetry. apply Z.bits_above_log2; [lia|].
      destruct (decide (x = 0)%Z) as [->|]; [by change (Z.log2 0) with 0%Z; lia|].
      apply Z.lt_le_trans with 32%Z; [|lia]. apply Z.log2_lt_pow2; lia.
Qed.

Lemma to_int32_inj x y :
  (0 <= x < 2 ^ 32)%Z -> (0 <= y < 2 ^ 32)%Z -> to_int32 x = to_int32 y <-> x = y.
Proof.
  intros Hx Hy. split; [|by intros ->]. intros Heq.
  rewrite <- (Z.mod_small x (2 ^ 32)), <- (Z.mod_small y (2 ^ 32)), <- to_int32_mod,
    <- (to_int32_mod y) by done. by rewrite Heq.
Qed.

Lemma and32_mask x y p :
  (0 <= x < 2 ^ 32)%Z -> (0 <= y < 2 ^ 32)%Z -> (0 <= p <= 32)%Z ->
  (and32 x (cidr_mask p) =? and32 y (cidr_mask p))%Z =
  (x / 2 ^ (32 - p) =? y / 2 ^ (32 - p))%Z.
Proof.
  intros Hx Hy Hp. unfold and32. rewrite cidr_mask_eq, !land_mask by done.
  assert (0 < 2 ^ (32 - p))%Z as Hk by (apply Z.pow_pos_nonneg; lia).
  assert (forall z, 0 <= z < 2 ^ 32 -> 0 <= z / 2 ^ (32 - p) * 2 ^ (32 - p) < 2 ^ 32)%Z as Hb.
  { intros z Hz. pose proof (Z.mul_div_le z (2 ^ (32 - p)) Hk).
    pose proof (Z.div_pos z (2 ^ (32 - p)) (proj1 Hz) Hk). nia. }
  apply eq_true_iff_eq. rewrite !Z.eqb_eq, to_int32_inj by auto. split; [|by intros ->].
  intros Heq. apply Z.mul_reg_r in Heq; [done|lia].
Qed.

Lemma trim_no_space s : no_space s = true -> trim s = s.
Proof.
  intros Hs. unfold trim.
  assert (trim_start s = s) as -> by (destruct s; simpl in *; bool_to_prop; [done|]; by case_match).
  induction s as [|c s IH]; [done|]. simpl in Hs. bool_to_prop. simpl.
  case_match eqn:Hc; [|by rewrite IH]. simpl in Hc. bool_to_prop. congruence.
Qed.

Lemma no_space_app s t : no_space (s +:+ t) = no_space s && no_space t.
Proof. induction s as [|c s IH]; simpl; [done|]. by rewrite IH, andb_assoc. Qed.

Lemma free_of_app c s t : free_of c (s +:+ t) = free_of c s && free_of c t.
Proof. induction s as [|d s IH]; simpl; [done|]. by rewrite IH, andb_assoc. Qed.

Lemma dotted_plain a b c d :
  octet a -> octet b -> octet c -> octet d ->
  no_space (dotted a b c d) = true /\ free_of "/" (dotted a b c d) = true /\
  dotted a b c d <> "unknown" /\ dotted a b c d <> "".
Proof.
  intros Ha Hb Hc Hd. unfold dotted.
  pose proof (octet_good a Ha). pose proof (octet_good b Hb).
  pose proof (octet_good c Hc). pose proof (octet_good d Hd).
  unfold good_number in *. cbv zeta in *. bool_to_prop.
  rewrite !no_space_app, !free_of_app. simpl. rewrite !andb_true_iff. split_and!; try done.
  - intros Hu. assert (free_of "." "unknown" = true) as Hf by done. rewrite <- Hu in Hf.
    rewrite free_of_app in Hf. simpl in Hf. by rewrite andb_false_r in Hf.
  - by destruct (pretty a).
Qed.

Lemma includes_slash s t : includes (s +:+ "/" +:+ t) "/" = true.
Proof.
  induction s as [|c s IH]; [by destruct t|]. simpl in *. rewrite IH. apply orb_true_r.
Qed.

(** An IPv4 entry [n.n.n.n/p] admits an IPv4 address exactly when their [p] high bits agree:
    the shifts and the mask of 32-bit signed integers lose nothing, for every prefix from 0 to
    32. *)
Theorem cidr_exact c1 c2 c3 c4 n1 n2 n3 n4 p :
  octet c1 -> octet c2 -> octet c3 -> octet c4 -> octet n1 -> octet n2 -> octet n3 -> octet n4 ->
  (0 <= p <= 32)%Z ->
  isIpInWhitelist (dotted c1 c2 c3 c4) (dotted n1 n2 n3 n4 +:+ "/" +:+ pretty p) =
  (address c1 c2 c3 c4 / 2 ^ (32 - p) =? address n1 n2 n3 n4 / 2 ^ (32 - p))%Z.
Proof.
  intros H1 H2 H3 H4 H5 H6 H7 H8 Hp. unfold isIpInWhitelist.
  destruct (dotted_plain n1 n2 n3 n4) as (Hns & Hfree & _ & Hne); try done.
  destruct (dotted_plain c1 c2 c3 c4) as (_ & _ & Hun & _); try done.
  pose proof (octet_good p ltac:(unfold octet; lia)) as Gp.
  unfold good_number in Gp. cbv zeta in Gp. bool_to_prop.
  rewrite decide_False by done.
  rewrite trim_no_space by (rewrite !no_space_app; simpl; by rewrite Hns).
  rewrite decide_False by (by destruct (dotted n1 n2 n3 n4)).
  rewrite includes_slash.
  change (dotted n1 n2 n3 n4 +:+ "/" +:+ pretty p) with
    (dotted n1 n2 n3 n4 +:+ String "/" (pretty p)).
  rewrite split_free, split_last by done.
  match goal with Hq : parse_int _ = Some _ |- _ => rewrite Hq end.
  rewrite (proj2 (Z.ltb_ge _ _)), (proj2 (Z.ltb_ge _ _)) by lia. simpl orb.
  cbv iota zeta. rewrite !ipToNum_dotted by done.
  apply and32_mask; [unfold address, octet in *; lia..|done].
Qed.

Lemma cidr_exact_witness :
  isIpInWhitelist (dotted 10 1 255 7) (dotted 10 0 0 0 +:+ "/" +:+ pretty 15%Z) = true /\
  isIpInWhitelist (dotted 10 2 0 0) (dotted 10 0 0 0 +:+ "/" +:+ pretty 15%Z) = false.
Proof.
  split; refine (eq_trans (cidr_exact _ _ _ _ _ _ _ _ 15 _ _ _ _ _ _ _ _ _) _);
    unfold octet; try lia; reflexivity.
Defined.

(** An IPv6 range is not refused: its groups are read as decimal octets, so the entry below
    admits every IPv6 address whose number the reading happens to agree on. *)
Lemma ipv6_range_admits_others :
  isIpInWhitelist "2001:4860:4860::8888" "2001:db8::/32" = true.
Proof. by vm_compute. Qed.
