(* ===== verification/SessionGuard.v ===== *)
(** * Sessions of the console and the CSRF guard

    middleware/csrf-origin.ts, middleware/auth-middleware.ts, and what they
    call: lib/session-auth.ts, session-renewal.ts, auth-cookie.ts and the token
    functions of auth.ts.  URL parsing, the cookie parser and the JWT functions
    of the HTTP library and the hash of a CLI token are parameters; the clock is
    read once per request; reading the database does not fail. *)
From S2P Require Import Prelude Json Records GatewayAuth MemoryTokens.
From Stdlib Require Import Ascii.

Definition AUTH_COOKIE_NAME : string := "__Host-a2wave_session".
Definition LEGACY_AUTH_COOKIE_NAME : string := "a2wave_session".

Record Settings := mkSettings {
  NODE_ENV : string;
  E2E_STRICT_AUTH : bool;
  AUTH_SECRET : string;
  AUTH_COOKIE_SECURE : option bool;
  AUTH_SESSION_TTL_DAYS : Z;
  CORS_ORIGIN : string;
  PUBLIC_URL : string
}.

(** What the guards read of a request *)
Record Request := mkRequest {
  rq_method : string;
  rq_path : string;
  rq_url : string;
  rq_authorization : option string;
  rq_cookie : option string;
  rq_origin : option string;
  rq_remoteAddress : option string
}.

Record JwtPayload := mkJwt {
  jwt_sub : string;
  jwt_role : string;
  jwt_tv : option Z;
  jwt_rm : option bool;
  jwt_iat : option Z;                        (* [None] when not a number *)
  jwt_exp : option Z
}.

Record User := mkUser { u_id : string; u_role : string; u_tokenVersion : Z; u_isActive : bool }.

Record CliToken := mkCliToken {
  ct_id : string;
  ct_userId : string;
  ct_tokenHash : string;
  ct_expiresAt : option Z;
  ct_revokedAt : option Z;
  ct_lastUsedAt : option Z
}.

Record AuthDb := mkAuthDb { users : list User; cliTokens : list CliToken }.

(** The libraries *)
Class HttpLibrary := {
  url_host : string -> option string;        (* [new URL(s).host], [None] when it throws *)
  getCookie : string -> string -> option string;
  sign : JwtPayload -> string;
  jwtVerify : Z -> string -> outcome JwtPayload;
  hashCliToken : string -> string
}.

Section Session.
Context `{HttpLibrary} (env : Settings).

(** ** csrf-origin.ts *)

Definition SAFE_METHODS : list string := ["GET"; "HEAD"; "OPTIONS"].
Definition EXEMPT_PATH_PREFIXES : list string := ["/api/auth/oidc/"; "/api/auth/saml/"].

Definition allowedOrigins : list string := filter (fun v => v <> "") [CORS_ORIGIN env; PUBLIC_URL env].

Definition isSameOrigin (r : Request) (origin : string) : bool :=
  match url_host origin, url_host (rq_url r) with
  | Some a, Some b => bool_decide (a = b)
  | _, _ => false
  end.

(** [header.split(';').map((part) => part.trim().split('=')[0])] *)
Definition cookie_names (header : string) : list string :=
  (fun part => default "" (head (split_char "=" (trim part)))) <$> split_char ";" header.

Definition hasSessionCookie (r : Request) : bool :=
  match rq_cookie r with
  | None => false
  | Some header =>
      if decide (header = "") then false
      else existsb (fun name => bool_decide (name = AUTH_COOKIE_NAME) ||
                                bool_decide (name = LEGACY_AUTH_COOKIE_NAME)) (cookie_names header)
  end.

Definition exempt (r : Request) : bool := existsb (fun p => String.prefix p (rq_path r)) EXEMPT_PATH_PREFIXES.

Definition bearer (r : Request) : option string :=
  match rq_authorization r with
  | Some h => if String.prefix "Bearer " h then Some (String.substring 7 (String.length h - 7) h) else None
  | None => None
  end.

(** [true] is [next()], [false] the 403 *)
Definition csrfOriginMiddleware (r : Request) : bool :=
  if bool_decide (rq_method r ∈ SAFE_METHODS) then true
  else if exempt r then true
  else if bool_decide (is_Some (bearer r)) then true
  else if negb (hasSessionCookie r) then true
  else
    match truthy_string (rq_origin r) with
    | Some origin => isSameOrigin r origin || bool_decide (origin ∈ allowedOrigins)
    | None => false
    end.

(** ** auth.ts, auth-cookie.ts, session-renewal.ts *)

Definition SHORT_SESSION_TTL_SECONDS : Z := 12 * 60 * 60.
Definition getAuthSessionTtlSeconds : Z := AUTH_SESSION_TTL_DAYS env * 24 * 60 * 60.
Definition getSessionTtlSeconds (remember : bool) : Z :=
  if remember then getAuthSessionTtlSeconds else SHORT_SESSION_TTL_SECONDS.

Definition seconds (now : Z) : Z := now / 1000.

Definition session_payload (now : Z) (id role : string) (tokenVersion : Z) (remember : bool) : JwtPayload :=
  mkJwt id role (Some tokenVersion) (Some remember) (Some (seconds now))
    (Some (seconds now + getSessionTtlSeconds remember)%Z).

Definition signToken (now : Z) (id role : string) (tokenVersion : Z) (remember : bool) : string :=
  sign (session_payload now id role tokenVersion remember).

Definition isCookieSecure : bool :=
  match AUTH_COOKIE_SECURE env with Some b => b | None => bool_decide (NODE_ENV env = "production") end.

(** [HttpOnly], [SameSite=Lax] and [Path=/] are the same in every case. *)
Record Cookie := mkCookie { ck_name : string; ck_value : string; ck_secure : bool; ck_maxAge : option Z }.

Definition setAuthCookie (token : string) (remember : bool) : Cookie :=
  mkCookie (if isCookieSecure then AUTH_COOKIE_NAME else LEGACY_AUTH_COOKIE_NAME) token isCookieSecure
    (if remember then Some getAuthSessionTtlSeconds else None).

(** [elapsed > lifetime * 0.5] *)
Definition shouldRenewSession (payload : JwtPayload) (nowSeconds : Z) : bool :=
  match jwt_iat payload, jwt_exp payload with
  | Some iat, Some exp =>
      let lifetime := (exp - iat)%Z in
      if (lifetime <=? 0)%Z then false
      else if (exp <=? nowSeconds)%Z then false
      else (lifetime <? 2 * (nowSeconds - iat))%Z
  | _, _ => false
  end.

(** ** session-auth.ts *)

Inductive AuthMethod := by_session | by_cli_token.

Record AuthenticatedSessionUser := mkAuthUser {
  au_id : string;
  au_role : string;
  au_authMethod : AuthMethod;
  au_sessionPayload : option JwtPayload;
  au_tokenVersion : option Z
}.

Definition CLI_TOKEN_PREFIX : string := "a2wc_".
Definition isCliToken (token : string) : bool := String.prefix CLI_TOKEN_PREFIX token.

Definition find_user (id : string) (db : AuthDb) : option User := find_key u_id (users db) id.

(** The join of a token row with its user *)
Definition cli_row (token : string) (db : AuthDb) : option (CliToken * User) :=
  head (omap (fun t => if decide (ct_tokenHash t = hashCliToken token)
                       then (fun u => (t, u)) <$> find_user (ct_userId t) db else None) (cliTokens db)).

Definition touch (now : Z) (id : string) (db : AuthDb) : AuthDb :=
  mkAuthDb (users db)
    ((fun t => if decide (ct_id t = id /\ ct_revokedAt t = None)
               then mkCliToken (ct_id t) (ct_userId t) (ct_tokenHash t) (ct_expiresAt t) (ct_revokedAt t) (Some now)
               else t) <$> cliTokens db).

Definition authenticateCliToken (now : Z) (token : string) (db : AuthDb)
    : option AuthenticatedSessionUser * AuthDb :=
  match cli_row token db with
  | None => (None, db)
  | Some (row, user) =>
      if bool_decide (is_Some (ct_revokedAt row)) then (None, db)
      else if match ct_expiresAt row with Some e => (e <=? now)%Z | None => false end then (None, db)
      else if negb (u_isActive user) then (None, db)
      else (Some (mkAuthUser (u_id user) (u_role user) by_cli_token None None), touch now (ct_id row) db)
  end.

Definition authenticateSessionToken (now : Z) (token : string) (db : AuthDb)
    : option AuthenticatedSessionUser * AuthDb :=
  if isCliToken token then authenticateCliToken now token db
  else
    match jwtVerify (seconds now) token with
    | Throw _ => (None, db)
    | Ret payload =>
        match find_user (jwt_sub payload) db with
        | None => (None, db)
        | Some user =>
            if negb (u_isActive user) || negb (bool_decide (default (-1)%Z (jwt_tv payload) = u_tokenVersion user))
            then (None, db)
            else (Some (mkAuthUser (u_id user) (u_role user) by_session (Some payload) (Some (u_tokenVersion user))), db)
        end
    end.

(** ** auth-middleware.ts *)

Definition DEFAULT_AUTH_SECRET : string := "dev-secret-change-me".

Definition isDevBypass : bool :=
  bool_decide (NODE_ENV env = "development") && negb (E2E_STRICT_AUTH env) &&
  bool_decide (AUTH_SECRET env = DEFAULT_AUTH_SECRET).

(** What a handler finds in its context *)
Record AuthContext := mkAuthContext {
  cx_userId : string;
  cx_userRole : string;
  cx_authMethod : AuthMethod;
  cx_sessionRemember : option bool
}.

Inductive AuthOutcome :=
| auth_next (context : AuthContext) (setCookie : option Cookie)
| auth_agent (agentTokenId agentMemoryToken : string)
| auth_reject (error : string) (status : Z).

(** The token of a request, and whether a cookie carried it *)
Definition session_token (r : Request) : option string * bool :=
  match bearer r with
  | Some token => (truthy_string (Some token), false)
  | None =>
      let read name := truthy_string (rq_cookie r ≫= fun h => getCookie h name) in
      (match read AUTH_COOKIE_NAME with
       | Some token => Some token
       | None => if isCookieSecure then None else read LEGACY_AUTH_COOKIE_NAME
       end, true)
  end.

Definition maybeRenewSessionCookie (now : Z) (user : AuthenticatedSessionUser) (fromCookie : bool)
    : option Cookie :=
  match fromCookie, au_authMethod user, au_sessionPayload user, au_tokenVersion user with
  | true, by_session, Some payload, Some tokenVersion =>
      if shouldRenewSession payload (seconds now) then
        let remember := default true (jwt_rm payload) in
        Some (setAuthCookie (signToken now (au_id user) (au_role user) tokenVersion remember) remember)
      else None
  | _, _, _, _ => None
  end.

Definition authMiddleware (now : Z) (r : Request) (db : AuthDb) : AuthOutcome * AuthDb :=
  if isDevBypass then (auth_next (mkAuthContext "usr_admin" "admin" by_session None) None, db)
  else
    let '(token, fromCookie) := session_token r in
    match token with
    | None => (auth_reject "Unauthorized" 401, db)
    | Some token =>
        match authenticateSessionToken now token db with
        | (None, db1) => (auth_reject "Invalid or expired token" 401, db1)
        | (Some user, db1) =>
            (auth_next
               (mkAuthContext (au_id user) (au_role user) (au_authMethod user)
                  (au_sessionPayload user ≫= jwt_rm))
               (maybeRenewSessionCookie now user fromCookie), db1)
        end
    end.

Definition isAdmin (c : AuthContext) : bool := bool_decide (cx_userRole c = "admin").

(** [requireAdmin], after [authMiddleware] *)
Definition requireAdmin (o : AuthOutcome) : AuthOutcome :=
  match o with
  | auth_next c _ => if isAdmin c then o else auth_reject "Admin access required" 403
  | _ => o
  end.

Definition LOCALHOST_ADDRS : list string := ["127.0.0.1"; "::1"; "::ffff:127.0.0.1"].

Definition memoryAuthMiddleware (now : Z) (r : Request) (db : AuthDb) (store : TokenStore)
    : AuthOutcome * AuthDb * TokenStore :=
  let fallback store1 := (authMiddleware now r db, store1) in
  match rq_remoteAddress r with
  | Some a =>
      if decide (a ∈ LOCALHOST_ADDRS) then
        match bearer r with
        | Some token =>
            match validateAgentToken now token store with
            | (Some agentId, store1) =>
                if decide (agentId = "") then fallback store1 else (auth_agent agentId token, db, store1)
            | (None, store1) => fallback store1
            end
        | None => fallback store
        end
      else fallback store
  | None => fallback store
  end.
End Session.

(** ** What the code relies on *)

(** No white space in or around the names, as browsers send the header *)
Definition tidy (header : string) : bool := forallb (fun n => bool_decide (trim n = n)) (cookie_names header).

Definition SESSION_COOKIES : list string := [AUTH_COOKIE_NAME; LEGACY_AUTH_COOKIE_NAME].

Class HttpLaws `{HttpLibrary} : Prop := {
  cookie_listed : forall header name v, tidy header = true -> getCookie header name = Some v ->
    name ∈ cookie_names header;
  cookie_alone : forall name name' p, name ∈ SESSION_COOKIES ->
    getCookie (name +:+ "=" +:+ sign p) name' = if decide (name' = name) then Some (sign p) else None;
  token_shape : forall p, isCliToken (sign p) = false /\ sign p <> "";
  token_valid : forall p iat exp t, jwt_iat p = Some iat -> jwt_exp p = Some exp -> (iat <= t < exp)%Z ->
    jwtVerify t (sign p) = Ret p;
  token_expired : forall p exp t, jwt_exp p = Some exp -> (exp <= t)%Z ->
    exists e, jwtVerify t (sign p) = Throw e
}.

Section Guarded.
Context `{HttpLaws} (env : Settings).

Lemma named_session r name v :
  (forall header, rq_cookie r = Some header -> tidy header = true) -> name ∈ SESSION_COOKIES ->
  truthy_string (rq_cookie r ≫= fun h => getCookie h name) = Some v -> hasSessionCookie r = true.
Proof.
  intros Htidy Hname Hread. unfold hasSessionCookie. destruct (rq_cookie r) as [h|] eqn:Hc; simpl in *; [|done].
  destruct (getCookie h name) as [v'|] eqn:Hg; [|done].
  pose proof (cookie_listed h name v' (Htidy h eq_refl) Hg) as Hin. case_decide as He.
  - subst h. vm_compute in Hin. apply elem_of_cons in Hin as [->|Hin%elem_of_nil]; [|done].
    apply elem_of_cons in Hname as [Hn|Hname]; [done|]. by apply elem_of_cons in Hname as [Hn|Hn%elem_of_nil].
  - apply existsb_exists. exists name. split; [by apply list_elem_of_In|]. apply orb_true_iff.
    apply elem_of_cons in Hname as [->|Hname]; [left; by apply bool_decide_eq_true|right].
    apply elem_of_cons in Hname as [->|Hn%elem_of_nil]; [by apply bool_decide_eq_true|done].
Qed.

End Guarded.

(** ** A browser that comes back *)

Section Visits.
Context `{HttpLibrary} (env : Settings).

(** A request that carries the cookie of the browser's jar *)
Definition from_browser (jar : Cookie) : Request :=
  mkRequest "GET" "/api/runs" "https://a2wave.example.com/api/runs" None
    (Some (ck_name jar +:+ "=" +:+ ck_value jar)) None None.

(** The requests at these instants, each with the cookie the last answer left:
    what becomes of them, and the jar at the end *)
Fixpoint visits (times : list Z) (jar : Cookie) (db : AuthDb) : list AuthOutcome * Cookie :=
  match times with
  | [] => ([], jar)
  | now :: times' =>
      let '(o, db1) := authMiddleware env now (from_browser jar) db in
      let jar1 := match o with auth_next _ (Some ck) => ck | _ => jar end in
      let '(os, jar2) := visits times' jar1 db1 in (o :: os, jar2)
  end.

(** Never longer between two of them than half of a session's life *)
Fixpoint active (life last : Z) (times : list Z) : Prop :=
  match times with
  | [] => True
  | now :: times' => (last <= now)%Z /\ (2 * (seconds now - seconds last) < life)%Z /\ active life now times'
  end.

(** The cookie of a login *)
Definition logged_in (now : Z) (u : User) (remember : bool) : Cookie :=
  setAuthCookie env (signToken env now (u_id u) (u_role u) (u_tokenVersion u) remember) remember.
End Visits.

Section Sliding.
Context `{HttpLaws} (env : Settings) (u : User) (db : AuthDb) (remember : bool).
Context (Hdev : isDevBypass env = false) (Hu : find_user (u_id u) db = Some u) (Hactive : u_isActive u = true)
  (Hdays : (1 <= AUTH_SESSION_TTL_DAYS env)%Z).

Lemma seconds_mono a b : (a <= b)%Z -> (seconds a <= seconds b)%Z.
Proof. intros Hab. unfold seconds. apply Z.div_le_mono; lia. Qed.

Lemma read_jar p :
  session_token env (from_browser (setAuthCookie env (sign p) remember)) = (Some (sign p), true).
Proof.
  unfold session_token, from_browser, setAuthCookie, bearer. cbn [rq_authorization rq_cookie ck_name ck_value].
  destruct (token_shape p) as [_ Hne].
  assert (truthy_string (Some (sign p)) = Some (sign p)) as Ht by (unfold truthy_string; by destruct (sign p)).
  destruct (isCookieSecure env) eqn:Hs; cbn [option_bind mbind].
  - simpl. rewrite (cookie_alone AUTH_COOKIE_NAME), decide_True by (done || by left). by rewrite Ht.
  - simpl. rewrite (cookie_alone LEGACY_AUTH_COOKIE_NAME AUTH_COOKIE_NAME), decide_False by (done || by right; left).
    simpl. rewrite (cookie_alone LEGACY_AUTH_COOKIE_NAME LEGACY_AUTH_COOKIE_NAME), decide_True
      by (done || by right; left). by rewrite Ht.
Qed.

(** One visit with a token issued at [issued] *)
Lemma visit_valid issued now :
  let p := session_payload env issued (u_id u) (u_role u) (u_tokenVersion u) remember in
  (seconds issued <= seconds now < seconds issued + getSessionTtlSeconds env remember)%Z ->
  authMiddleware env now (from_browser (setAuthCookie env (sign p) remember)) db =
  (auth_next (mkAuthContext (u_id u) (u_role u) by_session (Some remember))
     (if (getSessionTtlSeconds env remember <? 2 * (seconds now - seconds issued))%Z
      then Some (logged_in env now u remember) else None), db).
Proof.
  intros p Ht. unfold authMiddleware. rewrite Hdev, read_jar.
  unfold authenticateSessionToken. rewrite (proj1 (token_shape p)), (token_valid p (seconds issued)
    (seconds issued + getSessionTtlSeconds env remember)) by done.
  unfold p at 1. cbn [jwt_sub session_payload]. rewrite Hu, Hactive. cbn [negb orb].
  rewrite bool_decide_eq_true_2 by done. cbn [negb]. unfold maybeRenewSessionCookie. cbn.
  unfold shouldRenewSession. cbn.
  replace (seconds issued + getSessionTtlSeconds env remember - seconds issued)%Z
    with (getSessionTtlSeconds env remember) by lia.
  destruct (Z.leb_spec (getSessionTtlSeconds env remember) 0); [lia|].
  destruct (Z.leb_spec (seconds issued + getSessionTtlSeconds env remember) (seconds now)); [lia|].
  by destruct (_ <? _)%Z.
Qed.

Lemma visit_expired issued now :
  let p := session_payload env issued (u_id u) (u_role u) (u_tokenVersion u) remember in
  (seconds issued + getSessionTtlSeconds env remember <= seconds now)%Z ->
  authMiddleware env now (from_browser (setAuthCookie env (sign p) remember)) db =
  (auth_reject "Invalid or expired token" 401, db).
Proof.
  intros p Ht. unfold authMiddleware. rewrite Hdev, read_jar.
  unfold authenticateSessionToken. rewrite (proj1 (token_shape p)).
  by destruct (token_expired p (seconds issued + getSessionTtlSeconds env remember) (seconds now)) as [e ->].
Qed.

Definition as_user (o : AuthOutcome) : Prop :=
  exists ck, o = auth_next (mkAuthContext (u_id u) (u_role u) by_session (Some remember)) ck /\
    forall k, ck = Some k -> (is_Some (ck_maxAge k) <-> remember = true).

(** C24. A signed-in browser that keeps coming back is never signed out: as long
    as it is never away for half of the session's life, every request is served
    as its user; and the renewals on the way keep what the user chose, so that
    the session of a shared computer stays a cookie that dies with the browser
    and a token of twelve hours.  A browser that stays away for the life of the
    session is signed out, without a new cookie. *)
Theorem sliding_session (login : Z) (times : list Z) :
  active (getSessionTtlSeconds env remember) login times ->
  let '(outcomes, jar) := visits env times (logged_in env login u remember) db in
  Forall as_user outcomes /\
  exists issued, jar = logged_in env issued u remember /\ (issued = login \/ issued ∈ times) /\
    forall later, (seconds issued + getSessionTtlSeconds env remember <= seconds later)%Z ->
      authMiddleware env later (from_browser jar) db = (auth_reject "Invalid or expired token" 401, db).
Proof.
  intros Hact.
  assert (forall issued last, (issued <= last)%Z ->
    (2 * (seconds last - seconds issued) <= getSessionTtlSeconds env remember)%Z ->
    active (getSessionTtlSeconds env remember) last times ->
    let '(outcomes, jar) := visits env times (logged_in env issued u remember) db in
    Forall as_user outcomes /\
    exists issued', jar = logged_in env issued' u remember /\ (issued' = issued \/ issued' ∈ times)) as Hgen.
  { clear Hact login. induction times as [|now ts IH]; intros issued last Hle Hhalf Hact; simpl.
    - split; [constructor|]. exists issued. auto.
    - destruct Hact as (Hnow & Hgap & Hact).
      pose proof (seconds_mono _ _ Hle) as Hs1. pose proof (seconds_mono _ _ Hnow) as Hs2.
      pose proof (visit_valid issued now) as Hv. cbn zeta in Hv.
      change (setAuthCookie env (sign (session_payload env issued (u_id u) (u_role u) (u_tokenVersion u) remember))
        remember) with (logged_in env issued u remember) in Hv. rewrite Hv by lia.
      destruct (Z.ltb_spec (getSessionTtlSeconds env remember) (2 * (seconds now - seconds issued))).
      + specialize (IH now now ltac:(lia) ltac:(lia) Hact).
        destruct (visits env ts (logged_in env now u remember) db) as [os jar].
        destruct IH as (Hos & i & -> & Hi). split.
        * constructor; [|done]. eexists. split; [done|]. intros k [= <-]. unfold logged_in, setAuthCookie. simpl.
          destruct remember; split; (done || by eexists || by intros [? ?]).
        * exists i. split; [done|]. right. destruct Hi as [->|Hi]; [by left|by right].
      + specialize (IH issued now ltac:(lia) ltac:(lia) Hact).
        destruct (visits env ts (logged_in env issued u remember) db) as [os jar].
        destruct IH as (Hos & i & -> & Hi). split.
        * constructor; [|done]. by eexists.
        * exists i. split; [done|]. destruct Hi as [->|Hi]; [by left|right; by right]. }
  assert (0 <= getSessionTtlSeconds env remember)%Z as Hpos.
  { unfold getSessionTtlSeconds, getAuthSessionTtlSeconds, SHORT_SESSION_TTL_SECONDS. destruct remember; lia. }
  specialize (Hgen login login ltac:(lia) ltac:(lia) Hact).
  destruct (visits env times (logged_in env login u remember) db) as [os jar].
  destruct Hgen as (Hos & i & -> & Hi). split; [done|]. exists i. split; [done|]. split; [done|].
  intros later Hl. by apply visit_expired.
Qed.
End Sliding.

(** Whoever is authenticated is an active user with the role of now, whose
    session has not been revoked, or holds a CLI token that is neither revoked
    nor expired. *)
Lemma authenticated_current `{HttpLibrary} now token db au db' :
  authenticateSessionToken now token db = (Some au, db') ->
  exists u, u ∈ users db /\ u_id u = au_id au /\ u_role u = au_role au /\ u_isActive u = true /\
    match au_authMethod au with
    | by_session => exists p, jwtVerify (seconds now) token = Ret p /\ default (-1)%Z (jwt_tv p) = u_tokenVersion u
    | by_cli_token => exists t, t ∈ cliTokens db /\ ct_tokenHash t = hashCliToken token /\
        ct_revokedAt t = None /\ forall e, ct_expiresAt t = Some e -> (now < e)%Z
    end.
Proof.
  unfold authenticateSessionToken. destruct (isCliToken token).
  - unfold authenticateCliToken. destruct (cli_row token db) as [[t u]|] eqn:Hrow; [|done].
    unfold cli_row in Hrow. apply head_Some_elem_of, list_elem_of_omap in Hrow as (t' & Hin & Ht).
    case_decide as Hh; [|done]. apply fmap_Some in Ht as (u' & Hu' & [= <- <-]).
    case_bool_decide as Hrev; [done|]. apply eq_None_not_Some in Hrev.
    destruct (match ct_expiresAt t with Some e => (e <=? now)%Z | None => false end) eqn:Hexp; [done|].
    destruct (u_isActive u) eqn:Ha; [|done]. intros [= <- <-]. exists u.
    unfold find_user in Hu'. apply find_key_Some in Hu' as [Hu' _]. repeat (split; [done|]). exists t.
    repeat (split; [done|]). intros e He. rewrite He in Hexp. by apply Z.leb_gt in Hexp.
  - destruct (jwtVerify (seconds now) token) as [p|] eqn:Hp; [|done].
    destruct (find_user (jwt_sub p) db) as [u|] eqn:Hu; [|done].
    destruct (u_isActive u) eqn:Ha; [|done]. simpl. case_bool_decide as Hv; [|done]. intros [= <- <-].
    exists u. unfold find_user in Hu. apply find_key_Some in Hu as [Hu _]. simpl. eauto 10.
Qed.

(** ** A library that keeps the laws *)

#[export] Instance JwtPayload_eq_dec : EqDecision JwtPayload.
Proof. solve_decision. Defined.
#[export] Instance JwtPayload_countable : Countable JwtPayload :=
  inj_countable' (fun p => (jwt_sub p, (jwt_role p, (jwt_exp p, (jwt_iat p, (jwt_tv p, jwt_rm p))))))
    (fun '(s, (r, (e, (i, (t, m))))) => mkJwt s r t m i e) (fun p => match p with mkJwt _ _ _ _ _ _ => eq_refl end).

Fixpoint bits (p : positive) : string :=
  match p with xI p => String "1" (bits p) | xO p => String "0" (bits p) | xH => "" end.
Fixpoint unbits (s : string) : positive :=
  match s with "" => xH | String c s => if Ascii.eqb c "1" then xI (unbits s) else xO (unbits s) end.

Lemma unbits_bits p : unbits (bits p) = p.
Proof. induction p; simpl; congruence. Qed.

Definition plain_sign (p : JwtPayload) : string := String "e" (String "y" (bits (encode p))).

Definition plain_verify (now : Z) (token : string) : outcome JwtPayload :=
  match token with
  | String _ (String _ b) =>
      match decode (unbits b) with
      | Some p =>
          if match jwt_exp p with Some e => (e <=? now)%Z | None => false end
          then Throw (mkError "JwtTokenExpired" "token expired")
          else Ret p
      | None => Throw (mkError "JwtTokenInvalid" "invalid JWT token")
      end
  | _ => Throw (mkError "JwtTokenInvalid" "invalid JWT token")
  end.

(** The text after "//", up to the next "/" *)
Definition plain_host (s : string) : option string :=
  match split_char "/" s with _ :: "" :: host :: _ => Some host | _ => None end.

Definition plain_cookie (header name : string) : option string :=
  head (omap (fun part => match split_char "=" (trim part) with
                          | n :: v :: _ => if decide (trim n = name) then Some v else None
                          | _ => None
                          end) (split_char ";" header)).

#[local] Instance plain_library : HttpLibrary := {|
  url_host := plain_host; getCookie := plain_cookie; sign := plain_sign; jwtVerify := plain_verify;
  hashCliToken := fun t => t
|}.

Lemma split_bits c b : c <> "0"%char -> c <> "1"%char -> split_char c (bits b) = [bits b].
Proof.
  intros H0 H1. induction b; simpl; [rewrite decide_False, IHb by done; done..|done].
Qed.

Lemma trim_end_bits b : trim_end (bits b) = bits b.
Proof. induction b; simpl; [by rewrite IHb..|done]. Qed.

Lemma all_whitespace_cookie s c t : js_whitespace c = false -> all_whitespace (s +:+ String c t) = false.
Proof. intros Hc. induction s as [|d s IH]; simpl; [by rewrite Hc|]. by rewrite IH, andb_false_r. Qed.

Lemma plain_laws : HttpLaws.
Proof.
  split.
  - intros h n v Ht Hg. simpl in Hg. unfold plain_cookie in Hg.
    apply head_Some_elem_of, list_elem_of_omap in Hg as (part & Hin & Hpart).
    unfold tidy, cookie_names in *.
    rewrite forallb_forall in Ht. destruct (split_char "=" (trim part)) as [|m [|w ws]] eqn:Hs; try done.
    case_decide as Hm; [|done].
    assert (m ∈ (fun part => default "" (head (split_char "=" (trim part)))) <$> split_char ";" h) as Hmem
      by (apply list_elem_of_fmap; exists part; by rewrite Hs).
    pose proof (Ht m) as Htm. rewrite <- list_elem_of_In in Htm. pose proof (Htm Hmem) as Hmm.
    apply bool_decide_eq_true in Hmm. by rewrite <- Hm, Hmm.
  - intros n n' p Hn. simpl. unfold plain_cookie, plain_sign.
    set (b := encode p). clearbody b.
    apply elem_of_cons in Hn as [->|Hn]; [|apply elem_of_cons in Hn as [->|Hn%elem_of_nil]; [|done]];
      cbv [String.append AUTH_COOKIE_NAME LEGACY_AUTH_COOKIE_NAME]; simpl; rewrite (split_bits ";" b) by done;
      simpl; unfold trim; simpl; rewrite trim_end_bits, (split_bits "=" b) by done; simpl;
      by repeat (case_decide; subst; simpl).
  - intros p. split; [reflexivity|]. by intros ?.
  - intros p iat exp t Hi He Ht. simpl. rewrite unbits_bits, decode_encode, He.
    destruct (Z.leb_spec exp t); [lia|done].
  - intros p exp t He Ht. simpl. rewrite unbits_bits, decode_encode, He.
    destruct (Z.leb_spec exp t); [by eexists|lia].
Qed.

(** ** Witnesses *)

Definition sample_settings : Settings :=
  mkSettings "production" false "a-secret-of-more-than-thirty-two-bytes" None 7 "http://localhost:3501"
    "https://a2wave.example.com".

Definition sample_user : User := mkUser "usr_1" "member" 3 true.
Definition sample_db : AuthDb := mkAuthDb [sample_user] [].

(** A form post of the console itself, with the cookie of a login at midnight *)
Definition sample_write : Request :=
  mkRequest "POST" "/api/agents" "http://a2wave.example.com/api/agents" None
    (Some ("theme=dark; __Host-a2wave_session=" +:+ signToken sample_settings 0 "usr_1" "member" 3 true))
    (Some "https://a2wave.example.com") None.


(** The same post from a page of a sibling host is refused. *)
Example sibling_host_refused :
  csrfOriginMiddleware sample_settings
    (mkRequest "POST" "/api/agents" "http://a2wave.example.com/api/agents" None (rq_cookie sample_write)
       (Some "https://intranet.example.com") None) = false.
Proof. vm_compute. reflexivity. Qed.

(** Hourly visits keep a shared computer's session alive past its twelve hours;
    the renewed cookie is still one that dies with the browser. *)
Definition hourly : list Z := (fun h => Z.of_nat h * 3600000)%Z <$> seq 1 14.

Lemma sliding_session_witness :
  let '(outcomes, jar) := visits sample_settings hourly (logged_in sample_settings 0 sample_user false) sample_db in
  length outcomes = 14 /\ ck_maxAge jar = None /\ Forall (as_user sample_user false) outcomes.
Proof.
  pose proof (@sliding_session plain_library plain_laws sample_settings sample_user sample_db false
    eq_refl eq_refl eq_refl ltac:(vm_compute; discriminate) 0 hourly) as H.
  destruct (visits sample_settings hourly (logged_in sample_settings 0 sample_user false) sample_db) as [os jar] eqn:Hv.
  destruct H as (Hos & i & -> & _).
  { vm_compute. repeat split; intros ?; discriminate. }
  split; [|by split]. assert (os = (visits sample_settings hourly (logged_in sample_settings 0 sample_user false) sample_db).1) as -> by by rewrite Hv.
  vm_compute. reflexivity.
Defined.
