(* ===== verification/AgentAccess.v ===== *)
(** * Who may see and change an agent

    lib/agent-access.ts, the membership routes of routes/agent-members.ts and
    the listing of routes/agents.ts.  The permission model is written twice, as
    code over a loaded row and as SQL over the tables; SQL conditions have three
    values here, [None] for NULL, and a query keeps the rows where it is true. *)
From S2P Require Import Prelude Json.

Inductive AgentPermission := perm_owner | perm_editor | perm_viewer.

#[export] Instance AgentPermission_eq_dec : EqDecision AgentPermission.
Proof. solve_decision. Defined.

Inductive MemberRole := member_editor | member_viewer.

#[export] Instance MemberRole_eq_dec : EqDecision MemberRole.
Proof. solve_decision. Defined.

Definition role_permission (r : MemberRole) : AgentPermission :=
  match r with member_editor => perm_editor | member_viewer => perm_viewer end.

(** The owner of each agent ([agents.user_id]), the role in each row of
    [agent_members] by its primary key, and the accounts with [isActive] *)
Record AccessDb := mkAccessDb {
  db_owners : gmap string (option string);
  db_members : gmap (string * string) MemberRole;
  db_accounts : gmap string bool
}.

(** The caller of a request, as the session middleware leaves it *)
Record Caller := mkCaller { caller_role : string; caller_id : string }.

Definition is_admin (c : Caller) : bool := bool_decide (caller_role c = "admin").

(** ** Row by row *)

(** [None] is "needs membership lookup", or no permission. *)
Definition getAgentPermission (c : Caller) (owner : option string) : option AgentPermission :=
  if is_admin c then Some perm_owner
  else
    match owner with
    | None => None
    | Some o => if decide (o = caller_id c) then Some perm_owner else None
    end.

Definition loadAgentWithPerm (db : AccessDb) (c : Caller) (agentId : string)
    : option (option string * AgentPermission) :=
  match db_owners db !! agentId with
  | None => None
  | Some owner =>
      match getAgentPermission c owner with
      | Some p => Some (owner, p)
      | None =>
          match owner with
          | None => None
          | Some _ => (fun r => (owner, role_permission r)) <$> db_members db !! (agentId, caller_id c)
          end
      end
  end.

Inductive AccessError := not_found | forbidden (message : string).

Definition requireAgentRead (db : AccessDb) (c : Caller) (agentId : string)
    : AccessError + (option string * AgentPermission) :=
  match loadAgentWithPerm db c agentId with Some r => inr r | None => inl not_found end.

Definition requireAgentWrite (db : AccessDb) (c : Caller) (agentId : string)
    : AccessError + (option string * AgentPermission) :=
  match loadAgentWithPerm db c agentId with
  | None => inl not_found
  | Some r => if decide (r.2 = perm_viewer) then inl (forbidden "Write access required") else inr r
  end.

Definition requireAgentOwner (db : AccessDb) (c : Caller) (agentId : string)
    : AccessError + (option string * AgentPermission) :=
  match loadAgentWithPerm db c agentId with
  | None => inl not_found
  | Some r => if decide (r.2 <> perm_owner) then inl (forbidden "Owner access required") else inr r
  end.

(** A run or an artifact: who triggered it, and its agent *)
Record ScopedRow := mkScoped { row_userId : option string; row_agentId : option string }.

Inductive Need := need_read | need_write.

#[export] Instance Need_eq_dec : EqDecision Need.
Proof. solve_decision. Defined.

Definition hasAgentScopedAccess (db : AccessDb) (c : Caller) (row : ScopedRow) (need : Need) : bool :=
  if is_admin c then true
  else if match row_userId row with
          | Some u => bool_decide (u <> "") && bool_decide (u = caller_id c)
          | None => false
          end then true
  else
    match row_agentId row with
    | None => false
    | Some agentId =>
        if decide (agentId = "") then false
        else
          match loadAgentWithPerm db c agentId with
          | None => false
          | Some (_, permission) => bool_decide (need = need_read) || bool_decide (permission <> perm_viewer)
          end
    end.

(** ** As SQL *)

Definition sql_eq (a b : option string) : option bool :=
  match a, b with Some x, Some y => Some (bool_decide (x = y)) | _, _ => None end.
Definition sql_or (a b : option bool) : option bool :=
  match a, b with
  | Some true, _ | _, Some true => Some true
  | Some false, Some false => Some false
  | _, _ => None
  end.
Definition sql_and (a b : option bool) : option bool :=
  match a, b with
  | Some false, _ | _, Some false => Some false
  | Some true, Some true => Some true
  | _, _ => None
  end.
Definition sql_not (a : option bool) : option bool := negb <$> a.

(** [x IN (values)], no value of the list being NULL *)
Definition sql_in (x : option string) (values : list string) : option bool :=
  match x, values with
  | _, [] => Some false
  | Some x, _ => Some (bool_decide (x ∈ values))
  | None, _ => None
  end.

(** The rows [WHERE] keeps; no condition keeps all. *)
Definition where_keeps (condition : option (option bool)) : bool :=
  match condition with None => true | Some b => bool_decide (b = Some true) end.

(** The two arms of the subquery: agents of mine, and memberships joined with
    agents that have an owner *)
Definition owned_by_me (db : AccessDb) (me : string) : list string :=
  (map_to_list (filter (fun kv => sql_eq kv.2 (Some me) = Some true) (db_owners db))).*1.
Definition shared_with_me (db : AccessDb) (me : string) : list string :=
  omap (fun '((agentId, userId), _) =>
          match db_owners db !! agentId with
          | Some owner =>
              if decide (sql_and (sql_eq (Some userId) (Some me)) (Some (bool_decide (is_Some owner))) = Some true)
              then Some agentId else None
          | None => None
          end) (map_to_list (db_members db)).

Definition readableAgentSubquery (db : AccessDb) (column : option string) (me : string) : option bool :=
  sql_in column (owned_by_me db me ++ shared_with_me db me).

(** [None] is no filter at all *)
Definition getAgentReadFilter (db : AccessDb) (c : Caller) (agentId : string) : option (option bool) :=
  if is_admin c then None else Some (readableAgentSubquery db (Some agentId) (caller_id c)).

Definition getRunReadFilter (db : AccessDb) (c : Caller) (row : ScopedRow) : option (option bool) :=
  if is_admin c then None
  else Some (sql_or (sql_eq (row_userId row) (Some (caller_id c)))
                    (readableAgentSubquery db (row_agentId row) (caller_id c))).

Definition getArtifactReadFilter (db : AccessDb) (c : Caller) (row : ScopedRow) : option (option bool) :=
  if is_admin c then None
  else Some (sql_or (sql_eq (row_userId row) (Some (caller_id c)))
                    (readableAgentSubquery db (row_agentId row) (caller_id c))).

(** GET /agents: the ids listed, with [canManage] *)
Definition editor_ids (db : AccessDb) (me : string) (data : list (string * option string)) (c : Caller)
    : list string :=
  let needsEditorLookup :=
    filter (fun a => is_Some a.2 /\ getAgentPermission c a.2 = None) data in
  filter (fun id => db_members db !! (id, me) = Some member_editor) needsEditorLookup.*1.

Definition canManage (db : AccessDb) (data : list (string * option string)) (c : Caller)
    (a : string * option string) : bool :=
  bool_decide (getAgentPermission c a.2 = Some perm_owner) ||
  bool_decide (is_Some a.2) && bool_decide (a.1 ∈ editor_ids db (caller_id c) data c).

Definition listAgents (db : AccessDb) (c : Caller) : list (string * bool) :=
  let data := filter (fun a => where_keeps (getAgentReadFilter db c a.1) = true) (map_to_list (db_owners db)) in
  (fun a => (a.1, canManage db data c a)) <$> data.

(** GET /agents/:id/chats, after [requireAgentRead] *)
Definition SESSION_SCOPED_TRIGGER_SOURCES : list string := ["chat_app"; "debug"].

Definition chatHistoryScope (c : Caller) (triggerSource userId : option string) : option bool :=
  sql_or (sql_not (sql_in triggerSource SESSION_SCOPED_TRIGGER_SOURCES)) (sql_eq userId (Some (caller_id c))).

(** ** Membership *)

Inductive MemberReply := member_ok | member_status (status : Z) (error : string) | member_error (e : AccessError).

(** POST /:id/members; the body is valid *)
Definition addMember (c : Caller) (id target : string) (role : MemberRole) (db : AccessDb)
    : MemberReply * AccessDb :=
  match requireAgentOwner db c id with
  | inl e => (member_error e, db)
  | inr (owner, _) =>
      match owner with
      | None => (member_status 400 "Cannot add members to system agent", db)
      | Some o =>
          if decide (target = o) then (member_status 400 "Owner is implicitly a member", db)
          else if decide (target = caller_id c) then (member_status 400 "Cannot add yourself", db)
          else if negb (bool_decide (db_accounts db !! target = Some true)) then
            (member_status 404 "User not found", db)
          else
            match db_members db !! (id, target) with
            | Some _ => (member_status 409 "User is already a member", db)
            | None => (member_ok, mkAccessDb (db_owners db) (<[(id, target) := role]> (db_members db)) (db_accounts db))
            end
      end
  end.

(** PATCH and DELETE /:id/members/:userId *)
Definition with_member (c : Caller) (id target refusal : string) (db : AccessDb)
    (write : gmap (string * string) MemberRole -> gmap (string * string) MemberRole) : MemberReply * AccessDb :=
  match requireAgentOwner db c id with
  | inl e => (member_error e, db)
  | inr (owner, _) =>
      if decide (owner = Some target) then (member_status 400 refusal, db)
      else
        match db_members db !! (id, target) with
        | None => (member_status 404 "Member not found", db)
        | Some _ => (member_ok, mkAccessDb (db_owners db) (write (db_members db)) (db_accounts db))
        end
  end.

Definition updateMember (c : Caller) (id target : string) (role : MemberRole) (db : AccessDb)
    : MemberReply * AccessDb :=
  with_member c id target "Cannot modify owner's role" db (<[(id, target) := role]>).
Definition removeMember (c : Caller) (id target : string) (db : AccessDb) : MemberReply * AccessDb :=
  with_member c id target "Cannot remove the owner" db (delete (id, target)).

(** ** The two renderings agree *)

Definition listed (db : AccessDb) (me id : string) : Prop :=
  exists owner, db_owners db !! id = Some owner /\
    (owner = Some me \/ is_Some owner /\ is_Some (db_members db !! (id, me))).

Lemma sql_eq_true a b : sql_eq a b = Some true <-> exists x, a = Some x /\ b = Some x.
Proof.
  destruct a as [x|], b as [y|]; simpl; split; try (by intros ?); try (by intros (? & ? & ?)).
  - intros [= H%bool_decide_eq_true]. subst. by exists y.
  - intros (z & [= ->] & [= ->]). by rewrite bool_decide_eq_true_2.
Qed.

Lemma sql_or_true a b : sql_or a b = Some true <-> a = Some true \/ b = Some true.
Proof. destruct a as [[]|], b as [[]|]; simpl; naive_solver. Qed.

Lemma sql_in_true x l : sql_in x l = Some true <-> exists v, x = Some v /\ v ∈ l.
Proof.
  destruct x as [v|], l as [|w l]; simpl; split; try (by intros ?).
  - intros (? & ? & H%elem_of_nil). done.
  - intros [= H%bool_decide_eq_true]. by exists v.
  - intros (? & [= <-] & H). by rewrite bool_decide_eq_true_2.
  - by intros (? & ? & ?).
  - by intros (? & ? & ?).
Qed.

Lemma owned_by_me_spec db me id : id ∈ owned_by_me db me <-> db_owners db !! id = Some (Some me).
Proof.
  unfold owned_by_me. rewrite list_elem_of_fmap. setoid_rewrite elem_of_map_to_list'.
  setoid_rewrite map_lookup_filter_Some. split.
  - intros ([k o] & -> & Ho & (x & Hx & [= <-])%sql_eq_true). simpl in *. by subst.
  - intros Ho. exists (id, Some me). split; [done|]. split; [done|]. apply sql_eq_true. by exists me.
Qed.

Lemma shared_with_me_spec db me id :
  id ∈ shared_with_me db me <->
  exists owner, db_owners db !! id = Some (Some owner) /\ is_Some (db_members db !! (id, me)).
Proof.
  unfold shared_with_me. rewrite list_elem_of_omap. split.
  - intros ([[a u] r] & Hin & Hf). apply elem_of_map_to_list in Hin.
    destruct (db_owners db !! a) as [owner|] eqn:Ho; [|done]. case_decide as Hc; [|done].
    injection Hf as <-. simpl in Hc. destruct (bool_decide_reflect (u = me)) as [->|]; [|by destruct owner].
    destruct owner as [o|]; [|done]. exists o. eauto.
  - intros (o & Ho & r & Hr). exists ((id, me), r). rewrite elem_of_map_to_list, Ho. split; [done|].
    rewrite decide_True; [done|]. simpl. rewrite bool_decide_eq_true_2 by done. done.
Qed.

Lemma readable_listed db me id : readableAgentSubquery db (Some id) me = Some true <-> listed db me id.
Proof.
  unfold readableAgentSubquery, listed. rewrite sql_in_true. split.
  - intros (v & [= <-] & [Hin%owned_by_me_spec | Hin%shared_with_me_spec]%elem_of_app).
    + exists (Some me). auto.
    + destruct Hin as (o & Ho & Hm). exists (Some o). eauto.
  - intros (owner & Ho & Hc). exists id. split; [done|]. apply elem_of_app.
    destruct Hc as [-> | [[o ->] Hm]]; [left; by apply owned_by_me_spec|right; apply shared_with_me_spec; eauto].
Qed.

Lemma loaded_listed db c id :
  is_admin c = false -> is_Some (loadAgentWithPerm db c id) <-> listed db (caller_id c) id.
Proof.
  intros Hc. unfold loadAgentWithPerm, getAgentPermission, listed. rewrite Hc.
  destruct (db_owners db !! id) as [[o|]|] eqn:Ho; simpl.
  - case_decide as Hme; simpl.
    + subst. split; [intros _; eauto|by eexists].
    + rewrite fmap_is_Some. split; [eauto 10|]. intros (owner & [= <-] & [[= ?] | [_ ?]]); [done|done].
  - split; [by intros [? ?]|]. intros (owner & [= <-] & [? | [[? ?] _]]); done.
  - split; [by intros [? ?]|by intros (? & ? & _)].
Qed.

Lemma scoped_agree db c row :
  caller_id c <> "" -> db_owners db !! "" = None -> is_admin c = false ->
  bool_decide (sql_or (sql_eq (row_userId row) (Some (caller_id c)))
                 (readableAgentSubquery db (row_agentId row) (caller_id c)) = Some true) =
  hasAgentScopedAccess db c row need_read.
Proof.
  intros Hme Hid Hc. unfold hasAgentScopedAccess. rewrite Hc. apply eq_true_iff_eq.
  rewrite bool_decide_eq_true, sql_or_true, sql_eq_true.
  assert (readableAgentSubquery db (row_agentId row) (caller_id c) = Some true <->
          exists a, row_agentId row = Some a /\ is_Some (loadAgentWithPerm db c a)) as ->.
  { destruct (row_agentId row) as [a|].
    - rewrite readable_listed, <- loaded_listed by done. naive_solver.
    - unfold readableAgentSubquery. rewrite sql_in_true. naive_solver. }
  assert (loadAgentWithPerm db c "" = None) as Hempty by (unfold loadAgentWithPerm; by rewrite Hid).
  assert (match row_agentId row with
          | None => false
          | Some a =>
              if decide (a = "") then false
              else match loadAgentWithPerm db c a with
                   | None => false
                   | Some (_, p) => bool_decide (need_read = need_read) || bool_decide (p <> perm_viewer)
                   end
          end = true <-> exists a, row_agentId row = Some a /\ is_Some (loadAgentWithPerm db c a)) as Hagent.
  { destruct (row_agentId row) as [a|]; [|naive_solver]. case_decide as Ha.
    - subst a. split; [done|]. intros (a & [= <-] & Hs). rewrite Hempty in Hs. by destruct Hs.
    - rewrite (bool_decide_eq_true_2 (need_read = need_read)) by done.
      destruct (loadAgentWithPerm db c a) as [[o p]|] eqn:Hl; split.
      + intros _. exists a. rewrite Hl. by split; [|eexists].
      + done.
      + done.
      + intros (a' & [= <-] & Hs). rewrite Hl in Hs. by destruct Hs. }
  destruct (row_userId row) as [u|]; cbv iota.
  - destruct (bool_decide_reflect (u = caller_id c)) as [->|Hu].
    + rewrite bool_decide_eq_true_2 by done. split; [done|]. intros _. left. eauto.
    + rewrite andb_false_r, Hagent. naive_solver.
  - rewrite Hagent. naive_solver.
Qed.

(** C14. The permission model means the same in SQL and row by row: an agent is
    listed to exactly the callers who may open it, and marked manageable to
    exactly those a write would admit; a run or an artifact is listed to exactly
    those who may read it by its id; and whoever may change one may read it. *)
Theorem access_filters_agree (db : AccessDb) (c : Caller) :
  caller_id c <> "" -> db_owners db !! "" = None ->
  (forall id, is_Some (db_owners db !! id) ->
     where_keeps (getAgentReadFilter db c id) = true <-> is_Some (loadAgentWithPerm db c id)) /\
  (forall id manageable, (id, manageable) ∈ listAgents db c ->
     manageable = true <-> exists r, requireAgentWrite db c id = inr r) /\
  (forall row, where_keeps (getRunReadFilter db c row) = hasAgentScopedAccess db c row need_read /\
               where_keeps (getArtifactReadFilter db c row) = hasAgentScopedAccess db c row need_read) /\
  (forall row, hasAgentScopedAccess db c row need_write = true -> hasAgentScopedAccess db c row need_read = true).
Proof.
  intros Hme Hid. split_and!.
  - intros id [owner Ho]. unfold getAgentReadFilter, where_keeps. destruct (is_admin c) eqn:Hc.
    + split; [intros _|done]. unfold loadAgentWithPerm, getAgentPermission. rewrite Ho, Hc. by eexists.
    + rewrite bool_decide_eq_true, readable_listed. symmetry. by apply loaded_listed.
  - intros id b Hin. unfold listAgents in Hin. apply list_elem_of_fmap in Hin as ([id' owner] & [= <- ->] & Hin).
    pose proof Hin as Hin0. apply list_elem_of_filter in Hin as [_ Hin%elem_of_map_to_list].
    unfold canManage, editor_ids, requireAgentWrite, loadAgentWithPerm. rewrite Hin. cbn [fst snd].
    destruct (getAgentPermission c owner) as [p|] eqn:Hp.
    + assert (p = perm_owner) as ->.
      { unfold getAgentPermission in Hp. destruct (is_admin c); [congruence|]. destruct owner; [|done].
        case_decide; congruence. }
      rewrite bool_decide_eq_true_2 by done. simpl. split; [intros _; by eexists|done].
    + rewrite bool_decide_eq_false_2 by done. destruct owner as [o|]; simpl.
      2:{ split; [done|by intros [? ?]]. }
      rewrite bool_decide_eq_true, list_elem_of_filter. split.
      * intros [Hm _]. rewrite Hm. by eexists.
      * intros [r Hr]. destruct (db_members db !! (id, caller_id c)) as [[]|] eqn:Hm; simpl in Hr; try done.
        split; [done|]. apply list_elem_of_fmap. exists (id, Some o). split; [done|].
        apply list_elem_of_filter. split; [split; [by eexists|done]|done].
  - intros row. unfold getRunReadFilter, getArtifactReadFilter, where_keeps.
    destruct (is_admin c) eqn:Hc; [by unfold hasAgentScopedAccess; rewrite Hc|].
    by rewrite scoped_agree.
  - intros row. unfold hasAgentScopedAccess. destruct (is_admin c); [done|].
    destruct (if row_userId row is Some u then _ else _); [done|].
    destruct (row_agentId row) as [a|]; [|done]. case_decide; [done|]. by destruct (loadAgentWithPerm db c a) as [[? ?]|].
Qed.

(** ** Membership changes *)

Inductive MemberOp := op_add (role : MemberRole) | op_update (role : MemberRole) | op_remove.

Definition run_member (c : Caller) (id target : string) (op : MemberOp) (db : AccessDb) : MemberReply * AccessDb :=
  match op with
  | op_add role => addMember c id target role db
  | op_update role => updateMember c id target role db
  | op_remove => removeMember c id target db
  end.

(** No agent without an owner has members, and no owner is a member. *)
Definition members_ok (db : AccessDb) : Prop :=
  forall id u, is_Some (db_members db !! (id, u)) -> exists o, db_owners db !! id = Some (Some o) /\ o <> u.

Lemma owner_required db c id r :
  requireAgentOwner db c id = inr r -> db_owners db !! id = Some r.1.
Proof.
  unfold requireAgentOwner, loadAgentWithPerm, getAgentPermission.
  destruct (db_owners db !! id) as [owner|]; [|done].
  destruct (is_admin c); simpl; [intros H; repeat case_decide; by injection H as <-|].
  destruct owner as [o|]; simpl; [|done]. case_decide; simpl; [intros H'; repeat case_decide; by injection H' as <-|].
  destruct (db_members db !! (id, caller_id c)) as [[]|]; simpl; done.
Qed.

Lemma run_member_cases c id target op db :
  let '(reply, db') := run_member c id target op db in
  db' = db /\ (forall e, requireAgentOwner db c id = inl e -> reply = member_error e) \/
  exists owner p o (change : option MemberRole),
    reply = member_ok /\ requireAgentOwner db c id = inr (owner, p) /\
    (owner = Some o /\ o <> target \/ is_Some (db_members db !! (id, target)) /\ owner <> Some target) /\
    db' = mkAccessDb (db_owners db) (partial_alter (fun _ => change) (id, target) (db_members db)) (db_accounts db).
Proof.
  assert (forall refusal (change : option MemberRole) write,
    (forall m : gmap (string * string) MemberRole, write m = partial_alter (fun _ => change) (id, target) m) ->
    let '(reply, db') := with_member c id target refusal db write in
    db' = db /\ (forall e, requireAgentOwner db c id = inl e -> reply = member_error e) \/
    exists owner p o (change : option MemberRole),
      reply = member_ok /\ requireAgentOwner db c id = inr (owner, p) /\
      (owner = Some o /\ o <> target \/ is_Some (db_members db !! (id, target)) /\ owner <> Some target) /\
      db' = mkAccessDb (db_owners db) (partial_alter (fun _ => change) (id, target) (db_members db)) (db_accounts db))
    as Hwith.
  { intros refusal change write Hw. unfold with_member.
    destruct (requireAgentOwner db c id) as [e|[owner p]]; [left; split; [done|]; by intros ? [= ->]|].
    case_decide as Ho; [by left|]. destruct (db_members db !! (id, target)) as [r|] eqn:Hm; [|by left].
    right. exists owner, p, "", change. split; [done|]. split; [done|]. split; [right; by split; [eexists|]|].
    by rewrite Hw. }
  destruct op as [role|role|]; simpl; [|by apply (Hwith _ (Some role))|by apply (Hwith _ None)].
  unfold addMember. destruct (requireAgentOwner db c id) as [e|[owner p]]; [left; split; [done|]; by intros ? [= ->]|].
  destruct owner as [o|]; [|by left]. case_decide as Ho; [by left|]. case_decide; [by left|].
  destruct (negb _); [by left|]. destruct (db_members db !! (id, target)); [by left|].
  right. exists (Some o), p, o, (Some role). split; [done|]. split; [done|]. split; [left; by split; [|congruence]|done].
Qed.

(** C16. Membership changes nothing but what an owner decides: of every request,
    whoever sends it, only one the agent's owner or an administrator sends
    changes anybody's permission, and then that of the named user on the named
    agent alone; an agent the caller cannot see answers like one that does not
    exist; and no agent without an owner ever has members, nor an owner a
    membership of its own. *)
Theorem membership_guarded (c : Caller) (id target : string) (op : MemberOp) (db : AccessDb) :
  let '(reply, db') := run_member c id target op db in
  (forall c' id', loadAgentWithPerm db' c' id' = loadAgentWithPerm db c' id' \/
     id' = id /\ caller_id c' = target /\
     (is_admin c = true \/ db_owners db !! id = Some (Some (caller_id c)))) /\
  (loadAgentWithPerm db c id = None -> reply = member_error not_found /\ db' = db) /\
  (members_ok db -> members_ok db').
Proof.
  pose proof (run_member_cases c id target op db) as Hcases.
  destruct (run_member c id target op db) as [reply db'].
  destruct Hcases as [[-> Herr] | (owner & p & o & change & -> & Hreq & Hguard & ->)].
  - split; [by left|]. split; [|done]. intros Hnone. split; [|done]. apply Herr. unfold requireAgentOwner. by rewrite Hnone.
  - pose proof (owner_required _ _ _ _ Hreq) as Howner. simpl in Howner. split_and!.
    + intros c' id'. destruct (decide ((id, target) = (id', caller_id c'))) as [[= <- Ht]|Hne].
      * right. split; [done|]. split; [done|]. unfold requireAgentOwner, loadAgentWithPerm, getAgentPermission in Hreq.
        rewrite Howner in *. destruct (is_admin c); [by left|right]. destruct owner as [o'|]; [|done].
        case_decide as Hme; simpl in Hreq; [by rewrite Hme|].
        destruct (db_members db !! (id, caller_id c)) as [[]|]; done.
      * left. unfold loadAgentWithPerm. simpl. destruct (db_owners db !! id') as [ow|]; [|done].
        by rewrite lookup_partial_alter_ne.
    + intros Hnone. unfold requireAgentOwner in Hreq. by rewrite Hnone in Hreq.
    + intros Hok id' u. simpl. destruct (decide ((id, target) = (id', u))) as [[= <- <-]|Hne].
      * intros _. destruct Hguard as [[-> Ho] | [Hm Hne]]; [by exists o|]. by apply Hok.
      * rewrite lookup_partial_alter_ne by done. by apply Hok.
Qed.

(** ** Witnesses *)

Definition sample_access : AccessDb :=
  mkAccessDb (<["agt_1" := Some "usr_o"]> (<["agt_2" := Some "usr_x"]> {["agt_sys" := None]}))
    (<[("agt_1", "usr_v") := member_viewer]> {[("agt_1", "usr_e") := member_editor]})
    (<["usr_n" := true]> {["usr_off" := false]}).
Definition editor : Caller := mkCaller "user" "usr_e".

Lemma access_filters_agree_witness :
  listAgents sample_access editor = [("agt_1", true)] /\
  where_keeps (getRunReadFilter sample_access editor (mkScoped None (Some "agt_1"))) =
  hasAgentScopedAccess sample_access editor (mkScoped None (Some "agt_1")) need_read.
Proof.
  split; [vm_compute; reflexivity|].
  exact (proj1 (proj1 (proj2 (proj2 (access_filters_agree sample_access editor ltac:(discriminate) eq_refl)))
    (mkScoped None (Some "agt_1")))).
Defined.

(** A viewer reads, and changes only what it triggered itself. *)
Example viewer_reads_only :
  let viewer := mkCaller "user" "usr_v" in
  hasAgentScopedAccess sample_access viewer (mkScoped None (Some "agt_1")) need_read = true /\
  hasAgentScopedAccess sample_access viewer (mkScoped None (Some "agt_1")) need_write = false /\
  hasAgentScopedAccess sample_access viewer (mkScoped (Some "usr_v") (Some "agt_1")) need_write = true.
Proof. vm_compute. auto. Qed.

(** A run without a trigger source is in nobody's chat history but its
    creator's: [NOT IN] is NULL on it. *)
Lemma sourceless_run_hidden c userId :
  where_keeps (Some (chatHistoryScope c None userId)) = bool_decide (userId = Some (caller_id c)).
Proof.
  unfold where_keeps, chatHistoryScope. cbn [sql_in sql_not fmap option_fmap option_map].
  apply eq_true_iff_eq. rewrite !bool_decide_eq_true, sql_or_true, sql_eq_true. naive_solver.
Qed.
