(* ===== verification/UserAdmin.v ===== *)
(** * The accounts and the last administrator

    routes/users.ts: changing a role, enabling and disabling, deleting, and the
    reset of a password, with the creation of accounts by invitations and single
    sign-on as another step.  A request reads its target, decides whether the
    write needs the last-administrator guard, and writes later, in a transaction
    of its own: [begin_change] and [commit_change] are the two halves, and other
    requests run between them.  The transaction locks the rows the guard counts,
    so the second half is one step. *)
From S2P Require Import Prelude.
From stdpp Require Import relations.

Inductive UserRole := role_admin | role_user.

#[export] Instance UserRole_eq_dec : EqDecision UserRole.
Proof. solve_decision. Defined.

(** [ac_owned]: some table of [ownedResourceTables] has a row of this account *)
Record Account := mkAccount {
  ac_role : UserRole;
  ac_active : bool;
  ac_tokenVersion : Z;
  ac_owned : bool
}.

Definition usable_admin (a : Account) : Prop := ac_role a = role_admin /\ ac_active a = true.

#[export] Instance usable_admin_dec a : Decision (usable_admin a).
Proof. unfold usable_admin. apply _. Defined.

Abbreviation Accounts := (gmap string Account).

(** The rows with role 'admin' that are active *)
Definition active_admins (us : Accounts) : nat := size (filter (fun kv => usable_admin kv.2) us).

Definition anotherActiveAdminRemains (us : Accounts) : bool := bool_decide (1 < active_admins us).

Inductive Change := change_role (newRole : UserRole) | change_status (isActive : bool) | delete_user.

#[export] Instance Change_eq_dec : EqDecision Change.
Proof. solve_decision. Defined.

Inductive UserReply :=
| user_ok
| user_refused (code : string) (status : Z).

#[export] Instance UserReply_eq_dec : EqDecision UserReply.
Proof. solve_decision. Defined.

(** A write that has been decided and not yet made; [pd_guarded] is
    [isLastAdminDemotion], [isLastAdminDisable] or [isLastAdminDeletion]. *)
Record Pending := mkPending { pd_id : string; pd_change : Change; pd_guarded : bool }.

Section Requests.
Context (currentUserId id : string).

(** PATCH /users/:id/role, up to the write *)
Definition begin_role (newRole : UserRole) (us : Accounts) : UserReply + Pending :=
  if decide (id = currentUserId) then inl (user_refused "CANNOT_CHANGE_OWN_ROLE" 400)
  else
    match us !! id with
    | None => inl (user_refused "USER_NOT_FOUND" 404)
    | Some user =>
        if decide (ac_role user = newRole) then inl user_ok
        else
          let isLastAdminDemotion :=
            bool_decide (ac_role user = role_admin) && bool_decide (newRole = role_user) && ac_active user in
          inr (mkPending id (change_role newRole) isLastAdminDemotion)
    end.

(** PATCH /users/:id/status, up to the write *)
Definition begin_status (isActive : bool) (us : Accounts) : UserReply + Pending :=
  if decide (id = currentUserId) then inl (user_refused "CANNOT_DISABLE_SELF" 400)
  else
    match us !! id with
    | None => inl (user_refused "USER_NOT_FOUND" 404)
    | Some user =>
        if decide (ac_active user = isActive) then inl user_ok
        else
          let isLastAdminDisable :=
            negb isActive && bool_decide (ac_role user = role_admin) && ac_active user in
          inr (mkPending id (change_status isActive) isLastAdminDisable)
    end.

(** DELETE /users/:id, up to the write *)
Definition begin_delete (us : Accounts) : UserReply + Pending :=
  if decide (id = currentUserId) then inl (user_refused "CANNOT_DELETE_SELF" 400)
  else
    match us !! id with
    | None => inl (user_refused "USER_NOT_FOUND" 404)
    | Some user =>
        let isLastAdminDeletion := bool_decide (ac_role user = role_admin) && ac_active user in
        inr (mkPending id delete_user isLastAdminDeletion)
    end.

Definition begin_change (ch : Change) (us : Accounts) : UserReply + Pending :=
  match ch with
  | change_role newRole => begin_role newRole us
  | change_status isActive => begin_status isActive us
  | delete_user => begin_delete us
  end.
End Requests.

Definition changed (ch : Change) (a : Account) : option Account :=
  match ch with
  | change_role newRole => Some (mkAccount newRole (ac_active a) (ac_tokenVersion a + 1) (ac_owned a))
  | change_status isActive =>
      Some (mkAccount (ac_role a) isActive
        (if isActive then ac_tokenVersion a else ac_tokenVersion a + 1) (ac_owned a))
  | delete_user => None
  end.

(** The guard in the WHERE clause of the write *)
Definition guard_holds (p : Pending) (us : Accounts) : bool :=
  negb (pd_guarded p) || anotherActiveAdminRemains us.

(** The row of the target when the write matches it *)
Definition matched (p : Pending) (us : Accounts) : option Account :=
  if guard_holds p us then us !! pd_id p else None.

(** The transactions of the two PATCH routes: no row means the guard refused. *)
Definition commit_update (code : string) (p : Pending) (us : Accounts) : UserReply * Accounts :=
  match matched p us with
  | None => (user_refused code 400, us)
  | Some a => (user_ok, partial_alter (fun _ => changed (pd_change p) a) (pd_id p) us)
  end.

(** The transaction of DELETE *)
Definition commit_delete (p : Pending) (us : Accounts) : UserReply * Accounts :=
  if match us !! pd_id p with Some a => ac_owned a | None => false end then
    (user_refused "USER_HAS_OWNED_RESOURCES" 409, us)
  else
    match matched p us with
    | None => (user_refused "LAST_ADMIN_CANNOT_DELETE" 400, us)
    | Some a => (user_ok, delete (pd_id p) us)
    end.

Definition commit_change (p : Pending) (us : Accounts) : UserReply * Accounts :=
  match pd_change p with
  | change_role _ => commit_update "LAST_ADMIN_CANNOT_DEMOTE" p us
  | change_status _ => commit_update "LAST_ADMIN_CANNOT_DISABLE" p us
  | delete_user => commit_delete p us
  end.

(** A request nothing interrupts *)
Definition request (currentUserId id : string) (ch : Change) (us : Accounts) : UserReply * Accounts :=
  match begin_change currentUserId id ch us with
  | inl r => (r, us)
  | inr p => commit_change p us
  end.

(** POST /users/:id/reset-password, with a valid password *)
Definition resetPassword (id : string) (us : Accounts) : UserReply * Accounts :=
  match us !! id with
  | None => (user_refused "USER_NOT_FOUND" 404, us)
  | Some a => (user_ok, <[id := mkAccount (ac_role a) (ac_active a) (ac_tokenVersion a + 1) (ac_owned a)]> us)
  end.

(** ** Interleavings *)

Record UserWorld := mkUsers { uw_accounts : Accounts; uw_pending : list Pending }.

(** The change may make an administrator usable again. *)
Definition raises (ch : Change) : bool :=
  match ch with change_role role_admin | change_status true => true | _ => false end.

(** An unguarded write that takes an administrator's rights is under way on
    this account. *)
Definition races (id : string) (ps : list Pending) : Prop :=
  Exists (fun q => pd_id q = id /\ pd_guarded q = false /\ raises (pd_change q) = false) ps.

#[export] Instance races_dec id ps : Decision (races id ps).
Proof. unfold races. apply _. Defined.

(** A step, and whether it raises an account under such a write *)
Inductive user_step : bool -> UserWorld -> UserWorld -> Prop :=
| step_begin currentUserId caller id ch us ps p :
    us !! currentUserId = Some caller -> usable_admin caller ->
    begin_change currentUserId id ch us = inr p ->
    user_step false (mkUsers us ps) (mkUsers us (p :: ps))
| step_commit us before p after :
    user_step (raises (pd_change p) && bool_decide (races (pd_id p) (before ++ after)))
      (mkUsers us (before ++ p :: after)) (mkUsers (commit_change p us).2 (before ++ after))
| step_create id a us ps :
    us !! id = None -> id ∉ pd_id <$> ps ->
    user_step false (mkUsers us ps) (mkUsers (<[id := a]> us) ps)
| step_reset id us ps :
    user_step false (mkUsers us ps) (mkUsers (resetPassword id us).2 ps)
| step_owns id a owned us ps :
    us !! id = Some a ->
    user_step false (mkUsers us ps)
      (mkUsers (<[id := mkAccount (ac_role a) (ac_active a) (ac_tokenVersion a) owned]> us) ps).

(** ** An administrator remains *)

(** No unguarded write under way would take the rights of a usable
    administrator. *)
Definition guarded_ok (w : UserWorld) : Prop :=
  0 < active_admins (uw_accounts w) /\
  forall p a, p ∈ uw_pending w -> pd_guarded p = false -> raises (pd_change p) = false ->
    uw_accounts w !! pd_id p = Some a -> ~ usable_admin a.

Lemma active_admins_keep us id a a' :
  us !! id = Some a -> (usable_admin a -> usable_admin a') -> active_admins us <= active_admins (<[id := a']> us).
Proof.
  intros Ha Himp. unfold active_admins.
  pose proof (size_filter_insert_same (fun kv => usable_admin kv.2) (<[id := a']> us) id a a') as Hle.
  rewrite lookup_insert_eq, insert_insert_eq in Hle. rewrite (insert_id us id a) in Hle by done. auto.
Qed.

Lemma active_admins_create us id a : us !! id = None -> active_admins us <= active_admins (<[id := a]> us).
Proof. intros Hn. unfold active_admins. apply map_subseteq_size, map_filter_subseteq_mono, insert_subseteq; done. Qed.

Lemma active_admins_alter us id a : 
  active_admins us <= S (active_admins (partial_alter (fun _ => a) id us)).
Proof.
  unfold active_admins. destruct (us !! id) as [b|] eqn:Hb.
  - rewrite <- (insert_id us id b Hb) at 1. 
    replace (<[id := b]> us) with (<[id := b]> (partial_alter (fun _ => a) id us)).
    + apply (size_filter_insert_le (fun kv => usable_admin kv.2)).
    + apply map_eq. intros i. destruct (decide (i = id)) as [->|Hi]; [by rewrite !lookup_insert_eq|].
      by rewrite !lookup_insert_ne, lookup_partial_alter_ne by done.
  - destruct a as [a|].
    + change (partial_alter _ id us) with (<[id := a]> us). pose proof (active_admins_create us id a Hb). unfold active_admins in *. lia.
    + change (partial_alter _ id us) with (delete id us). rewrite delete_id by done. lia.
Qed.

Lemma active_admins_other us id a b :
  us !! id = Some a -> ~ usable_admin a -> active_admins us <= active_admins (partial_alter (fun _ => b) id us).
Proof.
  intros Ha Hn. destruct b as [b|].
  - change (partial_alter _ id us) with (<[id := b]> us). by apply (active_admins_keep us id a b Ha).
  - change (partial_alter _ id us) with (delete id us). unfold active_admins.
    rewrite map_filter_delete, delete_id; [done|]. apply map_lookup_filter_None. right. intros a' Ha'. simpl. congruence.
Qed.

(** A commit changes nothing, or the matched row. *)
Lemma committed_cases p us :
  (commit_change p us).2 = us \/
  exists a, us !! pd_id p = Some a /\ guard_holds p us = true /\
    (commit_change p us).2 = partial_alter (fun _ => changed (pd_change p) a) (pd_id p) us.
Proof.
  unfold commit_change, commit_update, commit_delete, matched.
  destruct (pd_change p) as [r|b|] eqn:Hch, (us !! pd_id p) as [a|] eqn:Ha, (guard_holds p us) eqn:Hg; simpl;
    try (by left); try (right; exists a; rewrite ?Hch; by repeat split).
  - destruct (ac_owned a); [by left|]. right. exists a. by repeat split.
  - destruct (ac_owned a); by left.
Qed.

Lemma committed_remains p us :
  0 < active_admins us ->
  (forall a, pd_guarded p = false -> raises (pd_change p) = false -> us !! pd_id p = Some a -> ~ usable_admin a) ->
  0 < active_admins (commit_change p us).2.
Proof.
  intros Hpos Hp. destruct (committed_cases p us) as [-> | (a & Ha & Hg & ->)]; [done|].
  unfold guard_holds, anotherActiveAdminRemains in Hg. destruct (pd_guarded p) eqn:Hpg; simpl in Hg.
  - apply bool_decide_eq_true in Hg. pose proof (active_admins_alter us (pd_id p) (changed (pd_change p) a)). lia.
  - destruct (raises (pd_change p)) eqn:Hr.
    + assert (exists a', changed (pd_change p) a = Some a' /\ (usable_admin a -> usable_admin a')) as (a' & -> & Hkeep).
      { destruct (pd_change p) as [[]|[]|]; try done; eexists; (split; [done|]); intros [? ?]; by split. }
      change (partial_alter _ _ us) with (<[pd_id p := a']> us). pose proof (active_admins_keep us _ a a' Ha Hkeep). lia.
    + pose proof (active_admins_other us _ a (changed (pd_change p) a) Ha (Hp a eq_refl eq_refl Ha)). lia.
Qed.

(** What a committed change leaves of a row *)
Lemma committed_row p us id b :
  (commit_change p us).2 !! id = Some b ->
  us !! id = Some b \/ id = pd_id p /\ exists a, us !! id = Some a /\ changed (pd_change p) a = Some b.
Proof.
  destruct (committed_cases p us) as [-> | (a & Ha & _ & ->)]; [by left|].
  destruct (decide (id = pd_id p)) as [->|Hne]; [|rewrite lookup_partial_alter_ne by done; by left].
  rewrite lookup_partial_alter_eq. intros Hb. right. eauto.
Qed.

Lemma lowered_unusable ch a b : raises ch = false -> changed ch a = Some b -> ~ usable_admin b.
Proof. destruct ch as [[]|[]|]; try done; intros _ [= <-] [? ?]; done. Qed.

Lemma begun_unguarded currentUserId id ch us p a :
  begin_change currentUserId id ch us = inr p -> pd_guarded p = false -> raises (pd_change p) = false ->
  us !! pd_id p = Some a -> ~ usable_admin a.
Proof.
  unfold begin_change, begin_role, begin_status, begin_delete. destruct (us !! id) as [u|] eqn:Hu;
    [|destruct ch; by case_decide].
  destruct ch as [r|b|]; (case_decide; [done|]); [case_decide; [done|] ..|]; intros [= <-]; simpl; intros Hg Hr Ha [Hrole Hact];
    rewrite Hu in Ha; injection Ha as ->; rewrite Hrole, Hact in Hg; try done.
  - by destruct r.
  - by destruct b.
Qed.

Lemma user_step_ok flag w w' : user_step flag w w' -> flag = false -> guarded_ok w -> guarded_ok w'.
Proof.
  intros Hstep Hflag [Hpos Hps]. destruct Hstep as
    [currentUserId caller id ch us ps p Hc Hadm Hb | us before p after | id a us ps Hn Hfresh | id us ps | id a owned us ps Ha];
    simpl in *.
  - split; [done|]. intros q a Hq. apply elem_of_cons in Hq as [-> | Hq]; [by eapply begun_unguarded|by apply Hps].
  - split; simpl.
    + apply committed_remains; [done|]. intros a. apply Hps. set_solver.
    + intros q b Hq Hg Hr Hb. apply committed_row in Hb as [Hb | (Hid & a & Ha & Hch)]; [apply (Hps q); [set_solver|done..]|].
      destruct (raises (pd_change p)) eqn:Hrp; [|exact (lowered_unusable _ _ _ Hrp Hch)].
      simpl in Hflag. apply bool_decide_eq_false in Hflag. exfalso. apply Hflag, Exists_exists. by exists q.
  - split; simpl.
    + pose proof (active_admins_create us id a Hn). lia.
    + intros q b Hq Hg Hr Hb. rewrite lookup_insert_ne in Hb; [by apply (Hps q)|].
      intros ->. apply Hfresh, list_elem_of_fmap. by exists q.
  - unfold resetPassword. destruct (us !! id) as [a|] eqn:Ha; simpl; [|done]. split; simpl.
    + pose proof (active_admins_keep us id a (mkAccount (ac_role a) (ac_active a) (ac_tokenVersion a + 1) (ac_owned a)) Ha
        (fun H => H)). lia.
    + intros q b Hq Hg Hr Hb. apply lookup_insert_Some in Hb as [[Hid <-] | [Hid Hb]]; [|by apply (Hps q)].
      apply (Hps q a); [done..|]. by rewrite <- Hid.
  - split; simpl.
    + pose proof (active_admins_keep us id a (mkAccount (ac_role a) (ac_active a) (ac_tokenVersion a) owned) Ha
        (fun H => H)). lia.
    + intros q b Hq Hg Hr Hb. apply lookup_insert_Some in Hb as [[Hid <-] | [Hid Hb]]; [|by apply (Hps q)].
      apply (Hps q a); [done..|]. by rewrite <- Hid.
Qed.

(** C15. Administrators demote, disable and delete each other in whatever
    interleaving of their requests, accounts come and go, and an administrator
    who can sign in always remains, provided no account is promoted or enabled
    between the read and the write of a request that takes it away (which the
    code does not prevent, [last_admin_race]). *)
Theorem last_admin_survives (w : UserWorld) (us : Accounts) :
  0 < active_admins us -> rtc (user_step false) (mkUsers us []) w -> 0 < active_admins (uw_accounts w).
Proof.
  intros Hpos Hsteps. cut (guarded_ok w); [by intros [? _]|].
  apply (rtc_invariant (user_step false) guarded_ok _ _ (fun x y Hxy => user_step_ok _ x y Hxy eq_refl) Hsteps).
  split; [done|]. intros p a Hp. by apply elem_of_nil in Hp.
Qed.

(** ** Witnesses *)

Definition admin_row : Account := mkAccount role_admin true 0 false.
Definition user_row : Account := mkAccount role_user true 0 false.

(** Two administrators demote each other: the second write is refused. *)
Definition two_admins : Accounts := <["usr_a" := admin_row]> {["usr_b" := admin_row]}.

Definition demote (id : string) : Pending := mkPending id (change_role role_user) true.

Lemma last_admin_survives_witness :
  exists w, rtc (user_step false) (mkUsers two_admins []) w /\ uw_pending w = [] /\
    (commit_change (demote "usr_b") (commit_change (demote "usr_a") two_admins).2).1 =
      user_refused "LAST_ADMIN_CANNOT_DEMOTE" 400 /\
    0 < active_admins (uw_accounts w).
Proof.
  exists (mkUsers (commit_change (demote "usr_b") (commit_change (demote "usr_a") two_admins).2).2 []).
  assert (rtc (user_step false) (mkUsers two_admins [])
    (mkUsers (commit_change (demote "usr_b") (commit_change (demote "usr_a") two_admins).2).2 [])) as Hsteps.
  { eapply rtc_l; [apply (step_begin "usr_b" admin_row "usr_a" (change_role role_user) two_admins [] (demote "usr_a"));
      [reflexivity|by split|reflexivity]|].
    eapply rtc_l; [apply (step_begin "usr_a" admin_row "usr_b" (change_role role_user) two_admins [demote "usr_a"]
      (demote "usr_b")); [reflexivity|by split|reflexivity]|].
    eapply rtc_l; [exact (step_commit two_admins [demote "usr_b"] (demote "usr_a") [])|].
    eapply rtc_l; [exact (step_commit _ [] (demote "usr_b") [])|]. apply rtc_refl. }
  split; [exact Hsteps|]. split; [reflexivity|]. split; [vm_compute; reflexivity|].
  apply (last_admin_survives _ two_admins); [vm_compute; lia|exact Hsteps].
Defined.

(** A request that disables an ordinary account reads it and is held up.
    Meanwhile the account is promoted, and the two administrators there were are
    demoted, each of them with another one left; then the write is made, which
    nothing guards: nobody can sign in as an administrator any more. *)
Lemma last_admin_race :
  exists w us, 0 < active_admins us /\
    rtc (fun x y => exists flag, user_step flag x y) (mkUsers us []) w /\ active_admins (uw_accounts w) = 0.
Proof.
  set (us := <["usr_c" := user_row]> two_admins).
  set (disable := mkPending "usr_c" (change_status false) false).
  set (promote := mkPending "usr_c" (change_role role_admin) false).
  set (us1 := (commit_change promote us).2).
  set (us2 := (commit_change (demote "usr_a") us1).2).
  set (us3 := (commit_change (demote "usr_b") us2).2).
  exists (mkUsers (commit_change disable us3).2 []), us. split; [vm_compute; lia|]. split; [|vm_compute; reflexivity].
  eapply rtc_l; [exists false; apply (step_begin "usr_a" admin_row "usr_c" (change_status false) us [] disable);
    [reflexivity|by split|reflexivity]|].
  eapply rtc_l; [exists false; apply (step_begin "usr_b" admin_row "usr_c" (change_role role_admin) us [disable] promote);
    [reflexivity|by split|reflexivity]|].
  eapply rtc_l; [eexists; exact (step_commit us [] promote [disable])|].
  eapply rtc_l; [exists false; apply (step_begin "usr_b" admin_row "usr_a" (change_role role_user) us1 [disable]
    (demote "usr_a")); [vm_compute; reflexivity|by split|vm_compute; reflexivity]|].
  eapply rtc_l; [eexists; exact (step_commit us1 [] (demote "usr_a") [disable])|].
  eapply rtc_l; [exists false; apply (step_begin "usr_c" (mkAccount role_admin true 1 false) "usr_b" (change_role role_user)
    us2 [disable] (demote "usr_b")); [vm_compute; reflexivity|by split|vm_compute; reflexivity]|].
  eapply rtc_l; [eexists; exact (step_commit us2 [] (demote "usr_b") [disable])|].
  eapply rtc_l; [eexists; exact (step_commit us3 [] disable [])|]. apply rtc_refl.
Qed.
