(* ===== verification/DeviceAuth.v ===== *)
(** * Signing in on a machine without a browser

    lib/device-code.ts, routes/auth-device.ts and
    lib/device-authorization-sweep.ts: a command line client starts a grant and
    polls for its token, and a signed-in user approves or denies it.  A request
    is a sequence of database calls, each one step; the steps of all requests
    interleave with each other, with the sweep of expired grants and with
    changes of accounts.  The hash is a parameter, and so is the precision the
    database keeps an instant with, [stored].  The random codes and ids are
    inputs; the address and user agent shown to the approver, the audit entries
    and the signature of the token are left out. *)
From Stdlib Require Import Ascii.
From S2P Require Import Prelude Json UserAdmin.

Definition DEVICE_CODE_TTL_SECONDS : Z := 600.
Definition DEVICE_POLL_INTERVAL_SECONDS : Z := 5.

(** ** User codes *)

Definition USER_CODE_ALPHABET : string := "ABCDEFGHJKLMNPQRSTVWXYZ23456789".
Definition USER_CODE_LENGTH : nat := 8.

Definition hyphenated (s : string) : string := String.substring 0 4 s +:+ "-" +:+ String.substring 4 4 s.

Definition in_alphabet (c : ascii) : bool := existsb (Ascii.eqb c) (String.list_ascii_of_string USER_CODE_ALPHABET).

(** [generateUserCode], from what [randomInt] returns *)
Definition generateUserCode (draws : nat -> nat) : string :=
  hyphenated (String.string_of_list_ascii
    ((fun i => default "A"%char (String.list_ascii_of_string USER_CODE_ALPHABET !! draws i)) <$> seq 0 USER_CODE_LENGTH)).

(** [ch.toUpperCase()]; the two letters whose upper case is no code unit below
    256 stay what they are, which the alphabet has neither way. *)
Definition upper_unit (c : ascii) : string :=
  let n := nat_of_ascii c in
  if ((97 <=? n) && (n <=? 122) || (224 <=? n) && (n <=? 254) && negb (n =? 247))%nat
  then String (ascii_of_nat (n - 32)) ""
  else if (n =? 223)%nat then "SS" else String c "".

Fixpoint upper_case (s : string) : string :=
  match s with "" => "" | String c s' => upper_unit c +:+ upper_case s' end.

Definition separator (c : ascii) : bool := js_whitespace c || Ascii.eqb c "-"%char.

(** [s.replace(/[\s-]/g, '')] *)
Fixpoint squeeze (s : string) : string :=
  match s with "" => "" | String c s' => if separator c then squeeze s' else String c (squeeze s') end.

Definition normalizeUserCode (input : string) : option string :=
  let compact := squeeze (upper_case (trim input)) in
  if negb (String.length compact =? USER_CODE_LENGTH)%nat then None
  else if forallb in_alphabet (String.list_ascii_of_string compact) then Some (hyphenated compact)
  else None.

Definition isPolledTooSoon (lastPolledAt : option Z) (now : Z) : bool :=
  match lastPolledAt with
  | None => false
  | Some t =>
      let elapsedMs := (now - t)%Z in
      if (elapsedMs <? 0)%Z then false else (elapsedMs <? DEVICE_POLL_INTERVAL_SECONDS * 1000)%Z
  end.

(** ** Grants *)

Inductive GrantStatus := gr_pending | gr_approved | gr_denied | gr_claimed.

#[export] Instance GrantStatus_eq_dec : EqDecision GrantStatus.
Proof. solve_decision. Defined.

(** A row of device_authorizations, by its id *)
Record Grant := mkGrant {
  gr_deviceCodeHash : string;
  gr_userCode : string;
  gr_status : GrantStatus;
  gr_userId : option string;
  gr_expiresAt : Z;
  gr_lastPolledAt : option Z
}.

Definition with_decision (status : GrantStatus) (userId : option string) (g : Grant) : Grant :=
  mkGrant (gr_deviceCodeHash g) (gr_userCode g) status userId (gr_expiresAt g) (gr_lastPolledAt g).
Definition grant_status (status : GrantStatus) (g : Grant) : Grant := with_decision status (gr_userId g) g.
Definition with_polled (now : Z) (g : Grant) : Grant :=
  mkGrant (gr_deviceCodeHash g) (gr_userCode g) (gr_status g) (gr_userId g) (gr_expiresAt g) (Some now).

Record DeviceDb := mkDeviceDb { dv_grants : gmap string Grant; dv_users : Accounts }.

Definition on_grants (f : gmap string Grant -> gmap string Grant) (d : DeviceDb) : DeviceDb :=
  mkDeviceDb (f (dv_grants d)) (dv_users d).

(** [UPDATE ... SET f WHERE id = id AND status = status RETURNING] *)
Definition update_if (status : GrantStatus) (id : string) (f : Grant -> Grant) (d : DeviceDb) : bool * DeviceDb :=
  match dv_grants d !! id with
  | Some g => if decide (gr_status g = status) then (true, on_grants <[id := f g]> d) else (false, d)
  | None => (false, d)
  end.

(** The row a unique column selects *)
Definition find_grant (p : Grant -> bool) (d : DeviceDb) : option (string * Grant) :=
  head (filter (fun ig => p ig.2 = true) (map_to_list (dv_grants d))).

Inductive DeviceReply :=
| dr_error (error : string) (status : Z)
| dr_token (user : string) (account : Account)
| dr_shown (userCode : string) (status : GrantStatus) (expiresAt : Z)
| dr_decided (approved : bool).

(** The database call a request makes next *)
Inductive DeviceRequest :=
| rq_token (deviceCode : string)
| rq_touch (id : string) (now : Z)
| rq_user (id userId deviceCode : string) (now : Z)
| rq_close (id userId : string)
| rq_claim (id userId deviceCode : string) (account : Account) (now : Z)
| rq_pending (userCode : string)
| rq_decide (approve : bool) (userId userCode : string)
| rq_decided (approve : bool) (userId id : string) (loaded : Z).

Section Device.
Context (hashDeviceCode : string -> string) (stored : Z -> Z).

(** What is written and handed out *)
Inductive Trail :=
| tr_decided (id userId : string) (approve : bool) (loaded : Z)
| tr_token (id userId deviceCode : string) (account : Account) (now : Z).

(** [insertWithFreshUserCode], with the codes and ids its attempts draw *)
Fixpoint insertWithFreshUserCode (attempts : list (string * string)) (deviceCodeHash : string) (expiresAt : Z)
    (d : DeviceDb) : option (string * string) * DeviceDb :=
  match attempts with
  | [] => (None, d)
  | (id, userCode) :: attempts' =>
      if bool_decide (is_Some (dv_grants d !! id)) ||
         bool_decide (is_Some (find_grant (fun g => bool_decide (gr_userCode g = userCode) ||
                                                   bool_decide (gr_deviceCodeHash g = deviceCodeHash)) d))
      then insertWithFreshUserCode attempts' deviceCodeHash expiresAt d
      else (Some (id, userCode),
            on_grants <[id := mkGrant deviceCodeHash userCode gr_pending None (stored expiresAt) None]> d)
  end.

Definition USER_CODE_MAX_ATTEMPTS : nat := 5.

(** POST /code *)
Definition device_code (origin : option string) (draws : list (string * string)) (deviceCode : string) (now : Z)
    (d : DeviceDb) : (DeviceReply + (string * string)) * DeviceDb :=
  match origin with
  | None => (inl (dr_error "PUBLIC_BASE_URL_NOT_SET" 503), d)
  | Some _ =>
      match insertWithFreshUserCode (take USER_CODE_MAX_ATTEMPTS draws) (hashDeviceCode deviceCode)
              (now + DEVICE_CODE_TTL_SECONDS * 1000) d with
      | (None, d') => (inl (dr_error "DEVICE_CODE_ALLOCATION_FAILED" 503), d')
      | (Some code, d') => (inr code, d')
      end
  end.

(** [loadPendingByUserCode] *)
Definition loadPendingByUserCode (rawCode : string) (now : Z) (d : DeviceDb) : string + (string * Grant) :=
  match normalizeUserCode rawCode with
  | None => inl "INVALID_USER_CODE"
  | Some userCode =>
      match find_grant (fun g => bool_decide (gr_userCode g = userCode)) d with
      | Some (id, row) =>
          if (gr_expiresAt row <=? now)%Z || negb (bool_decide (gr_status row = gr_pending))
          then inl "DEVICE_REQUEST_NOT_FOUND" else inr (id, row)
      | None => inl "DEVICE_REQUEST_NOT_FOUND"
      end
  end.

(** What POST /token makes of the row it has read *)
Definition token_row (deviceCode : string) (found : option (string * Grant)) (now : Z) : DeviceReply + DeviceRequest :=
  match found with
  | None => inl (dr_error "expired_token" 400)
  | Some (id, row) =>
      if (gr_expiresAt row <=? now)%Z then inl (dr_error "expired_token" 400)
      else match gr_status row with
           | gr_denied => inl (dr_error "access_denied" 400)
           | gr_claimed => inl (dr_error "expired_token" 400)
           | gr_pending =>
               if isPolledTooSoon (gr_lastPolledAt row) now then inl (dr_error "slow_down" 400)
               else inr (rq_touch id now)
           | gr_approved =>
               match gr_userId row with
               | None | Some "" => inl (dr_error "access_denied" 400)
               | Some userId => inr (rq_user id userId deviceCode now)
               end
           end
  end.

(** One database call of a request and the code up to its next one *)
Definition serve_device (now : Z) (r : DeviceRequest) (d : DeviceDb) : (DeviceReply + DeviceRequest) * DeviceDb * list Trail :=
  match r with
  | rq_token deviceCode =>
      (token_row deviceCode
         (find_grant (fun g => bool_decide (gr_deviceCodeHash g = hashDeviceCode deviceCode)) d) now, d, [])
  | rq_touch id polled =>
      (inl (dr_error "authorization_pending" 400),
       match dv_grants d !! id with
       | Some g => on_grants <[id := with_polled (stored polled) g]> d
       | None => d
       end, [])
  | rq_user id userId deviceCode polled =>
      (match dv_users d !! userId with
       | Some account =>
           if ac_active account then inr (rq_claim id userId deviceCode account polled) else inr (rq_close id userId)
       | None => inr (rq_close id userId)
       end, d, [])
  | rq_close id userId =>
      let '(_, d') := update_if gr_approved id (grant_status gr_denied) d in
      (inl (dr_error "access_denied" 400), d', [])
  | rq_claim id userId deviceCode account polled =>
      match update_if gr_approved id (fun g => with_polled (stored polled) (grant_status gr_claimed g)) d with
      | (true, d') => (inl (dr_token userId account), d', [tr_token id userId deviceCode account polled])
      | (false, d') => (inl (dr_error "expired_token" 400), d', [])
      end
  | rq_pending rawCode =>
      (inl match loadPendingByUserCode rawCode now d with
           | inl error => dr_error error (if decide (error = "INVALID_USER_CODE") then 400 else 404)
           | inr (_, row) => dr_shown (gr_userCode row) (gr_status row) (gr_expiresAt row)
           end, d, [])
  | rq_decide approve userId rawCode =>
      (match loadPendingByUserCode rawCode now d with
       | inl error => inl (dr_error error 400)
       | inr (id, _) => inr (rq_decided approve userId id now)
       end, d, [])
  | rq_decided approve userId id loaded =>
      match update_if gr_pending id
              (with_decision (if approve then gr_approved else gr_denied) (Some userId)) d with
      | (true, d') => (inl (dr_decided approve), d', [tr_decided id userId approve loaded])
      | (false, d') => (inl (dr_error "DEVICE_REQUEST_NOT_FOUND" 400), d', [])
      end
  end.

(** [sweepExpiredDeviceAuthorizations] *)
Definition sweep_grants (now : Z) (d : DeviceDb) : DeviceDb :=
  on_grants (filter (fun ig => ~ (gr_expiresAt ig.2 < now)%Z)) d.

(** Accounts change; a deleted account is set to null in its grants. *)
Definition set_users (us : Accounts) (d : DeviceDb) : DeviceDb :=
  mkDeviceDb
    ((fun g => match gr_userId g with
               | Some u => if decide (is_Some (us !! u)) then g else with_decision (gr_status g) None g
               | None => g
               end) <$> dv_grants d) us.

(** ** Interleavings *)

Inductive DeviceEvent :=
| de_code (origin : option string) (draws : list (string * string)) (deviceCode : string) (now : Z)
| de_poll (deviceCode : string)
| de_show (userCode : string)
| de_decide (approve : bool) (userId userCode : string)
| de_serve (k : nat) (now : Z)
| de_users (us : Accounts)
| de_sweep (now : Z).

(** The database, the requests in flight, the grants ever made with the hash of
    their device code and their expiry, and what was written and handed out *)
Record DeviceState := mkDevice {
  ds_db : DeviceDb;
  ds_requests : list DeviceRequest;
  ds_born : list (string * (string * Z));
  ds_trail : list Trail
}.

Definition with_request (r : DeviceRequest) (s : DeviceState) : DeviceState :=
  mkDevice (ds_db s) (ds_requests s ++ [r]) (ds_born s) (ds_trail s).

Definition device_step (ev : DeviceEvent) (s : DeviceState) : DeviceState :=
  match ev with
  | de_code origin draws deviceCode now =>
      let '(reply, d) := device_code origin draws deviceCode now (ds_db s) in
      mkDevice d (ds_requests s)
        (ds_born s ++ match reply with
                      | inr (id, _) => [(id, (hashDeviceCode deviceCode, stored (now + DEVICE_CODE_TTL_SECONDS * 1000)%Z))]
                      | inl _ => []
                      end) (ds_trail s)
  | de_poll deviceCode => with_request (rq_token deviceCode) s
  | de_show userCode => with_request (rq_pending userCode) s
  | de_decide approve userId userCode => with_request (rq_decide approve userId userCode) s
  | de_serve k now =>
      match ds_requests s !! k with
      | None => s
      | Some r =>
          let '(next, d, trail) := serve_device now r (ds_db s) in
          mkDevice d
            (match next with
             | inr r' => <[k := r']> (ds_requests s)
             | inl _ => delete k (ds_requests s)
             end) (ds_born s) (ds_trail s ++ trail)
      end
  | de_users us => mkDevice (set_users us (ds_db s)) (ds_requests s) (ds_born s) (ds_trail s)
  | de_sweep now => mkDevice (sweep_grants now (ds_db s)) (ds_requests s) (ds_born s) (ds_trail s)
  end.

Definition device_run (evs : list DeviceEvent) (s : DeviceState) : DeviceState :=
  foldl (fun s ev => device_step ev s) s evs.
End Device.

(** ** What a token says *)

Lemma find_grant_Some p d id g : find_grant p d = Some (id, g) -> dv_grants d !! id = Some g /\ p g = true.
Proof.
  intros H%head_Some_elem_of. apply list_elem_of_filter in H as [Hp H].
  by apply elem_of_map_to_list in H.
Qed.

Lemma update_if_spec status id f d b d' :
  update_if status id f d = (b, d') ->
  dv_users d' = dv_users d /\
  ((b = true /\ exists g, dv_grants d !! id = Some g /\ gr_status g = status /\
      dv_grants d' = <[id := f g]> (dv_grants d)) \/ (b = false /\ d' = d)).
Proof.
  unfold update_if. destruct (dv_grants d !! id) as [g|]; [case_decide|]; intros [= <- <-]; (split; [done|]); [left|right; done..].
  split; [done|]. by exists g.
Qed.

Lemma insert_spec attempts h exp d stored o d' :
  insertWithFreshUserCode stored attempts h exp d = (o, d') ->
  match o with
  | None => d' = d
  | Some (id, userCode) =>
      dv_users d' = dv_users d /\
      dv_grants d' = <[id := mkGrant h userCode gr_pending None (stored exp) None]> (dv_grants d)
  end.
Proof.
  induction attempts as [|[id code] attempts IH]; simpl; [by intros [= <- <-]|].
  destruct (_ || _); [done|]. by intros [= <- <-].
Qed.

Definition decision_of (t : Trail) : option string := match t with tr_decided id _ _ _ => Some id | _ => None end.
Definition mint_of (t : Trail) : option string := match t with tr_token id _ _ _ _ => Some id | _ => None end.

Section Safety.
Context (hashDeviceCode : string -> string) (stored : Z -> Z).

Abbreviation Born := (list (string * (string * Z))).

(** A user approved the grant before it expired. *)
Definition approved_by (born : Born) (tr : list Trail) (id userId : string) : Prop :=
  exists t h exp, tr_decided id userId true t ∈ tr /\ (id, (h, exp)) ∈ born /\ (t < exp)%Z.

(** The device code of the grant was presented before it expired. *)
Definition presented (born : Born) (id deviceCode : string) (now : Z) : Prop :=
  exists exp, (id, (hashDeviceCode deviceCode, exp)) ∈ born /\ (now < exp)%Z.

Definition grant_ok (born : Born) (tr : list Trail) (id : string) (g : Grant) : Prop :=
  (id, (gr_deviceCodeHash g, gr_expiresAt g)) ∈ born /\
  match gr_status g with
  | gr_pending => id ∉ omap decision_of tr /\ id ∉ omap mint_of tr
  | gr_approved => (forall u, gr_userId g = Some u -> approved_by born tr id u) /\ id ∉ omap mint_of tr
  | _ => True
  end.

Definition request_ok (born : Born) (tr : list Trail) (r : DeviceRequest) : Prop :=
  match r with
  | rq_user id userId deviceCode now => approved_by born tr id userId /\ presented born id deviceCode now
  | rq_claim id userId deviceCode account now =>
      approved_by born tr id userId /\ presented born id deviceCode now /\ ac_active account = true
  | rq_decided _ _ id loaded => exists h exp, (id, (h, exp)) ∈ born /\ (loaded < exp)%Z
  | _ => True
  end.

Definition trail_ok (born : Born) (tr : list Trail) (t : Trail) : Prop :=
  match t with
  | tr_decided id _ _ _ => id ∈ born.*1
  | tr_token id userId deviceCode account now =>
      approved_by born tr id userId /\ presented born id deviceCode now /\ ac_active account = true
  end.

Record device_inv (s : DeviceState) : Prop := {
  di_grants id g : dv_grants (ds_db s) !! id = Some g -> grant_ok (ds_born s) (ds_trail s) id g;
  di_requests : Forall (request_ok (ds_born s) (ds_trail s)) (ds_requests s);
  di_trail : Forall (trail_ok (ds_born s) (ds_trail s)) (ds_trail s);
  di_decisions : NoDup (omap decision_of (ds_trail s));
  di_mints : NoDup (omap mint_of (ds_trail s))
}.

Lemma approved_by_mono born born' tr tr' id u :
  born ⊆ born' -> tr ⊆ tr' -> approved_by born tr id u -> approved_by born' tr' id u.
Proof. intros Hb Ht (t & h & exp & ? & ? & ?). exists t, h, exp. auto. Qed.

Lemma presented_mono born born' id code now : born ⊆ born' -> presented born id code now -> presented born' id code now.
Proof. intros Hb (exp & ? & ?). exists exp. auto. Qed.

Lemma request_ok_mono born born' tr tr' r :
  born ⊆ born' -> tr ⊆ tr' -> request_ok born tr r -> request_ok born' tr' r.
Proof.
  intros Hb Ht. destruct r; simpl; try done.
  - intros [? ?]. eauto using approved_by_mono, presented_mono.
  - intros (? & ? & ?). eauto using approved_by_mono, presented_mono.
  - intros (h & exp & ? & ?). eauto 10.
Qed.

Lemma trail_ok_mono born born' tr tr' t : born ⊆ born' -> tr ⊆ tr' -> trail_ok born tr t -> trail_ok born' tr' t.
Proof.
  intros Hb Ht. destruct t; simpl.
  - intros (y & -> & Hy)%list_elem_of_fmap. apply list_elem_of_fmap. eauto.
  - intros (? & ? & ?). eauto using approved_by_mono, presented_mono.
Qed.

(** An entry about another grant, or none, leaves a grant as it is. *)
Lemma grant_ok_mono born born' tr new id g :
  born ⊆ born' -> id ∉ omap decision_of new -> id ∉ omap mint_of new ->
  grant_ok born tr id g -> grant_ok born' (tr ++ new) id g.
Proof.
  intros Hb Hd Hm [Hborn Hg]. split; [by apply Hb|]. rewrite !omap_app.
  destruct (gr_status g); [| |done..].
  - destruct Hg. split; by rewrite elem_of_app; intros [?|?].
  - destruct Hg as [Ha ?]. split; [|by rewrite elem_of_app; intros [?|?]].
    intros u Hu. eapply approved_by_mono; [done| |by apply Ha]. set_solver.
Qed.

(** A step that writes nothing into the trail *)
Lemma inv_quiet s d requests born' :
  device_inv s -> ds_born s ⊆ born' ->
  (forall id g, dv_grants d !! id = Some g -> grant_ok born' (ds_trail s) id g) ->
  Forall (request_ok born' (ds_trail s)) requests ->
  device_inv (mkDevice d requests born' (ds_trail s)).
Proof.
  intros [Hg Hr Ht Hd Hm] Hb Hg' Hr'. split; simpl; try done.
  eapply Forall_impl; [exact Ht|]. intros t. by apply trail_ok_mono.
Qed.

(** A grant found with a status below keeps what [grant_ok] says when a field
    that it does not read changes. *)
Lemma grants_insert born tr (m : gmap string Grant) id g :
  (forall i x, m !! i = Some x -> grant_ok born tr i x) -> grant_ok born tr id g ->
  forall i x, <[id := g]> m !! i = Some x -> grant_ok born tr i x.
Proof.
  intros Hm Hg i x Hi. apply lookup_insert_Some in Hi as [[<- <-]|[_ Hi]]; auto.
Qed.

Lemma requests_served born tr (l : list DeviceRequest) k (next : DeviceReply + DeviceRequest) :
  Forall (request_ok born tr) l ->
  match next with inr r => request_ok born tr r | inl _ => True end ->
  Forall (request_ok born tr) match next with inr r => <[k := r]> l | inl _ => delete k l end.
Proof. intros Hl Hn. destruct next; [by apply Forall_delete|by apply Forall_insert]. Qed.

(** What a token or a decision adds to the trail *)
Lemma inv_traced s d next k t :
  device_inv s ->
  (forall id g, dv_grants d !! id = Some g -> grant_ok (ds_born s) (ds_trail s ++ [t]) id g) ->
  trail_ok (ds_born s) (ds_trail s) t ->
  match decision_of t with Some id => id ∉ omap decision_of (ds_trail s) | None => True end ->
  match mint_of t with Some id => id ∉ omap mint_of (ds_trail s) | None => True end ->
  device_inv (mkDevice d match next : DeviceReply + DeviceRequest with inr _ => ds_requests s | inl _ => delete k (ds_requests s) end
    (ds_born s) (ds_trail s ++ [t])).
Proof.
  intros [Hg Hr Ht Hd Hm] Hg' Hok Hdec Hmint.
  assert (ds_trail s ⊆ ds_trail s ++ [t]) as Hsub by set_solver.
  split; simpl; [done| | | |].
  - assert (Forall (request_ok (ds_born s) (ds_trail s ++ [t])) (ds_requests s)) as Hr'
      by (eapply Forall_impl; [exact Hr|]; intros r; by apply request_ok_mono).
    destruct next; [by apply Forall_delete|done].
  - apply Forall_app. split.
    + eapply Forall_impl; [exact Ht|]. intros x. by apply trail_ok_mono.
    + constructor; [|constructor]. by eapply trail_ok_mono.
  - rewrite omap_app. apply NoDup_app. split; [done|]. destruct t; simpl in *; (split; [set_solver|]); try apply NoDup_nil_2.
    apply NoDup_singleton.
  - rewrite omap_app. apply NoDup_app. split; [done|]. destruct t; simpl in *; (split; [set_solver|]); try apply NoDup_nil_2.
    apply NoDup_singleton.
Qed.

Lemma token_row_ok s deviceCode found now :
  device_inv s ->
  (forall id g, found = Some (id, g) -> dv_grants (ds_db s) !! id = Some g /\ gr_deviceCodeHash g = hashDeviceCode deviceCode) ->
  match token_row deviceCode found now with
  | inr r => request_ok (ds_born s) (ds_trail s) r
  | inl _ => True
  end.
Proof.
  intros Hi Hf. unfold token_row. destruct found as [[id g]|]; [|done]. destruct (Hf id g eq_refl) as [Hg Hh].
  destruct (Z.leb_spec (gr_expiresAt g) now); [done|]. destruct (di_grants s Hi id g Hg) as [Hborn Hst].
  destruct (gr_status g); [by destruct (isPolledTooSoon _ _)| |done..].
  destruct (gr_userId g) as [[|c u]|]; [done| |done]. destruct Hst as [Ha _]. split; [by apply Ha|].
  exists (gr_expiresAt g). by rewrite <- Hh.
Qed.

Lemma load_ok s rawCode now id g :
  device_inv s -> loadPendingByUserCode rawCode now (ds_db s) = inr (id, g) ->
  exists h exp, (id, (h, exp)) ∈ ds_born s /\ (now < exp)%Z.
Proof.
  intros Hi. unfold loadPendingByUserCode. destruct (normalizeUserCode rawCode); [|done].
  destruct (find_grant _ _) as [[id' g']|] eqn:Hf; [|done]. apply find_grant_Some in Hf as [Hg _].
  destruct (Z.leb_spec (gr_expiresAt g') now); [done|]. simpl. destruct (negb _); [done|]. intros [= -> ->].
  destruct (di_grants s Hi id g Hg) as [Hb _]. eauto.
Qed.

Lemma serve_inv s k now :
  device_inv s -> device_inv (device_step hashDeviceCode stored (de_serve k now) s).
Proof.
  intros Hi. simpl. destruct (ds_requests s !! k) as [r|] eqn:Hk; [|done].
  pose proof (Forall_lookup_1 _ _ _ _ (di_requests s Hi) Hk) as Hr.
  pose proof (di_grants s Hi) as Hg. pose proof (di_requests s Hi) as Hrs.
  destruct r as [code|id polled|id u code polled|id u|id u code acc polled|raw|ap u raw|ap u id loaded]; simpl in Hr |- *.
  - rewrite app_nil_r. apply inv_quiet; try done. apply requests_served; [done|]. apply token_row_ok; [done|].
    intros id g Hf. apply find_grant_Some in Hf as [? Hh%bool_decide_eq_true]. done.
  - rewrite app_nil_r. apply inv_quiet; try done; [|by apply Forall_delete].
    destruct (dv_grants (ds_db s) !! id) as [g|] eqn:Hid; [|done]. simpl. apply grants_insert; [done|].
    by destruct (Hg id g Hid).
  - rewrite app_nil_r. apply inv_quiet; try done. apply requests_served; [done|]. destruct Hr as [Ha Hp].
    destruct (dv_users (ds_db s) !! u) as [acc|]; [|done]. by destruct (ac_active acc) eqn:Hact.
  - destruct (update_if gr_approved id (grant_status gr_denied) (ds_db s)) as [b d'] eqn:Hu. rewrite app_nil_r.
    apply inv_quiet; try done; [|by apply Forall_delete].
    apply update_if_spec in Hu as (_ & [(-> & g & Hid & Hst & ->)|[-> ->]]); [|done].
    apply grants_insert; [done|]. split; [by apply (Hg id g Hid)|done].
  - destruct (update_if gr_approved id _ (ds_db s)) as [b d'] eqn:Hu.
    apply update_if_spec in Hu as (_ & [(-> & g & Hid & Hst & Hd)|[-> ->]]).
    + destruct (Hg id g Hid) as [Hb Hs]. rewrite Hst in Hs.
      apply (inv_traced s d' (inl (dr_token u acc)) k (tr_token id u code acc polled)); try done.
      * rewrite Hd. intros i x Hx. apply lookup_insert_Some in Hx as [[<- <-]|[Hne Hx]]; [by split|].
        apply (grant_ok_mono (ds_born s)); [done| | |by apply Hg]; simpl; [apply not_elem_of_nil|set_solver].
      * by apply Hs.
    + rewrite app_nil_r. apply inv_quiet; try done. by apply Forall_delete.
  - rewrite app_nil_r. apply inv_quiet; try done. by apply Forall_delete.
  - rewrite app_nil_r. apply inv_quiet; try done. apply requests_served; [done|].
    destruct (loadPendingByUserCode raw now (ds_db s)) as [e|[id g]] eqn:Hl; [done|]. simpl. by eapply load_ok.
  - destruct (update_if gr_pending id _ (ds_db s)) as [b d'] eqn:Hu.
    apply update_if_spec in Hu as (_ & [(-> & g & Hid & Hst & Hd)|[-> ->]]).
    + destruct (Hg id g Hid) as [Hb Hs]. rewrite Hst in Hs. destruct Hs as [Hnd Hnm]. destruct Hr as (h & exp & Hbe & Hlt).
      apply (inv_traced s d' (inl (dr_decided ap)) k (tr_decided id u ap loaded)); try done.
      * rewrite Hd. intros i x Hx. apply lookup_insert_Some in Hx as [[<- <-]|[Hne Hx]].
        { split; [done|]. destruct ap; simpl; [|done]. rewrite omap_app. split; [|rewrite elem_of_app; by intros [?|?%not_elem_of_nil]].
          intros u' [= <-]. exists loaded, h, exp. split; [set_solver|done]. }
        apply (grant_ok_mono (ds_born s)); [done| | |by apply Hg]; simpl; [set_solver|apply not_elem_of_nil].
      * simpl. apply list_elem_of_fmap. by exists (id, (h, exp)).
    + rewrite app_nil_r. apply inv_quiet; try done. by apply Forall_delete.
Qed.

Lemma born_step ev s : ds_born s ⊆ ds_born (device_step hashDeviceCode stored ev s).
Proof.
  destruct ev; simpl; try done.
  - destruct (device_code _ _ _ _ _ _ _) as [[?|[? ?]] d]; simpl; set_solver.
  - destruct (ds_requests s !! k) as [r|]; [|done]. by destruct (serve_device _ _ _ _ _) as [[? ?] ?].
Qed.

Lemma device_step_inv ev s :
  NoDup (ds_born (device_step hashDeviceCode stored ev s)).*1 -> device_inv s ->
  device_inv (device_step hashDeviceCode stored ev s).
Proof.
  intros Hnd Hi. pose proof (di_grants s Hi) as Hg. pose proof (di_requests s Hi) as Hr.
  destruct ev as [origin draws code now|code|raw|ap u raw|k now|us|now].
  - simpl in *. unfold device_code in *. destruct origin; [|simpl; rewrite app_nil_r; by destruct s].
    destruct (insertWithFreshUserCode _ _ _ _ _) as [o d'] eqn:Ho. apply insert_spec in Ho.
    destruct o as [[id uc]|]; [|subst d'; simpl; rewrite app_nil_r; by destruct s]. destruct Ho as [_ Hd]. simpl in *.
    set (b := (id, _)) in *. assert (ds_born s ⊆ ds_born s ++ [b]) as Hsub by set_solver.
    rewrite fmap_app in Hnd. apply NoDup_app in Hnd as (_ & Hfresh & _).
    assert (forall t, t ∈ ds_trail s -> decision_of t <> Some id /\ mint_of t <> Some id) as Htr.
    { intros t Ht. pose proof (proj1 (Forall_forall _ _) (di_trail s Hi) t Ht) as Hok.
      assert (forall i y, (i, y) ∈ ds_born s -> i <> id) as Hne.
      { intros i y Hy ->. apply (Hfresh id); [apply list_elem_of_fmap; by exists (id, y)|]. simpl. by left. }
      destruct t as [i ? ? ?|i ? ? ? ?]; simpl in Hok |- *; (split; [|try done]); try done; intros [= ->].
      - apply (Hfresh id Hok). by left.
      - destruct Hok as (_ & (e & He & _) & _). by apply (Hne id _ He). }
    apply inv_quiet; try done.
    + rewrite Hd. intros i x Hx. apply lookup_insert_Some in Hx as [[<- <-]|[Hne Hx]].
      * split; simpl; [set_solver|]. split; intros (t & Ht & Hx)%list_elem_of_omap; by apply Htr in Ht as [? ?].
      * rewrite <- (app_nil_r (ds_trail s)). apply (grant_ok_mono (ds_born s)); [done|apply not_elem_of_nil..|by apply Hg].
    + eapply Forall_impl; [exact Hr|]. intros r. by apply request_ok_mono.
  - apply inv_quiet; try done. apply Forall_app. by repeat constructor.
  - apply inv_quiet; try done. apply Forall_app. by repeat constructor.
  - apply inv_quiet; try done. apply Forall_app. by repeat constructor.
  - by apply serve_inv.
  - apply inv_quiet; try done. simpl. intros id g Hx. apply lookup_fmap_Some in Hx as (g0 & <- & Hx).
    destruct (Hg id g0 Hx) as [Hb Hs]. destruct (gr_userId g0) as [u|] eqn:Hu; [case_decide; [by apply Hg|]|by apply Hg].
    split; [done|]. simpl. destruct (gr_status g0); [done| |done..]. by destruct Hs.
  - apply inv_quiet; try done. simpl. intros id g Hx. apply map_lookup_filter_Some in Hx as [Hx _]. by apply Hg.
Qed.

Lemma born_app ev s : exists l, ds_born (device_step hashDeviceCode stored ev s) = ds_born s ++ l.
Proof.
  destruct ev; simpl; try (exists []; by rewrite app_nil_r).
  - destruct (device_code _ _ _ _ _ _ _) as [[?|[? ?]] d]; simpl; by eexists.
  - destruct (ds_requests s !! k) as [r|]; [destruct (serve_device _ _ _ _ _) as [[? ?] ?]|]; exists []; by rewrite app_nil_r.
Qed.

Lemma device_run_born evs s : exists l, ds_born (device_run hashDeviceCode stored evs s) = ds_born s ++ l.
Proof.
  revert s. induction evs as [|ev evs IH]; intros s; [exists []; by rewrite app_nil_r|].
  destruct (IH (device_step hashDeviceCode stored ev s)) as [l Hl]. destruct (born_app ev s) as [l' Hl'].
  exists (l' ++ l). simpl. unfold device_run in Hl |- *. simpl. by rewrite Hl, Hl', app_assoc.
Qed.

Lemma device_run_inv evs s :
  NoDup (ds_born (device_run hashDeviceCode stored evs s)).*1 -> device_inv s ->
  device_inv (device_run hashDeviceCode stored evs s).
Proof.
  revert s. induction evs as [|ev evs IH]; intros s Hnd Hi; [done|]. apply IH; [done|].
  apply device_step_inv; [|done].
  destruct (device_run_born evs (device_step hashDeviceCode stored ev s)) as [l Hl].
  unfold device_run in Hl, Hnd. simpl in Hnd. rewrite Hl, fmap_app in Hnd. by apply NoDup_app in Hnd as [? _].
Qed.
End Safety.

(** Entries that name the same thing are the same entry. *)
Lemma omap_once {A B} (f : A -> option B) (l : list A) x y b :
  NoDup (omap f l) -> x ∈ l -> y ∈ l -> f x = Some b -> f y = Some b -> x = y.
Proof.
  induction l as [|a l IH]; [by intros _ ?%not_elem_of_nil|]. intros Hd Hx Hy Hfx Hfy.
  assert (forall z, z ∈ l -> f z = Some b -> b ∈ omap f l) as Hin by (intros z ? ?; apply list_elem_of_omap; eauto).
  simpl in Hd. apply elem_of_cons in Hx as [-> | Hx], Hy as [-> | Hy]; [done|..].
  - rewrite Hfx in Hd. apply NoDup_cons in Hd as [Hn _]. by destruct Hn; apply (Hin y).
  - rewrite Hfy in Hd. apply NoDup_cons in Hd as [Hn _]. by destruct Hn; apply (Hin x).
  - apply IH; try done. destruct (f a); [|done]. by apply NoDup_cons in Hd as [_ ?].
Qed.

Definition device_start (us : Accounts) : DeviceState := mkDevice (mkDeviceDb ∅ us) [] [] [].

(** C23. A grant pays out once, to whoever it was approved for: in any
    interleaving of the polls, the decisions, the sweep and changes of accounts,
    at most one decision is made on a grant and at most one token handed out for
    it; a token goes to the caller who presented the grant's device code before
    the grant expired, and signs in the user who approved the grant before it
    expired and was active when the token was due; a denied grant never pays. *)
Theorem device_grants_safe (hashDeviceCode : string -> string) (stored : Z -> Z) (us : Accounts)
    (evs : list DeviceEvent) :
  let s := device_run hashDeviceCode stored evs (device_start us) in
  NoDup (ds_born s).*1 ->
  NoDup (omap decision_of (ds_trail s)) /\ NoDup (omap mint_of (ds_trail s)) /\
  forall id userId deviceCode account now,
    tr_token id userId deviceCode account now ∈ ds_trail s ->
    approved_by (ds_born s) (ds_trail s) id userId /\
    (forall u t, tr_decided id u false t ∉ ds_trail s) /\
    presented hashDeviceCode (ds_born s) id deviceCode now /\ ac_active account = true.
Proof.
  cbn zeta. intros Hnd.
  pose proof (device_run_inv hashDeviceCode stored evs (device_start us) Hnd) as Hi.
  destruct Hi as [_ _ Ht Hd Hm]; [split; simpl; try apply NoDup_nil_2; by constructor|].
  split; [done|]. split; [done|]. intros id u code acc now Hin.
  destruct (proj1 (Forall_forall _ _) Ht _ Hin) as (Ha & Hp & Hact). split_and!; try done.
  intros u' t Hf. destruct Ha as (t' & h & exp & Hin' & _).
  enough (tr_decided id u' false t = tr_decided id u true t') by done.
  by apply (omap_once decision_of _ _ _ id Hd).
Qed.

(** The poll of an approved grant gets the token, if nothing comes between. *)
Lemma approved_grant_pays hashDeviceCode stored d deviceCode id g u account now :
  find_grant (fun g => bool_decide (gr_deviceCodeHash g = hashDeviceCode deviceCode)) d = Some (id, g) ->
  gr_status g = gr_approved -> gr_userId g = Some u -> u <> "" -> (now < gr_expiresAt g)%Z ->
  dv_users d !! u = Some account -> ac_active account = true ->
  let serve_device := serve_device hashDeviceCode stored now in
  (serve_device (rq_token deviceCode) d).1.1 = inr (rq_user id u deviceCode now) /\
  (serve_device (rq_user id u deviceCode now) d).1.1 = inr (rq_claim id u deviceCode account now) /\
  let '(reply, d', trail) := serve_device (rq_claim id u deviceCode account now) d in
  reply = inl (dr_token u account) /\ trail = [tr_token id u deviceCode account now] /\
  exists g', dv_grants d' !! id = Some g' /\ gr_status g' = gr_claimed.
Proof.
  intros Hf Hst Hu Hne Hexp Hus Hact. cbn zeta. apply find_grant_Some in Hf as Hg. destruct Hg as [Hg _].
  unfold serve_device. rewrite Hf, Hus, Hact. unfold token_row, update_if.
  rewrite (proj2 (Z.leb_gt _ _) Hexp), Hst, Hu, Hg. rewrite decide_True by done. destruct u as [|c u]; [done|].
  split; [done|]. split; [done|]. split; [done|]. split; [done|]. eexists. split; [apply lookup_insert_eq|done].
Qed.

(** ** Retyping a code *)

Lemma append_squeeze a b : squeeze (a +:+ b) = squeeze a +:+ squeeze b.
Proof.
  induction a as [|c a IH]; [reflexivity|]. rewrite append_cons. simpl. rewrite IH.
  destruct (separator c); [done|]. by rewrite append_cons.
Qed.

(** The two ways a user retypes a code: separators come and go, letters change
    case. *)
Inductive retyped : string -> string -> Prop :=
| rt_end : retyped "" ""
| rt_extra c typed code : js_whitespace c = true \/ c = "-"%char -> retyped typed code -> retyped (String c typed) code
| rt_hyphen typed code : retyped typed code -> retyped typed (String "-" code)
| rt_same c typed code : in_alphabet c = true -> retyped typed code -> retyped (String c typed) (String c code)
| rt_lower c c' typed code :
    in_alphabet c = true -> upper_unit c' = String c "" -> retyped typed code ->
    retyped (String c' typed) (String c code).

Lemma all_whitespace_trim_end s : all_whitespace s = true -> trim_end s = "".
Proof. destruct s as [|c s]; [done|]. intros H. simpl in *. by rewrite H. Qed.

Lemma upper_separator c : separator c = true -> upper_unit c = String c "".
Proof. destruct c as [[] [] [] [] [] [] [] []]; vm_compute; congruence. Qed.

Lemma squeeze_upper_cons c s :
  squeeze (upper_case (String c s)) = squeeze (upper_unit c) +:+ squeeze (upper_case s).
Proof. apply append_squeeze. Qed.

Lemma squeeze_whitespace c s : js_whitespace c = true -> squeeze (upper_case (String c s)) = squeeze (upper_case s).
Proof.
  intros Hc. rewrite squeeze_upper_cons, upper_separator by (unfold separator; by rewrite Hc). simpl.
  unfold separator. rewrite Hc. reflexivity.
Qed.

Lemma squeeze_trim s : squeeze (upper_case (trim s)) = squeeze (upper_case s).
Proof.
  assert (forall t, squeeze (upper_case (trim_end t)) = squeeze (upper_case t)) as He.
  { induction t as [|c t IH]; [done|]. cbn [trim_end]. destruct (all_whitespace (String c t)) eqn:Hw.
    - clear IH. revert c Hw. induction t as [|d t IH]; intros c Hw; cbn [all_whitespace] in Hw;
        apply andb_true_iff in Hw as [Hc Hw]; rewrite squeeze_whitespace by done; [done|]. by apply IH.
    - rewrite !squeeze_upper_cons. by rewrite IH. }
  unfold trim. rewrite He. induction s as [|c s IH]; [done|]. simpl. destruct (js_whitespace c) eqn:Hc; [|done].
  rewrite IH. symmetry. by apply squeeze_whitespace.
Qed.

Lemma in_alphabet_plain c : in_alphabet c = true -> separator c = false /\ upper_unit c = String c "".
Proof. destruct c as [[] [] [] [] [] [] [] []]; vm_compute; (discriminate || done). Qed.

Lemma squeeze_retyped typed code : retyped typed code -> squeeze (upper_case typed) = squeeze code.
Proof.
  induction 1 as [|c typed code Hc H IH|typed code H IH|c typed code Hc H IH|c c' typed code Hc Hu H IH]; [done|..].
  - rewrite squeeze_upper_cons. rewrite upper_separator by (unfold separator; destruct Hc as [-> | ->]; [done|apply orb_true_r]).
    simpl. assert (separator c = true) as -> by (unfold separator; destruct Hc as [-> | ->]; [done|apply orb_true_r]). exact IH.
  - simpl. exact IH.
  - destruct (in_alphabet_plain c Hc) as [Hs Hu]. rewrite squeeze_upper_cons, Hu. simpl. rewrite Hs, append_cons, IH. reflexivity.
  - destruct (in_alphabet_plain c Hc) as [Hs _]. rewrite squeeze_upper_cons, Hu. simpl. rewrite Hs, append_cons, IH. reflexivity.
Qed.

(** Eight letters of the alphabet, as a code and without its hyphen *)
Lemma code_of_letters l :
  length l = USER_CODE_LENGTH -> Forall (fun c => in_alphabet c = true) l ->
  squeeze (hyphenated (String.string_of_list_ascii l)) = String.string_of_list_ascii l /\
  forallb in_alphabet (String.list_ascii_of_string (String.string_of_list_ascii l)) = true /\
  String.length (String.string_of_list_ascii l) = USER_CODE_LENGTH.
Proof.
  intros Hlen Hl.
  assert (forall s, Forall (fun c => in_alphabet c = true) s ->
    forallb in_alphabet (String.list_ascii_of_string (String.string_of_list_ascii s)) = true /\
    String.length (String.string_of_list_ascii s) = length s) as Hs.
  { induction 1 as [|c s Hc Hs [IH1 IH2]]; [done|]. simpl. by rewrite Hc, IH1, IH2. }
  split; [|split; [by apply Hs|by rewrite (proj2 (Hs l Hl))]].
  do 8 (destruct l as [|? l]; [done|]). destruct l; [|done]. clear Hlen Hs.
  unfold hyphenated. simpl. repeat (rewrite append_cons; simpl).
  repeat (apply Forall_cons in Hl as [[-> _]%in_alphabet_plain Hl]). done.
Qed.

(** Every way of retyping a generated code finds the grant it was generated for. *)
Lemma user_code_roundtrip (draws : nat -> nat) (typed : string) :
  (forall i, draws i < String.length USER_CODE_ALPHABET) ->
  retyped typed (generateUserCode draws) -> normalizeUserCode typed = Some (generateUserCode draws).
Proof.
  intros Hdraws Hty. unfold generateUserCode in *.
  set (l := (fun i => default "A"%char (String.list_ascii_of_string USER_CODE_ALPHABET !! draws i)) <$> seq 0 USER_CODE_LENGTH) in *.
  assert (length l = USER_CODE_LENGTH /\ Forall (fun c => in_alphabet c = true) l) as [Hlen Hl].
  { split; [by unfold l; rewrite length_fmap, length_seq|]. unfold l. apply Forall_fmap, Forall_forall. intros i _. unfold compose.
    destruct (lookup_lt_is_Some_2 (String.list_ascii_of_string USER_CODE_ALPHABET) (draws i)) as [c Hc]; [exact (Hdraws i)|].
    rewrite Hc. simpl.
    unfold in_alphabet. apply existsb_exists. exists c. split; [|apply Ascii.eqb_refl].
    apply list_elem_of_lookup_2 in Hc. by apply list_elem_of_In. }
  clearbody l. destruct (code_of_letters l Hlen Hl) as (Hsq & Hall & Hlength).
  unfold normalizeUserCode. rewrite squeeze_trim, (squeeze_retyped _ _ Hty), Hsq, Hlength, Hall. reflexivity.
Qed.

(** ** Witnesses *)

Definition device_demo_users : Accounts := {["u1" := mkAccount role_user true 3 false]}.
Definition device_demo_events : list DeviceEvent :=
  [de_code (Some "https://a.example") [("dev_1", "ABCD-2345")] "d1" 0; de_poll "d1"; de_serve 0 1000; de_serve 0 1000;
   de_decide true "u1" " abcd 2345"; de_serve 0 2000; de_decide false "u2" "ABCD2345"; de_serve 1 2000;
   de_serve 0 2001; de_serve 0 2002; de_poll "d1"; de_poll "d1"; de_serve 0 3000; de_serve 1 3000; de_serve 0 3001;
   de_serve 1 3001; de_serve 0 3002; de_serve 0 3002; de_poll "d1"; de_serve 0 9000].

Lemma device_grants_safe_witness :
  let s := device_run id id device_demo_events (device_start device_demo_users) in
  ds_trail s = [tr_decided "dev_1" "u1" true 2000; tr_token "dev_1" "u1" "d1" (mkAccount role_user true 3 false) 3000] /\
  ds_requests s = [] /\
  NoDup (omap mint_of (ds_trail s)).
Proof.
  cbn zeta. split; [vm_compute; reflexivity|]. split; [vm_compute; reflexivity|].
  apply (device_grants_safe id id device_demo_users device_demo_events).
  assert ((ds_born (device_run id id device_demo_events (device_start device_demo_users))).*1 = ["dev_1"]) as ->
    by (vm_compute; reflexivity).
  apply NoDup_singleton.
Defined.

(** A letter outside the alphabet whose upper case is two letters of it *)
Lemma sharp_s_accepted :
  normalizeUserCode ("ABCD23" +:+ String (ascii_of_nat 223) "") = Some "ABCD-23SS".
Proof. reflexivity. Qed.
