(* ===== verification/A2aTaskStore.v ===== *)
(** * The A2A task store

    a2a/sqlite-task-store.ts: tasks of the agent-to-agent protocol, one row per
    task id, each in the envelope of the tenant and caller that own it.  The
    [data] column is JSON text and is represented by what it parses to, [None]
    for text that does not parse.  The protobuf codec of the A2A library is the
    interface [TaskCodec]; [Date.parse], [toISOString], the base64 text of a
    page token and [localeCompare] are parameters too.  The SQL is that of
    SQLite: text compares by code units. *)
From S2P Require Import Prelude Json Records ErrorPatterns.
From stdpp Require Import pretty sorting.
From Stdlib Require Import Ascii Sorted.
Abbreviation js_sort := Records.sort.

(** ** Tasks and their envelopes *)

Inductive TaskState :=
| TASK_STATE_UNSPECIFIED | TASK_STATE_SUBMITTED | TASK_STATE_WORKING | TASK_STATE_COMPLETED
| TASK_STATE_FAILED | TASK_STATE_CANCELED | TASK_STATE_INPUT_REQUIRED | TASK_STATE_REJECTED
| TASK_STATE_AUTH_REQUIRED.

#[export] Instance TaskState_eq_dec : EqDecision TaskState.
Proof. solve_decision. Defined.

(** [TaskState[s]] *)
Definition state_name (s : TaskState) : string :=
  match s with
  | TASK_STATE_UNSPECIFIED => "TASK_STATE_UNSPECIFIED"
  | TASK_STATE_SUBMITTED => "TASK_STATE_SUBMITTED"
  | TASK_STATE_WORKING => "TASK_STATE_WORKING"
  | TASK_STATE_COMPLETED => "TASK_STATE_COMPLETED"
  | TASK_STATE_FAILED => "TASK_STATE_FAILED"
  | TASK_STATE_CANCELED => "TASK_STATE_CANCELED"
  | TASK_STATE_INPUT_REQUIRED => "TASK_STATE_INPUT_REQUIRED"
  | TASK_STATE_REJECTED => "TASK_STATE_REJECTED"
  | TASK_STATE_AUTH_REQUIRED => "TASK_STATE_AUTH_REQUIRED"
  end.

Record TaskStatus := mkTaskStatus {
  ts_state : TaskState;
  ts_message : option json;
  ts_timestamp : option string
}.

(** The fields the store reads; [t_rest] is everything else. *)
Record Task := mkTask {
  t_id : string;
  t_contextId : string;
  t_status : option TaskStatus;
  t_artifacts : list json;
  t_rest : json
}.

Class TaskCodec := { toJSON : Task -> json; fromJSON : json -> outcome Task }.

Record TaskScope := mkScope { sc_tenant : string; sc_owner : string }.

#[export] Instance TaskScope_eq_dec : EqDecision TaskScope.
Proof. solve_decision. Defined.

Record ServerCallContext := mkContext { cx_tenant : option string; cx_userName : option string }.

Definition getScope (context : ServerCallContext) : outcome TaskScope :=
  match trim <$> cx_tenant context, trim <$> cx_userName context with
  | Some tenant, Some owner =>
      if bool_decide (tenant = "") || bool_decide (owner = "")
      then Throw (mkError "Error" "A2A task access requires both tenant and caller scope")
      else Ret (mkScope tenant owner)
  | _, _ => Throw (mkError "Error" "A2A task access requires both tenant and caller scope")
  end.

(** [isPersistedEnvelope], with the fields of the envelope *)
Definition isPersistedEnvelope (value : json) : option (TaskScope * json) :=
  match value with
  | JObj candidate =>
      if decide (obj_get candidate "persistenceVersion" = Some (JNum (JInt 1))) then
        match obj_get candidate "scope", obj_get candidate "task" with
        | Some (JObj scope), Some task =>
            match as_string (obj_get scope "tenant"), as_string (obj_get scope "owner") with
            | Some tenant, Some owner => Some (mkScope tenant owner, task)
            | _, _ => None
            end
        | _, _ => None
        end
      else None
  | _ => None
  end.

(** [value.replace(PG_UNREPRESENTABLE, '')]: of the three alternatives only U+0000 is a code
    unit below 256. *)
Fixpoint strip (s : string) : string :=
  match s with
  | EmptyString => EmptyString
  | String c s' => if (nat_of_ascii c =? 0)%nat then strip s' else String c (strip s')
  end.

(** [encodeEnvelope]: the replacer of [JSON.stringify] sees values, not keys. *)
Fixpoint encodeEnvelope (v : json) : json :=
  match v with
  | JStr s => JStr (strip s)
  | JArr l => JArr (map encodeEnvelope l)
  | JObj o => JObj (map (fun kv => (kv.1, encodeEnvelope kv.2)) o)
  | _ => v
  end.

Definition envelope (scope : TaskScope) (task : json) : json :=
  JObj [("persistenceVersion", JNum (JInt 1));
        ("scope", JObj [("tenant", JStr (sc_tenant scope)); ("owner", JStr (sc_owner scope))]);
        ("task", task)].

(** [JSON.parse(data)] *)
Definition parse_data (data : option json) : outcome json :=
  match data with Some v => Ret v | None => Throw (mkError "SyntaxError" "Unexpected token") end.

Definition decodeEnvelope (data : option json) : outcome (option (TaskScope * json)) :=
  match parse_data data with Ret v => Ret (isPersistedEnvelope v) | Throw e => Throw e end.

(** ** The table *)

Record TaskRow := mkTaskRow { tr_data : option json; tr_createdAt : Z; tr_updatedAt : Z }.

Record Store := mkStore { st_rows : gmap string TaskRow; st_lastCleanupAt : Z }.

Definition set_rows (f : gmap string TaskRow -> gmap string TaskRow) (s : Store) : Store :=
  mkStore (f (st_rows s)) (st_lastCleanupAt s).

Definition CLEANUP_INTERVAL_MS : Z := 60 * 60 * 1000.

(** [update(a2aTasks).set({ data, updatedAt }).where(eq(id, taskId))] *)
Definition update_task (taskId : string) (data : json) (now : Z) : M Store unit :=
  modify (set_rows (alter (fun row => mkTaskRow (Some data) (tr_createdAt row) now) taskId)).

Definition cleanup (now maxAgeDays : Z) : M Store nat := fun s =>
  let cutoff := (now - maxAgeDays * 24 * 60 * 60 * 1000)%Z in
  let deleted := filter (fun kv => tr_updatedAt kv.2 < cutoff)%Z (st_rows s) in
  (Ret (size deleted), set_rows (filter (fun kv => ~ (tr_updatedAt kv.2 < cutoff)%Z)) s).

Section Operations.
Context `{TaskCodec}.
Context (toISOString : Z -> string).

Definition encodeTask (task : Task) (scope : TaskScope) : json :=
  encodeEnvelope (envelope scope (toJSON task)).

Definition decodeScopedTask (data : option json) (scope : TaskScope) : outcome (option Task) :=
  match decodeEnvelope data with
  | Throw e => Throw e
  | Ret None => Ret None
  | Ret (Some (owner, task)) =>
      if decide (owner = scope) then
        match fromJSON task with Ret t => Ret (Some t) | Throw e => Throw e end
      else Ret None
  end.

Definition already_owned : JsError :=
  mkError "Error" "A2A task ID is already owned by another caller scope".

Definition save (now : Z) (task : Task) (context : ServerCallContext) : M Store unit :=
  scope ← settle (getScope context);
  existing ← gets (fun s => st_rows s !! t_id task);
  _ ← match existing with
      | Some row =>
          match decodeEnvelope (tr_data row) with
          | Ret (Some (owner, _)) =>
              if decide (owner = scope) then update_task (t_id task) (encodeTask task scope) now
              else throw already_owned
          | _ => throw already_owned
          end
      | None =>
          modify (set_rows (insert (t_id task) (mkTaskRow (Some (encodeTask task scope)) now now)))
      end;
  last ← gets st_lastCleanupAt;
  if (CLEANUP_INTERVAL_MS <? now - last)%Z then
    _ ← modify (fun s => mkStore (st_rows s) now);
    _ ← cleanup now 14;
    mret tt
  else mret tt.

(** The scope is read inside the [try]: a call without one finds nothing. *)
Definition load (taskId : string) (context : ServerCallContext) : M Store (option Task) :=
  gets (fun s =>
    match st_rows s !! taskId with
    | None => None
    | Some row =>
        match getScope context with
        | Throw _ => None
        | Ret scope =>
            match decodeScopedTask (tr_data row) scope with Ret t => t | Throw _ => None end
        end
    end).

Definition settled_state (s : TaskState) : bool :=
  match s with
  | TASK_STATE_FAILED | TASK_STATE_COMPLETED | TASK_STATE_CANCELED | TASK_STATE_REJECTED => true
  | _ => false
  end.

(** The status [markTaskFailed] gives a task; the role is written by its name. *)
Definition failed_status (now : Z) (task : Task) (reasonMessage : string) : TaskStatus :=
  mkTaskStatus TASK_STATE_FAILED
    (Some (JObj [("messageId", JStr ("recovery-" +:+ pretty now)); ("role", JStr "ROLE_AGENT");
       ("parts", JArr [JObj [("content", JObj [("$case", JStr "text"); ("value", JStr reasonMessage)]);
                             ("mediaType", JStr "text/plain"); ("filename", JStr "")]]);
       ("taskId", JStr (t_id task)); ("contextId", JStr (t_contextId task));
       ("extensions", JArr []); ("referenceTaskIds", JArr [])]))
    (Some (toISOString now)).

Definition with_task_status (st : TaskStatus) (t : Task) : Task :=
  mkTask (t_id t) (t_contextId t) (Some st) (t_artifacts t) (t_rest t).

Definition legacy_settled (state : option json) : bool :=
  match as_string state with
  | Some s => bool_decide (s ∈ ["failed"; "completed"; "canceled"; "rejected"])
  | None => false
  end.

(** [x ?? y] *)
Definition json_or (x : option json) (y : json) : json :=
  match x with None | Some JNull => y | Some v => v end.

Definition legacy_failed (now : Z) (task : js_object) (id : json) (reasonMessage : string)
    : js_object :=
  obj_set task "status" (JObj [("state", JStr "failed");
    ("message", JObj [("kind", JStr "message"); ("messageId", JStr ("recovery-" +:+ pretty now));
       ("role", JStr "agent");
       ("parts", JArr [JObj [("kind", JStr "text"); ("text", JStr reasonMessage)]]);
       ("taskId", id); ("contextId", json_or (obj_get task "contextId") (JStr ""))]);
    ("timestamp", JStr (toISOString now))]).

Definition mark_legacy (now : Z) (taskId : string) (parsed : json) (reasonMessage : string)
    : M Store bool :=
  match parsed with
  | JNull => throw (mkError "TypeError" "Cannot read properties of null")
  | JObj legacyTask =>
      let state := as_object (obj_get legacyTask "status") ≫= fun st => obj_get st "state" in
      if legacy_settled state then mret false
      else if negb (truthy (obj_get legacyTask "id")) then mret false
      else
        let id := json_or (obj_get legacyTask "id") JNull in
        _ ← update_task taskId (encodeEnvelope (JObj (legacy_failed now legacyTask id reasonMessage))) now;
        mret true
  | _ => mret false
  end.

Definition markTaskFailed (now : Z) (taskId reasonMessage : string) : M Store bool :=
  row ← gets (fun s => st_rows s !! taskId);
  match row with
  | None => mret false
  | Some row =>
      match tr_data row with
      | None => mret false
      | Some parsed =>
          match isPersistedEnvelope parsed with
          | Some (scope, json_task) =>
              task ← settle (fromJSON json_task);
              if from_option (fun st => settled_state (ts_state st)) false (t_status task)
              then mret false
              else
                _ ← update_task taskId
                      (encodeTask (with_task_status (failed_status now task reasonMessage) task) scope)
                      now;
                mret true
          | None => mark_legacy now taskId parsed reasonMessage
          end
      end
  end.
End Operations.

(** ** Listing *)

(** A boolean test on text that the database and the language agree on *)
Definition str_lt (a b : string) : bool := String.ltb a b.

Record TaskPageCursor := mkCursor { pc_statusTimestamp : string; pc_taskId : string }.

(** [Buffer.from(JSON.stringify(v), 'utf8').toString('base64url')] and the way back, [Throw] where
    [JSON.parse] throws *)
Class PageText := { token_of : json -> string; json_of : string -> outcome json }.

Definition cursor_json (statusTimestamp taskId : string) : json :=
  JObj [("version", JNum (JInt 1)); ("statusTimestamp", JStr statusTimestamp); ("taskId", JStr taskId)].

Definition encodePageCursor `{PageText} (statusTimestamp taskId : string) : string :=
  token_of (cursor_json statusTimestamp taskId).

(** [/^[A-Za-z0-9_-]+$/] on a non-empty string *)
Fixpoint token_chars (s : string) : bool :=
  match s with
  | EmptyString => true
  | String c s' =>
      (is_word c || bool_decide (c = "-"%char)) && token_chars s'
  end.

Definition malformed_token : JsError := mkError "RequestMalformedError" "Invalid A2A task page token".

Definition parsePageCursor `{PageText} (pageToken : string) : outcome (option TaskPageCursor) :=
  if decide (pageToken = "") then Ret None
  else if (4096 <? Z.of_nat (String.length pageToken))%Z || negb (token_chars pageToken)
  then Throw malformed_token
  else match json_of pageToken with
       | Throw _ => Throw malformed_token
       | Ret (JObj parsed) =>
           if decide (obj_get parsed "version" = Some (JNum (JInt 1))) then
             match as_string (obj_get parsed "statusTimestamp"), as_string (obj_get parsed "taskId") with
             | Some statusTimestamp, Some taskId =>
                 if bool_decide (taskId = "") ||
                    negb (String.eqb (encodePageCursor statusTimestamp taskId) pageToken)
                 then Throw malformed_token
                 else Ret (Some (mkCursor statusTimestamp taskId))
             | _, _ => Throw malformed_token
             end
           else Throw malformed_token
       | Ret _ => Throw malformed_token
       end.

Record ListTasksRequest := mkListRequest {
  lp_contextId : string;
  lp_status : option TaskState;
  lp_pageSize : option nat;
  lp_pageToken : string;
  lp_statusTimestampAfter : option string;
  lp_includeArtifacts : bool
}.

Record ListTasksResponse := mkListResponse {
  lr_tasks : list Task;
  lr_nextPageToken : string;
  lr_pageSize : nat;
  lr_totalSize : nat
}.

(** [json_extract(data, '$.a.b')] read as text: scalars of other types are not equal to any text,
    and an object or an array on these paths is not an envelope. *)
Fixpoint jsonExtractText (v : json) (path : list string) : option string :=
  match path with
  | [] => as_string (Some v)
  | k :: path' =>
      match v with
      | JObj o => obj_get o k ≫= fun v' => jsonExtractText v' path'
      | _ => None
      end
  end.

(** [json_extract] read as a number: a boolean counts as 0 or 1 in SQLite. *)
Definition jsonExtractNumber (v : json) (k : string) : option js_number :=
  match as_object (Some v) ≫= fun o => obj_get o k with
  | Some (JNum n) => Some n
  | Some (JBool b) => Some (JInt (if b then 1 else 0))
  | _ => None
  end.

Definition statusTimestamp_sql (data : json) : string :=
  default "" (jsonExtractText data ["task"; "status"; "timestamp"]).

(** [a.localeCompare(b)] of the second key when the first ties *)
Definition by_position (cmp : string -> string -> Z) (x y : string * string) : Z :=
  if decide (y.1 = x.1) then cmp y.2 x.2 else cmp y.1 x.1.

(** The order of the database as a comparator *)
Definition sql_compare (a b : string) : Z :=
  match String.compare a b with Lt => (-1)%Z | Eq => 0%Z | Gt => 1%Z end.

(** [orderBy(desc(statusTimestamp), desc(id))] *)
Definition row_position (kv : string * json) : string * string := (statusTimestamp_sql kv.2, kv.1).

Definition before_cursor (cursor : option TaskPageCursor) (position : string * string) : bool :=
  match cursor with
  | None => true
  | Some c =>
      str_lt position.1 (pc_statusTimestamp c) ||
      bool_decide (position.1 = pc_statusTimestamp c) && str_lt position.2 (pc_taskId c)
  end.

(** The rows with text that parses, or the error SQLite raises on the first that does not *)
Definition parsed_rows (rows : list (string * TaskRow)) : outcome (list (string * json)) :=
  foldr (fun kv acc =>
    match tr_data kv.2, acc with
    | Some v, Ret l => Ret ((kv.1, v) :: l)
    | None, _ => Throw (mkError "SqliteError" "malformed JSON")
    | _, Throw e => Throw e
    end) (Ret []) rows.

Section List.
Context `{TaskCodec} `{PageText}.
Context (localeCompare : string -> string -> Z) (toISOString : Z -> string)
  (Date_parse : string -> option Z).

Definition normalizeStatusTimestampAfter (value : option string) : outcome (option string) :=
  match value with
  | None | Some "" => Ret None
  | Some v =>
      match Date_parse v with
      | None => Throw (mkError "RequestMalformedError"
                  "statusTimestampAfter must be a valid ISO 8601 date string")
      | Some timestamp => Ret (Some (toISOString timestamp))
      end
  end.

Definition requestedStatus (params : ListTasksRequest) : TaskState :=
  default TASK_STATE_UNSPECIFIED (lp_status params).

(** The [where] clause; a comparison with an absent value is not true. *)
Definition list_filter (scope : TaskScope) (params : ListTasksRequest) (after : option string)
    (data : json) : bool :=
  bool_decide (jsonExtractNumber data "persistenceVersion" = Some (JInt 1)) &&
  bool_decide (jsonExtractText data ["scope"; "tenant"] = Some (sc_tenant scope)) &&
  bool_decide (jsonExtractText data ["scope"; "owner"] = Some (sc_owner scope)) &&
  (bool_decide (lp_contextId params = "") ||
   bool_decide (jsonExtractText data ["task"; "contextId"] = Some (lp_contextId params))) &&
  (bool_decide (requestedStatus params = TASK_STATE_UNSPECIFIED) ||
   bool_decide (jsonExtractText data ["task"; "status"; "state"] =
                Some (state_name (requestedStatus params)))) &&
  match after with
  | None => true
  | Some a => negb (str_lt (statusTimestamp_sql data) a)
  end.

Definition select_rows (scope : TaskScope) (params : ListTasksRequest) (after : option string)
    (cursor : option TaskPageCursor) (limit : nat) (rows : list (string * json))
    : list (string * json) :=
  take limit (js_sort (fun x y => by_position sql_compare (row_position x) (row_position y))
    (filter (fun kv => list_filter scope params after kv.2 && before_cursor cursor (row_position kv))
       rows)).

Definition task_timestamp (t : Task) : string := default "" (t_status t ≫= ts_timestamp).

Definition task_position (t : Task) : string * string := (task_timestamp t, t_id t).

(** The guards repeated on the decoded tasks *)
Definition task_visible (params : ListTasksRequest) (after : option string) (t : Task) : bool :=
  (bool_decide (lp_contextId params = "") || bool_decide (t_contextId t = lp_contextId params)) &&
  (bool_decide (requestedStatus params = TASK_STATE_UNSPECIFIED) ||
   bool_decide (ts_state <$> t_status t = Some (requestedStatus params))) &&
  match after with
  | None => true
  | Some a =>
      match t_status t ≫= ts_timestamp with
      | None | Some "" => false
      | Some timestamp =>
          match Date_parse timestamp, Date_parse a with
          | Some x, Some y => (y <=? x)%Z
          | _, _ => false
          end
      end
  end.

Definition decoded (scope : TaskScope) (data : json) : option Task :=
  match decodeScopedTask (Some data) scope with Ret t => t | Throw _ => None end.

Definition visible_tasks (scope : TaskScope) (params : ListTasksRequest) (after : option string)
    (rows : list (string * json)) : list Task :=
  js_sort (fun x y => by_position localeCompare (task_position x) (task_position y))
    (filter (task_visible params after) (omap (fun kv => decoded scope kv.2) rows)).

Definition shown (params : ListTasksRequest) (t : Task) : Task :=
  if lp_includeArtifacts params then t
  else mkTask (t_id t) (t_contextId t) (t_status t) [] (t_rest t).

Definition respond (params : ListTasksRequest) (pageSize totalSize : nat)
    (cursor : option TaskPageCursor) (fetched : nat) (visible : list Task) : ListTasksResponse :=
  let remainingTasks := filter (fun t => before_cursor cursor (task_position t)) visible in
  let page := take pageSize remainingTasks in
  mkListResponse (shown params <$> page)
    (match last page with
     | Some lastItem =>
         if (pageSize <? fetched)%nat || (length page <? length remainingTasks)%nat
         then encodePageCursor (task_timestamp lastItem) (t_id lastItem) else ""
     | None => ""
     end) pageSize totalSize.

Definition list_tasks (params : ListTasksRequest) (context : ServerCallContext)
    : M Store ListTasksResponse :=
  scope ← settle (getScope context);
  cursor ← settle (parsePageCursor (lp_pageToken params));
  after ← settle (normalizeStatusTimestampAfter (lp_statusTimestampAfter params));
  table ← gets (fun s => parsed_rows (map_to_list (st_rows s)));
  rows ← settle table;
  let totalSize := length (filter (fun kv => list_filter scope params after kv.2) rows) in
  let pageSize := default 50%nat (lp_pageSize params) in
  let fetched := select_rows scope params after cursor (S pageSize) rows in
  mret (respond params pageSize totalSize cursor (length fetched)
          (visible_tasks scope params after fetched)).
End List.

(** ** What the store promises

    A table of entries by task id: a task owned by a scope, or a row that is no envelope (written
    before tasks had scopes), which nobody can read. *)

Inductive Content := Owned (scope : TaskScope) (task : Task) | Opaque.

Record Entry := mkEntry { e_content : Content; e_touched : Z }.

Record Spec := mkSpec { sp_entries : gmap string Entry; sp_lastCleanupAt : Z }.

Inductive task_op :=
| OpSave (task : Task) (context : ServerCallContext)
| OpLoad (taskId : string) (context : ServerCallContext)
| OpMark (taskId reason : string)
| OpCleanup (days : Z).

Inductive answer := Saved | Refused | Loaded (t : option Task) | Marked (b : bool) | Removed (n : nat).

(** What of a task survives storage: every string without the code points PostgreSQL cannot hold *)
Definition strip_status (st : TaskStatus) : TaskStatus :=
  mkTaskStatus (ts_state st) (encodeEnvelope <$> ts_message st) (strip <$> ts_timestamp st).

Definition strip_task (t : Task) : Task :=
  mkTask (strip (t_id t)) (strip (t_contextId t)) (strip_status <$> t_status t)
    (encodeEnvelope <$> t_artifacts t) (encodeEnvelope (t_rest t)).

Definition expire (now days : Z) (entries : gmap string Entry) : gmap string Entry :=
  filter (fun kv => ~ (e_touched kv.2 < now - days * 24 * 60 * 60 * 1000)%Z) entries.

(** The hourly expiry a save carries *)
Definition tidied (now : Z) (entries : gmap string Entry) (last : Z) : Spec :=
  if (CLEANUP_INTERVAL_MS <? now - last)%Z then mkSpec (expire now 14 entries) now
  else mkSpec entries last.

Definition owned_by (scope : TaskScope) (c : option Entry) : Prop :=
  match c with
  | None => True
  | Some e => match e_content e with Owned owner _ => owner = scope | Opaque => False end
  end.

Definition visible_to (scope : TaskScope) (c : option Entry) : option Task :=
  match e_content <$> c with
  | Some (Owned owner t) => if decide (owner = scope) then Some t else None
  | _ => None
  end.

Section Spec.
Context (toISOString : Z -> string).

Inductive spec_step (now : Z) (sp : Spec) : task_op -> answer -> Spec -> Prop :=
| spec_save task context scope :
    getScope context = Ret scope -> owned_by scope (sp_entries sp !! t_id task) ->
    spec_step now sp (OpSave task context) Saved
      (tidied now (<[t_id task := mkEntry (Owned scope (strip_task task)) now]> (sp_entries sp))
         (sp_lastCleanupAt sp))
| spec_save_refused task context :
    (forall scope, getScope context = Ret scope ->
       ~ owned_by scope (sp_entries sp !! t_id task)) ->
    spec_step now sp (OpSave task context) Refused sp
| spec_load taskId context scope :
    getScope context = Ret scope ->
    spec_step now sp (OpLoad taskId context)
      (Loaded (visible_to scope (sp_entries sp !! taskId))) sp
| spec_load_unscoped taskId context e :
    getScope context = Throw e ->
    spec_step now sp (OpLoad taskId context) (Loaded None) sp
| spec_mark taskId reason scope task touched :
    sp_entries sp !! taskId = Some (mkEntry (Owned scope task) touched) ->
    from_option (fun st => settled_state (ts_state st)) false (t_status task) = false ->
    spec_step now sp (OpMark taskId reason) (Marked true)
      (mkSpec (<[taskId := mkEntry (Owned scope (strip_task
                  (with_task_status (failed_status toISOString now task reason) task))) now]>
                 (sp_entries sp)) (sp_lastCleanupAt sp))
| spec_mark_settled taskId reason scope task touched :
    sp_entries sp !! taskId = Some (mkEntry (Owned scope task) touched) ->
    from_option (fun st => settled_state (ts_state st)) false (t_status task) = true ->
    spec_step now sp (OpMark taskId reason) (Marked false) sp
| spec_mark_missing taskId reason :
    sp_entries sp !! taskId = None -> spec_step now sp (OpMark taskId reason) (Marked false) sp
| spec_mark_opaque taskId reason touched :
    sp_entries sp !! taskId = Some (mkEntry Opaque touched) ->
    spec_step now sp (OpMark taskId reason) (Marked true)
      (mkSpec (<[taskId := mkEntry Opaque now]> (sp_entries sp)) (sp_lastCleanupAt sp))
| spec_mark_opaque_kept taskId reason touched a :
    sp_entries sp !! taskId = Some (mkEntry Opaque touched) -> a = Marked false \/ a = Refused ->
    spec_step now sp (OpMark taskId reason) a sp
| spec_cleanup days :
    spec_step now sp (OpCleanup days)
      (Removed (size (filter (fun kv => e_touched kv.2 < now - days * 24 * 60 * 60 * 1000)%Z
                        (sp_entries sp))))
      (mkSpec (expire now days (sp_entries sp)) (sp_lastCleanupAt sp)).
End Spec.

(** The protobuf mapping of tasks, as far as the store relies on it: decoding inverts encoding,
    strings are copied verbatim, and the three fields the queries read are where they read them. *)
Class TaskCodecLaws `{TaskCodec} : Prop := {
  codec_roundtrip t : fromJSON (toJSON t) = Ret t;
  codec_strings t : encodeEnvelope (toJSON t) = toJSON (strip_task t);
  codec_contextId t x : x <> "" ->
    jsonExtractText (toJSON t) ["contextId"] = Some x <-> t_contextId t = x;
  codec_state t st : st <> TASK_STATE_UNSPECIFIED ->
    jsonExtractText (toJSON t) ["status"; "state"] = Some (state_name st) <->
    ts_state <$> t_status t = Some st;
  codec_timestamp t :
    default "" (jsonExtractText (toJSON t) ["status"; "timestamp"]) = task_timestamp t
}.

Definition clean_scope (scope : TaskScope) : Prop :=
  strip (sc_tenant scope) = sc_tenant scope /\ strip (sc_owner scope) = sc_owner scope.

Section Refinement.
Context `{TaskCodec} `{!TaskCodecLaws} (toISOString : Z -> string).

Definition run_op (now : Z) (op : task_op) (s : Store) : answer * Store :=
  match op with
  | OpSave task context =>
      let '(o, s') := save now task context s in
      (match o with Ret _ => Saved | Throw _ => Refused end, s')
  | OpLoad taskId context =>
      let '(o, s') := load taskId context s in
      (match o with Ret t => Loaded t | Throw _ => Refused end, s')
  | OpMark taskId reason =>
      let '(o, s') := markTaskFailed toISOString now taskId reason s in
      (match o with Ret b => Marked b | Throw _ => Refused end, s')
  | OpCleanup days =>
      let '(o, s') := cleanup now days s in
      (match o with Ret n => Removed n | Throw _ => Refused end, s')
  end.

(** A row is JSON text: an envelope the store wrote, or a bare task without a version, written
    before there were envelopes. *)
Definition row_ok (id : string) (row : TaskRow) : Prop :=
  exists v, tr_data row = Some v /\
    match isPersistedEnvelope v with
    | Some (scope, tj) =>
        exists t, v = envelope scope (toJSON t) /\ tj = toJSON t /\ t_id t = id /\
          strip_task t = t /\ clean_scope scope
    | None => jsonExtractNumber v "persistenceVersion" = None
    end.

Definition store_ok (s : Store) : Prop := map_Forall row_ok (st_rows s).

Definition content_of (row : TaskRow) : Content :=
  match tr_data row ≫= isPersistedEnvelope with
  | Some (scope, tj) => match fromJSON tj with Ret t => Owned scope t | Throw _ => Opaque end
  | None => Opaque
  end.

Definition abs_row (row : TaskRow) : Entry := mkEntry (content_of row) (tr_updatedAt row).

Definition abs (s : Store) : Spec := mkSpec (abs_row <$> st_rows s) (st_lastCleanupAt s).

(** The strings that identify a task and its scope survive storage. *)
Definition op_clean (op : task_op) : Prop :=
  match op with
  | OpSave task context =>
      strip (t_id task) = t_id task /\
      forall scope, getScope context = Ret scope -> clean_scope scope
  | _ => True
  end.

Lemma strip_idem s : strip (strip s) = strip s.
Proof.
  induction s as [|c s IH]; simpl; [done|]. case_match eqn:Hc; [done|]. simpl. by rewrite Hc, IH.
Qed.

Lemma encode_idem v : encodeEnvelope (encodeEnvelope v) = encodeEnvelope v.
Proof.
  revert v. fix IH 1. intros [| b | n | s | l | o]; simpl; try done.
  - by rewrite strip_idem.
  - f_equal. induction l as [|v l IHl]; simpl; [done|]. by rewrite IH, IHl.
  - f_equal. induction o as [|[k v] o IHo]; simpl; [done|]. by rewrite IH, IHo.
Qed.

Lemma strip_task_idem t : strip_task (strip_task t) = strip_task t.
Proof.
  unfold strip_task. simpl. rewrite !strip_idem, encode_idem. f_equal.
  - destruct (t_status t) as [[st m ts]|]; simpl; [|done]. unfold strip_status. simpl.
    do 2 f_equal; [destruct m|destruct ts]; simpl; by rewrite ?encode_idem, ?strip_idem.
  - rewrite <- list_fmap_compose. apply list_fmap_ext. intros i x _. apply encode_idem.
Qed.

Lemma envelope_is_persisted scope tj : isPersistedEnvelope (envelope scope tj) = Some (scope, tj).
Proof. by destruct scope. Qed.

Lemma encodeTask_eq scope t :
  clean_scope scope -> encodeTask t scope = envelope scope (toJSON (strip_task t)).
Proof.
  intros [Ht Ho]. unfold encodeTask, envelope. simpl. by rewrite Ht, Ho, codec_strings.
Qed.

Lemma decode_envelope_data scope t :
  decodeEnvelope (Some (envelope scope (toJSON t))) = Ret (Some (scope, toJSON t)).
Proof. unfold decodeEnvelope, parse_data. by rewrite envelope_is_persisted. Qed.

(** The two kinds of rows *)
Lemma row_ok_cases id row :
  row_ok id row ->
  (exists scope t, tr_data row = Some (envelope scope (toJSON t)) /\
     content_of row = Owned scope t /\ t_id t = id /\ strip_task t = t /\ clean_scope scope) \/
  (exists v, tr_data row = Some v /\ (isPersistedEnvelope v = None /\
     jsonExtractNumber v "persistenceVersion" = None) /\ content_of row = Opaque).
Proof.
  intros (v & Hv & Henv). unfold content_of. rewrite Hv. simpl.
  destruct (isPersistedEnvelope v) as [[scope tj]|] eqn:He; [left|right; by exists v].
  destruct Henv as (t & -> & -> & Hid & Hs & Hc).
  exists scope, t. rewrite codec_roundtrip. done.
Qed.

Lemma written_row_ok scope t created now :
  clean_scope scope -> strip (t_id t) = t_id t ->
  row_ok (t_id t) (mkTaskRow (Some (encodeTask t scope)) created now).
Proof.
  intros Hc Hid. exists (encodeTask t scope). split; [done|]. rewrite encodeTask_eq by done.
  rewrite envelope_is_persisted. exists (strip_task t). by rewrite strip_task_idem.
Qed.

Lemma written_row_abs scope t created now :
  clean_scope scope ->
  abs_row (mkTaskRow (Some (encodeTask t scope)) created now) =
  mkEntry (Owned scope (strip_task t)) now.
Proof.
  intros Hc. unfold abs_row, content_of. cbn [tr_data tr_updatedAt mbind option_bind].
  rewrite encodeTask_eq by done.
  by rewrite envelope_is_persisted, codec_roundtrip.
Qed.

Lemma update_task_run taskId data now s :
  update_task taskId data now s =
  (Ret tt, set_rows (alter (fun row => mkTaskRow (Some data) (tr_createdAt row) now) taskId) s).
Proof. done. Qed.

Lemma alter_hit (rows : gmap string TaskRow) taskId row f :
  rows !! taskId = Some row -> alter f taskId rows = <[taskId := f row]> rows.
Proof.
  intros Hr. apply map_eq. intros k. destruct (decide (k = taskId)) as [->|Hne].
  - by rewrite lookup_alter_eq, lookup_insert_eq, Hr.
  - by rewrite lookup_alter_ne, lookup_insert_ne by done.
Qed.

Lemma abs_lookup s k : sp_entries (abs s) !! k = abs_row <$> st_rows s !! k.
Proof. apply lookup_fmap. Qed.

Lemma cleanup_abs now days s :
  let cutoff := (now - days * 24 * 60 * 60 * 1000)%Z in
  size (filter (fun kv => tr_updatedAt kv.2 < cutoff)%Z (st_rows s)) =
    size (filter (fun kv => e_touched kv.2 < cutoff)%Z (sp_entries (abs s))) /\
  abs (set_rows (filter (fun kv => ~ (tr_updatedAt kv.2 < cutoff)%Z)) s) =
    mkSpec (expire now days (sp_entries (abs s))) (st_lastCleanupAt s).
Proof.
  simpl. split.
  - by rewrite map_filter_fmap, map_size_fmap.
  - unfold abs, expire. simpl. f_equal. by rewrite map_filter_fmap.
Qed.

Lemma store_ok_insert s id row : store_ok s -> row_ok id row -> store_ok (set_rows (insert id row) s).
Proof. intros Hs Hr. by apply map_Forall_insert_2. Qed.

Lemma store_ok_filter s P `{!forall x, Decision (P x)} :
  store_ok s -> store_ok (set_rows (filter P) s).
Proof. intros Hs k row [Hk _]%map_lookup_filter_Some. by apply Hs. Qed.

(** The expiry that ends a save *)
Lemma tidy_abs now s o s' :
  (last ← gets st_lastCleanupAt;
   if (CLEANUP_INTERVAL_MS <? now - last)%Z then
     _ ← modify (fun s => mkStore (st_rows s) now); _ ← cleanup now 14; mret tt
   else mret tt) s = (o, s') ->
  store_ok s ->
  o = Ret tt /\ store_ok s' /\ abs s' = tidied now (sp_entries (abs s)) (st_lastCleanupAt s).
Proof.
  unfold mbind, M_bind, gets, modify, tidied. simpl.
  destruct (_ <? _)%Z; intros [= <- <-] Hs; [|done]. split_and!; [done|by apply store_ok_filter|].
  by apply (cleanup_abs now 14 (mkStore (st_rows s) now)).
Qed.

Lemma abs_insert s id row :
  abs (set_rows (insert id row) s) =
  mkSpec (<[id := abs_row row]> (sp_entries (abs s))) (sp_lastCleanupAt (abs s)).
Proof. unfold abs. simpl. f_equal. apply fmap_insert. Qed.

(** A row is updated in place. *)
Lemma update_task_insert taskId data now s row :
  st_rows s !! taskId = Some row ->
  set_rows (alter (fun row => mkTaskRow (Some data) (tr_createdAt row) now) taskId) s =
  set_rows (insert taskId (mkTaskRow (Some data) (tr_createdAt row) now)) s.
Proof. intros Hr. unfold set_rows. f_equal. by erewrite alter_hit. Qed.

(** What a save does to the row of the task, before it tidies up *)
Lemma save_write now task context s s' o scope :
  getScope context = Ret scope -> clean_scope scope -> strip (t_id task) = t_id task -> store_ok s ->
  save now task context s = (o, s') ->
  (owned_by scope (sp_entries (abs s) !! t_id task) /\ o = Ret tt /\ store_ok s' /\
   abs s' = tidied now (<[t_id task := mkEntry (Owned scope (strip_task task)) now]>
              (sp_entries (abs s))) (sp_lastCleanupAt (abs s))) \/
  (~ owned_by scope (sp_entries (abs s) !! t_id task) /\ o = Throw already_owned /\ s' = s).
Proof.
  intros Hsc Hc Hid Hs. unfold save. rewrite Hsc, abs_lookup.
  assert (forall row, store_ok (set_rows (insert (t_id task)
    (mkTaskRow (Some (encodeTask task scope)) (tr_createdAt row) now)) s)) as Hok.
  { intros row. apply store_ok_insert; [done|]. by apply written_row_ok. }
  unfold mbind at 1, M_bind at 1, settle. simpl.
  unfold mbind at 1, M_bind at 1, gets at 1.
  destruct (st_rows s !! t_id task) as [row|] eqn:Hr; simpl.
  - destruct (row_ok_cases _ _ (Hs _ _ Hr)) as
      [(owner & t & Hd & Hcon & Ht & _ & _)|(v & Hd & [Henv Hver] & Hcon)]; rewrite Hcon, Hd.
    + rewrite decode_envelope_data. simpl. destruct (decide (owner = scope)) as [->|Hne].
      * unfold mbind at 1, M_bind at 1. rewrite update_task_run, (update_task_insert _ _ _ _ _ Hr).
        intros (-> & Hok' & ->)%tidy_abs; [left|done]. split_and!; try done.
        by rewrite abs_insert, written_row_abs.
      * intros [= <- <-]. right. done.
    + unfold decodeEnvelope. simpl. rewrite Henv. intros [= <- <-]. right. by split; [intros []|].
  - unfold mbind at 1, M_bind at 1, modify at 1.
    intros (-> & Hok' & ->)%tidy_abs; [left|by apply (Hok (mkTaskRow None now 0))].
    split_and!; try done. by rewrite abs_insert, written_row_abs.
Qed.

Lemma load_abs taskId context scope s :
  store_ok s -> getScope context = Ret scope ->
  load taskId context s = (Ret (visible_to scope (sp_entries (abs s) !! taskId)), s).
Proof.
  intros Hs Hsc. unfold load, gets, visible_to. rewrite Hsc, abs_lookup.
  destruct (st_rows s !! taskId) as [row|] eqn:Hr; simpl; [|done].
  destruct (row_ok_cases _ _ (Hs _ _ Hr)) as
    [(owner & t & Hd & Hcon & _)|(v & Hd & [Henv Hver] & Hcon)]; rewrite Hcon, Hd;
    unfold decodeScopedTask.
  - rewrite decode_envelope_data. case_decide; [|done]. by rewrite codec_roundtrip.
  - unfold decodeEnvelope. simpl. by rewrite Henv.
Qed.

Lemma mark_envelope now taskId reason s o s' row scope t :
  store_ok s -> st_rows s !! taskId = Some row ->
  tr_data row = Some (envelope scope (toJSON t)) -> t_id t = taskId -> strip_task t = t ->
  clean_scope scope ->
  markTaskFailed toISOString now taskId reason s = (o, s') ->
  if from_option (fun st => settled_state (ts_state st)) false (t_status t)
  then o = Ret false /\ s' = s
  else o = Ret true /\ store_ok s' /\
       abs s' = mkSpec (<[taskId := mkEntry (Owned scope (strip_task (with_task_status
                           (failed_status toISOString now t reason) t))) now]> (sp_entries (abs s)))
                  (sp_lastCleanupAt (abs s)).
Proof.
  intros Hs Hr Hd Hid Hst Hc. unfold markTaskFailed, mbind, M_bind, gets, settle.
  rewrite Hr, Hd, envelope_is_persisted, codec_roundtrip.
  destruct (from_option _ _ _); [by intros [= <- <-]|].
  rewrite update_task_run, (update_task_insert _ _ _ _ _ Hr). intros [= <- <-].
  split_and!; [done| |].
  - apply store_ok_insert; [done|]. subst taskId.
    apply (written_row_ok scope (with_task_status _ t)); [done|]. simpl.
    by rewrite <- (f_equal t_id Hst) at 2.
  - by rewrite abs_insert, written_row_abs.
Qed.

(** A rewritten legacy row is still no envelope. *)
Lemma obj_get_encode (o : js_object) k :
  obj_get (map (fun kv => (kv.1, encodeEnvelope kv.2)) o) k = encodeEnvelope <$> obj_get o k.
Proof. induction o as [|[k' v] o IH]; simpl; [done|]. by case_decide. Qed.

Lemma encode_number v n : encodeEnvelope v = JNum n <-> v = JNum n.
Proof. by destruct v. Qed.

Lemma encode_persisted (o : js_object) :
  isPersistedEnvelope (JObj o) = None -> isPersistedEnvelope (encodeEnvelope (JObj o)) = None.
Proof.
  simpl. rewrite !obj_get_encode.
  destruct (obj_get o "persistenceVersion") as [v|]; [|done].
  destruct (decide (v = JNum (JInt 1))) as [->|Hv].
  - destruct (obj_get o "scope") as [[]|]; simpl; try done.
    destruct (obj_get o "task"); simpl; [|done]. rewrite !obj_get_encode.
    destruct (obj_get _ "tenant") as [[]|]; simpl; try done.
    by destruct (obj_get _ "owner") as [[]|].
  - intros _. cbn [fmap option_fmap option_map]. rewrite decide_False; [done|]. intros Heq. apply Hv, encode_number.
    congruence.
Qed.

Lemma legacy_stays_opaque now o id reason (w := encodeEnvelope (JObj (legacy_failed toISOString now o id reason))) :
  isPersistedEnvelope (JObj o) = None -> jsonExtractNumber (JObj o) "persistenceVersion" = None ->
  isPersistedEnvelope w = None /\ jsonExtractNumber w "persistenceVersion" = None.
Proof.
  intros Ho Hv. split.
  - apply encode_persisted. unfold legacy_failed, isPersistedEnvelope in *. by rewrite !obj_get_set_ne.
  - revert Hv. unfold w, jsonExtractNumber. cbn [encodeEnvelope as_object mbind option_bind].
    rewrite obj_get_encode. unfold legacy_failed. rewrite obj_get_set_ne by done.
    by destruct (obj_get o "persistenceVersion") as [[]|].
Qed.

Lemma mark_opaque now taskId reason s a s' row v :
  store_ok s -> st_rows s !! taskId = Some row -> tr_data row = Some v ->
  isPersistedEnvelope v = None -> jsonExtractNumber v "persistenceVersion" = None ->
  markTaskFailed toISOString now taskId reason s = (a, s') ->
  (a = Ret true /\ store_ok s' /\
   abs s' = mkSpec (<[taskId := mkEntry Opaque now]> (sp_entries (abs s))) (sp_lastCleanupAt (abs s)))
  \/ s' = s /\ (a = Ret false \/ exists e, a = Throw e).
Proof.
  intros Hs Hr Hd Henv Hver. unfold markTaskFailed. unfold mbind at 1, M_bind at 1, gets.
  rewrite Hr, Hd, Henv. unfold mark_legacy.
  destruct v as [| | | | |o]; try (intros [= <- <-]; right; eauto; fail).
  destruct (legacy_settled _); [intros [= <- <-]; right; eauto|].
  destruct (negb _); [intros [= <- <-]; right; eauto|].
  set (w := encodeEnvelope _).
  destruct (legacy_stays_opaque now o (json_or (obj_get o "id") JNull) reason Henv Hver) as [Hw Hwv].
  fold w in Hw, Hwv.
  unfold mbind, M_bind. rewrite update_task_run, (update_task_insert _ _ _ _ _ Hr).
  intros [= <- <-]. left. split_and!; [done| |].
  - apply store_ok_insert; [done|]. exists w. split; [done|]. by rewrite Hw.
  - rewrite abs_insert. unfold abs_row, content_of. cbn [tr_data tr_updatedAt mbind option_bind].
    by rewrite Hw.
Qed.

End Refinement.

(** ** The order of a listing *)

Lemma str_lt_spec a b : str_lt a b = true <-> String.le a b /\ a <> b.
Proof.
  unfold str_lt, String.ltb, String.le, String.leb.
  destruct (String.compare a b) eqn:Hc; simpl.
  - split; [done|]. intros [_ Hne]. by apply String.compare_eq_iff in Hc.
  - split; [|done]. intros _. split; [done|]. intros ->.
    assert (String.compare b b = Eq) by (pose proof (String.compare_antisym b b); by destruct (String.compare b b)).
    congruence.
  - split; [done|]. by intros [[] _].
Qed.

Lemma str_lt_total a b : str_lt a b = true \/ a = b \/ str_lt b a = true.
Proof.
  rewrite !str_lt_spec. destruct (decide (a = b)); [auto|].
  destruct (total String.le a b); auto.
Qed.

Lemma sql_compare_le a b : (sql_compare a b <= 0)%Z <-> String.le a b.
Proof.
  unfold sql_compare, String.le, String.leb. destruct (String.compare a b); simpl; split; try done; lia.
Qed.

Lemma sql_compare_pos a b : (0 < sql_compare a b)%Z -> String.le b a.
Proof.
  intros Hp. destruct (total String.le a b) as [Hle|]; [|done]. apply sql_compare_le in Hle. lia.
Qed.

(** [p] is listed no later than [q]. *)
Definition newer (p q : string * string) : Prop := (by_position sql_compare p q <= 0)%Z.

Lemma newer_spec p q :
  newer p q <-> str_lt q.1 p.1 = true \/ q.1 = p.1 /\ String.le q.2 p.2.
Proof.
  unfold newer, by_position. rewrite str_lt_spec. case_decide as Hd; rewrite sql_compare_le; naive_solver.
Qed.

#[export] Instance newer_trans : Transitive newer.
Proof.
  intros p q r. rewrite !newer_spec, !str_lt_spec.
  intros [[H1 H2]|[H1 H2]] [[H3 H4]|[H3 H4]].
  - left. split; [by etrans|]. intros Heq. rewrite Heq in *. apply H2. by apply (anti_symm String.le).
  - left. by rewrite H3.
  - left. by rewrite <- H1.
  - right. split; [congruence|]. by etrans.
Qed.

Lemma newer_antisym p q : newer p q -> newer q p -> p = q.
Proof.
  rewrite !newer_spec, !str_lt_spec. intros H1 H2. destruct p as [a b], q as [c d]. simpl in *.
  destruct H1 as [[H1 Hn]|[-> H1]], H2 as [[H2 Hm]|[Heq H2]]; subst; try done.
  - exfalso. apply Hn. by apply (anti_symm String.le).
  - f_equal. by apply (anti_symm String.le).
Qed.

Lemma newer_refl p : newer p p.
Proof. apply newer_spec. right. split; [done|]. reflexivity. Qed.

Lemma before_cursor_spec c p :
  before_cursor (Some (mkCursor c.1 c.2)) p = true <-> newer c p /\ c <> p.
Proof.
  unfold before_cursor. simpl. rewrite newer_spec, orb_true_iff, andb_true_iff, bool_decide_eq_true.
  rewrite !str_lt_spec. destruct c as [a b], p as [d e]. simpl. split.
  - intros [[H1 H2]|(-> & H1 & H2)]; [split; [auto|congruence]|]. split; [auto|congruence].
  - intros [[H1|[-> H1]] Hne]; [auto|]. right. split_and!; [done..|]. congruence.
Qed.

Lemma newer_compare x y : (0 < by_position sql_compare x y)%Z -> newer y x.
Proof.
  unfold newer, by_position. intros Hp. destruct (decide (y.1 = x.1)) as [He|He].
  - rewrite decide_True by done. apply sql_compare_pos in Hp. by apply sql_compare_le.
  - rewrite decide_False by congruence. apply sql_compare_pos in Hp. by apply sql_compare_le.
Qed.

(** ** Sorting and cutting *)

Section Cut.
Context {A : Type} (R : A -> A -> Prop) `{!Transitive R}.

(** Past an element of a strictly sorted list are exactly the elements it precedes. *)
Lemma filter_past (P : A -> Prop) `{!forall x, Decision (P x)} l1 x l2 :
  StronglySorted R (l1 ++ x :: l2) ->
  (forall y, y ∈ l1 -> ~ P y) -> ~ P x -> (forall y, R x y -> y ∈ l2 -> P y) ->
  filter P (l1 ++ x :: l2) = l2.
Proof.
  intros Hs H1 Hx H2. rewrite filter_app, filter_cons_False by done.
  assert (filter P l1 = []) as ->.
  { induction l1 as [|y l1 IH]; [done|]. rewrite filter_cons_False by (apply H1; left).
    apply IH; [by apply StronglySorted_inv in Hs as [? _]|]. intros z Hz. apply H1. by right. }
  simpl. assert (StronglySorted R (x :: l2)) as Hs2.
  { clear -Hs. induction l1; [done|]. simpl in Hs. apply StronglySorted_inv in Hs as [? _]. auto. }
  apply StronglySorted_inv in Hs2 as [_ Hall]. rewrite Forall_forall in Hall.
  assert (forall y, y ∈ l2 -> P y) as Hp by auto. clear -Hp.
  induction l2 as [|y l2 IH]; [done|]. rewrite filter_cons_True by (apply Hp; left).
  f_equal. apply IH. intros z Hz. apply Hp. by right.
Qed.

Lemma sort_id (cmp : A -> A -> Z) l :
  StronglySorted (fun x y => (cmp x y <= 0)%Z) l -> js_sort cmp l = l.
Proof.
  induction 1 as [|x l Hs IH Hx]; simpl; [done|]. rewrite IH.
  destruct Hx as [|y l Hy]; simpl; [done|]. by rewrite (proj2 (Z.leb_le _ _) Hy).
Qed.
End Cut.

Section Keyed.
Context {A : Type} (pos : A -> string * string).

Abbreviation order := (fun x y => newer (pos x) (pos y)).
Abbreviation compare := (fun x y => by_position sql_compare (pos x) (pos y)).

Lemma keyed_sorted (l : list A) : StronglySorted order (js_sort compare l).
Proof.
  assert (Transitive order) by (intros x y z Hxy Hyz; by eapply newer_trans).
  apply (Records.sort_sorted compare order).
  - done.
  - intros x y. apply newer_compare.
Qed.

Lemma StronglySorted_filter (R : A -> A -> Prop) (P : A -> Prop) `{!forall x, Decision (P x)} l :
  StronglySorted R l -> StronglySorted R (filter P l).
Proof.
  induction 1 as [|x l Hs IH Hx]; [constructor|]. rewrite filter_cons. case_decide; [|done].
  constructor; [done|]. rewrite Forall_forall in Hx |- *. intros y [_ Hy]%list_elem_of_filter. auto.
Qed.

(** Sorting commutes with filtering when positions tell elements apart. *)
Lemma sort_filter (P : A -> Prop) `{!forall x, Decision (P x)} l :
  (forall x y, x ∈ l -> y ∈ l -> pos x = pos y -> x = y) ->
  js_sort compare (filter P l) = filter P (js_sort compare l).
Proof.
  intros Hinj. apply (StronglySorted_unique_strong order).
  - intros x y Hx Hy Hxy Hyx.
    rewrite (Records.sort_perm compare) in Hx. apply list_elem_of_filter in Hx as [_ Hx].
    apply list_elem_of_filter in Hy as [_ Hy]. rewrite (Records.sort_perm compare) in Hy.
    apply Hinj; [done..|]. by apply newer_antisym.
  - apply keyed_sorted.
  - apply StronglySorted_filter, keyed_sorted.
  - rewrite (Records.sort_perm compare (filter P l)). apply filter_Permutation.
    symmetry. apply Records.sort_perm.
Qed.
End Keyed.

(** ** Following the pages of a listing *)

Class PageTextLaws `{PageText} : Prop := {
  json_of_cursor statusTimestamp taskId :
    json_of (token_of (cursor_json statusTimestamp taskId)) = Ret (cursor_json statusTimestamp taskId);
  token_of_chars v : token_chars (token_of v) = true;
  token_of_nonempty v : token_of v <> ""
}.

Definition with_pageToken (token : string) (p : ListTasksRequest) : ListTasksRequest :=
  mkListRequest (lp_contextId p) (lp_status p) (lp_pageSize p) token (lp_statusTimestampAfter p)
    (lp_includeArtifacts p).

Section Pages.
Context `{TaskCodec} `{!TaskCodecLaws} `{PageText} `{!PageTextLaws}.
Context (localeCompare : string -> string -> Z) (toISOString : Z -> string)
  (Date_parse : string -> option Z).

(** A client that asks for the next page until there is none *)
Fixpoint walk (fuel : nat) (params : ListTasksRequest) (context : ServerCallContext)
    (token : string) (s : Store) : option (list Task) :=
  match fuel with
  | O => None
  | S fuel' =>
      match list_tasks localeCompare toISOString Date_parse (with_pageToken token params) context s with
      | (Ret r, s') =>
          if decide (lr_nextPageToken r = "") then Some (lr_tasks r)
          else app (lr_tasks r) <$> walk fuel' params context (lr_nextPageToken r) s'
      | (Throw _, _) => None
      end
  end.

(** The tasks a listing is about *)
Definition owned (scope : TaskScope) (s : Store) (t : Task) : Prop :=
  exists touched, sp_entries (abs s) !! t_id t = Some (mkEntry (Owned scope t) touched).

Definition since (params : ListTasksRequest) : option Z :=
  match lp_statusTimestampAfter params with None | Some "" => None | Some v => Date_parse v end.

Definition requested (params : ListTasksRequest) (t : Task) : Prop :=
  (lp_contextId params = "" \/ t_contextId t = lp_contextId params) /\
  (requestedStatus params = TASK_STATE_UNSPECIFIED \/
   ts_state <$> t_status t = Some (requestedStatus params)) /\
  forall y, since params = Some y ->
    exists timestamp x, t_status t ≫= ts_timestamp = Some timestamp /\ timestamp <> "" /\
      Date_parse timestamp = Some x /\ (y <= x)%Z.

(** The instants a listing compares are written in the one format whose text order is their
    order. *)
Definition times_agree (scope : TaskScope) (params : ListTasksRequest) (s : Store) : Prop :=
  forall y, since params = Some y ->
    Date_parse (toISOString y) = Some y /\ toISOString y <> "" /\
    forall t timestamp, owned scope s t -> t_status t ≫= ts_timestamp = Some timestamp ->
      timestamp <> "" ->
      exists x, Date_parse timestamp = Some x /\
        (str_lt timestamp (toISOString y) = true <-> (x < y)%Z).

(** [localeCompare] orders the timestamps and ids of the scope as the database does. *)
Definition locale_agrees (scope : TaskScope) (s : Store) : Prop :=
  forall t u, owned scope s t -> owned scope s u ->
    newer (task_position t) (task_position u) ->
    (by_position localeCompare (task_position t) (task_position u) <= 0)%Z.

(** Ids are not empty, and page tokens not longer than the store accepts. *)
Definition short_tokens (scope : TaskScope) (s : Store) : Prop :=
  forall t, owned scope s t -> t_id t <> "" /\
    (Z.of_nat (String.length (encodePageCursor (task_timestamp t) (t_id t))) <= 4096)%Z.

Context (s : Store) (context : ServerCallContext) (scope : TaskScope) (params : ListTasksRequest)
  (after : option string).
Context (Hs : store_ok s) (Hscope : getScope context = Ret scope).
Context (Hafter : normalizeStatusTimestampAfter toISOString Date_parse
                    (lp_statusTimestampAfter params) = Ret after).
Context (Htime : times_agree scope params s).

Definition table : list (string * json) :=
  (fun kv => (kv.1, default JNull (tr_data kv.2))) <$> map_to_list (st_rows s).

Lemma parsed_table : parsed_rows (map_to_list (st_rows s)) = Ret table.
Proof.
  unfold table. assert (forall kv, kv ∈ map_to_list (st_rows s) -> is_Some (tr_data kv.2)) as Hd.
  { intros [k row] Hkv%elem_of_map_to_list. destruct (Hs _ _ Hkv) as (v & Hv & _). by exists v. }
  induction (map_to_list (st_rows s)) as [|kv l IH]; [done|]. simpl.
  destruct (Hd kv ltac:(left)) as [v Hv]. rewrite Hv, IH by (intros x Hx; apply Hd; by right). done.
Qed.

Lemma elem_of_table k v :
  (k, v) ∈ table <-> exists row, st_rows s !! k = Some row /\ tr_data row = Some v.
Proof.
  unfold table. rewrite list_elem_of_fmap. split.
  - intros ([k' row] & [= -> ->] & Hrow%elem_of_map_to_list). exists row. split; [done|]. simpl.
    destruct (Hs _ _ Hrow) as (v' & -> & _). done.
  - intros (row & Hrow & Hd). exists (k, row). simpl. rewrite Hd. split; [done|].
    by apply elem_of_map_to_list.
Qed.

Lemma table_keys : NoDup table.*1.
Proof.
  unfold table. rewrite <- list_fmap_compose. apply NoDup_fst_map_to_list.
Qed.

Lemma since_after : after = toISOString <$> since params.
Proof.
  revert Hafter. unfold normalizeStatusTimestampAfter, since.
  destruct (lp_statusTimestampAfter params) as [v|]; [|by intros [= <-]].
  destruct v as [|c v]; [by intros [= <-]|].
  destruct (Date_parse (String c v)); [by intros [= <-]|done].
Qed.

Lemma owned_row t :
  owned scope s t <->
  (t_id t, envelope scope (toJSON t)) ∈ table /\ strip_task t = t /\ clean_scope scope.
Proof.
  unfold owned. rewrite abs_lookup. split.
  - intros (touched & Hr). destruct (st_rows s !! t_id t) as [row|] eqn:Hrow; [|done].
    simpl in Hr. unfold abs_row in Hr. injection Hr as Hc _.
    destruct (row_ok_cases _ _ (Hs _ _ Hrow)) as
      [(sc & u & Hd & Hcon & Hid & Hst & Hcl)|(v & Hd & [Henv Hver] & Hcon)]; [|congruence].
    assert (sc = scope /\ u = t) as [-> ->] by (split; congruence). split; [|done].
    apply elem_of_table. eauto.
  - intros [(row & Hrow & Hd)%elem_of_table [Hst Hc]]. rewrite Hrow. exists (tr_updatedAt row).
    simpl. unfold abs_row, content_of. rewrite Hd. cbn [mbind option_bind].
    by rewrite envelope_is_persisted, codec_roundtrip.
Qed.

Lemma decoded_envelope t : decoded scope (envelope scope (toJSON t)) = Some t.
Proof.
  unfold decoded, decodeScopedTask. rewrite decode_envelope_data, decide_True by done.
  by rewrite codec_roundtrip.
Qed.

Lemma extract_task tj path :
  jsonExtractText (envelope scope tj) ("task" :: path) = jsonExtractText tj path.
Proof. done. Qed.

Lemma envelope_timestamp t : statusTimestamp_sql (envelope scope (toJSON t)) = task_timestamp t.
Proof. unfold statusTimestamp_sql. rewrite extract_task. apply codec_timestamp. Qed.

(** The condition on the time, as the database tests it and as the code repeats it *)
Lemma time_filter t :
  owned scope s t ->
  match after with None => true | Some a => negb (str_lt (task_timestamp t) a) end = true <->
  forall y, since params = Some y ->
    exists timestamp x, t_status t ≫= ts_timestamp = Some timestamp /\ timestamp <> "" /\
      Date_parse timestamp = Some x /\ (y <= x)%Z.
Proof.
  intros Ht. rewrite since_after. destruct (since params) as [y|] eqn:Hy; simpl; [|naive_solver].
  destruct (Htime y Hy) as (Hp & Hne & Hstamp). rewrite negb_true_iff, <- not_true_iff_false.
  unfold task_timestamp. destruct (t_status t ≫= ts_timestamp) as [ts|] eqn:Hts; simpl.
  - destruct (decide (ts = "")) as [->|Hn].
    + split; [|intros Hr; destruct (Hr y eq_refl) as (? & ? & [=] & ? & _); congruence].
      intros Hlt. exfalso. apply Hlt. apply str_lt_spec. split; [|done].
      by destruct (toISOString y).
    + destruct (Hstamp t ts Ht Hts Hn) as (x & Hx & Hiff). rewrite Hiff. split.
      * intros Hle y' [= <-]. exists ts, x. split_and!; try done. lia.
      * intros Hr. destruct (Hr y eq_refl) as (ts' & x' & [= <-] & _ & Hx' & Hle).
        assert (x' = x) by congruence. lia.
  - split; [|intros Hr; by destruct (Hr y eq_refl) as (? & ? & [=] & _)].
    intros Hlt. exfalso. apply Hlt. apply str_lt_spec. split; [|done].
    by destruct (toISOString y).
Qed.

Lemma list_filter_owned t :
  owned scope s t ->
  list_filter scope params after (envelope scope (toJSON t)) = true <-> requested params t.
Proof.
  intros Ht. unfold list_filter, requested. rewrite !extract_task, envelope_timestamp.
  change (jsonExtractNumber (envelope scope (toJSON t)) "persistenceVersion") with (Some (JInt 1)).
  change (jsonExtractText (envelope scope (toJSON t)) ["scope"; "tenant"])
    with (Some (sc_tenant scope)).
  change (jsonExtractText (envelope scope (toJSON t)) ["scope"; "owner"])
    with (Some (sc_owner scope)).
  rewrite !bool_decide_true by done. rewrite !andb_true_l, !andb_true_iff, !orb_true_iff.
  rewrite !bool_decide_eq_true, (time_filter t Ht).
  destruct (decide (lp_contextId params = "")) as [He|He];
    destruct (decide (requestedStatus params = TASK_STATE_UNSPECIFIED)) as [Hu|Hu];
    rewrite ?(codec_contextId t _ He), ?(codec_state t _ Hu); tauto.
Qed.

Lemma visible_requested t :
  owned scope s t -> requested params t -> task_visible Date_parse params after t = true.
Proof.
  intros Ht (Hc & Hst & Htm). unfold task_visible.
  rewrite !andb_true_iff, !orb_true_iff, !bool_decide_eq_true. split_and!; [done..|].
  rewrite since_after. destruct (since params) as [y|] eqn:Hy; [|done]. simpl.
  destruct (Htm y eq_refl) as (ts & x & -> & Hne & Hx & Hle).
  destruct (Htime y Hy) as (Hp & _). destruct ts as [|c ts]; [done|].
  rewrite Hx, Hp. by apply Z.leb_le.
Qed.

(** A row the database returns is a task of the scope. *)
Lemma list_filter_row k v :
  (k, v) ∈ table -> list_filter scope params after v = true ->
  exists t, owned scope s t /\ t_id t = k /\ v = envelope scope (toJSON t) /\ requested params t.
Proof.
  intros Hin Hf. pose proof Hin as (row & Hrow & Hd)%elem_of_table.
  destruct (row_ok_cases _ _ (Hs _ _ Hrow)) as
    [(sc & t & Hd' & _ & Hid & Hst & Hc)|(v' & Hd' & [Henv Hver] & _)].
  - assert (v = envelope sc (toJSON t)) as -> by congruence.
    assert (sc = scope) as ->.
    { unfold list_filter in Hf. rewrite !andb_true_iff in Hf.
      destruct Hf as [[[[[_ Hten] Hown] _] _] _]. bool_to_prop. destruct sc, scope.
      unfold envelope in *. simpl in *. congruence. }
    assert (owned scope s t) as Ho by (apply owned_row; by subst k).
    exists t. split_and!; try done. by apply list_filter_owned.
  - assert (v' = v) as -> by congruence. unfold list_filter in Hf. rewrite Hver in Hf.
    by rewrite bool_decide_false in Hf.
Qed.

(** The rows of the listing in order, and the tasks in them *)
Definition listed : list (string * json) :=
  js_sort (fun x y => by_position sql_compare (row_position x) (row_position y))
    (filter (fun kv => list_filter scope params after kv.2) table).

Definition holds (kv : string * json) (t : Task) : Prop :=
  owned scope s t /\ requested params t /\ kv = (t_id t, envelope scope (toJSON t)).

Lemma listed_elem kv : kv ∈ listed -> exists t, holds kv t.
Proof.
  unfold listed. rewrite Records.sort_perm. destruct kv as [k v].
  intros [Hf Hin]%list_elem_of_filter. simpl in Hf. apply Is_true_true in Hf.
  destruct (list_filter_row _ _ Hin Hf) as (t & Ho & <- & -> & Hr). by exists t.
Qed.

Lemma holds_position kv t : holds kv t -> row_position kv = task_position t.
Proof.
  intros (_ & _ & ->). unfold row_position, task_position. simpl. by rewrite envelope_timestamp.
Qed.

Lemma holds_decoded kv t : holds kv t -> decoded scope kv.2 = Some t.
Proof. intros (_ & _ & ->). apply decoded_envelope. Qed.

Lemma listed_tasks : exists ts, Forall2 holds listed ts.
Proof.
  assert (Forall (fun kv => exists t, holds kv t) listed) as Hall
    by (apply Forall_forall; apply listed_elem).
  induction Hall as [|kv l [t Ht] _ [ts Hts]]; [by exists []|]. exists (t :: ts). by constructor.
Qed.

Lemma listed_complete t :
  owned scope s t -> requested params t -> (t_id t, envelope scope (toJSON t)) ∈ listed.
Proof.
  intros Ho Hr. unfold listed. rewrite Records.sort_perm. apply list_elem_of_filter. simpl.
  split; [|by apply owned_row]. apply Is_true_true. by apply list_filter_owned.
Qed.

(** Positions tell rows apart: they contain the id. *)
Lemma table_positions x y : x ∈ table -> y ∈ table -> row_position x = row_position y -> x = y.
Proof.
  destruct x as [k v], y as [k' v']. intros Hx Hy [= _ ->].
  apply elem_of_table in Hx as (row & Hr & Hd). apply elem_of_table in Hy as (row' & Hr' & Hd').
  congruence.
Qed.

Lemma listed_in_table x : x ∈ listed -> x ∈ table.
Proof. unfold listed. rewrite Records.sort_perm. by intros [_ ?]%list_elem_of_filter. Qed.

Lemma listed_NoDup : NoDup listed.
Proof.
  unfold listed. rewrite Records.sort_perm. apply NoDup_filter. apply (NoDup_fmap_1 fst).
  apply table_keys.
Qed.

Lemma select_from cursor limit :
  select_rows scope params after cursor limit table =
  take limit (filter (fun kv => before_cursor cursor (row_position kv)) listed).
Proof.
  unfold select_rows, listed. f_equal. rewrite <- (sort_filter row_position).
  - f_equal. rewrite list_filter_filter. apply list_filter_iff. intros kv.
    rewrite !Is_true_true, andb_true_iff. tauto.
  - intros x y Hx Hy. apply list_elem_of_filter in Hx as [_ Hx].
    apply list_elem_of_filter in Hy as [_ Hy]. by apply table_positions.
Qed.

Context (Hlocale : locale_agrees scope s) (Hshort : short_tokens scope s).
Context (tasks : list Task) (Htasks : Forall2 holds listed tasks).

Abbreviation cursor_of t := (mkCursor (task_timestamp t) (t_id t)).

Lemma tasks_elem t : t ∈ tasks -> owned scope s t /\ requested params t.
Proof.
  intros (i & Hi)%list_elem_of_lookup. destruct (Forall2_lookup_r _ _ _ _ _ Htasks Hi) as (kv & _ & Hh).
  by destruct Hh as (? & ? & _).
Qed.

Lemma listed_sorted : StronglySorted (fun x y => newer (row_position x) (row_position y)) listed.
Proof. apply keyed_sorted. Qed.

Lemma tasks_sorted : StronglySorted (fun x y => newer (task_position x) (task_position y)) tasks.
Proof.
  pose proof listed_sorted as Hl. induction Htasks as [|kv t l ts Hk Hf IH]; [constructor|].
  apply StronglySorted_inv in Hl as [Hl Hall]. constructor; [by apply IH|].
  apply Forall_forall. intros u (i & Hi)%list_elem_of_lookup. rewrite Forall_forall in Hall.
  destruct (Forall2_lookup_r _ _ _ _ _ Hf Hi) as (kv' & Hk' & Hu).
  rewrite <- (holds_position _ _ Hk), <- (holds_position _ _ Hu).
  apply Hall. by eapply list_elem_of_lookup_2.
Qed.

Lemma tasks_NoDup : NoDup tasks.
Proof.
  pose proof listed_NoDup as Hnd. induction Htasks as [|kv t l ts Hk Hf IH]; [constructor|].
  apply NoDup_cons in Hnd as [Hnot Hnd]. constructor; [|by apply IH].
  intros (i & Hi)%list_elem_of_lookup. apply Hnot.
  destruct (Forall2_lookup_r _ _ _ _ _ Hf Hi) as (kv' & Hk' & (_ & _ & ->)).
  destruct Hk as (_ & _ & ->). by eapply list_elem_of_lookup_2.
Qed.

(** What is decoded and sorted again is what was selected. *)
Lemma visible_from l ts :
  Forall2 holds l ts -> StronglySorted (fun x y => newer (task_position x) (task_position y)) ts ->
  visible_tasks localeCompare Date_parse scope params after l = ts.
Proof.
  intros Hf Hsort. unfold visible_tasks.
  assert (omap (fun kv => decoded scope kv.2) l = ts) as ->.
  { clear Hsort. induction Hf as [|kv t l ts Hk Hf IH]; [done|].
    cbn [omap list_omap]. rewrite (holds_decoded _ _ Hk). by f_equal. }
  assert (forall t, t ∈ ts -> owned scope s t /\ requested params t) as Hin.
  { intros t (i & Hi)%list_elem_of_lookup.
    destruct (Forall2_lookup_r _ _ _ _ _ Hf Hi) as (kv & _ & ? & ? & _). done. }
  assert (filter (fun t => task_visible Date_parse params after t) ts = ts) as ->.
  { clear Hf Hsort. induction ts as [|t ts IH]; [done|].
    destruct (Hin t ltac:(left)) as [Ho Hr]. rewrite filter_cons_True.
    - f_equal. apply IH. intros u Hu. apply Hin. by right.
    - apply Is_true_true. by apply visible_requested. }
  apply sort_id. clear Hf. induction Hsort as [|t ts Hsort IH Ht]; [constructor|].
  constructor; [apply IH; intros u Hu; apply Hin; by right|]. rewrite Forall_forall in Ht |- *.
  intros u Hu. apply Hlocale; [apply Hin; by left|apply Hin; by right|by apply Ht].
Qed.

Lemma drop_sorted n m :
  StronglySorted (fun x y => newer (task_position x) (task_position y)) (take m (drop n tasks)).
Proof.
  assert (forall (l : list Task) (R : Task -> Task -> Prop), StronglySorted R l ->
    forall k, StronglySorted R (drop k l) /\ StronglySorted R (take k l)) as Hcut.
  { intros l R. induction 1 as [|x l Hl IH Hx]; intros [|k]; simpl; try (split; by constructor).
    split; [apply IH|]. constructor; [apply IH|]. by apply Forall_take. }
  apply Hcut, Hcut, tasks_sorted.
Qed.

(** The rows after the cursor of the [k]-th task are the rows past it. *)
Lemma past_cursor k t :
  tasks !! k = Some t ->
  filter (fun kv => before_cursor (Some (cursor_of t)) (row_position kv)) listed = drop (S k) listed.
Proof.
  intros Hk. destruct (Forall2_lookup_r _ _ _ _ _ Htasks Hk) as (kv & Hkv & Hh).
  pose proof (holds_position _ _ Hh) as Hpos.
  change (cursor_of t) with (mkCursor (task_position t).1 (task_position t).2).
  rewrite <- Hpos. pose proof listed_sorted as Hsort.
  rewrite <- (take_drop_middle _ _ _ Hkv) in Hsort |- *.
  assert (length (take k listed) = k) as Hlen.
  { apply length_take_le. apply lookup_lt_Some in Hkv. lia. }
  rewrite (drop_app_ge (take k listed)) by lia. rewrite Hlen.
  replace (S k - k)%nat with 1%nat by lia. cbn [drop].
  apply (filter_past (fun x y => newer (row_position x) (row_position y))); [done| | |].
  - intros y Hy Hb. apply Is_true_true, before_cursor_spec in Hb as [Hn Hne]. apply Hne.
    apply newer_antisym; [done|]. clear -Hsort Hy.
    induction (take k listed) as [|z l IH]; [set_solver|]. simpl in Hsort.
    apply StronglySorted_inv in Hsort as [Hsort Hall]. rewrite Forall_forall in Hall.
    apply elem_of_cons in Hy as [->|Hy]; [apply Hall; set_solver|by apply IH].
  - intros Hb. by apply Is_true_true, before_cursor_spec in Hb as [_ ?].
  - intros y Hn Hy. apply Is_true_true, before_cursor_spec. split; [done|]. intros Heq.
    assert (kv = y) as <-.
    { apply table_positions; [| |done]; apply listed_in_table.
      - by eapply list_elem_of_lookup_2.
      - rewrite <- (take_drop_middle _ _ _ Hkv). set_solver. }
    pose proof listed_NoDup as Hnd. rewrite <- (take_drop_middle _ _ _ Hkv) in Hnd.
    apply NoDup_app in Hnd as (_ & _ & Hnd). by apply NoDup_cons in Hnd as [? _].
Qed.

Lemma parse_cursor t :
  owned scope s t ->
  parsePageCursor (encodePageCursor (task_timestamp t) (t_id t)) = Ret (Some (cursor_of t)).
Proof.
  intros Ho. destruct (Hshort t Ho) as [Hid Hlen]. unfold parsePageCursor.
  rewrite decide_False by apply token_of_nonempty.
  rewrite (proj2 (Z.ltb_ge _ _) Hlen). unfold encodePageCursor at 1 2. rewrite token_of_chars, json_of_cursor.
  cbn [negb orb obj_get as_string decide]. simpl.
  rewrite bool_decide_false by done. by rewrite String.eqb_refl.
Qed.

Abbreviation pageSize := (default 50%nat (lp_pageSize params)).
Abbreviation rest k := (drop k tasks).

Lemma page_unfiltered cursor l ts :
  Forall2 holds l ts -> (forall kv, kv ∈ l -> before_cursor cursor (row_position kv) = true) ->
  filter (fun t => before_cursor cursor (task_position t)) ts = ts.
Proof.
  induction 1 as [|kv t l ts Hh Hf IH]; intros Hb; [done|].
  rewrite filter_cons_True; [f_equal; apply IH; set_solver|]. apply Is_true_true.
  rewrite <- (holds_position _ _ Hh). apply Hb. set_solver.
Qed.

(** The page that starts at the [k]-th task *)
Definition page_at (k : nat) : ListTasksResponse :=
  mkListResponse (shown params <$> take pageSize (rest k))
    (match last (take pageSize (rest k)) with
     | Some t => if (pageSize <? length (rest k))%nat
                 then encodePageCursor (task_timestamp t) (t_id t) else ""
     | None => ""
     end) pageSize (length (filter (fun kv => list_filter scope params after kv.2) table)).

Lemma list_page k token cursor :
  parsePageCursor token = Ret cursor ->
  filter (fun kv => before_cursor cursor (row_position kv)) listed = drop k listed ->
  list_tasks localeCompare toISOString Date_parse (with_pageToken token params) context s
  = (Ret (page_at k), s).
Proof.
  intros Hcur Hcut. unfold list_tasks, mbind, M_bind, settle, gets. cbn [with_pageToken lp_pageToken].
  rewrite Hscope, Hcur.
  change (lp_statusTimestampAfter (with_pageToken token params)) with (lp_statusTimestampAfter params).
  rewrite Hafter, parsed_table. unfold mret, M_ret. do 2 f_equal.
  change (select_rows scope (with_pageToken token params)) with (select_rows scope params).
  change (visible_tasks localeCompare Date_parse scope (with_pageToken token params))
    with (visible_tasks localeCompare Date_parse scope params).
  change (lp_pageSize (with_pageToken token params)) with (lp_pageSize params).
  rewrite select_from, Hcut.
  assert (Forall2 holds (take (S pageSize) (drop k listed)) (take (S pageSize) (rest k))) as Hf
    by by apply Forall2_take, Forall2_drop.
  rewrite (visible_from _ _ Hf) by apply drop_sorted.
  unfold respond, page_at.
  change (shown (with_pageToken token params)) with (shown params).
  assert (filter (fun t => before_cursor cursor (task_position t)) (take (S pageSize) (rest k))
    = take (S pageSize) (rest k)) as ->.
  { assert (forall kv, kv ∈ take (S pageSize) (drop k listed) ->
      before_cursor cursor (row_position kv) = true) as Hb.
    { intros kv Hkv. apply Is_true_true.
      apply (list_elem_of_filter (fun kv => before_cursor cursor (row_position kv)) listed kv).
      rewrite Hcut. rewrite <- (take_drop (S pageSize) (drop k listed)). set_solver. }
    by eapply page_unfiltered. }
  rewrite take_take, Nat.min_l by lia. f_equal.
  rewrite !length_take, <- (Forall2_length _ _ _ (Forall2_drop _ _ _ k Htasks)).
  destruct (last _); [|done].
  destruct (Nat.ltb_spec pageSize (length (drop k listed))).
  - rewrite (proj2 (Nat.ltb_lt pageSize (S pageSize `min` _))) by lia. done.
  - rewrite (proj2 (Nat.ltb_ge pageSize (S pageSize `min` _))) by lia.
    by rewrite (proj2 (Nat.ltb_ge _ _)) by lia.
Qed.

Definition token_at (k : nat) : string :=
  match k with
  | O => ""
  | S k' => match tasks !! k' with Some t => encodePageCursor (task_timestamp t) (t_id t) | None => "" end
  end.

Lemma list_at k :
  (k <= length tasks)%nat ->
  list_tasks localeCompare toISOString Date_parse (with_pageToken (token_at k) params) context s
  = (Ret (page_at k), s).
Proof.
  intros Hk. destruct k as [|k]; simpl.
  - apply (list_page 0 "" None); [done|].
    rewrite drop_0. generalize listed. clear. intros l. induction l as [|kv l IH]; [done|].
    rewrite filter_cons_True by done. by f_equal.
  - destruct (lookup_lt_is_Some_2 tasks k) as [t Ht]; [lia|]. rewrite Ht.
    apply (list_page (S k) _ (Some (cursor_of t))).
    + apply parse_cursor. by apply tasks_elem, (list_elem_of_lookup_2 _ k).
    + by apply past_cursor.
Qed.

Lemma walk_from fuel k :
  (0 < pageSize)%nat -> (k <= length tasks)%nat -> (length tasks - k < fuel)%nat ->
  walk fuel params context (token_at k) s = Some (shown params <$> rest k).
Proof.
  intros Hsize. revert k. induction fuel as [|fuel IH]; intros k Hk Hfuel; [lia|].
  cbn [walk]. rewrite (list_at k Hk). unfold page_at. cbn [lr_nextPageToken lr_tasks].
  destruct (Nat.ltb_spec pageSize (length (rest k))) as [Hmore|Hlast].
  - rewrite length_drop in Hmore.
    destruct (lookup_lt_is_Some_2 tasks (k + pageSize - 1)) as [t Ht]; [lia|].
    assert (last (take pageSize (rest k)) = Some t) as ->.
    { rewrite last_lookup, length_take, length_drop, Nat.min_l by lia.
      rewrite lookup_take_lt, lookup_drop by lia. by replace (k + Nat.pred pageSize)%nat with (k + pageSize - 1)%nat by lia. }
    rewrite decide_False by apply token_of_nonempty.
    assert (encodePageCursor (task_timestamp t) (t_id t) = token_at (k + pageSize)) as ->.
    { destruct (k + pageSize)%nat as [|j] eqn:Hj; [lia|]. simpl.
      replace (S j - 1)%nat with j in Ht by lia. by rewrite Ht. }
    rewrite IH by lia. simpl. f_equal. rewrite <- fmap_app, <- drop_drop, take_drop. done.
  - assert (match last (take pageSize (rest k)) with Some _ => "" | None => "" end = "") as ->
      by by destruct (last _).
    rewrite decide_True by done. by rewrite take_ge.
Qed.
End Pages.

(** Whoever follows the page tokens of a listing to the end gets every task of their scope that
    matches the request, each once, newest first, and no task of anybody else: no page boundary
    skips or repeats a task, whatever the page size. *)
Theorem pages_complete `{TaskCodec} `{!TaskCodecLaws} `{PageText} `{!PageTextLaws}
    localeCompare toISOString Date_parse s context scope params after
    (Hs : store_ok s) (Hscope : getScope context = Ret scope)
    (Hafter : normalizeStatusTimestampAfter toISOString Date_parse
                (lp_statusTimestampAfter params) = Ret after)
    (Hsize : (0 < default 50%nat (lp_pageSize params))%nat)
    (Htime : times_agree toISOString Date_parse scope params s)
    (Hlocale : locale_agrees localeCompare scope s) (Hshort : short_tokens scope s) :
  exists tasks,
    (forall t, t ∈ tasks <-> owned scope s t /\ requested Date_parse params t) /\ NoDup tasks /\
    StronglySorted (fun t u => newer (task_position t) (task_position u)) tasks /\
    walk localeCompare toISOString Date_parse (S (length tasks)) params context "" s =
      Some (shown params <$> tasks).
Proof.
  destruct (listed_tasks toISOString Date_parse s context scope params after Hs Hscope Hafter Htime)
    as [tasks Hf].
  exists tasks. split_and!.
  - intros t. split; [by eapply tasks_elem|]. intros [Ho Hr].
    pose proof (listed_complete toISOString Date_parse s scope params after Hs Hafter Htime t Ho Hr)
      as (i & Hi)%list_elem_of_lookup.
    destruct (Forall2_lookup_l _ _ _ _ _ Hf Hi) as (u & Hu & (_ & _ & Heq)).
    assert (toJSON t = toJSON u) as Hj by (unfold envelope in Heq; congruence).
    apply (f_equal fromJSON) in Hj. rewrite !codec_roundtrip in Hj. injection Hj as ->.
    by eapply list_elem_of_lookup_2.
  - by eapply tasks_NoDup.
  - by eapply tasks_sorted.
  - apply (walk_from localeCompare toISOString Date_parse s context scope params after Hs Hscope
      Hafter Htime Hlocale Hshort tasks Hf _ 0 Hsize); lia.
Qed.

(** ** A concrete codec, and a store with tasks of two callers and a legacy row *)

Definition demo_toJSON (t : Task) : json :=
  JObj [("id", JStr (t_id t)); ("contextId", JStr (t_contextId t));
    ("status", match t_status t with
               | None => JNull
               | Some st =>
                   JObj [("state", JStr (state_name (ts_state st)));
                     ("message", JArr (option_list (ts_message st)));
                     ("timestamp", from_option JStr JNull (ts_timestamp st))]
               end);
    ("artifacts", JArr (t_artifacts t)); ("rest", t_rest t)].

Definition states : list TaskState :=
  [TASK_STATE_UNSPECIFIED; TASK_STATE_SUBMITTED; TASK_STATE_WORKING; TASK_STATE_COMPLETED;
   TASK_STATE_FAILED; TASK_STATE_CANCELED; TASK_STATE_INPUT_REQUIRED; TASK_STATE_REJECTED;
   TASK_STATE_AUTH_REQUIRED].

Definition state_of_name (s : string) : option TaskState :=
  snd <$> list_find (fun st => state_name st = s) states.

Definition demo_fromJSON (v : json) : outcome Task :=
  match v with
  | JObj [(_, JStr id); (_, JStr contextId); (_, status); (_, JArr artifacts); (_, rest)] =>
      Ret (mkTask id contextId
        match status with
        | JObj [(_, JStr state); (_, JArr message); (_, timestamp)] =>
            (fun st => mkTaskStatus st (head message) (as_string (Some timestamp))) <$> state_of_name state
        | _ => None
        end artifacts rest)
  | _ => Throw (mkError "Error" "not a task")
  end.

#[local] Instance demo_codec : TaskCodec := {| toJSON := demo_toJSON; fromJSON := demo_fromJSON |}.

Lemma state_of_name_eq st : state_of_name (state_name st) = Some st.
Proof. by destruct st. Qed.

Lemma state_name_inj st st' : state_name st = state_name st' -> st = st'.
Proof.
  intros Heq. apply (f_equal state_of_name) in Heq. rewrite !state_of_name_eq in Heq. congruence.
Qed.

Lemma strip_state_name st : strip (state_name st) = state_name st.
Proof. by destruct st. Qed.

#[local] Instance demo_codec_laws : TaskCodecLaws.
Proof.
  constructor; simpl.
  - intros [id ctx [[st [m|] [ts|]]|] arts rest]; simpl; by rewrite ?state_of_name_eq.
  - intros [id ctx [[st [m|] [ts|]]|] arts rest]; unfold demo_toJSON; simpl;
      by rewrite ?strip_state_name.
  - intros t x Hx. simpl. naive_solver.
  - intros [id ctx [[st m ts]|] arts rest] st' _; simpl; [|naive_solver].
    split; [intros [= Heq%state_name_inj]; by subst|naive_solver].
  - by intros [id ctx [[st [m|] [ts|]]|] arts rest].
Qed.

Fixpoint bits_of (p : positive) : string :=
  match p with xH => "h" | xO p => String "o" (bits_of p) | xI p => String "i" (bits_of p) end.

Fixpoint of_bits (s : string) : option positive :=
  match s with
  | "h" => Some xH
  | String "o" s' => xO <$> of_bits s'
  | String "i" s' => xI <$> of_bits s'
  | _ => None
  end.

Lemma of_bits_of p : of_bits (bits_of p) = Some p.
Proof.
  induction p as [p IH|p IH|]; [| |done]; simpl; rewrite IH; done.
Qed.

Lemma bits_chars p : token_chars (bits_of p) = true /\ bits_of p <> "".
Proof. induction p as [p [IH _]|p [IH _]|]; simpl; by rewrite ?IH. Qed.

#[local] Instance demo_text : PageText := {|
  token_of v := match v with
                | JObj [_; (_, JStr ts); (_, JStr id)] => bits_of (encode (ts, id))
                | _ => "h"
                end;
  json_of s := match of_bits s ≫= decode with
               | Some (ts, id) => Ret (cursor_json ts id)
               | None => Throw (mkError "SyntaxError" "Unexpected token")
               end
|}.

#[local] Instance demo_text_laws : PageTextLaws.
Proof.
  constructor.
  - intros ts id. simpl. rewrite of_bits_of. cbn [mbind option_bind]. by rewrite decode_encode.
  - intros v. simpl. repeat case_match; try apply bits_chars; done.
  - intros v. simpl. repeat case_match; try apply bits_chars; done.
Qed.

Definition demo_task (id ts : string) : Task :=
  mkTask id "c1" (Some (mkTaskStatus TASK_STATE_WORKING None (Some ts))) [JStr "file"] JNull.

Definition demo_scope (owner : string) : TaskScope := mkScope "agent-1" owner.
Definition demo_context (owner : string) : ServerCallContext :=
  mkContext (Some "agent-1 ") (Some owner).

Definition demo_row (owner id ts : string) : TaskRow :=
  mkTaskRow (Some (encodeTask (demo_task id ts) (demo_scope owner))) 0 0.

Definition demo_store : Store :=
  mkStore (<["t1" := demo_row "alice" "t1" "2026-01-01"]> (<["t2" := demo_row "alice" "t2" "2026-01-02"]>
    (<["t3" := demo_row "bob" "t3" "2026-01-03"]> (<["t4" := demo_row "alice" "t4" "2026-01-02"]>
    {["old" := mkTaskRow (Some (JObj [("id", JStr "old"); ("status", JObj [("state", JStr "working")])])) 0 0]}))))
    0.

Lemma demo_store_ok : store_ok demo_store.
Proof.
  unfold demo_store, store_ok. simpl st_rows.
  repeat apply map_Forall_insert_2; try (apply written_row_ok; done).
  - by eexists.
  - apply map_Forall_empty.
Qed.

Definition demo_request : ListTasksRequest := mkListRequest "c1" None (Some 1%nat) "" None false.

Definition alice_tasks : list Task :=
  [demo_task "t1" "2026-01-01"; demo_task "t2" "2026-01-02"; demo_task "t4" "2026-01-02"].

(** What the scope of alice can be read to own, row by row *)
Lemma demo_owned t : owned (demo_scope "alice") demo_store t -> t ∈ alice_tasks.
Proof.
  intros Ho. apply owned_row in Ho as [Hin _]; [|apply demo_store_ok].
  assert (decoded (demo_scope "alice") (envelope (demo_scope "alice") (toJSON t)) = Some t) as Hd
    by apply decoded_envelope.
  assert (omap (fun kv => decoded (demo_scope "alice") kv.2) (table demo_store) = alice_tasks) as <-
    by by vm_compute.
  apply list_elem_of_omap. by eexists.
Qed.

#[local] Arguments demo_task : simpl never.

(** Pages of one task, in the order of the database *)
Lemma pages_complete_witness :
  exists tasks,
    (forall t, t ∈ tasks <-> owned (demo_scope "alice") demo_store t /\
       requested (fun _ => None) demo_request t) /\ NoDup tasks /\
    StronglySorted (fun t u => newer (task_position t) (task_position u)) tasks /\
    walk sql_compare (fun _ => "") (fun _ => None) (S (length tasks)) demo_request
      (demo_context "alice") "" demo_store = Some (shown demo_request <$> tasks).
Proof.
  refine (pages_complete sql_compare (fun _ => "") (fun _ => None) demo_store (demo_context "alice")
    (demo_scope "alice") demo_request None demo_store_ok eq_refl eq_refl _ _ _ _).
  - simpl. lia.
  - by intros y [=].
  - by intros t u _ _ Hn.
  - intros t Ht%demo_owned. unfold alice_tasks in Ht.
    rewrite !elem_of_cons in Ht. destruct Ht as [->|[->|[->|[]%elem_of_nil]]]; (split; [done|]);
      vm_compute; discriminate.
Defined.

Example demo_pages :
  walk sql_compare (fun _ => "") (fun _ => None) 4 demo_request (demo_context "alice") "" demo_store
  = Some (shown demo_request <$> [demo_task "t4" "2026-01-02"; demo_task "t2" "2026-01-02";
                                  demo_task "t1" "2026-01-01"]).
Proof. by vm_compute. Qed.

