(* ===== verification/JobRetry.v ===== *)
(** * Automatic job retries

    lib/job-retry-policy.ts, job-retry-scheduler.ts, job-retry-hook.ts and
    rerun-builder.ts: a run that failed is replayed as a new run of its agent,
    through the ordinary admission, while the agent's budget lasts.  [Number]
    on a configured budget that is not a number is the parameter [toNumber]
    ([None] when the result is not finite); the fresh id of [createId] is an
    argument.  Executions and audit entries the scheduler starts without
    waiting are recorded as effects. *)
From S2P Require Import Prelude Json Schema LeaseRegistry World Resume TaskQueue TaskQueueDb Scheduling RunClaims ErrorPatterns.

(** ** The policy *)

Definition JOB_RETRIES_MIN : Z := 0.
Definition JOB_RETRIES_MAX : Z := 3.

(** [Math.floor] *)
Definition js_floor (n : js_number) : Z :=
  match n with JInt z => z | JFrac m e => (m / 2 ^ Zpos e)%Z end.

Definition clampJobRetries (v : js_number) : Z :=
  Z.max JOB_RETRIES_MIN (Z.min JOB_RETRIES_MAX (js_floor v)).

(** [n >= z] *)
Definition js_ge (n : js_number) (z : Z) : bool :=
  match n with JInt a => (z <=? a)%Z | JFrac m e => (z * 2 ^ Zpos e <=? m)%Z end.

Inductive JobRetrySkipReason := disabled | not_failed | budget_spent | permanent_error.

Inductive JobRetryDecision := do_retry | skip_retry (reason : JobRetrySkipReason).

#[export] Instance JobRetryDecision_eq_dec : EqDecision JobRetryDecision.
Proof. intros [|[]] [|[]]; first [by left | by right]. Defined.

Record JobRetryInput := mkRetryInput {
  ri_status : RunStatus;
  ri_error : option string;
  ri_maxJobRetries : Z;
  ri_attempt : js_number
}.

Definition shouldRetryJob (input : JobRetryInput) : JobRetryDecision :=
  if (ri_maxJobRetries input <=? 0)%Z then skip_retry disabled
  else if decide (ri_status input <> failed) then skip_retry not_failed
  else if js_ge (ri_attempt input) (ri_maxJobRetries input) then skip_retry budget_spent
  else if isPermanentError (ri_error input) || isHardQuotaError (ri_error input)
  then skip_retry permanent_error
  else do_retry.

Definition nextJobRetryAttempt (currentAttempt : option js_number) : js_number :=
  js_succ (default (JInt 0) currentAttempt).

(** ** What a replay replays *)

(** [v ?? w] *)
Definition nullish_or (v w : option json) : option json :=
  match v with None | Some JNull => w | Some x => Some x end.

Record RerunSource := mkRerunSource {
  rs_agentId : option string;
  rs_originalContext : option js_object;
  rs_rawAttachments : json
}.

Definition resolveRerunContext (originalRun : Run) (stepContextValue : option json)
    : option js_object :=
  let metadata := run_executionMetadata originalRun in
  let stepContext := as_object stepContextValue in
  let nativeContext := as_object (meta_get metadata "nativeChatContext") in
  let context :=
    if truthy (meta_get metadata "queuedTurn") then nativeContext
    else match stepContext with Some c => Some c | None => nativeContext end in
  match context with
  | None => None
  | Some c =>
      if decide (run_triggerSource originalRun <> Some "feishu") then Some c
      else if truthy (obj_get c "receive_id_type") then Some c
      else
        let nestedChatId := opt_get (opt_get (obj_get c "channel") "channel_info") "chat_id" in
        let flatChatId := JStr <$> as_string (obj_get c "chat_id") in
        let chatId := nullish_or nestedChatId flatChatId in
        if truthy chatId
        then Some (obj_set_opt (obj_set c "receive_id_type" (JStr "chat_id")) "receive_id" chatId)
        else Some c
  end.

Definition loadRerunSource (runId : string) (originalRun : Run) (d : Db) : RerunSource :=
  let latestStep := latest_step runId d in
  let metadata := run_executionMetadata originalRun in
  let input := latestStep ≫= step_input in
  let originalContext := resolveRerunContext originalRun (meta_get input "context") in
  let metaAttachmentsRaw := meta_get metadata "attachments" in
  let raw :=
    if truthy (meta_get metadata "queuedTurn") then metaAttachmentsRaw
    else nullish_or (meta_get input "attachments") metaAttachmentsRaw in
  mkRerunSource
    (match latestStep ≫= step_agentId with Some a => Some a | None => run_initiatorAgentId originalRun end)
    originalContext (default (JArr []) (nullish_or raw None)).

Definition replayable (a : json) : bool :=
  match opt_get (Some a) "token", opt_get (Some a) "uri" with
  | Some (JStr _), _ | _, Some (JStr _) => true
  | _, _ => false
  end.

(** Throws where [.filter] is called on something that is no array. *)
Definition filterReplayableAttachments (rawAttachments : json) : outcome (list json) :=
  match rawAttachments with
  | JArr l => Ret (filter replayable l)
  | _ => Throw (mkError "TypeError" "rawAttachments.filter is not a function")
  end.

Definition oauthConsumerIdFromContext (context : option js_object) : option string :=
  let channel := meta_get context "channel" in
  let info := opt_get channel "channel_info" in
  let oauth := opt_get info "oauth" in
  let isOAuthHop :=
    bool_decide (opt_get channel "channel_type" = Some (JStr "oauth")) ||
    bool_decide (opt_get channel "channel_type" = Some (JStr "a2a")) &&
    bool_decide (opt_get info "auth" = Some (JStr "oauth")) in
  match isOAuthHop, as_string (opt_get oauth "issuer"), as_string (opt_get oauth "sub") with
  | true, Some issuer, Some sub => Some ("oauth:" +:+ issuer +:+ ":" +:+ sub)
  | _, _, _ => None
  end.

Definition resolveRerunConsumerId (originalRun : Run) (agentId : string)
    (originalContext : option js_object) : option string :=
  let persisted := as_string (meta_get (run_executionMetadata originalRun) "attachmentConsumerId") in
  let own := "agent:" +:+ agentId in
  if negb (str_absent persisted) then persisted
  else match run_triggerSource originalRun with
       | Some "debug" | Some "chat_app" => origin_userId (run_origin originalRun)
       | Some "oauth" => oauthConsumerIdFromContext originalContext
       | Some "a2a" => Some (default own (oauthConsumerIdFromContext originalContext))
       | _ => Some own
       end.

(** ** The scheduler *)

Inductive retry_effect :=
| RetryAudit (runId originalRunId chainOrigin : string) (attempt : js_number)
| RegisterPendingContext (runId : string) (context : js_object)
| ExecuteChatRun (agentId runId : string) (context : option js_object).

Record Retry := mkRetry { jr_world : World; jr_effects : list retry_effect }.

Definition in_world {A} (m : M World A) : M Retry A := fun s =>
  let '(o, w) := m (jr_world s) in (o, mkRetry w (jr_effects s)).

Definition add_effect (e : retry_effect) : M Retry unit :=
  modify (fun s => mkRetry (jr_world s) (jr_effects s ++ [e])).

(** [executionMetadata?.jobRetryAttempt], a number where the schema is kept *)
Definition attempt_of (run : Run) : option js_number :=
  as_number (meta_get (run_executionMetadata run) "jobRetryAttempt").

(** [executionMetadata?.jobRetryOf ?? id] *)
Definition chain_origin (runId : string) (run : Run) : string :=
  default runId (as_string (meta_get (run_executionMetadata run) "jobRetryOf")).

Definition replay_metadata (runId : string) (originalRun : Run) (usableAttachments : list json)
    (consumerId : option string) (durableRerunContext : option js_object) (nextAttempt : js_number)
    : js_object :=
  let prior := default [] (run_executionMetadata originalRun) in
  let o := inherit "runtimeAdminRequesterUserId" prior [] in
  let o := match usableAttachments with
           | [] => o
           | l => spread_string "attachmentConsumerId" consumerId (obj_set o "attachments" (JArr l))
           end in
  let o := obj_set_opt o "nativeChatContext" (JObj <$> durableRerunContext) in
  let o := if truthy (obj_get prior "traceParent")
           then inherit "traceSession" prior (inherit "traceParent" prior o) else o in
  obj_set (obj_set o "jobRetryOf" (JStr (chain_origin runId originalRun)))
    "jobRetryAttempt" (JNum nextAttempt).

Section Scheduler.
Context `{Instance}.

Definition replay_row (originalRun : Run) (agentId : string) (metadata : js_object) : Run :=
  mkRun pending None (Some metadata) (run_triggerSource originalRun) None None None None
    (Some agentId) None clock clock empty_usage (run_origin originalRun).

(** [insert(runs).values(...)]; ids are unique. *)
Definition insert_run (id : string) (row : Run) : M World unit := fun w =>
  match db_runs (w_db w) !! id with
  | Some _ => (Throw (mkError "SqliteError" "UNIQUE constraint failed: runs.id"), w)
  | None => (Ret tt, set_db (set_runs (insert id row)) w)
  end.

Definition usable_attachments (attachments : list json) (consumerId : option string) : list json :=
  if existsb (fun a => truthy (opt_get (Some a) "token")) attachments && str_absent consumerId
  then filter (fun a => negb (truthy (opt_get (Some a) "token"))) attachments
  else attachments.

Definition scheduleJobRetry (newRunId runId : string) (originalRun : Run) (attempt : js_number)
    : M Retry bool :=
  source ← in_world (select (loadRerunSource runId originalRun));
  match rs_agentId source with
  | None | Some "" => mret false
  | Some agentId =>
      agent ← in_world (select (fun d => db_agents d !! agentId));
      match agent with
      | None => mret false
      | Some agent =>
          if negb (agent_active agent) then mret false
          else
            attachments ← settle (filterReplayableAttachments (rs_rawAttachments source));
            let consumerId := resolveRerunConsumerId originalRun agentId (rs_originalContext source) in
            let usableAttachments := usable_attachments attachments consumerId in
            let nextAttempt := nextJobRetryAttempt (Some attempt) in
            let durableRerunContext :=
              if decide (run_triggerSource originalRun = Some "feishu" \/
                         run_triggerSource originalRun = Some "a2a")
              then rs_originalContext source else None in
            _ ← in_world (insert_run newRunId (replay_row originalRun agentId
                  (replay_metadata runId originalRun usableAttachments consumerId
                     durableRerunContext nextAttempt)));
            slotResult ← in_world (tryAcquireSlot agentId newRunId (agent_maxConcurrency agent));
            match slotResult with
            | slot_queue_full =>
                _ ← in_world (db_write (set_runs (delete newRunId)));
                mret false
            | _ =>
                _ ← add_effect (RetryAudit newRunId runId (chain_origin runId originalRun) nextAttempt);
                _ ← (if decide (slotResult = slot_queued) then
                       match rs_originalContext source with
                       | Some c => add_effect (RegisterPendingContext newRunId c)
                       | None => mret tt
                       end
                     else add_effect (ExecuteChatRun agentId newRunId (rs_originalContext source)));
                mret true
            end
      end
  end.

Definition maybeScheduleJobRetry (newRunId runId : string) (run : Run) (status : RunStatus)
    (error : option string) (maxJobRetries : Z) : M Retry bool :=
  let attempt := default (JInt 0) (attempt_of run) in
  if decide (shouldRetryJob (mkRetryInput status error maxJobRetries attempt) = do_retry)
  then try_catch (scheduleJobRetry newRunId runId run attempt) (fun _ => mret false)
  else mret false.

Context (toNumber : json -> option js_number).

(** [raw != null && Number.isFinite(Number(raw)) ? Number(raw) : 0] *)
Definition configured_retries (raw : option json) : js_number :=
  match raw with
  | None | Some JNull => JInt 0
  | Some v => default (JInt 0) (toNumber v)
  end.

Definition runJobRetryHook (newRunId runId : string) (error : option string) : M Retry unit :=
  try_catch
    (run ← in_world (select (fun d => db_runs d !! runId));
     match run with
     | None => mret tt
     | Some run =>
         if decide (run_status run <> failed) then mret tt
         else match run_initiatorAgentId run with
              | None | Some "" => mret tt
              | Some agentId =>
                  agent ← in_world (select (fun d => db_agents d !! agentId));
                  match agent with
                  | None => mret tt
                  | Some agent =>
                      let maxJobRetries := clampJobRetries (configured_retries (agent_maxJobRetries agent)) in
                      if (maxJobRetries <=? 0)%Z then mret tt
                      else
                        _ ← maybeScheduleJobRetry newRunId runId run (run_status run) error maxJobRetries;
                        mret tt
                  end
              end
     end)
    (fun _ => mret tt).
End Scheduler.

(** ** One call of the hook *)

Section Outcome.
Context `{Instance} (toNumber : json -> option js_number).

(** The owner's consent and the policy, as the hook and the scheduler read them: the budget from
    the agent the run was started for, the replay on the agent that executed it *)
Record replay_due (id : string) (error : option string) (d : Db) (run : Run) (agentId : string)
    (agent : Agent) : Prop := {
  due_run : db_runs d !! id = Some run;
  due_failed : run_status run = failed;
  due_budget : exists owner ownerAgent, run_initiatorAgentId run = Some owner /\ owner <> "" /\
    db_agents d !! owner = Some ownerAgent /\
    js_ge (default (JInt 0) (attempt_of run))
      (clampJobRetries (configured_retries toNumber (agent_maxJobRetries ownerAgent))) = false /\
    (0 < clampJobRetries (configured_retries toNumber (agent_maxJobRetries ownerAgent)))%Z;
  due_error : isPermanentError error = false /\ isHardQuotaError error = false;
  due_agent : rs_agentId (loadRerunSource id run d) = Some agentId /\ agentId <> "" /\
    db_agents d !! agentId = Some agent;
  due_active : agent_active agent = true
}.

(** The replay of a run: the same question on the same channel, and nothing of the attempt that
    failed *)
Record replay_of (id : string) (run : Run) (agentId : string) (row : Run) : Prop := {
  ro_agent : run_initiatorAgentId row = Some agentId;
  ro_origin : run_origin row = run_origin run;
  ro_trigger : run_triggerSource row = run_triggerSource run;
  ro_attempt : attempt_of row = Some (js_succ (default (JInt 0) (attempt_of run)));
  ro_chain : forall i, chain_origin i row = chain_origin id run;
  ro_no_session : meta_get (run_executionMetadata row) "liveChatId" = None;
  ro_fresh : run_result row = None /\ run_workDir row = None /\ run_worktreeConfig row = None
}.

Lemma shouldRetryJob_spec input :
  shouldRetryJob input = do_retry <->
  (0 < ri_maxJobRetries input)%Z /\ ri_status input = failed /\
  js_ge (ri_attempt input) (ri_maxJobRetries input) = false /\
  isPermanentError (ri_error input) = false /\ isHardQuotaError (ri_error input) = false.
Proof.
  unfold shouldRetryJob. destruct (Z.leb_spec (ri_maxJobRetries input) 0) as [Hb|Hb].
  { split; [done|]. lia. }
  destruct (decide (ri_status input <> failed)) as [Hf|Hf%dec_stable]; [naive_solver|].
  destruct (js_ge _ _); [naive_solver|].
  destruct (isPermanentError _); [naive_solver|]. destruct (isHardQuotaError _); simpl; naive_solver.
Qed.

Lemma replay_metadata_attempt id run atts consumer ctx n :
  obj_get (replay_metadata id run atts consumer ctx n) "jobRetryAttempt" = Some (JNum n).
Proof. unfold replay_metadata. by rewrite obj_get_set_eq. Qed.

Lemma replay_metadata_chain id run atts consumer ctx n :
  obj_get (replay_metadata id run atts consumer ctx n) "jobRetryOf" = Some (JStr (chain_origin id run)).
Proof. unfold replay_metadata. rewrite obj_get_set_ne by done. by rewrite obj_get_set_eq. Qed.

Lemma inherit_ne k k' prior o : k <> k' -> obj_get (inherit k prior o) k' = obj_get o k'.
Proof. intros Hk. unfold inherit. case_match; [|done]. by apply obj_get_set_opt_ne. Qed.

(** Nothing else of the metadata of the failed run is carried over. *)
Lemma replay_metadata_other k id run atts consumer ctx n :
  k ∉ ["runtimeAdminRequesterUserId"; "attachments"; "attachmentConsumerId"; "nativeChatContext";
       "traceParent"; "traceSession"; "jobRetryOf"; "jobRetryAttempt"] ->
  obj_get (replay_metadata id run atts consumer ctx n) k = None.
Proof.
  rewrite !not_elem_of_cons. intros (N1 & N2 & N3 & N4 & N5 & N6 & N7 & N8 & _).
  unfold replay_metadata. rewrite !obj_get_set_ne by done.
  assert (obj_get (inherit "runtimeAdminRequesterUserId" (default [] (run_executionMetadata run)) [])
    k = None) as H1 by by rewrite inherit_ne.
  assert (forall o, obj_get o k = None ->
    obj_get (match atts with [] => o | l => spread_string "attachmentConsumerId" consumer
               (obj_set o "attachments" (JArr l)) end) k = None) as H2.
  { intros o Ho. destruct atts; [done|]. unfold spread_string. case_match;
      rewrite ?obj_get_set_opt_ne by done; by rewrite obj_get_set_ne. }
  destruct (truthy _); rewrite ?inherit_ne by done; rewrite obj_get_set_opt_ne by done; by apply H2.
Qed.

Lemma replay_row_spec id run agentId atts consumer ctx slot
    (md := replay_metadata id run atts consumer ctx
             (nextJobRetryAttempt (Some (default (JInt 0) (attempt_of run))))) row :
  row = replay_row run agentId md \/ row = admitted_row slot (replay_row run agentId md) ->
  replay_of id run agentId row.
Proof.
  intros Hrow. assert (run_executionMetadata row = Some md /\ run_initiatorAgentId row = Some agentId /\
    run_origin row = run_origin run /\ run_triggerSource row = run_triggerSource run /\
    run_result row = None /\ run_workDir row = None /\ run_worktreeConfig row = None)
    as (Hmd & Ha & Ho & Ht & Hf) by (destruct Hrow as [->| ->]; [done|]; by destruct slot).
  split; try done; try intros i; unfold attempt_of, chain_origin, meta_get; rewrite Hmd;
    cbn [mbind option_bind].
  - unfold md. by rewrite replay_metadata_attempt.
  - unfold md. by rewrite replay_metadata_chain.
  - apply replay_metadata_other. set_solver.
Qed.

Lemma in_world_run {A} (m : M World A) w es :
  in_world m (mkRetry w es) = (let '(o, w') := m w in (o, mkRetry w' es)).
Proof. done. Qed.

(** The runs after a call, next to those before *)
Inductive hook_result (newId : string) (w : World) (es : list retry_effect) (replay : Run)
    : outcome bool -> Retry -> Prop :=
| hook_refused : hook_result newId w es replay (Ret false) (mkRetry w es)
| hook_stuck e w' :
    db_runs (w_db w') = <[newId := replay]> (db_runs (w_db w)) ->
    hook_result newId w es replay (Throw e) (mkRetry w' es)
| hook_scheduled slot w' es' :
    slot = slot_queued \/ slot = slot_acquired /\ hasExecutionLease newId (w_reg w') = true ->
    db_runs (w_db w') = <[newId := admitted_row slot replay]> (db_runs (w_db w)) ->
    hook_result newId w es replay (Ret true) (mkRetry w' es').

Lemma delete_inserted newId row w w1 :
  db_runs (w_db w) !! newId = None -> w1 = set_db (set_runs (insert newId row)) w ->
  set_db (set_runs (delete newId)) w1 = w.
Proof.
  intros Hn ->. apply world_eq; [|done]. destruct w as [[]]; simpl in *.
  unfold set_runs; simpl. by rewrite delete_insert_id.
Qed.

(** The admission of a row that was just inserted *)
Lemma admit_replay a newId mx row w o w1 :
  wf (w_reg w) ->
  tryAcquireSlot a newId mx (set_db (set_runs (insert newId row)) w) = (o, w1) ->
  match o with
  | Throw _ | Ret slot_queue_full => w1 = set_db (set_runs (insert newId row)) w
  | Ret slot =>
      db_runs (w_db w1) = <[newId := admitted_row slot row]> (db_runs (w_db w)) /\
      (slot = slot_acquired -> hasExecutionLease newId (w_reg w1) = true)
  end.
Proof.
  intros Hw Hrun. apply acquire_outcome in Hrun; [|done]. simpl in Hrun.
  assert (forall r, <[newId := row]> (db_runs (w_db w)) !! newId = Some r -> r = row) as Hrow.
  { intros r. rewrite lookup_insert_eq. congruence. }
  destruct o as [[]|e].
  - destruct Hrun as (_ & _ & Hl & (r & Hr & Hruns) & _). apply Hrow in Hr as ->.
    by rewrite Hruns, insert_insert_eq.
  - destruct Hrun as (_ & _ & _ & _ & r & Hr & Hruns). apply Hrow in Hr as ->.
    by rewrite Hruns, insert_insert_eq.
  - by destruct Hrun as [-> _].
  - done.
Qed.

(** Whether the admission refuses for lack of room *)
Definition no_room (a : string) (mx : nat) (w : World) : Prop :=
  w_runPromotionsPaused w = true \/
  mx <= size (occupying_runs a w) /\ MAX_QUEUE_LENGTH <= size (runs_in a queued (w_db w)).

Lemma schedule_cases newId id run attempt w es o s' :
  wf (w_reg w) -> db_runs (w_db w) !! newId = None ->
  attempt = default (JInt 0) (attempt_of run) ->
  scheduleJobRetry newId id run attempt (mkRetry w es) = (o, s') ->
  (s' = mkRetry w es /\ (o = Ret false \/ exists e, o = Throw e)) \/
  exists a agent replay, rs_agentId (loadRerunSource id run (w_db w)) = Some a /\ a <> "" /\
    db_agents (w_db w) !! a = Some agent /\ agent_active agent = true /\
    (forall slot row, row = replay \/ row = admitted_row slot replay -> replay_of id run a row) /\
    run_status replay = pending /\ hook_result newId w es replay o s'.
Proof.
  intros Hw Hn -> Hrun. unfold scheduleJobRetry in Hrun.
  erewrite bind_run in Hrun by reflexivity. cbn [jr_world jr_effects] in Hrun.
  destruct (rs_agentId (loadRerunSource id run (w_db w))) as [[|c a]|] eqn:Ha;
    [injection Hrun as <- <-; auto| |injection Hrun as <- <-; auto].
  set (aid := String c a) in *.
  erewrite bind_run in Hrun by reflexivity. cbn [jr_world jr_effects] in Hrun.
  destruct (db_agents (w_db w) !! aid) as [agent|] eqn:Hag; [|injection Hrun as <- <-; auto].
  destruct (agent_active agent) eqn:Hact; cbn [negb] in Hrun;
    [|injection Hrun as <- <-; auto].
  destruct (filterReplayableAttachments _) as [atts|e];
    [|injection Hrun as <- <-; left; eauto].
  erewrite bind_run in Hrun by reflexivity.
  cbv zeta in Hrun.
  erewrite bind_run in Hrun by (rewrite in_world_run; unfold insert_run; rewrite Hn; reflexivity).
  match type of Hrun with context [insert newId ?row] => set (replay := row) in * end.
  right. exists aid, agent, replay. split_and!; try done.
  { intros slot row Hrow. eapply replay_row_spec. exact Hrow. }
  destruct (tryAcquireSlot aid newId (agent_maxConcurrency agent)
    (set_db (set_runs (insert newId replay)) w)) as [o1 w1] eqn:Hadm.
  destruct o1 as [slot|e]; [erewrite bind_run in Hrun by (rewrite in_world_run, Hadm; reflexivity)
    |erewrite bind_throw in Hrun by (rewrite in_world_run, Hadm; reflexivity)];
    apply admit_replay in Hadm; try done; [destruct slot|].
  - destruct Hadm as [Hruns Hl]. unfold mbind, M_bind, add_effect, modify in Hrun.
    simpl in Hrun. injection Hrun as <- <-. eapply hook_scheduled; [|exact Hruns]. right. auto.
  - destruct Hadm as [Hruns _]. unfold mbind, M_bind, add_effect, modify in Hrun. simpl in Hrun.
    destruct (resolveRerunContext _ _); injection Hrun as <- <-;
      (eapply hook_scheduled; [by left|exact Hruns]).
  - unfold mbind, M_bind in Hrun. rewrite in_world_run in Hrun.
    unfold db_write, modify in Hrun. simpl in Hrun. injection Hrun as <- <-.
    rewrite (delete_inserted newId replay w); [constructor|done|done].
  - injection Hrun as <- <-. subst w1. by constructor.
Qed.

Lemma hook_cases newId id error w es o s' :
  wf (w_reg w) -> db_runs (w_db w) !! newId = None ->
  runJobRetryHook toNumber newId id error (mkRetry w es) = (o, s') ->
  o = Ret tt /\
  (s' = mkRetry w es \/
   exists run a agent replay r, replay_due id error (w_db w) run a agent /\
     (forall slot row, row = replay \/ row = admitted_row slot replay -> replay_of id run a row) /\
     run_status replay = pending /\ hook_result newId w es replay r s').
Proof.
  intros Hw Hn. unfold runJobRetryHook, try_catch.
  erewrite bind_run by reflexivity. cbn [jr_world jr_effects].
  destruct (db_runs (w_db w) !! id) as [run|] eqn:Hrun; [|intros [= <- <-]; auto].
  destruct (decide (run_status run <> failed)) as [|Hf%dec_stable]; [intros [= <- <-]; auto|].
  destruct (run_initiatorAgentId run) as [[|c owner]|] eqn:Hi; [intros [= <- <-]; auto| |intros [= <- <-]; auto].
  erewrite bind_run by reflexivity. cbn [jr_world jr_effects].
  destruct (db_agents (w_db w) !! String c owner) as [ag|] eqn:Hag; [|intros [= <- <-]; auto].
  cbv zeta. set (budget := clampJobRetries _).
  destruct (Z.leb_spec budget 0) as [|Hb]; [intros [= <- <-]; auto|].
  unfold maybeScheduleJobRetry. cbv zeta.
  destruct (decide _) as [Hyes|]; [|intros [= <- <-]; auto].
  apply shouldRetryJob_spec in Hyes as (_ & _ & Hat & He). simpl in Hat, He.
  unfold mbind at 1, M_bind at 1, try_catch.
  destruct (scheduleJobRetry newId id run _ (mkRetry w es)) as [r s1] eqn:Hs.
  destruct (schedule_cases _ _ _ _ _ _ _ _ Hw Hn eq_refl Hs) as
    [[-> _]|(a & agent & replay & Ha & Hne & Hga & Hact & Hof & Hp & Hres)].
  { destruct r; intros [= <- <-]; auto. }
  assert (o = Ret tt /\ s' = s1 -> o = Ret tt /\ (s' = mkRetry w es \/
    exists run a agent replay r, replay_due id error (w_db w) run a agent /\
      (forall slot row, row = replay \/ row = admitted_row slot replay -> replay_of id run a row) /\
      run_status replay = pending /\ hook_result newId w es replay r s')) as Hgoal.
  { intros [-> ->]. split; [done|]. right. exists run, a, agent, replay, r. split_and!; try done.
    split; try done. exists (String c owner), ag. done. }
  destruct r; intros [= <- <-]; by apply Hgoal.
Qed.
End Outcome.

(** What the hook does to the runs when one of them failed: it never throws; it touches no
    existing run; and it adds a run only when the run failed for a reason worth repeating, its
    agent's owner granted a budget that is not spent, and the agent that executed it is still
    active.  The run it adds asks the same question on the same channel, counts one replay more,
    names the origin of the chain and starts without the session, the workspace and the result of
    the attempt that failed.  It is queued, or running with its execution lease, or, when its
    admission threw, left pending. *)
Theorem job_retry_outcome `{Instance} toNumber newId id error w es o s'
    (Hw : wf (w_reg w)) (Hnew : db_runs (w_db w) !! newId = None)
    (Hrun : runJobRetryHook toNumber newId id error (mkRetry w es) = (o, s')) :
  o = Ret tt /\
  (forall k, k <> newId -> db_runs (w_db (jr_world s')) !! k = db_runs (w_db w) !! k) /\
  match db_runs (w_db (jr_world s')) !! newId with
  | None => s' = mkRetry w es
  | Some row =>
      exists run a agent, replay_due toNumber id error (w_db w) run a agent /\ replay_of id run a row /\
        (run_status row = queued \/
         run_status row = running /\ hasExecutionLease newId (w_reg (jr_world s')) = true \/
         run_status row = pending /\ jr_effects s' = es)
  end.
Proof.
  destruct (hook_cases _ _ _ _ _ _ _ _ Hw Hnew Hrun) as
    [-> [->|(run & a & agent & replay & r & Hdue & Hof & Hp & Hres)]]; (split; [done|]).
  { simpl. by rewrite Hnew. }
  destruct Hres as [|e w' Hruns|slot w' es' Hslot Hruns]; simpl.
  - by rewrite Hnew.
  - rewrite Hruns. split; [intros k Hk; by rewrite lookup_insert_ne|]. rewrite lookup_insert_eq.
    exists run, a, agent. split_and!; [done|by apply (Hof slot_queued); left|auto].
  - rewrite Hruns. split; [intros k Hk; by rewrite lookup_insert_ne|]. rewrite lookup_insert_eq.
    exists run, a, agent. split_and!; [done|by apply (Hof slot); right|].
    destruct Hslot as [->|[-> Hl]]; auto.
Qed.

(** ** Chains of replays *)

Section Chain.
Context `{Instance} (toNumber : json -> option js_number).

(** What later writes to a run leave alone: the counter and the origin of its chain.  Executing a
    run merges other keys into the metadata; only the manual retry starts a chain of its own. *)
Definition same_chain (created later : Run) : Prop :=
  attempt_of later = attempt_of created /\ forall id, chain_origin id later = chain_origin id created.

(** [replays id0 r0 n id r]: the hook replayed run [id0], then the replay, and so on, [n] times,
    with anything happening in between; [id] is the last run of the chain. *)
Inductive replays (id0 : string) (r0 : Run) : nat -> string -> Run -> Prop :=
| replays_none : replays id0 r0 0 id0 r0
| replays_next n id r newId created later error w es s' :
    replays id0 r0 n id r ->
    wf (w_reg w) -> db_runs (w_db w) !! id = Some r -> db_runs (w_db w) !! newId = None ->
    runJobRetryHook toNumber newId id error (mkRetry w es) = (Ret tt, s') ->
    db_runs (w_db (jr_world s')) !! newId = Some created -> same_chain created later ->
    replays id0 r0 (S n) newId later.

Lemma clamp_max v : (clampJobRetries v <= JOB_RETRIES_MAX)%Z.
Proof. unfold clampJobRetries, JOB_RETRIES_MIN, JOB_RETRIES_MAX. lia. Qed.

Lemma chain_step newId id error w es s' r created later :
  wf (w_reg w) -> db_runs (w_db w) !! id = Some r -> db_runs (w_db w) !! newId = None ->
  runJobRetryHook toNumber newId id error (mkRetry w es) = (Ret tt, s') ->
  db_runs (w_db (jr_world s')) !! newId = Some created -> same_chain created later ->
  attempt_of later = Some (js_succ (default (JInt 0) (attempt_of r))) /\
  js_ge (default (JInt 0) (attempt_of r)) JOB_RETRIES_MAX = false /\
  chain_origin newId later = chain_origin id r.
Proof.
  intros Hw Hr Hn Hrun Hc [Hat Hor].
  destruct (hook_cases _ _ _ _ _ _ _ _ Hw Hn Hrun) as
    [_ [->|(run & a & agent & replay & o & Hdue & Hof & Hp & Hres)]]; [simpl in Hc; congruence|].
  assert (run = r) as -> by (pose proof (due_run _ _ _ _ _ _ _ Hdue); congruence).
  assert (replay_of id r a created) as Hrep.
  { destruct Hres as [|e w' Hruns|slot w' es' _ Hruns]; simpl in Hc; [congruence|..];
      rewrite Hruns, lookup_insert_eq in Hc; injection Hc as <-;
      [apply (Hof slot_queued); by left|by apply (Hof slot); right]. }
  rewrite Hat, Hor. split; [apply (ro_attempt _ _ _ _ Hrep)|]. split; [|apply (ro_chain _ _ _ _ Hrep)].
  destruct (due_budget _ _ _ _ _ _ _ Hdue) as (owner & ag & _ & _ & _ & Hge & _).
  revert Hge. pose proof (clamp_max (configured_retries toNumber (agent_maxJobRetries ag))).
  generalize dependent (clampJobRetries (configured_retries toNumber (agent_maxJobRetries ag))).
  intros b Hb. destruct (default _ _) as [z|m e]; simpl; rewrite !Z.leb_gt; [lia|]. nia.
Qed.
End Chain.


(** The reason a thrown error is judged by: run-launcher.ts hands the hook the message for the
    public, which no pattern matches, so a permanent error that was thrown is replayed. *)
Lemma redacted_error_is_retried :
  isPermanentError (Some "HTTP 403 Forbidden") = true /\
  shouldRetryJob (mkRetryInput failed (Some "Execution failed. Check server logs for details.") 3 (JInt 0))
    = do_retry.
Proof. by vm_compute. Qed.

(** A replay of a run of the OAuth channel does not carry the caller the run belongs to. *)
Lemma replay_drops_oauth_caller id run atts consumer ctx n :
  obj_get (replay_metadata id run atts consumer ctx n) "oauthCallerId" = None.
Proof. apply replay_metadata_other. set_solver. Qed.

(** ** An agent with a budget of two replays *)

#[local] Instance retry_instance : Instance :=
  {| processInstanceId := "i1"; clock := 5; hasLostHeartbeatOwnership := false;
     filesystemCollisionKey := id |}.

Definition retry_run : Run :=
  mkRun failed None (Some [("liveChatId", JStr "s1")]) (Some "schedule") None None (Some "i9") None
    (Some "a1") None 0 0 empty_usage (mkOrigin "report" (Some "u1") None None).

Definition retry_demo : World :=
  set_db (fun _ => mkDb {["r1" := retry_run]} ∅
    {["a1" := mkAgent 1 ws_temp None true "A" None None (Some (JNum (JInt 2))) false]} ∅ ∅ ∅ ∅ ∅ ∅ ∅) empty_world.

Definition demo_number (v : json) : option js_number := as_number (Some v).

Definition retry_after : Retry :=
  (runJobRetryHook demo_number "r2" "r1" (Some "socket hang up") (mkRetry retry_demo [])).2.

Lemma retry_after_run :
  runJobRetryHook demo_number "r2" "r1" (Some "socket hang up") (mkRetry retry_demo []) =
  (Ret tt, retry_after).
Proof. by vm_compute. Qed.

Lemma job_retry_outcome_witness :
  exists row, db_runs (w_db (jr_world retry_after)) !! "r2" = Some row /\
    (run_status row = queued \/
     run_status row = running /\ hasExecutionLease "r2" (w_reg (jr_world retry_after)) = true \/
     run_status row = pending /\ jr_effects retry_after = []).
Proof.
  destruct (job_retry_outcome demo_number "r2" "r1" (Some "socket hang up") retry_demo []
    (Ret tt) retry_after wf_empty eq_refl retry_after_run) as (_ & _ & Hout).
  destruct (db_runs (w_db (jr_world retry_after)) !! "r2") as [row|] eqn:Hrow;
    [|by vm_compute in Hrow].
  destruct Hout as (run & a & agent & _ & _ & Hst). exists row. split; [done|exact Hst].
Defined.

