(* ===== verification/GitForge.v ===== *)
(** * The listings a git trigger reads from its forge

    lib/git-trigger-cli.ts from callApi on: what becomes of the answers of the
    glab and gh command lines.  An answer is the JSON value callApiRaw returned,
    or the error it threw; spawning the command, and finding the value in what
    it printed, is outside.  The fields of a request have the types the code
    declares where they are present; a text of another type counts as absent, as
    do null and the count that is not an integer. *)
From Stdlib Require Import Ascii.
From S2P Require Import Prelude Json Records ErrorPatterns GatewayAuth GitTriggerDiff.

Inductive GitTriggerProvider := glab | gh.

#[export] Instance GitTriggerProvider_eq_dec : EqDecision GitTriggerProvider.
Proof. solve_decision. Defined.

#[export] Instance GitTriggerProvider_countable : Countable GitTriggerProvider.
Proof.
  refine (inj_countable' (fun p => match p with glab => true | gh => false end)
            (fun b : bool => if b then glab else gh) _).
  by intros [].
Defined.

Inductive GitTriggerScope := scope_project | scope_group.

#[export] Instance GitTriggerScope_eq_dec : EqDecision GitTriggerScope.
Proof. solve_decision. Defined.

Definition GIT_TRIGGER_MAX_PAGE_BUDGET : Z := 5.
Definition LIST_PAGE_SIZE : nat := 100.

Definition CLI_BINARY (provider : GitTriggerProvider) : string :=
  match provider with glab => "glab" | gh => "gh" end.

Definition GitTriggerCliError (message : string) : JsError := mkError "GitTriggerCliError" message.

(** ** callApi *)

Definition identifier (provider : GitTriggerProvider) : string :=
  match provider with glab => "iid" | gh => "number" end.

(** [identifier in item] *)
Definition shaped (provider : GitTriggerProvider) (item : json) : bool :=
  match item with
  | JObj o => bool_decide (is_Some (obj_get o (identifier provider)))
  | _ => false
  end.

Definition callApi (provider : GitTriggerProvider) (answer : outcome json) : outcome (list json) :=
  match answer with
  | Throw e => Throw e
  | Ret (JArr parsed) =>
      if forallb (shaped provider) parsed then Ret parsed
      else Throw (GitTriggerCliError (CLI_BINARY provider +:+ " api returned an array without `" +:+
             identifier provider +:+ "` entries; treating as a failed poll"))
  | Ret parsed =>
      Throw (GitTriggerCliError (CLI_BINARY provider +:+ " api returned " +:+
        default "unexpected non-array response" (as_string (opt_get (Some parsed) "message"))))
  end.

(** ** Requests *)

Section Fields.
Context (o : js_object).

Definition text_field (k : string) : option string := as_string (obj_get o k).

(** [o.k?.i] *)
Definition inner_text (k i : string) : option string := as_string (opt_get (obj_get o k) i).

Definition integer (v : option json) : option Z :=
  match as_number v with Some (JInt z) => Some z | _ => None end.

(** [a ?? b] *)
Definition coalesce (a b : option json) : option json :=
  match a with None | Some JNull => b | _ => a end.
End Fields.

Definition projectFromReference (reference : option string) : option string :=
  match nonempty reference with
  | None => None
  | Some r =>
      match split_char "!"%char r with
      | path :: _ => if includes path "/" then Some path else None
      | [] => None
      end
  end.

Definition normalizeGitLab (spansRepositories : bool) (mr : js_object) : ObservedRequest :=
  let author :=
    match nonempty (inner_text mr "author" "name") with
    | Some name => Some name
    | None => nonempty (inner_text mr "author" "username")
    end in
  mkObserved (default 0%Z (integer (obj_get mr "iid"))) (default "" (text_field mr "sha"))
    (default 0%Z (integer (obj_get mr "user_notes_count"))) (default "" (text_field mr "title"))
    (nonempty (text_field mr "web_url")) author
    (nonempty (text_field mr "source_branch")) (nonempty (text_field mr "target_branch"))
    (nonempty (text_field mr "updated_at"))
    (truthy (coalesce (obj_get mr "draft") (obj_get mr "work_in_progress"))) None
    (if spansRepositories then projectFromReference (inner_text mr "references" "full") else None).

(** [v?.nodes?.at(-1)] *)
Definition last_node (v : option json) : option json :=
  match opt_get v "nodes" with Some (JArr l) => last l | _ => None end.

Definition node_login (node : option json) : option string :=
  nonempty (as_string (opt_get (opt_get node "author") "login")).

Definition node_time (node : option json) : string := default "" (as_string (opt_get node "createdAt")).

(** The loop of newestAuthor: the newest node so far *)
Fixpoint newest_of (nodes : list (option json)) (newest : option json) : option json :=
  match nodes with
  | [] => newest
  | node :: nodes' =>
      newest_of nodes'
        match node_login node with
        | None => newest
        | Some _ =>
            match newest with
            | None => node
            | Some n => if String.ltb (node_time (Some n)) (node_time node) then node else newest
            end
        end
  end.

Definition newestAuthor (nodes : list (option json)) : option string := node_login (newest_of nodes None).

Definition total_count (v : option json) : Z := default 0%Z (integer (opt_get v "totalCount")).

Definition normalizeGitHub (pr : js_object) : ObservedRequest :=
  let comments := obj_get pr "comments" in
  let reviews := obj_get pr "reviews" in
  let threads := obj_get pr "reviewThreads" in
  mkObserved (default 0%Z (integer (obj_get pr "number"))) (default "" (text_field pr "headRefOid"))
    (total_count comments + total_count reviews + total_count threads)%Z
    (default "" (text_field pr "title")) (nonempty (text_field pr "url"))
    (nonempty (inner_text pr "author" "login"))
    (nonempty (text_field pr "headRefName")) (nonempty (text_field pr "baseRefName"))
    (nonempty (text_field pr "updatedAt")) (truthy (obj_get pr "isDraft"))
    (newestAuthor [last_node comments; last_node reviews; last_node (opt_get (last_node threads) "comments")])
    None.

(** An element that is not an object is null, whose fields cannot be read. *)
Fixpoint normalizeRequests (normalize : js_object -> ObservedRequest) (payload : list json)
    : outcome (list ObservedRequest) :=
  match payload with
  | [] => Ret []
  | JObj o :: payload' =>
      match normalizeRequests normalize payload' with
      | Ret l => Ret (normalize o :: l)
      | Throw e => Throw e
      end
  | _ :: _ => Throw (mkError "TypeError" "Cannot read properties of null")
  end.

(** ** Listings *)

(** What the query for GitHub's pull requests answered *)
Definition fetchGitHubNodes (project : string) (answer : outcome json) : outcome (list json) :=
  match filter (fun p => p <> "") (split_char "/"%char project) with
  | [_; _] =>
      match answer with
      | Throw e => Throw e
      | Ret body =>
          match opt_get (Some body) "errors" with
          | Some (JArr (error :: _)) =>
              Throw (GitTriggerCliError ("gh api graphql returned " +:+
                default "an error" (as_string (opt_get (Some error) "message"))))
          | _ =>
              let repository := opt_get (opt_get (Some body) "data") "repository" in
              match opt_get (opt_get repository "pullRequests") "nodes" with
              | Some (JArr nodes) => Ret nodes
              | _ => Throw (GitTriggerCliError "gh api graphql returned no pull request nodes")
              end
          end
      end
  | _ => Throw (GitTriggerCliError ("GitHub project must be owner/repo, got " +:+ quoted project))
  end.

Record Pages := mkPages { pg_payload : list json; pg_complete : bool; pg_fetched : nat }.

(** The loop over the pages, [left] of them from [page] on; the number beside the
    outcome is that of the calls made. *)
Fixpoint get_pages (answer : nat -> outcome json) (left page : nat) (payload : list json)
    : outcome Pages * nat :=
  match left with
  | 0 => (Ret (mkPages payload false (pred page)), pred page)
  | S left' =>
      match callApi glab (answer page) with
      | Throw e => (Throw e, page)
      | Ret batch =>
          if (length batch <? LIST_PAGE_SIZE)%nat then (Ret (mkPages (payload ++ batch) true page), page)
          else get_pages answer left' (S page) (payload ++ batch)
      end
  end.

Definition max_pages (scope : GitTriggerScope) (pageBudget : Z) : nat :=
  match scope with
  | scope_project => 1
  | scope_group => Z.to_nat (Z.max 1 (Z.min (Z.of_nat GIT_TRIGGER_MAX_PAGES) pageBudget))
  end.

Definition fetchGitLabPages (answer : nat -> outcome json) (scope : GitTriggerScope) (pageBudget : Z)
    : outcome Pages * nat :=
  get_pages answer (max_pages scope pageBudget) 1 [].

Record Listing := mkListing { ls_requests : list ObservedRequest; ls_complete : bool; ls_pagesFetched : nat }.

Definition is_group (scope : GitTriggerScope) : bool := bool_decide (scope <> scope_project).

Definition listOpenRequests (provider : GitTriggerProvider) (project : string) (scope : GitTriggerScope)
    (pageBudget : Z) (answer : nat -> outcome json) : outcome Listing * nat :=
  match provider with
  | gh =>
      (match fetchGitHubNodes project (answer 1) with
       | Throw e => Throw e
       | Ret nodes =>
           match normalizeRequests normalizeGitHub nodes with
           | Throw e => Throw e
           | Ret requests => Ret (mkListing requests (length requests <? LIST_PAGE_SIZE)%nat 1)
           end
       end, 1)
  | glab =>
      match fetchGitLabPages answer scope pageBudget with
      | (Throw e, calls) => (Throw e, calls)
      | (Ret pages, calls) =>
          (match normalizeRequests (normalizeGitLab (is_group scope)) (pg_payload pages) with
           | Throw e => Throw e
           | Ret requests => Ret (mkListing requests (pg_complete pages) (pg_fetched pages))
           end, calls)
      end
  end.

(** ** Single requests *)

Inductive GitTriggerRequestLiveState := live_open | live_merged | live_closed | live_unknown.

#[export] Instance GitTriggerRequestLiveState_eq_dec : EqDecision GitTriggerRequestLiveState.
Proof. solve_decision. Defined.

(** What a command left: whether it was found, timed out, its exit code, and the
    JSON value in its output *)
Record StatusProbe := mkProbe {
  sp_notFound : bool;
  sp_timedOut : bool;
  sp_exitCode : option Z;
  sp_json : option json
}.

Definition fetchRequestState (provider : GitTriggerProvider) (probe : outcome StatusProbe)
    : GitTriggerRequestLiveState :=
  match probe with
  | Throw _ => live_unknown
  | Ret result =>
      if sp_notFound result || sp_timedOut result || negb (bool_decide (sp_exitCode result = Some 0%Z))
      then live_unknown
      else match as_string (opt_get (sp_json result) "state") with
           | None => live_unknown
           | Some state =>
               match provider with
               | glab =>
                   if decide (state = "opened") then live_open
                   else if decide (state = "merged") then live_merged
                   else if decide (state = "closed") then live_closed else live_unknown
               | gh =>
                   if decide (state = "open") then live_open
                   else if decide (state = "closed")
                   then (if decide (opt_get (sp_json result) "merged" = Some (JBool true))
                         then live_merged else live_closed)
                   else live_unknown
               end
           end
  end.

(** The report of the status command, or what it threw, and the answer of the
    [user] endpoint *)
Definition fetchForgeAccount (status : outcome (bool * option string)) (user : outcome json) : option string :=
  match status with
  | Throw _ | Ret (false, _) => None
  | Ret (true, account) =>
      match nonempty account with
      | Some a => Some a
      | None =>
          match user with
          | Throw _ => None
          | Ret body =>
              match nonempty (as_string (opt_get (Some body) "login")) with
              | Some l => Some l
              | None => nonempty (as_string (opt_get (Some body) "username"))
              end
          end
      end
  end.

Definition note_author (note : json) : option string :=
  nonempty (as_string (opt_get (opt_get (Some note) "author") "username")).

(** [!note.system && note.author?.username] *)
Definition human_note (note : json) : bool :=
  negb (truthy (opt_get (Some note) "system")) && bool_decide (is_Some (note_author note)).

Section Authors.
(** [Date.parse], [None] for [NaN] *)
Context (date_parse : string -> option Z).

Definition fetchLatestCommentAuthor (provider : GitTriggerProvider) (observedUpdatedAt : option string)
    (answer : outcome json) : option string :=
  match provider with
  | gh => None
  | glab =>
      match date_parse (default "" observedUpdatedAt) with
      | None => None
      | Some observedTime =>
          match answer with
          | Ret (JArr notes) =>
              let newest := find (fun n => human_note n) notes in
              match date_parse (default "" (as_string (opt_get newest "created_at"))) with
              | None => None
              | Some commentTime =>
                  if (observedTime <=? commentTime)%Z then None else newest ≫= note_author
              end
          | _ => None
          end
      end
  end.
End Authors.

(** ** What a listing says *)

Section Listings.
Context (answer : nat -> outcome json).

(** Page [n] was answered, with the requests [l]. *)
Abbreviation page_is n l := (callApi glab (answer n) = Ret l).

(** The pages up to [n], the last one apart *)
Definition full_page (n : nat) (l : list json) : Prop := page_is n l /\ LIST_PAGE_SIZE <= length l.

Definition pages_read (first : nat) (full : list (list json)) : Prop :=
  forall i l, full !! i = Some l -> full_page (first + i) l.

Lemma pages_read_cons first l full :
  full_page first l -> pages_read (S first) full -> pages_read first (l :: full).
Proof.
  intros Hl Hf [|i] l' Hi; simpl in Hi; simplify_eq; [by rewrite Nat.add_0_r|].
  rewrite Nat.add_succ_r. by apply (Hf i).
Qed.

Lemma get_pages_spec left page payload :
  1 <= page ->
  exists full, pages_read page full /\ length full <= left /\
  match get_pages answer left page payload with
  | (Ret p, calls) =>
      calls = pg_fetched p /\
      if pg_complete p
      then exists short, length full < left /\ calls = page + length full /\ page_is calls short /\
           length short < LIST_PAGE_SIZE /\ pg_payload p = payload ++ concat full ++ short
      else length full = left /\ calls = pred page + left /\ pg_payload p = payload ++ concat full
  | (Throw e, calls) =>
      length full < left /\ calls = page + length full /\ callApi glab (answer calls) = Throw e
  end.
Proof.
  revert page payload. induction left as [|left IH]; intros page payload Hp; simpl.
  { exists []. split; [done|]. simpl. rewrite app_nil_r. split_and!; lia || done. }
  destruct (callApi glab (answer page)) as [batch|e] eqn:Hc.
  2:{ exists []. split; [done|]. rewrite Nat.add_0_r. simpl. split_and!; lia || done. }
  destruct (Nat.ltb_spec (length batch) LIST_PAGE_SIZE) as [Hs|Hs].
  { exists []. split; [done|]. simpl. split; [lia|]. split; [done|]. exists batch.
    rewrite Nat.add_0_r. split_and!; lia || done. }
  destruct (IH (S page) (payload ++ batch)) as (full & Hf & Hl & Hres); [lia|].
  exists (batch :: full). split; [by apply pages_read_cons|]. split; [simpl; lia|].
  destruct (get_pages _ _ _ _) as [[p|e] calls].
  - destruct Hres as [Hcalls Hres]. split; [done|]. destruct (pg_complete p).
    + destruct Hres as (short & H1 & H2 & H3 & H4 & H5). exists short. simpl.
      rewrite H5, <- !app_assoc. split_and!; lia || done.
    + destruct Hres as (H1 & H2 & H3). simpl. rewrite H3, <- !app_assoc. split_and!; lia || done.
  - destruct Hres as (H1 & H2 & H3). simpl. split_and!; lia || done.
Qed.

(** A listing of GitLab holds the pages from the first on, every one of them full
    but the last; it is complete exactly when that one is short, and then it took
    no page in addition.  It fails only when one of its pages does. *)
Theorem listing_exact (scope : GitTriggerScope) (pageBudget : Z) :
  exists full, pages_read 1 full /\
  match fetchGitLabPages answer scope pageBudget with
  | (Ret p, calls) =>
      calls = pg_fetched p /\ 1 <= calls <= max_pages scope pageBudget /\
      if pg_complete p
      then exists short, calls = S (length full) /\ page_is calls short /\ length short < LIST_PAGE_SIZE /\
           pg_payload p = concat full ++ short
      else calls = max_pages scope pageBudget /\ length full = calls /\ pg_payload p = concat full
  | (Throw e, calls) =>
      1 <= calls <= max_pages scope pageBudget /\ calls = S (length full) /\
      callApi glab (answer calls) = Throw e
  end.
Proof.
  assert (1 <= max_pages scope pageBudget) as Hm by (destruct scope; simpl; lia).
  destruct (get_pages_spec (max_pages scope pageBudget) 1 []) as (full & Hf & Hl & Hres); [lia|].
  exists full. split; [done|]. unfold fetchGitLabPages. destruct (get_pages _ _ _ _) as [[p|e] calls].
  - destruct Hres as [Hc Hres]. split; [done|]. destruct (pg_complete p).
    + destruct Hres as (short & H1 & H2 & H3 & H4 & H5). split; [lia|]. exists short. simpl in *.
      split_and!; lia || done.
    + destruct Hres as (H1 & H2 & H3). simpl in *. split_and!; lia || done.
  - destruct Hres as (H1 & H2 & H3). simpl in *. split_and!; lia || done.
Qed.
End Listings.

(** The pages of one call are bounded by what the tick has left, but for the first. *)
Lemma listing_calls provider project scope pageBudget answer :
  let '(o, calls) := listOpenRequests provider project scope pageBudget answer in
  1 <= calls <= GIT_TRIGGER_MAX_PAGES /\ (Z.of_nat calls <= Z.max 1 pageBudget)%Z /\
  (forall l, o = Ret l -> ls_pagesFetched l = calls).
Proof.
  unfold listOpenRequests. destruct provider.
  - destruct (listing_exact answer scope pageBudget) as (full & _ & Hres).
    assert (max_pages scope pageBudget <= GIT_TRIGGER_MAX_PAGES /\
      (Z.of_nat (max_pages scope pageBudget) <= Z.max 1 pageBudget)%Z) as [Hm1 Hm2].
    { unfold max_pages, GIT_TRIGGER_MAX_PAGES. destruct scope; lia. }
    destruct (fetchGitLabPages _ _ _) as [[p|e] calls].
    + destruct Hres as (-> & Hb & _). split; [lia|]. split; [lia|].
      intros l. destruct (normalizeRequests _ _); [|done]. by intros [= <-].
    + destruct Hres as (Hb & _). split; [lia|]. split; [lia|done].
  - unfold GIT_TRIGGER_MAX_PAGES. split; [lia|]. split; [lia|]. intros l.
    repeat case_match; naive_solver.
Qed.

(** *** Keys

    One repository's requests are kept under their number alone, as before there
    were groups. *)
Lemma normalize_all normalize payload requests :
  normalizeRequests normalize payload = Ret requests ->
  exists objects, payload = JObj <$> objects /\ requests = normalize <$> objects.
Proof.
  revert requests. induction payload as [|item payload IH]; intros requests.
  { intros [= <-]. by exists []. }
  destruct item as [| | | | |o]; try done. simpl.
  destruct (normalizeRequests normalize payload) as [l|e]; [|done]. intros [= <-].
  destruct (IH l eq_refl) as (os & -> & ->). by exists (o :: os).
Qed.

Definition single (provider : GitTriggerProvider) (scope : GitTriggerScope) : Prop :=
  provider = gh \/ scope = scope_project.

Lemma listed_project provider project scope pageBudget answer l calls r :
  single provider scope ->
  listOpenRequests provider project scope pageBudget answer = (Ret l, calls) ->
  r ∈ ls_requests l -> rq_project r = None.
Proof.
  intros Hs Hl Hr.
  assert (exists normalize payload, (forall o, rq_project (normalize o) = None) /\
    normalizeRequests normalize payload = Ret (ls_requests l)) as (normalize & payload & Hn & Hreq).
  { unfold listOpenRequests in Hl. destruct provider.
    - destruct Hs as [|Hs]; [done|]. subst scope.
      destruct (fetchGitLabPages _ _ _) as [[p|e] ?]; [|done].
      destruct (normalizeRequests _ _) eqn:He; [|done]. injection Hl as <- <-. eexists _, _.
      split; [|exact He]. done.
    - destruct (fetchGitHubNodes _ _); [|done].
      destruct (normalizeRequests _ _) eqn:He; [|done]. injection Hl as <- <-. eexists _, _.
      split; [|exact He]. done. }
  destruct (normalize_all _ _ _ Hreq) as (os & _ & Ho). rewrite Ho in Hr.
  apply list_elem_of_fmap in Hr as (o & -> & _). apply Hn.
Qed.

(** The requests of one repository are apart when their numbers are: what
    [advances_iff_handled] asks of a listing. *)
Lemma listed_keys provider project scope pageBudget answer l calls :
  single provider scope ->
  listOpenRequests provider project scope pageBudget answer = (Ret l, calls) ->
  NoDup (rq_number <$> ls_requests l) -> NoDup (requestKey <$> ls_requests l).
Proof.
  intros Hs Hl Hd. apply NoDup_fmap_1 in Hd as Hd0.
  assert (forall r, r ∈ ls_requests l -> rq_project r = None) as Hp by (intros r; by eapply listed_project).
  clear Hl. revert Hd Hp. generalize (ls_requests l) as rs. intros rs. clear.
  induction rs as [|r rs IH]; intros Hd Hp; [constructor|]. simpl in Hd |- *.
  apply NoDup_cons in Hd as [Hn Hd]. apply NoDup_cons. split.
  - intros (r' & He & Hr')%list_elem_of_fmap. apply Hn, list_elem_of_fmap. exists r'. split; [|done].
    unfold requestKey in He. by apply key_of_inj in He as [_ He].
  - apply IH; [done|]. intros r' Hr'. apply Hp. by right.
Qed.

(** *** Authors *)

Lemma ltb_false_le a b : String.ltb a b = false -> String.le b a.
Proof.
  unfold String.ltb, String.le, String.leb. rewrite (String.compare_antisym b a).
  by destruct (String.compare a b).
Qed.

Lemma ltb_true_le a b : String.ltb a b = true -> String.le a b.
Proof. unfold String.ltb, String.le, String.leb. by destruct (String.compare a b). Qed.

(** [best] is a node with an author, no older than any other such node of [l]. *)
Definition newest_in (l : list (option json)) (best : option json) : Prop :=
  best ∈ l /\ is_Some (node_login best) /\
  forall n, n ∈ l -> is_Some (node_login n) -> String.le (node_time n) (node_time best).

Lemma newest_of_spec nodes seen newest :
  (newest_in seen newest \/ newest = None /\ Forall (fun n => node_login n = None) seen) ->
  let res := newest_of nodes newest in
  newest_in (seen ++ nodes) res \/ res = None /\ Forall (fun n => node_login n = None) (seen ++ nodes).
Proof.
  revert seen newest. induction nodes as [|node nodes IH]; intros seen newest Hn; simpl;
    [by rewrite app_nil_r|].
  rewrite (cons_middle node seen nodes), app_assoc. apply IH.
  destruct (node_login node) as [a|] eqn:Ha.
  - left. destruct Hn as [(Hin & Hl & Hmax)|[-> Hnone]].
    + destruct newest as [n|]; [|by destruct Hl].
      destruct (String.ltb _ _) eqn:Hlt.
      * apply ltb_true_le in Hlt. split_and!; [set_solver|by eexists|]. intros m [Hm|Hm]%elem_of_app Hml.
        -- etrans; [by apply Hmax|done].
        -- apply list_elem_of_singleton in Hm as ->. done.
      * apply ltb_false_le in Hlt. split_and!; [set_solver|done|]. intros m [Hm|Hm]%elem_of_app Hml; [auto|].
        apply list_elem_of_singleton in Hm as ->. done.
    + split_and!; [set_solver|by eexists|]. intros m [Hm|Hm]%elem_of_app Hml.
      * rewrite Forall_forall in Hnone. rewrite (Hnone m Hm) in Hml. by destruct Hml.
      * apply list_elem_of_singleton in Hm as ->. done.
  - destruct Hn as [(Hin & Hl & Hmax)|[-> Hnone]].
    + left. split_and!; [set_solver|done|]. intros m [Hm|Hm]%elem_of_app Hml; [auto|].
      apply list_elem_of_singleton in Hm as ->. rewrite Ha in Hml. by destruct Hml.
    + right. split; [done|]. apply Forall_app. split; [done|]. by repeat constructor.
Qed.

(** The author of a delta is that of the newest of the three nodes that have one. *)
Lemma newest_author_exact nodes :
  match newestAuthor nodes with
  | Some a => exists best, newest_in nodes best /\ node_login best = Some a
  | None => Forall (fun n => node_login n = None) nodes
  end.
Proof.
  destruct (newest_of_spec nodes [] None) as [Hin|[Hn Hall]]; [by right| |].
  - unfold newestAuthor. destruct Hin as (Hin & [a Ha] & Hmax). rewrite Ha. simpl in *.
    eexists. split; [split_and!; [done|by eexists|done]|done].
  - unfold newestAuthor. by rewrite Hn.
Qed.

(** The author a GitLab request's newest comment is attributed to wrote the first
    comment of a person in the answer, strictly before the listing saw the request
    updated. *)
Lemma latest_author_exact date_parse provider observedUpdatedAt answer a :
  fetchLatestCommentAuthor date_parse provider observedUpdatedAt answer = Some a ->
  provider = glab /\
  exists notes before note after observedTime commentTime,
    answer = Ret (JArr notes) /\ notes = before ++ note :: after /\
    Forall (fun n => human_note n = false) before /\ human_note note = true /\ note_author note = Some a /\
    date_parse (default "" observedUpdatedAt) = Some observedTime /\
    date_parse (default "" (as_string (opt_get (Some note) "created_at"))) = Some commentTime /\
    (commentTime < observedTime)%Z.
Proof.
  unfold fetchLatestCommentAuthor. destruct provider; [|done].
  destruct (date_parse _) as [ot|] eqn:Hot; [|done]. destruct answer as [[| | | |notes|]|]; try done.
  destruct (date_parse _) as [ct|] eqn:Hct in |- *; [|done]. destruct (Z.leb_spec ot ct) as [|Hlt]; [done|].
  intros Ha. split; [done|]. destruct (find _ notes) as [note|] eqn:Hf; [|done]. simpl in Ha.
  assert (exists before after, notes = before ++ note :: after /\
    Forall (fun n => human_note n = false) before /\ human_note note = true) as (before & after & Hn & Hb & Hh).
  { clear -Hf. induction notes as [|n notes IH]; [done|]. simpl in Hf. destruct (human_note n) eqn:Hh.
    - injection Hf as ->. by exists [], notes.
    - destruct (IH Hf) as (b & a & -> & Hb & Hp). exists (n :: b), a. split; [done|]. split; [by constructor|done]. }
  exists notes, before, note, after, ot, ct. by split_and!.
Qed.

(** A request counts as finished only on a successful answer that says so. *)
Lemma finished_is_reported provider probe :
  fetchRequestState provider probe ∈ [live_merged; live_closed] ->
  exists result, probe = Ret result /\ sp_exitCode result = Some 0%Z /\ sp_timedOut result = false /\
    exists s, as_string (opt_get (sp_json result) "state") = Some s /\ s ∈ ["merged"; "closed"].
Proof.
  unfold fetchRequestState. destruct probe as [result|]; [|set_solver].
  destruct (sp_notFound result), (sp_timedOut result) eqn:Ht; simpl; try set_solver.
  case_bool_decide as Hx; simpl; [|set_solver].
  destruct (as_string _) as [s|] eqn:Hs; [|set_solver]. intros Hin. exists result. split_and!; try done.
  exists s. split; [done|]. destruct provider; repeat case_decide; set_solver.
Qed.
