(* ===== verification/GitPoll.v ===== *)
(** * The poll loop of the git triggers

    lib/git-trigger-manager.ts over GitTriggerDiff.v and GitForge.v.  The timers
    of the process, the configurations the routes start and stop, the agents'
    rows and the polls in flight form one system; every awaited call of a poll is
    a step of its own, so anything may happen between two of them.  What a call
    answers, or that it throws, is part of the step; a run is created in one step
    here, whose inside is GitRun.v.  One process polls, as the timers are in its
    memory.  A configuration is the validated one, [None] when the schema refused
    it.  The set of forges already reported as unreachable only decides what is
    logged and is left out.  [po_runs], [po_lost], [po_calls], [ba_handled] and
    the log only record what happened. *)
From stdpp Require Import relations.
From S2P Require Import Prelude Json Records ErrorPatterns GitTriggerDiff GitForge.

(** ** Configurations *)

Record GitTriggerRepo := mkRepo {
  rp_scope : GitTriggerScope;
  rp_project : string;
  rp_host : option string
}.

Definition repoStateKey (repo : GitTriggerRepo) : string :=
  let path := match rp_scope repo with
              | scope_group => "group:" +:+ rp_project repo
              | scope_project => rp_project repo
              end in
  match nonempty (rp_host repo) with Some h => h +:+ "/" +:+ path | None => path end.

Record GitTriggerConfig := mkConfig {
  gc_repos : list GitTriggerRepo;
  gc_events : list GitTriggerEvent;
  gc_targetBranches : list string;
  gc_ignoreDrafts : bool;
  gc_intent : string
}.

(** ** State *)

(** [jobKey]: an agent and a provider *)
Abbreviation Channel := (string * GitTriggerProvider)%type.

(** The columns of an agent that a poll reads *)
Record ChannelAgent := mkChannelAgent {
  ca_published : bool;
  ca_active : bool;
  ca_publishChannels : list string
}.

(** A row of git_trigger_states *)
Record StateRow := mkRow { sr_state : GitTriggerRepoState; sr_lastError : option string }.

Record ForgeAccount := mkAccount { fa_account : option string; fa_at : Z }.

(** The tables, and the maps of the manager; a timer keeps the token and the
    configuration of its closure. *)
Record Manager := mkManager {
  g_agents : gmap string ChannelAgent;
  g_rows : gmap (Channel * string) StateRow;
  g_jobs : gmap Channel (nat * GitTriggerConfig);
  g_inFlight : gset Channel;
  g_repoOffsets : gmap Channel nat;
  g_owners : gmap Channel nat;
  g_forgeAccounts : gmap (Channel * string) ForgeAccount
}.

Definition set_agents f (m : Manager) : Manager :=
  mkManager (f (g_agents m)) (g_rows m) (g_jobs m) (g_inFlight m) (g_repoOffsets m) (g_owners m) (g_forgeAccounts m).
Definition set_rows f (m : Manager) : Manager :=
  mkManager (g_agents m) (f (g_rows m)) (g_jobs m) (g_inFlight m) (g_repoOffsets m) (g_owners m) (g_forgeAccounts m).
Definition set_inFlight f (m : Manager) : Manager :=
  mkManager (g_agents m) (g_rows m) (g_jobs m) (f (g_inFlight m)) (g_repoOffsets m) (g_owners m) (g_forgeAccounts m).
Definition set_offsets f (m : Manager) : Manager :=
  mkManager (g_agents m) (g_rows m) (g_jobs m) (g_inFlight m) (f (g_repoOffsets m)) (g_owners m) (g_forgeAccounts m).
Definition set_accounts f (m : Manager) : Manager :=
  mkManager (g_agents m) (g_rows m) (g_jobs m) (g_inFlight m) (g_repoOffsets m) (g_owners m) (f (g_forgeAccounts m)).

(** ** Starting and stopping *)

Definition stop (ch : Channel) (m : Manager) : Manager :=
  mkManager (g_agents m) (g_rows m) (delete ch (g_jobs m)) (g_inFlight m) (delete ch (g_repoOffsets m))
    (delete ch (g_owners m)) (filter (fun e => e.1.1 <> ch) (g_forgeAccounts m)).

Definition stopAgent (agentId : string) (m : Manager) : Manager := stop (agentId, gh) (stop (agentId, glab) m).

Definition stopAll (m : Manager) : Manager :=
  mkManager (g_agents m) (g_rows m) ∅ (g_inFlight m) ∅ ∅ ∅.

(** [start] up to its first tick; [token] is a new object. *)
Definition start (ch : Channel) (token : nat) (config : option GitTriggerConfig) (m : Manager) : Manager :=
  let m := stop ch m in
  match config with
  | None => m
  | Some config =>
      mkManager (g_agents m) (g_rows m) (<[ch := (token, config)]> (g_jobs m)) (g_inFlight m)
        (g_repoOffsets m) (<[ch := token]> (g_owners m)) (g_forgeAccounts m)
  end.

Definition nextRepoOffset (ch : Channel) (length : nat) (m : Manager) : nat * Manager :=
  if (length <=? 1)%nat then (0, m)
  else let current := default 0 (g_repoOffsets m !! ch) mod length in
       (current, set_offsets (<[ch := S current mod length]>) m).

Definition stillOwns (ch : Channel) (token : nat) (m : Manager) : bool :=
  bool_decide (g_owners m !! ch = Some token).

Definition provider_name (p : GitTriggerProvider) : string := CLI_BINARY p.

Definition channel_enabled (ch : Channel) (agent : ChannelAgent) : bool :=
  bool_decide (provider_name ch.2 ∈ ca_publishChannels agent).

Definition isStillLive (ch : Channel) (m : Manager) : bool :=
  match g_agents m !! ch.1 with
  | Some agent => ca_published agent && ca_active agent && channel_enabled ch agent
  | None => false
  end.

(** ** Rows *)

Definition readState (ch : Channel) (repoKey : string) (m : Manager) : option GitTriggerRepoState :=
  sr_state <$> g_rows m !! (ch, repoKey).

Definition writeState (ch : Channel) (repoKey : string) (state : GitTriggerRepoState)
    (lastError : option string) (m : Manager) : Manager :=
  set_rows (<[(ch, repoKey) := mkRow state lastError]>) m.

Definition recordFailure (ch : Channel) (repoKey message : string) (m : Manager) : Manager :=
  match readState ch repoKey m with
  | None => m
  | Some existing => writeState ch repoKey existing (Some message) m
  end.

(** The rows of the channel outside the configuration are deleted one by one;
    [deleted] are those that were before the end or an error. *)
Definition pruneRemovedRepoStates (ch : Channel) (repos : list GitTriggerRepo) (deleted : string -> bool)
    (m : Manager) : Manager :=
  let active := repoStateKey <$> repos in
  set_rows (filter (fun e => ~ (e.1.1 = ch /\ e.1.2 ∉ active /\ deleted e.1.2 = true))) m.

(** ** Comments of the channel itself *)

Definition FORGE_ACCOUNT_TTL_MS : Z := 3600000.
Definition FORGE_ACCOUNT_NEGATIVE_TTL_MS : Z := 60000.

(** [fetched] is what fetchForgeAccount would answer now. *)
Definition forgeAccount (ch : Channel) (host : option string) (now : Z) (fetched : option string) (m : Manager)
    : option string * Manager :=
  let key := (ch, default "" host) in
  let probe := (fetched, set_accounts (<[key := mkAccount fetched now]>) m) in
  match g_forgeAccounts m !! key with
  | None => probe
  | Some cached =>
      let ttl := match nonempty (fa_account cached) with
                 | Some _ => FORGE_ACCOUNT_TTL_MS | None => FORGE_ACCOUNT_NEGATIVE_TTL_MS end in
      if (now - fa_at cached <? ttl)%Z then (fa_account cached, m) else probe
  end.

(** [latest] is what fetchLatestCommentAuthor would answer. *)
Definition isSelfAuthored (ch : Channel) (repo : GitTriggerRepo) (fired : GitTriggerFiredEvent) (now : Z)
    (fetched latest : option string) (m : Manager) : bool * Manager :=
  if negb (bool_decide (ev_event fired = commented)) then (false, m)
  else if negb (bool_decide (ev_newComments fired = Some 1%Z)) then (false, m)
  else
    let '(account, m) := forgeAccount ch (rp_host repo) now fetched m in
    match nonempty account with
    | None => (false, m)
    | Some account =>
        let author := match rq_lastCommentAuthor (ev_request fired) with Some a => Some a | None => latest end in
        match nonempty author with
        | None => (false, m)
        | Some author => (String.eqb (toLowerCase author) (toLowerCase account), m)
        end
    end.

(** ** A poll *)

(** The repository being processed, those after it, and what the tick has left *)
Record Work := mkWork {
  wk_repo : GitTriggerRepo;
  wk_rest : list GitTriggerRepo;
  wk_budget : nat;
  wk_pageBudget : Z
}.

(** The dispatching of one repository's events *)
Record Batch := mkBatch {
  ba_listing : Listing;
  ba_polledAt : string;
  ba_previous : option GitTriggerRepoState;
  ba_nextState : GitTriggerRepoState;
  ba_unhandled : list GitTriggerFiredEvent;
  ba_dispatched : nat;
  ba_handled : list GitTriggerFiredEvent
}.

(** What a poll is waiting for *)
Inductive Pc :=
| at_agent                                             (* the agent's row *)
| at_agent_read (agent : option ChannelAgent)          (* to go on with it *)
| at_prune
| at_live (w : Work)                                   (* before the listing *)
| at_listing (w : Work)
| at_recheck (w : Work) (listing : Listing)            (* after the listing *)
| at_read (w : Work) (listing : Listing)
| at_seed (w : Work) (state : GitTriggerRepoState)
| at_event (w : Work) (b : Batch) (fired : GitTriggerFiredEvent) (todo : list GitTriggerFiredEvent)
| at_trigger (w : Work) (b : Batch) (fired : GitTriggerFiredEvent) (todo : list GitTriggerFiredEvent)
| at_write (w : Work) (b : Batch) (nextState : GitTriggerRepoState)
| at_record (w : Work) (message : string).

Record Poll := mkPoll {
  po_channel : Channel;
  po_token : nat;
  po_config : GitTriggerConfig;
  po_pc : Pc;
  po_runs : nat;      (* runs dispatched in this tick *)
  po_lost : nat;      (* those of them whose repository then failed *)
  po_calls : nat      (* pages requested *)
}.

(** What the awaited call does: reject with a message, or answer.  Only the
    answers the poll waits for are used. *)
Record Answer := mkAnswer {
  aw_throws : option string;
  aw_deleted : string -> bool;
  aw_pages : nat -> outcome json;
  aw_status : outcome (bool * option string);
  aw_user : outcome json;
  aw_notes : outcome json;
  aw_now : Z;
  aw_polledAt : string;
  aw_dispatched : bool
}.

Definition rejects (a : Answer) : bool := bool_decide (is_Some (aw_throws a)).

(** A run was dispatched for an event, or the event was the channel's own comment. *)
Inductive Done := run_started | self_authored.

#[export] Instance Done_eq_dec : EqDecision Done.
Proof. solve_decision. Defined.

Definition LogEntry : Type := Done * string * GitTriggerFiredEvent.

Section Poll.
Context (localeCompare : string -> string -> Z) (date_parse : string -> option Z).

Definition filters_of (config : GitTriggerConfig) : Filters :=
  mkFilters (gc_targetBranches config) (gc_ignoreDrafts config).

Definition diff_params (config : GitTriggerConfig) (listing : Listing) (previous : option GitTriggerRepoState)
    (polledAt : string) (budget : nat) : DiffParams :=
  mkParams previous (filter (fun r => matchesFilters r (filters_of config) = true) (ls_requests listing))
    (gc_events config) polledAt (Some budget) (Some (ls_requests listing)) (Some (ls_complete listing)).

Definition with_pc (p : Poll) (pc : Pc) : Poll :=
  mkPoll (po_channel p) (po_token p) (po_config p) pc (po_runs p) (po_lost p) (po_calls p).

(** The head of the loop over the repositories *)
Definition next_repo (p : Poll) (m : Manager) (rest : list GitTriggerRepo) (budget : nat) (pageBudget : Z)
    : option Poll :=
  match rest with
  | [] => None
  | repo :: rest' =>
      if stillOwns (po_channel p) (po_token p) m
      then Some (with_pc p (at_live (mkWork repo rest' budget pageBudget))) else None
  end.

(** The head of the loop over the events, and what follows it *)
Definition next_event (w : Work) (b : Batch) (todo : list GitTriggerFiredEvent) : Pc :=
  match todo with
  | fired :: todo' => at_event w b fired todo'
  | [] => at_write (mkWork (wk_repo w) (wk_rest w) (wk_budget w - ba_dispatched b) (wk_pageBudget w)) b
            (rollbackUnhandled (ba_nextState b) (ba_previous b) (ba_unhandled b))
  end.

Definition settled_event (b : Batch) (c : GitTriggerFiredEvent) (dispatched : nat) : Batch :=
  mkBatch (ba_listing b) (ba_polledAt b) (ba_previous b) (ba_nextState b) (ba_unhandled b)
    (ba_dispatched b + dispatched) (ba_handled b ++ [c]).

Definition refused_event (b : Batch) (c : GitTriggerFiredEvent) : Batch :=
  mkBatch (ba_listing b) (ba_polledAt b) (ba_previous b) (ba_nextState b) (ba_unhandled b ++ [c])
    (ba_dispatched b) (ba_handled b).

Definition count_run (p : Poll) : Poll :=
  mkPoll (po_channel p) (po_token p) (po_config p) (po_pc p) (S (po_runs p)) (po_lost p) (po_calls p).
Definition count_lost (p : Poll) (n : nat) : Poll :=
  mkPoll (po_channel p) (po_token p) (po_config p) (po_pc p) (po_runs p) (po_lost p + n) (po_calls p).
Definition count_calls (p : Poll) (n : nat) : Poll :=
  mkPoll (po_channel p) (po_token p) (po_config p) (po_pc p) (po_runs p) (po_lost p) (po_calls p + n).

(** The diff of a repository that was listed *)
Definition process (p : Poll) (w : Work) (listing : Listing) (previous : option GitTriggerRepoState)
    (polledAt : string) : Pc :=
  let result := diffRepoState localeCompare
                  (diff_params (po_config p) listing previous polledAt (wk_budget w)) in
  if df_seeded result then at_seed w (df_nextState result)
  else next_event w (mkBatch listing polledAt previous (df_nextState result) [] 0 []) (df_fired result).

(** One awaited call of a poll, up to the next: [None] when the poll ends *)
Definition resume (p : Poll) (a : Answer) (m : Manager) : Manager * option Poll * list LogEntry :=
  let ch := po_channel p in
  let goto pc := (m, Some (with_pc p pc), []) in
  let ended := (m, None, []) in
  let failing w := match aw_throws a with
                   | Some message => Some (with_pc p (at_record w message)) | None => None end in
  match po_pc p with
  | at_agent => if rejects a then ended else goto (at_agent_read (g_agents m !! ch.1))
  | at_agent_read agent =>
      match agent with
      | None => (stop ch m, None, [])
      | Some agent =>
          if negb (ca_published agent) then (stop ch m, None, [])
          else if negb (channel_enabled ch agent) then (stop ch m, None, [])
          else if negb (ca_active agent) then ended else goto at_prune
      end
  | at_prune =>
      let repos := gc_repos (po_config p) in
      if rejects a then (pruneRemovedRepoStates ch repos (aw_deleted a) m, None, [])
      else
        let m := pruneRemovedRepoStates ch repos (fun _ => true) m in
        let '(order, m) := nextRepoOffset ch (length repos) m in
        (m, next_repo p m (drop order repos ++ take order repos) GIT_TRIGGER_MAX_RUNS_PER_TICK
              GIT_TRIGGER_MAX_PAGE_BUDGET, [])
  | at_live w => if rejects a then ended else if isStillLive ch m then goto (at_listing w) else ended
  | at_listing w =>
      let repo := wk_repo w in
      let '(answer, calls) :=
        listOpenRequests ch.2 (rp_project repo) (rp_scope repo) (wk_pageBudget w) (aw_pages a) in
      let p := count_calls p calls in
      match answer with
      | Throw e => (m, Some (with_pc p (at_record w (err_message e))), [])
      | Ret listing =>
          let w := mkWork repo (wk_rest w) (wk_budget w) (wk_pageBudget w - Z.of_nat (ls_pagesFetched listing)) in
          (m, if stillOwns ch (po_token p) m then Some (with_pc p (at_recheck w listing)) else None, [])
      end
  | at_recheck w listing =>
      if rejects a then ended else if isStillLive ch m then goto (at_read w listing) else ended
  | at_read w listing =>
      match failing w with
      | Some p => (m, Some p, [])
      | None => goto (process p w listing (readState ch (repoStateKey (wk_repo w)) m) (aw_polledAt a))
      end
  | at_seed w state =>
      match failing w with
      | Some p => (m, Some p, [])
      | None =>
          let m := writeState ch (repoStateKey (wk_repo w)) state None m in
          (m, next_repo p m (wk_rest w) (wk_budget w) (wk_pageBudget w), [])
      end
  | at_event w b fired todo =>
      let repo := wk_repo w in
      let '(self, m) :=
        isSelfAuthored ch repo fired (aw_now a) (fetchForgeAccount (aw_status a) (aw_user a))
          (fetchLatestCommentAuthor date_parse ch.2 (rq_updatedAt (ev_request fired)) (aw_notes a)) m in
      if (self : bool)
      then (m, Some (with_pc p (next_event w (settled_event b fired 0) todo)),
            [(self_authored, repoStateKey repo, fired)])
      else (m, Some (with_pc p (at_trigger w b fired todo)), [])
  | at_trigger w b fired todo =>
      match failing w with
      | Some p => (m, Some (count_lost p (ba_dispatched b)), [])
      | None =>
          if aw_dispatched a
          then (m, Some (with_pc (count_run p) (next_event w (settled_event b fired 1) todo)),
                [(run_started, repoStateKey (wk_repo w), fired)])
          else goto (next_event w (refused_event b fired) todo)
      end
  | at_write w b nextState =>
      match failing w with
      | Some p => (m, Some p, [])
      | None =>
          let m := writeState ch (repoStateKey (wk_repo w)) nextState None m in
          (m, if (wk_budget w =? 0)%nat then None
              else next_repo p m (wk_rest w) (wk_budget w) (wk_pageBudget w), [])
      end
  | at_record w message =>
      if rejects a then ended
      else let m := recordFailure ch (repoStateKey (wk_repo w)) message m in
           (m, next_repo p m (wk_rest w) (wk_budget w) (wk_pageBudget w), [])
  end.

(** [tick] up to its first await: the poll it starts, if it starts one *)
Definition tick_start (ch : Channel) (token : nat) (config : GitTriggerConfig) (m : Manager)
    : Manager * option Poll :=
  if bool_decide (ch ∈ g_inFlight m) then (m, None)
  else if negb (stillOwns ch token m) then (m, None)
  else (set_inFlight (fun s => {[ch]} ∪ s) m, Some (mkPoll ch token config at_agent 0 0 0)).

(** ** The system *)

Record System := mkSystem {
  sy_mgr : Manager;
  sy_polls : gmap nat Poll;
  sy_log : list (nat * LogEntry);
  sy_next : nat            (* fresh tokens and polls *)
}.

Definition idle (m : Manager) : System := mkSystem m ∅ [] 0.

(** Every poll in flight has a number; a call to [tick] takes the next one. *)
Definition run_tick (ch : Channel) (token : nat) (config : GitTriggerConfig) (s : System) : System :=
  let '(m, p) := tick_start ch token config (sy_mgr s) in
  mkSystem m (match p with Some p => <[sy_next s := p]> (sy_polls s) | None => sy_polls s end)
    (sy_log s) (S (sy_next s)).

Definition run_start (ch : Channel) (config : option GitTriggerConfig) (s : System) : System :=
  let token := sy_next s in
  let s := mkSystem (start ch token config (sy_mgr s)) (sy_polls s) (sy_log s) (S token) in
  match config with Some config => run_tick ch token config s | None => s end.

(** One call of poll [id]; a poll that ends frees its channel. *)
Definition run_resume (id : nat) (p : Poll) (a : Answer) (s : System) : System :=
  let '(m, next, entries) := resume p a (sy_mgr s) in
  let log := sy_log s ++ ((id,.) <$> entries) in
  match next with
  | Some p' => mkSystem m (<[id := p']> (sy_polls s)) log (sy_next s)
  | None => mkSystem (set_inFlight (fun f => f ∖ {[po_channel p]}) m) (delete id (sy_polls s)) log (sy_next s)
  end.

Definition with_mgr (f : Manager -> Manager) (s : System) : System :=
  mkSystem (f (sy_mgr s)) (sy_polls s) (sy_log s) (sy_next s).

(** The rows of an agent go with it. *)
Definition agents_change (agents : gmap string ChannelAgent) (m : Manager) : Manager :=
  set_rows (filter (fun e => is_Some (agents !! e.1.1.1))) (set_agents (fun _ => agents) m).

Inductive step (s : System) : System -> Prop :=
| step_timer ch token config :
    g_jobs (sy_mgr s) !! ch = Some (token, config) -> step s (run_tick ch token config s)
| step_start ch config : step s (run_start ch config s)
| step_stop ch : step s (with_mgr (stop ch) s)
| step_stopAll : step s (with_mgr stopAll s)
| step_agents agents : step s (with_mgr (agents_change agents) s)
| step_resume id p a : sy_polls s !! id = Some p -> step s (run_resume id p a s).

(** [restoreAll] after a restart: a start for every published channel *)
Definition restoreAll (configs : list (string * option GitTriggerConfig * option GitTriggerConfig))
    (s : System) : System :=
  foldl (fun s '(agentId, glabConfig, ghConfig) =>
    let restore provider (config : option GitTriggerConfig) s :=
      match config, g_agents (sy_mgr s) !! agentId with
      | Some c, Some agent =>
          if ca_published agent && channel_enabled (agentId, provider) agent
          then run_start (agentId, provider) (Some c) s else s
      | _, _ => s
      end in
    restore gh ghConfig (restore glab glabConfig s)) s configs.

End Poll.

(** ** What holds in every reachable state *)

Section Invariant.
Context (localeCompare : string -> string -> Z) (date_parse : string -> option Z).
Implicit Types (m : Manager) (p : Poll) (s : System) (ch : Channel).

#[local] Arguments GIT_TRIGGER_MAX_RUNS_PER_TICK : simpl never.

Definition work_key (w : Work) : string := repoStateKey (wk_repo w).

(** The verdicts on the events visited so far *)
Definition taken (vs : list (GitTriggerFiredEvent * bool)) : list GitTriggerFiredEvent :=
  (filter (fun v => v.2 = true) vs).*1.
Definition refused (vs : list (GitTriggerFiredEvent * bool)) : list GitTriggerFiredEvent :=
  (filter (fun v => v.2 = false) vs).*1.

Definition batch_params p (b : Batch) (budget : nat) : DiffParams :=
  diff_params (po_config p) (ba_listing b) (ba_previous b) (ba_polledAt b) budget.

(** The state a repository's batch was computed from is the stored one, and each
    event of the diff was handled or refused, or is left to visit. *)
Record batch_ok (log : list (nat * LogEntry)) (id : nat) p m (w : Work) (b : Batch) (budget : nat)
    (todo : list GitTriggerFiredEvent) (st : GitTriggerRepoState)
    (vs : list (GitTriggerFiredEvent * bool)) : Prop := {
  bo_previous : ba_previous b = Some st;
  bo_wf : state_wf st;
  bo_row : forall row, g_rows m !! (po_channel p, work_key w) = Some row -> sr_state row = st;
  bo_next : ba_nextState b = df_nextState (diffRepoState localeCompare (batch_params p b budget));
  bo_fired : df_fired (diffRepoState localeCompare (batch_params p b budget)) = vs.*1 ++ todo;
  bo_handled : ba_handled b = taken vs;
  bo_unhandled : ba_unhandled b = refused vs;
  bo_dispatched : ba_dispatched b <= length (taken vs);
  bo_logged : forall c, c ∈ taken vs -> exists how, (id, (how, work_key w, c)) ∈ log
}.

Definition pc_ok (log : list (nat * LogEntry)) (id : nat) p m : Prop :=
  match po_pc p with
  | at_seed w st => state_wf st /\ g_rows m !! (po_channel p, work_key w) = None
  | at_event w b c todo | at_trigger w b c todo =>
      exists st vs, batch_ok log id p m w b (wk_budget w) (c :: todo) st vs
  | at_write w b next =>
      next = rollbackUnhandled (ba_nextState b) (ba_previous b) (ba_unhandled b) /\
      exists st vs, batch_ok log id p m w b (wk_budget w + ba_dispatched b) [] st vs
  | _ => True
  end.

(** The runs of a tick are what it has spent and what failed repositories lost. *)
Definition accounts p : Prop :=
  match po_pc p with
  | at_agent | at_agent_read _ | at_prune => po_runs p = 0 /\ po_lost p = 0
  | at_live w | at_listing w | at_recheck w _ | at_read w _ | at_seed w _ | at_write w _ _
  | at_record w _ => po_runs p + wk_budget w = po_lost p + GIT_TRIGGER_MAX_RUNS_PER_TICK
  | at_event w b _ _ | at_trigger w b _ _ =>
      po_runs p + wk_budget w = po_lost p + ba_dispatched b + GIT_TRIGGER_MAX_RUNS_PER_TICK
  end.

Record inv s : Prop := {
  inv_rows : forall k row, g_rows (sy_mgr s) !! k = Some row -> state_wf (sr_state row);
  inv_polls : forall id p, sy_polls s !! id = Some p ->
    id < sy_next s /\ po_token p < sy_next s /\ po_channel p ∈ g_inFlight (sy_mgr s) /\
    pc_ok (sy_log s) id p (sy_mgr s) /\ accounts p;
  inv_alone : forall id id' p p', sy_polls s !! id = Some p -> sy_polls s !! id' = Some p' ->
    po_channel p = po_channel p' -> id = id';
  inv_owners : forall ch t, g_owners (sy_mgr s) !! ch = Some t -> t < sy_next s;
  inv_jobs : forall ch t config, g_jobs (sy_mgr s) !! ch = Some (t, config) ->
    g_owners (sy_mgr s) !! ch = Some t
}.

(** *** Frames *)

(** The rows of [ch] can only have gone. *)
Definition shrinks ch m m' : Prop :=
  forall k row, g_rows m' !! (ch, k) = Some row -> g_rows m !! (ch, k) = Some row.

Lemma pc_ok_frame log log' id p m m' :
  shrinks (po_channel p) m m' -> log ⊆ log' -> pc_ok log id p m -> pc_ok log' id p m'.
Proof.
  intros Hs Hl. assert (forall w b budget todo st vs, batch_ok log id p m w b budget todo st vs ->
    batch_ok log' id p m' w b budget todo st vs) as Hb.
  { intros w b budget todo st vs []. split; try done.
    - intros row Hr. by apply bo_row0, Hs.
    - intros c Hc. destruct (bo_logged0 c Hc) as [how Hin]. exists how. by apply Hl. }
  unfold pc_ok. destruct (po_pc p) as [| | | | | | |w st|w b c todo|w b c todo|w b next|]; try done.
  - intros [Hw Hn]. split; [done|]. destruct (g_rows m' !! _) as [row|] eqn:Hr; [|done].
    apply Hs in Hr. congruence.
  - intros (st & vs & H). eauto.
  - intros (st & vs & H). eauto.
  - intros (Hn & st & vs & H). eauto 6.
Qed.

Lemma stop_rows ch m : g_rows (stop ch m) = g_rows m.
Proof. done. Qed.

Lemma offset_rows ch n m : g_rows (nextRepoOffset ch n m).2 = g_rows m.
Proof. unfold nextRepoOffset. by destruct (n <=? 1)%nat. Qed.

Lemma account_rows ch host now fetched m : g_rows (forgeAccount ch host now fetched m).2 = g_rows m.
Proof. unfold forgeAccount. by repeat case_match. Qed.

(** What the helpers leave alone *)
Definition same_control m m' : Prop :=
  g_agents m' = g_agents m /\ g_inFlight m' = g_inFlight m /\ g_jobs m' = g_jobs m /\ g_owners m' = g_owners m.

Lemma offset_control ch n m : same_control m (nextRepoOffset ch n m).2.
Proof. unfold nextRepoOffset, same_control. by destruct (n <=? 1)%nat. Qed.

Lemma self_control ch repo fired now fetched latest m :
  let m' := (isSelfAuthored ch repo fired now fetched latest m).2 in
  same_control m m' /\ g_rows m' = g_rows m.
Proof.
  unfold isSelfAuthored, same_control. destruct (negb _); [done|]. destruct (negb _); [done|].
  pose proof (account_rows ch (rp_host repo) now fetched m) as Hr.
  assert (same_control m (forgeAccount ch (rp_host repo) now fetched m).2) as Hc.
  { unfold forgeAccount, same_control. by repeat case_match. }
  destruct (forgeAccount _ _ _ _ _) as [account m1]. simpl in *.
  destruct (nonempty account); simpl; [|done]. by repeat case_match.
Qed.

Lemma recordFailure_row ch key message m k row' :
  g_rows (recordFailure ch key message m) !! k = Some row' ->
  exists row, g_rows m !! k = Some row /\ sr_state row = sr_state row'.
Proof.
  unfold recordFailure, readState, writeState. destruct (g_rows m !! (ch, key)) as [row|] eqn:Hr; simpl.
  - rewrite lookup_insert. case_decide as Hk; [subst k; intros [= <-]; eauto|eauto].
  - eauto.
Qed.

Lemma prune_row ch repos deleted m k row :
  g_rows (pruneRemovedRepoStates ch repos deleted m) !! k = Some row -> g_rows m !! k = Some row.
Proof. unfold pruneRemovedRepoStates. simpl. by intros [? _]%map_lookup_filter_Some. Qed.

Lemma prune_other ch repos deleted m k : k.1 <> ch ->
  g_rows (pruneRemovedRepoStates ch repos deleted m) !! k = g_rows m !! k.
Proof.
  intros Hk. unfold pruneRemovedRepoStates. simpl. destruct (g_rows m !! k) as [row|] eqn:Hr.
  - apply map_lookup_filter_Some. split; [done|]. simpl. tauto.
  - apply map_lookup_filter_None. by left.
Qed.

Lemma next_repo_live p m rest budget pageBudget p' :
  next_repo p m rest budget pageBudget = Some p' ->
  exists repo rest', p' = with_pc p (at_live (mkWork repo rest' budget pageBudget)) /\
    stillOwns (po_channel p) (po_token p) m = true.
Proof. unfold next_repo. destruct rest; [done|]. case_match; [|done]. intros [= <-]. eauto. Qed.

Definition same_poll p p' : Prop :=
  po_channel p' = po_channel p /\ po_token p' = po_token p /\ po_config p' = po_config p.

(** What a call of a poll leaves alone: the agents, the polls in flight, the other
    channels; it takes the channel away from no configuration but by stopping it. *)
Lemma resume_frame p a m m' q es :
  resume localeCompare date_parse p a m = (m', q, es) ->
  let ch := po_channel p in
  g_agents m' = g_agents m /\ g_inFlight m' = g_inFlight m /\
  (forall k, k.1 <> ch -> g_rows m' !! k = g_rows m !! k) /\
  (g_owners m' = g_owners m /\ g_jobs m' = g_jobs m \/
   m' = stop ch m /\ q = None) /\
  (forall p', q = Some p' -> same_poll p p').
Proof.
  intros Hr ch. unfold resume in Hr. fold ch in Hr. unfold rejects in Hr.
  assert (forall x pc, same_poll p x -> forall p', Some (with_pc x pc) = Some p' -> same_poll p p') as Hq
    by (intros x pc Hx p' [= <-]; done).
  assert (forall m1 rest n z p', next_repo p m1 rest n z = Some p' -> same_poll p p') as Hn.
  { intros m1 rest n z p' Hp'. by apply next_repo_live in Hp' as (? & ? & -> & _). }
  assert (forall key row k, k.1 <> ch -> <[(ch, key) := row]> (g_rows m) !! k = g_rows m !! k) as Hi
    by (intros key row k Hk; by rewrite lookup_insert_ne by (intros <-; done)).
  destruct (po_pc p).
  - case_match; simplify_eq; split_and!; auto; by intros ? [= <-].
  - repeat case_match; simplify_eq; split_and!; auto; by intros ? [= <-].
  - case_bool_decide.
    + simplify_eq. split_and!; auto; [|by intros ? [=]]. intros k Hk. by apply prune_other.
    + set (m1 := pruneRemovedRepoStates _ _ _ _) in *.
      pose proof (offset_control ch (length (gc_repos (po_config p))) m1) as Hc.
      pose proof (offset_rows ch (length (gc_repos (po_config p))) m1) as Hrow.
      destruct (nextRepoOffset _ _ _) as [order m2]. simpl in *. simplify_eq.
      destruct Hc as (H1 & H2 & H3 & H4). split_and!; [done|done| |by left|by eapply Hn].
      intros k Hk. rewrite Hrow. 
      exact (prune_other ch (gc_repos (po_config p)) (fun _ => true) m k Hk).
  - repeat case_match; simplify_eq; split_and!; auto; by intros ? [= <-].
  - destruct (listOpenRequests _ _ _ _ _) as [[l|e] calls]; simplify_eq.
    + split_and!; auto. case_match; [|done]. by eapply Hq.
    + split_and!; auto. by eapply Hq.
  - repeat case_match; simplify_eq; split_and!; auto; by intros ? [= <-].
  - destruct (aw_throws a); simplify_eq; split_and!; auto; by eapply Hq.
  - destruct (aw_throws a); simplify_eq; split_and!; auto; [by eapply Hq| |by eapply Hn].
    intros k Hk. by apply Hi.
  - match goal with H : context [isSelfAuthored ?a ?b ?c ?d ?e ?f ?g] |- _ =>
      pose proof (self_control a b c d e f g) as Hs; destruct (isSelfAuthored a b c d e f g) as [self m1] end.
    simpl in Hs. destruct Hs as [(H1 & H2 & H3 & H4) H5].
    destruct self; simplify_eq; split_and!; auto; try (intros; congruence); by eapply Hq.
  - destruct (aw_throws a); simplify_eq; [|destruct (aw_dispatched a); simplify_eq]; split_and!; auto;
      by intros ? [= <-].
  - destruct (aw_throws a); simplify_eq; split_and!; auto; [by eapply Hq| |].
    + intros k Hk. by apply Hi.
    + case_match; [done|]. by eapply Hn.
  - case_match; simplify_eq; [by split_and!; auto|].
    assert (forall k, k.1 <> ch -> g_rows (recordFailure ch (repoStateKey (wk_repo w)) message m) !! k = g_rows m !! k).
    { intros k Hk. unfold recordFailure. case_match; [by apply Hi|done]. }
    split_and!; auto; [..|by eapply Hn]; unfold recordFailure; case_match; auto.
Qed.

(** *** What a call of a poll establishes *)

Lemma diff_seeded params :
  df_seeded (diffRepoState localeCompare params) = bool_decide (dp_previous params = None).
Proof. unfold diffRepoState. destruct (dp_previous params); [|done]. by case_match. Qed.

Lemma fired_capped params st :
  dp_previous params = Some st ->
  length (df_fired (diffRepoState localeCompare params)) <= tick_cap params.
Proof.
  intros Hp. destruct (tick_split localeCompare params st) as [Hf _].
  assert (with_previous params st = params) as He by (destruct params; simpl in *; by subst).
  rewrite He in Hf. rewrite Hf, length_take. lia.
Qed.

Lemma taken_length vs : length (taken vs) <= length vs.
Proof.
  unfold taken. rewrite length_fmap. induction vs as [|v vs IH]; [done|].
  rewrite filter_cons. case_decide; simpl; lia.
Qed.

Lemma taken_snoc vs c b : taken (vs ++ [(c, b)]) = taken vs ++ (if b then [c] else []).
Proof. unfold taken. rewrite filter_app, fmap_app. by destruct b. Qed.
Lemma refused_snoc vs c b : refused (vs ++ [(c, b)]) = refused vs ++ (if b then [] else [c]).
Proof. unfold refused. rewrite filter_app, fmap_app. by destruct b. Qed.

Lemma batch_within log id p m w b todo st vs :
  batch_ok log id p m w b (wk_budget w) todo st vs -> ba_dispatched b <= wk_budget w.
Proof.
  intros []. etrans; [exact bo_dispatched0|]. etrans; [apply taken_length|].
  pose proof (fired_capped (batch_params p b (wk_budget w)) st bo_previous0) as Hc.
  rewrite bo_fired0, length_app, length_fmap in Hc. unfold tick_cap in Hc. simpl in Hc. lia.
Qed.

Lemma next_event_ok log id p m w b todo st vs :
  batch_ok log id p m w b (wk_budget w) todo st vs ->
  po_runs p + wk_budget w = po_lost p + ba_dispatched b + GIT_TRIGGER_MAX_RUNS_PER_TICK ->
  pc_ok log id (with_pc p (next_event w b todo)) m /\ accounts (with_pc p (next_event w b todo)).
Proof.
  intros Hb Ha. pose proof (batch_within _ _ _ _ _ _ _ _ _ Hb) as Hw.
  destruct todo as [|c todo]; unfold pc_ok, accounts; simpl.
  - split; [|lia]. split; [done|]. exists st, vs.
    rewrite Nat.sub_add by done. by destruct Hb.
  - split; [|done]. exists st, vs. by destruct Hb.
Qed.

(** The visited event [c] joins the verdicts. *)
Lemma batch_settled log id p m w b c todo st vs n how :
  batch_ok log id p m w b (wk_budget w) (c :: todo) st vs -> n <= 1 ->
  batch_ok (log ++ [(id, (how, work_key w, c))]) id p m w (settled_event b c n) (wk_budget w) todo st
    (vs ++ [(c, true)]).
Proof.
  intros [] Hn. split; try done; simpl.
  - rewrite fmap_app, <- app_assoc. exact bo_fired0.
  - by rewrite taken_snoc, bo_handled0.
  - by rewrite refused_snoc, app_nil_r.
  - rewrite taken_snoc, length_app. simpl. lia.
  - intros c'. rewrite taken_snoc. intros [Hc|Hc]%elem_of_app.
    + destruct (bo_logged0 c' Hc) as [how' Hin]. exists how'. set_solver.
    + apply list_elem_of_singleton in Hc as ->. exists how. set_solver.
Qed.

Lemma batch_refused log id p m w b c todo st vs :
  batch_ok log id p m w b (wk_budget w) (c :: todo) st vs ->
  batch_ok log id p m w (refused_event b c) (wk_budget w) todo st (vs ++ [(c, false)]).
Proof.
  intros []. split; try done; simpl.
  - rewrite fmap_app, <- app_assoc. exact bo_fired0.
  - by rewrite taken_snoc, app_nil_r.
  - by rewrite refused_snoc, bo_unhandled0.
  - by rewrite taken_snoc, app_nil_r.
  - intros c'. rewrite taken_snoc, app_nil_r. auto.
Qed.

Definition rows_wf m : Prop := forall k row, g_rows m !! k = Some row -> state_wf (sr_state row).

Lemma process_ok log id p m w listing polledAt :
  rows_wf m -> po_runs p + wk_budget w = po_lost p + GIT_TRIGGER_MAX_RUNS_PER_TICK ->
  let pc := process localeCompare p w listing (readState (po_channel p) (work_key w) m) polledAt in
  pc_ok log id (with_pc p pc) m /\ accounts (with_pc p pc).
Proof.
  intros Hw Ha. unfold process. set (params := diff_params _ _ _ _ _).
  rewrite diff_seeded. unfold params, readState. simpl.
  destruct (g_rows m !! (po_channel p, work_key w)) as [row|] eqn:Hrow; simpl.
  - apply (next_event_ok _ _ _ _ _ _ _ (sr_state row) []); [|simpl; lia].
    split; try done; [by eapply Hw|naive_solver|set_solver].
  - split; [|done].
    split; [apply buildState_wf|done].
Qed.

Lemma write_wf m ch key st e : rows_wf m -> state_wf st -> rows_wf (writeState ch key st e m).
Proof.
  intros Hw Hs k row. unfold writeState. simpl. rewrite lookup_insert. case_decide; [|apply Hw].
  by intros [= <-].
Qed.

Lemma record_wf m ch key message : rows_wf m -> rows_wf (recordFailure ch key message m).
Proof. intros Hw k row (row0 & H & <-)%recordFailure_row. by eapply Hw. Qed.

Lemma batch_written_wf log id p m w b budget todo st vs :
  batch_ok log id p m w b budget todo st vs ->
  state_wf (rollbackUnhandled (ba_nextState b) (ba_previous b) (ba_unhandled b)).
Proof.
  intros []. rewrite bo_previous0. apply rollback_wf; [|done]. rewrite bo_next0.
  by apply diff_keeps_wf with st.
Qed.

Lemma next_repo_ok log id p m rest budget pageBudget p' :
  po_runs p + budget = po_lost p + GIT_TRIGGER_MAX_RUNS_PER_TICK ->
  next_repo p m rest budget pageBudget = Some p' -> pc_ok log id p' m /\ accounts p'.
Proof. intros Ha (repo & rest' & -> & _)%next_repo_live. done. Qed.

Lemma resume_rows_wf log id p a m m' q es :
  rows_wf m -> pc_ok log id p m -> resume localeCompare date_parse p a m = (m', q, es) -> rows_wf m'.
Proof.
  intros Hw Hok Hr. unfold resume in Hr. unfold pc_ok in Hok. unfold rejects in Hr.
  assert (forall ch repos deleted, rows_wf (pruneRemovedRepoStates ch repos deleted m)) as Hp.
  { intros ch repos deleted k row Hk. by eapply Hw, prune_row. }
  destruct (po_pc p).
  - case_match; by simplify_eq.
  - repeat case_match; by simplify_eq.
  - case_bool_decide; [simplify_eq; apply Hp|].
    pose proof (offset_rows (po_channel p) (length (gc_repos (po_config p)))
      (pruneRemovedRepoStates (po_channel p) (gc_repos (po_config p)) (fun _ => true) m)) as Ho.
    destruct (nextRepoOffset _ _ _) as [order m1]. simplify_eq. intros k row. cbn [snd] in Ho.
    rewrite Ho. apply Hp.
  - repeat case_match; by simplify_eq.
  - repeat case_match; by simplify_eq.
  - repeat case_match; by simplify_eq.
  - repeat case_match; by simplify_eq.
  - destruct (aw_throws a); simplify_eq; [done|]. apply write_wf; [done|by apply Hok].
  - match goal with H : context [isSelfAuthored ?a ?b ?c ?d ?e ?f ?g] |- _ =>
      pose proof (self_control a b c d e f g) as [_ Hs]; destruct (isSelfAuthored a b c d e f g) as [self m1] end.
    simpl in Hs. intros k row. destruct self; simplify_eq; rewrite Hs; apply Hw.
  - repeat case_match; by simplify_eq.
  - destruct (aw_throws a); simplify_eq; [done|]. destruct Hok as (-> & st & vs & Hb).
    apply write_wf; [done|by eapply batch_written_wf].
  - case_match; simplify_eq; [done|]. by apply record_wf.
Qed.

Lemma no_log_app id (log : list (nat * LogEntry)) : log ++ ((id,.) <$> []) = log.
Proof. apply app_nil_r. Qed.

Lemma resume_ok log id p a m m' q es p' :
  rows_wf m -> pc_ok log id p m -> accounts p ->
  resume localeCompare date_parse p a m = (m', q, es) -> q = Some p' ->
  pc_ok (log ++ ((id,.) <$> es)) id p' m' /\ accounts p'.
Proof.
  intros Hw Hok Hac Hr Hq. unfold resume in Hr. unfold rejects in Hr.
  assert (forall x w msg, po_runs x + wk_budget w = po_lost x + GIT_TRIGGER_MAX_RUNS_PER_TICK ->
    pc_ok (log ++ ((id,.) <$> [])) id (with_pc x (at_record w msg)) m /\
    accounts (with_pc x (at_record w msg))) as Hf by done.
  unfold pc_ok in Hok. unfold accounts in Hac. destruct (po_pc p) eqn:Hpc.
  - case_match; by simplify_eq.
  - repeat case_match; by simplify_eq.
  - case_bool_decide; [by simplify_eq|]. destruct (nextRepoOffset _ _ _) as [order m1]. simplify_eq.
    eapply next_repo_ok; [|done]. destruct Hac. lia.
  - repeat case_match; by simplify_eq.
  - destruct (listOpenRequests _ _ _ _ _) as [[l|e] calls]; simplify_eq; [|by apply Hf].
    case_match; by simplify_eq.
  - repeat case_match; by simplify_eq.
  - destruct (aw_throws a); simplify_eq; [by apply Hf|]. rewrite no_log_app. by apply process_ok.
  - destruct (aw_throws a); simplify_eq; [by apply Hf|]. by eapply next_repo_ok.
  - destruct Hok as (st & vs & Hb).
    match goal with H : context [isSelfAuthored ?a ?b ?c ?d ?e ?f ?g] |- _ =>
      pose proof (self_control a b c d e f g) as [_ Hs]; destruct (isSelfAuthored a b c d e f g) as [self m1] end.
    simpl in Hs.
    assert (shrinks (po_channel p) m m1) as Hsh by (intros k row; by rewrite Hs).
    destruct self; simplify_eq.
    + apply next_event_ok with st (vs ++ [(fired, true)]); [|simpl; lia].
      apply (batch_settled _ _ _ _ _ _ fired todo st vs 0 self_authored); [|lia]. destruct Hb. split; try done.
      intros row Hrow. by apply bo_row0, Hsh.
    + rewrite no_log_app. split; [|done]. exists st, vs. destruct Hb. split; try done.
      intros row Hrow. by apply bo_row0, Hsh.
  - destruct Hok as (st & vs & Hb). destruct (aw_throws a); simplify_eq; [split; [done|]; unfold accounts; simpl; lia|].
    destruct (aw_dispatched a); simplify_eq.
    + apply next_event_ok with st (vs ++ [(fired, true)]); [|simpl; lia].
      apply (batch_settled _ _ _ _ _ _ fired todo st vs 1 run_started); [|lia]. by destruct Hb.
    + rewrite no_log_app. apply next_event_ok with st (vs ++ [(fired, false)]); [|simpl; lia].
      by apply batch_refused.
  - destruct (aw_throws a); simplify_eq; [by apply Hf|]. case_match; [done|]. by eapply next_repo_ok.
  - case_bool_decide; simplify_eq. by eapply next_repo_ok.
Qed.

(** *** Every step *)

Lemma resume_shrinks_others p a m m' q es ch :
  resume localeCompare date_parse p a m = (m', q, es) -> ch <> po_channel p -> shrinks ch m m'.
Proof.
  intros Hr Hne k row Hk. destruct (resume_frame p a m m' q es Hr) as (_ & _ & Hrow & _).
  by rewrite <- Hrow.
Qed.

Lemma inv_idle m : rows_wf m -> g_inFlight m = ∅ -> g_owners m = ∅ -> g_jobs m = ∅ -> inv (idle m).
Proof.
  intros Hw _ Ho Hj. split; simpl; try done.
  - intros ch t. by rewrite Ho.
  - intros ch t config. by rewrite Hj.
Qed.

(** A step of the surroundings: the rows shrink, and the tokens stay below the next. *)
Lemma inv_outside s m' next :
  inv s -> (forall ch, shrinks ch (sy_mgr s) m') -> g_inFlight m' = g_inFlight (sy_mgr s) -> sy_next s <= next ->
  (forall ch t, g_owners m' !! ch = Some t -> t < next) ->
  (forall ch t config, g_jobs m' !! ch = Some (t, config) -> g_owners m' !! ch = Some t) ->
  inv (mkSystem m' (sy_polls s) (sy_log s) next).
Proof.
  intros [] Hs Hf Hn Ho Hj. split; simpl; try done.
  - intros [ch k] row Hk. by eapply inv_rows0, Hs.
  - intros id p Hp. destruct (inv_polls0 id p Hp) as (H1 & H2 & H3 & H4 & H5). rewrite Hf.
    split_and!; try done; [lia..|]. by eapply pc_ok_frame, H4.
Qed.

Lemma inv_tick ch token config s : inv s -> token < sy_next s -> inv (run_tick ch token config s).
Proof.
  intros Hi Ht. unfold run_tick, tick_start. case_bool_decide as Hin; simpl.
  { apply inv_outside; try done; [intros ? ? ?; done|lia| |apply Hi].
    intros c t Hc. apply Hi in Hc. lia. }
  destruct (stillOwns _ _ _) eqn:Hown; simpl.
  2:{ apply inv_outside; try done; [intros ? ? ?; done|lia| |apply Hi].
      intros c t Hc. apply Hi in Hc. lia. }
  destruct Hi as []. split; simpl; try done.
  - intros id p. rewrite lookup_insert. case_decide as He.
    + intros [= <-]. subst. simpl. split_and!; try done; [lia..|set_solver].
    + intros Hp. destruct (inv_polls0 id p Hp) as (H1 & H2 & H3 & H4 & H5).
      split_and!; try done; [lia..|set_solver|]. eapply pc_ok_frame, H4; [by intros ? ?|done].
  - intros id id' p p'. rewrite !lookup_insert. repeat case_decide; simplify_eq; try done.
    + intros [= <-] Hp'. simpl. intros ->. by apply inv_polls0 in Hp' as (_ & _ & ? & _).
    + intros Hp [= <-]. simpl. intros Hc. apply inv_polls0 in Hp as (_ & _ & Hp & _). by rewrite Hc in Hp.
    + apply inv_alone0.
  - intros c t Hc. apply inv_owners0 in Hc. lia.
Qed.

Lemma inv_resume id p a s :
  inv s -> sy_polls s !! id = Some p -> inv (run_resume localeCompare date_parse id p a s).
Proof.
  intros Hi Hp. unfold run_resume.
  destruct (resume localeCompare date_parse p a (sy_mgr s)) as [[m' q] es] eqn:Hr.
  destruct (inv_polls s Hi id p Hp) as (H1 & H2 & H3 & H4 & H5).
  destruct (resume_frame p a _ m' q es Hr) as (_ & Hf & _ & Hctl & Hsame).
  pose proof (resume_rows_wf _ id p a _ _ _ _ (inv_rows s Hi) H4 Hr) as Hw.
  pose proof (fun p' => resume_ok _ id p a _ _ _ _ p' (inv_rows s Hi) H4 H5 Hr) as Hok.
  assert (forall ch t, g_owners m' !! ch = Some t -> t < sy_next s) as Ho.
  { intros ch t Hc. apply (inv_owners s Hi ch). destruct Hctl as [[He _]|[-> _]]; [by rewrite <- He|].
    simpl in Hc. by apply lookup_delete_Some in Hc as [_ Hc]. }
  assert (forall ch t config, g_jobs m' !! ch = Some (t, config) -> g_owners m' !! ch = Some t) as Hj.
  { intros ch t config. destruct Hctl as [[He ->]|[-> _]]; [rewrite He; apply (inv_jobs s Hi)|].
    simpl. rewrite !lookup_delete_Some. intros [? ?]. split; [done|]. by eapply (inv_jobs s Hi). }
  assert (forall id' p', sy_polls s !! id' = Some p' -> id' <> id ->
    id' < sy_next s /\ po_token p' < sy_next s /\ po_channel p' ∈ g_inFlight (sy_mgr s) /\
    po_channel p' <> po_channel p /\ pc_ok (sy_log s ++ ((id,.) <$> es)) id' p' m' /\ accounts p') as Hothers.
  { intros id' p' Hp' Hne. destruct (inv_polls s Hi id' p' Hp') as (K1 & K2 & K3 & K4 & K5).
    assert (po_channel p' <> po_channel p) by (intros He; by apply Hne, (inv_alone s Hi id' id p' p)).
    split_and!; try done. eapply pc_ok_frame, K4; [by eapply resume_shrinks_others|set_solver]. }
  destruct q as [p'|].
  - destruct (Hsame p' eq_refl) as (E1 & E2 & E3). destruct (Hok p' eq_refl) as [Hpc Hac].
    split; simpl; try done.
    + intros id' p0. rewrite lookup_insert. case_decide as He.
      * intros [= <-]. subst id'. rewrite E1, E2, Hf. by split_and!.
      * intros Hp0. rewrite Hf. destruct (Hothers id' p0 Hp0) as (? & ? & ? & ? & ? & ?); [done|]. by split_and!.
    + intros id1 id2 p1 p2. rewrite !lookup_insert. repeat case_decide; simplify_eq; try done.
      * intros [= <-] Hp2. rewrite E1. intros He. destruct (Hothers id2 p2 Hp2); [done|]. naive_solver.
      * intros Hp1 [= <-]. rewrite E1. intros He. destruct (Hothers id1 p1 Hp1); [done|]. naive_solver.
      * apply (inv_alone s Hi).
  - split; simpl; try done.
    + intros id' p0 [Hne Hp0]%lookup_delete_Some.
      destruct (Hothers id' p0 Hp0) as (? & ? & ? & ? & ? & ?); [done|]. rewrite Hf.
      split_and!; try done; [set_solver|]. 
      apply (pc_ok_frame (sy_log s ++ ((id,.) <$> es)) _ id' p0 m'); [by intros ? ?|done..].
    + intros id1 id2 p1 p2 [_ Hp1]%lookup_delete_Some [_ Hp2]%lookup_delete_Some. by apply (inv_alone s Hi).
Qed.

Lemma inv_step s s' : inv s -> step localeCompare date_parse s s' -> inv s'.
Proof.
  intros Hi Hs. destruct Hs as [ch token config Hj|ch config|ch| |agents|id p a Hp].
  - apply inv_tick; [done|]. apply Hi in Hj. by apply Hi in Hj.
  - unfold run_start. set (s1 := mkSystem _ _ _ _).
    assert (inv s1) as Hi1.
    { apply inv_outside; try done.
      - intros ? ? ?. by destruct config.
      - by destruct config.
      - lia.
      - intros c t. destruct config as [cfg|]; simpl; [rewrite lookup_insert; case_decide|];
          [intros [= <-]; lia|..]; intros [_ Hc]%lookup_delete_Some; apply Hi in Hc; lia.
      - intros c t cfg. destruct config as [cfg'|]; simpl; [rewrite !lookup_insert; case_decide|];
          [by intros [= <- <-]|..]; rewrite !lookup_delete_Some; intros [? ?]; (split; [done|]); by eapply Hi. }
    destruct config; [|done]. apply inv_tick; [done|simpl; lia].
  - apply inv_outside; try done; [intros ? ? ?; done| |].
    + intros c t. simpl. intros [_ Hc]%lookup_delete_Some. by apply (inv_owners s Hi c).
    + intros c t cfg. simpl. rewrite !lookup_delete_Some. intros [? ?]. split; [done|]. by apply (inv_jobs s Hi c t cfg).
  - apply inv_outside; try done. by intros ? ? ?.
  - apply inv_outside; try done; [|apply Hi..].
    intros c k row. simpl. by intros [? _]%map_lookup_filter_Some.
  - by apply inv_resume.
Qed.

Definition reachable s : Prop :=
  exists m, rows_wf m /\ g_inFlight m = ∅ /\ g_owners m = ∅ /\ g_jobs m = ∅ /\
    rtc (step localeCompare date_parse) (idle m) s.

Lemma inv_steps s s' : inv s -> rtc (step localeCompare date_parse) s s' -> inv s'.
Proof. intros Hi Hs. induction Hs; [done|]. eauto using inv_step. Qed.

Lemma reachable_inv s : reachable s -> inv s.
Proof. intros (m & Hw & Hf & Ho & Hj & Hs). eapply inv_steps, Hs. by apply inv_idle. Qed.
End Invariant.

(** ** What becomes of a change *)

#[export] Instance ObservedRequest_eq_dec : EqDecision ObservedRequest.
Proof. solve_decision. Defined.

#[export] Instance GitTriggerFiredEvent_eq_dec : EqDecision GitTriggerFiredEvent.
Proof. solve_decision. Defined.

Section Changes.
Context (localeCompare : string -> string -> Z) (date_parse : string -> option Z).
Implicit Types (m : Manager) (p : Poll) (s : System) (ch : Channel).

Lemma elem_of_taken vs c : c ∈ taken vs <-> (c, true) ∈ vs.
Proof.
  unfold taken. rewrite list_elem_of_fmap. split.
  - intros ([c' b] & -> & [Hb H]%list_elem_of_filter). simpl in *. by subst.
  - intros H. exists (c, true). split; [done|]. by apply list_elem_of_filter.
Qed.

Lemma elem_of_refused vs c : c ∈ refused vs <-> (c, false) ∈ vs.
Proof.
  unfold refused. rewrite list_elem_of_fmap. split.
  - intros ([c' b] & -> & [Hb H]%list_elem_of_filter). simpl in *. by subst.
  - intros H. exists (c, false). split; [done|]. by apply list_elem_of_filter.
Qed.

(** Events that differ split by membership as they were split by verdict. *)
Lemma verdicts_split vs :
  NoDup vs.*1 ->
  let accepts c := negb (bool_decide (c ∈ refused vs)) in
  filter (fun c => accepts c = true) vs.*1 = taken vs /\
  filter (fun c => accepts c = false) vs.*1 = refused vs.
Proof.
  intros Hd accepts.
  assert (forall c b, (c, b) ∈ vs -> accepts c = b) as Ha.
  { intros c b Hc. unfold accepts. destruct b.
    - rewrite bool_decide_false; [done|]. intros Hr%elem_of_refused.
      apply list_elem_of_lookup in Hc as [i Hi]. apply list_elem_of_lookup in Hr as [j Hj].
      assert (i = j) as ->; [|congruence].
      eapply NoDup_lookup; [exact Hd|by rewrite list_lookup_fmap, Hi|by rewrite list_lookup_fmap, Hj].
    - by rewrite bool_decide_true by (by apply elem_of_refused). }
  unfold taken, refused. clearbody accepts. clear Hd.
  induction vs as [|[c b] vs IH]; [done|].
  destruct IH as [IH1 IH2]; [intros c' b' Hin; apply Ha; by right|].
  rewrite fmap_cons, !filter_cons. simpl. rewrite (Ha c b) by (by left).
  destruct b; simpl; by rewrite ?IH1, ?IH2.
Qed.

Lemma at_most_once (l : list GitTriggerFiredEvent) :
  (forall k, length (filter (about k) l) <= 1) -> NoDup l.
Proof.
  induction l as [|c l IH]; intros Hl; [constructor|]. apply NoDup_cons. split.
  - intros Hc. specialize (Hl (event_key c)). rewrite filter_cons, decide_True in Hl by done. simpl in Hl.
    assert (c ∈ filter (about (event_key c)) l) as Hin by (by apply list_elem_of_filter).
    destruct (filter _ l); [set_solver|simpl in Hl; lia].
  - apply IH. intros k. specialize (Hl k). rewrite filter_cons in Hl. case_decide; simpl in Hl; lia.
Qed.

Lemma fired_NoDup params st :
  dp_previous params = Some st -> state_wf st -> NoDup (requestKey <$> dp_observed params) ->
  NoDup (df_fired (diffRepoState localeCompare params)).
Proof.
  intros Hp Hw Hd. destruct (tick_split localeCompare params st) as [Hf _].
  assert (with_previous params st = params) as He by (destruct params; simpl in *; by subst).
  rewrite He in Hf. rewrite Hf. eapply sublist_NoDup; [|apply sublist_take]. apply at_most_once. intros k.
  rewrite ordered_about by done. by destruct (candidate_at params st k); simpl; lia.
Qed.

(** A written state has every event that was pending and was not handled pending. *)
Lemma written_delivers log id p m w b budget st vs :
  batch_ok localeCompare log id p m w b budget [] st vs ->
  let params := batch_params p b budget in
  NoDup (requestKey <$> dp_observed params) ->
  taken vs ++ ordered_candidates params (rollbackUnhandled (ba_nextState b) (ba_previous b) (ba_unhandled b)) ≡ₚ
  ordered_candidates params st.
Proof.
  intros [] params Hd. fold params in bo_next0, bo_fired0.
  assert (dp_previous params = Some st) as Hp by done.
  assert (with_previous params st = params) as He by (unfold params, batch_params; by rewrite bo_previous0).
  rewrite app_nil_r in bo_fired0.
  assert (NoDup vs.*1) as Hn by (rewrite <- bo_fired0; by apply fired_NoDup with st).
  destruct (verdicts_split vs Hn) as [Ht Hr].
  pose proof (tick_delivers localeCompare params (fun c => negb (bool_decide (c ∈ refused vs))) st bo_wf0 Hd) as Hdel.
  unfold tick in Hdel. rewrite He in Hdel. cbn [fst snd] in Hdel.
  rewrite bo_fired0, Ht, Hr in Hdel. by rewrite bo_next0, bo_previous0, bo_unhandled0.
Qed.

(** What a call of [p] may make of the row [row] of its channel *)
Definition row_fate p k row (after : option StateRow) : Prop :=
  match after with
  | Some row' =>
      sr_state row' = sr_state row \/
      exists w b next, po_pc p = at_write w b next /\ k = work_key w /\ sr_state row' = next
  | None => k ∉ repoStateKey <$> gc_repos (po_config p)
  end.

Lemma prune_fate p del m k row :
  g_rows m !! (po_channel p, k) = Some row ->
  row_fate p k row
    (g_rows (pruneRemovedRepoStates (po_channel p) (gc_repos (po_config p)) del m) !! (po_channel p, k)).
Proof.
  intros Hrow. destruct (g_rows (pruneRemovedRepoStates _ _ _ _) !! _) as [row'|] eqn:Hk.
  - apply prune_row in Hk. left. congruence.
  - unfold pruneRemovedRepoStates in Hk. simpl in Hk.
    apply map_lookup_filter_None in Hk as [Hk|Hk]; [congruence|].
    specialize (Hk row Hrow). simpl in Hk. by apply dec_stable in Hk as (_ & ? & _).
Qed.

Lemma record_fate p key message m k row :
  g_rows m !! (po_channel p, k) = Some row ->
  row_fate p k row (g_rows (recordFailure (po_channel p) key message m) !! (po_channel p, k)).
Proof.
  intros Hrow. destruct (g_rows (recordFailure _ _ _ _) !! _) as [row'|] eqn:Hk.
  - apply recordFailure_row in Hk as (row0 & Hk & He). left. congruence.
  - exfalso. unfold recordFailure, readState, writeState in Hk. case_match; [|congruence]. simpl in Hk.
    rewrite lookup_insert in Hk. case_decide; congruence.
Qed.

Lemma resume_row log id p a m m' q es k row :
  pc_ok localeCompare log id p m -> resume localeCompare date_parse p a m = (m', q, es) ->
  g_rows m !! (po_channel p, k) = Some row -> row_fate p k row (g_rows m' !! (po_channel p, k)).
Proof.
  intros Hok Hr Hrow. unfold resume in Hr. unfold rejects in Hr.
  assert (g_rows m' = g_rows m -> row_fate p k row (g_rows m' !! (po_channel p, k))) as Hsame.
  { intros ->. rewrite Hrow. by left. }
  unfold pc_ok in Hok. destruct (po_pc p) eqn:Hpc.
  - apply Hsame. case_match; by simplify_eq.
  - apply Hsame. repeat case_match; by simplify_eq.
  - case_bool_decide; [simplify_eq; by apply prune_fate|].
    pose proof (offset_rows (po_channel p) (length (gc_repos (po_config p)))
      (pruneRemovedRepoStates (po_channel p) (gc_repos (po_config p)) (fun _ => true) m)) as Ho.
    destruct (nextRepoOffset _ _ _) as [order m1]. simplify_eq. cbn [snd] in Ho. rewrite Ho. by apply prune_fate.
  - apply Hsame. repeat case_match; by simplify_eq.
  - apply Hsame. repeat case_match; by simplify_eq.
  - apply Hsame. repeat case_match; by simplify_eq.
  - apply Hsame. repeat case_match; by simplify_eq.
  - destruct (aw_throws a); simplify_eq; [by apply Hsame|]. destruct Hok as [_ Hn]. simpl.
    rewrite lookup_insert_ne; [rewrite Hrow; by left|]. intros [= <-]. unfold work_key in Hn. congruence.
  - apply Hsame.
    match goal with H : context [isSelfAuthored ?a ?b ?c ?d ?e ?f ?g] |- _ =>
      pose proof (self_control a b c d e f g) as [_ Hs]; destruct (isSelfAuthored a b c d e f g) as [self m1] end.
    simpl in Hs. destruct self; by simplify_eq.
  - apply Hsame. repeat case_match; by simplify_eq.
  - destruct (aw_throws a); simplify_eq; [by apply Hsame|]. simpl. rewrite lookup_insert. case_decide as He.
    + injection He as <-. right. eauto 6.
    + rewrite Hrow. by left.
  - case_bool_decide; simplify_eq; [by apply Hsame|]. by apply record_fate.
Qed.

End Changes.

(** ** A poll that lost its channel *)

Section Stale.
Context (localeCompare : string -> string -> Z) (date_parse : string -> option Z).
Implicit Types (m : Manager) (p : Poll) (s : System) (ch : Channel).

(** The repository whose events a poll may still act on without asking whether it
    owns its channel, and how many *)
Definition engaged (pc : Pc) : option (string * nat) :=
  match pc with
  | at_recheck w _ | at_read w _ => Some (work_key w, wk_budget w)
  | at_event w _ _ todo | at_trigger w _ _ todo => Some (work_key w, S (length todo))
  | _ => None
  end.

(** What is left of [before] after [n] events *)
Definition left_of (before after : option (string * nat)) (n : nat) : Prop :=
  match before, after with
  | None, None => n = 0
  | None, Some _ => False
  | Some (_, b), None => n <= b
  | Some (k, b), Some (k', b') => k' = k /\ n + b' <= b
  end.

Lemma left_of_refl c : left_of c c 0.
Proof. destruct c as [[k b]|]; simpl; auto. Qed.

Lemma left_of_trans c1 c2 c3 n1 n2 : left_of c1 c2 n1 -> left_of c2 c3 n2 -> left_of c1 c3 (n1 + n2).
Proof.
  destruct c1 as [[]|], c2 as [[]|], c3 as [[]|]; simpl; try done; try lia.
  - intros [-> ?] [-> ?]. split; [done|lia].
Qed.

Lemma stale_next_repo p m rest budget pageBudget :
  stillOwns (po_channel p) (po_token p) m = false -> next_repo p m rest budget pageBudget = None.
Proof. intros Hs. unfold next_repo. destruct rest; [done|]. by rewrite Hs. Qed.

Lemma committed_next_event w b todo n :
  length todo <= n -> left_of (Some (work_key w, n)) (engaged (next_event w b todo)) 0.
Proof. destruct todo; simpl; [lia|]. by intros. Qed.

Lemma stale_resume p a m m' q es :
  stillOwns (po_channel p) (po_token p) m = false ->
  resume localeCompare date_parse p a m = (m', q, es) ->
  left_of (engaged (po_pc p)) (q ≫= fun p' => engaged (po_pc p')) (length es) /\
  forall e, e ∈ es -> exists n, engaged (po_pc p) = Some (e.1.2, n).
Proof.
  intros Hs Hr. unfold resume in Hr. unfold rejects in Hr.
  assert (forall m1, g_owners m1 = g_owners m -> forall rest n z, next_repo p m1 rest n z = None) as Hn.
  { intros m1 Ho rest n z. apply stale_next_repo. unfold stillOwns in *. by rewrite Ho. }
  destruct (po_pc p).
  - case_match; simplify_eq; (split; [done|set_solver]).
  - repeat case_match; simplify_eq; (split; [done|set_solver]).
  - case_bool_decide; [simplify_eq; by split; [|set_solver]|].
    pose proof (offset_control (po_channel p) (length (gc_repos (po_config p)))
      (pruneRemovedRepoStates (po_channel p) (gc_repos (po_config p)) (fun _ => true) m)) as (_ & _ & _ & Ho).
    destruct (nextRepoOffset _ _ _) as [order m1]. simplify_eq. rewrite Hn by done. by split; [|set_solver].
  - repeat case_match; simplify_eq; (split; [done|set_solver]).
  - destruct (listOpenRequests _ _ _ _ _) as [[l|e] calls];
      [cbn [po_token count_calls] in Hr; rewrite Hs in Hr|]; simplify_eq;
      (split; [done|set_solver]).
  - repeat case_match; simplify_eq; (split; [simpl; auto using left_of_refl|set_solver]); simpl; lia.
  - destruct (aw_throws a); simplify_eq; (split; [|set_solver]); [simpl; lia|]. simpl. unfold process.
    rewrite diff_seeded. set (previous := readState _ _ _). destruct previous as [st|]; simpl; [|lia].
    apply (committed_next_event w).
    pose proof (fired_capped localeCompare (diff_params (po_config p) listing (Some st) (aw_polledAt a) (wk_budget w))
      st eq_refl) as Hc. exact Hc.
  - destruct (aw_throws a); simplify_eq; [by split; [|set_solver]|]. rewrite Hn by done. by split; [|set_solver].
  - destruct (isSelfAuthored _ _ _ _ _ _ _) as [self m1]. destruct self; simplify_eq.
    + split; [|intros e ->%list_elem_of_singleton; by eexists].
      apply (left_of_trans _ (Some (work_key w, length todo)) _ 1 0); [simpl; split; [done|lia]|].
      by apply (committed_next_event w).
    + split; [simpl; split; [done|lia]|set_solver].
  - destruct (aw_throws a); simplify_eq; [split; [simpl; lia|set_solver]|].
    destruct (aw_dispatched a); simplify_eq.
    + split; [|intros e ->%list_elem_of_singleton; by eexists].
      apply (left_of_trans _ (Some (work_key w, length todo)) _ 1 0); [simpl; split; [done|lia]|].
      by apply (committed_next_event w).
    + split; [|set_solver]. simpl.
      apply (left_of_trans (Some (work_key w, S (length todo))) (Some (work_key w, length todo)) _ 0 0);
        [simpl; split; [done|lia]|]. by apply (committed_next_event w).
  - destruct (aw_throws a); simplify_eq; [by split; [|set_solver]|].
    split; [|set_solver]. case_match; [done|]. by rewrite Hn.
  - case_bool_decide; simplify_eq; [by split; [|set_solver]|]. rewrite Hn; [by split; [|set_solver]|].
    unfold recordFailure. by case_match.
Qed.

Definition entries_of (id : nat) (log : list (nat * LogEntry)) : list LogEntry :=
  (filter (fun e => e.1 = id) log).*2.

Lemma entries_of_app id l1 l2 : entries_of id (l1 ++ l2) = entries_of id l1 ++ entries_of id l2.
Proof. unfold entries_of. by rewrite filter_app, fmap_app. Qed.

Lemma entries_of_own id (es : list LogEntry) : entries_of id ((id,.) <$> es) = es.
Proof.
  unfold entries_of. induction es as [|e es IH]; [done|]. rewrite fmap_cons, filter_cons, decide_True by done.
  by rewrite fmap_cons, IH.
Qed.

Lemma entries_of_other id id' (es : list LogEntry) : id' <> id -> entries_of id ((id',.) <$> es) = [].
Proof.
  intros Hne. unfold entries_of. induction es as [|e es IH]; [done|].
  rewrite fmap_cons, filter_cons, decide_False by done. done.
Qed.

(** Poll [id] of channel [ch] does not own it with [token]; [c] is what it may
    still do. *)
Record retired id ch (token : nat) (c : option (string * nat)) s : Prop := {
  rt_stale : stillOwns ch token (sy_mgr s) = false;
  rt_old : token < sy_next s /\ id < sy_next s;
  rt_poll : match sy_polls s !! id with
            | Some p => po_channel p = ch /\ po_token p = token /\ engaged (po_pc p) = c
            | None => c = None
            end
}.

Lemma tick_start_owners ch token config m : g_owners (tick_start ch token config m).1 = g_owners m.
Proof. unfold tick_start. by repeat case_match. Qed.

Lemma retired_tick id ch token c ch' token' config s :
  retired id ch token c s -> retired id ch token c (run_tick ch' token' config s).
Proof.
  intros []. unfold run_tick. pose proof (tick_start_owners ch' token' config (sy_mgr s)) as Ho.
  destruct (tick_start _ _ _ _) as [m q]. simpl in Ho. split; simpl.
  - unfold stillOwns in *. by rewrite Ho.
  - lia.
  - destruct q; [|done]. rewrite lookup_insert_ne by lia. done.
Qed.

Lemma retired_mgr id ch token c f s :
  (forall m, stillOwns ch token m = false -> stillOwns ch token (f m) = false) ->
  retired id ch token c s -> retired id ch token c (with_mgr f s).
Proof. intros Hf []. split; simpl; auto. Qed.

Lemma stop_stale ch token ch' m :
  stillOwns ch token m = false -> stillOwns ch token (stop ch' m) = false.
Proof.
  unfold stillOwns. intros H%bool_decide_eq_false. apply bool_decide_eq_false. simpl.
  intros [_ ?]%lookup_delete_Some. done.
Qed.

Lemma retired_step id ch token c s s' :
  retired id ch token c s -> step localeCompare date_parse s s' ->
  exists added c', sy_log s' = sy_log s ++ added /\ retired id ch token c' s' /\
    left_of c c' (length (entries_of id added)) /\
    forall e, e ∈ entries_of id added -> exists n, c = Some (e.1.2, n).
Proof.
  intros Hrt Hs.
  assert (retired id ch token c s' -> sy_log s' = sy_log s ->
    exists added c', sy_log s' = sy_log s ++ added /\ retired id ch token c' s' /\
      left_of c c' (length (entries_of id added)) /\
      forall e, e ∈ entries_of id added -> exists n, c = Some (e.1.2, n)) as Hquiet.
  { intros Hr Hl. exists [], c. rewrite app_nil_r. split_and!; [done..|apply left_of_refl|set_solver]. }
  destruct Hs as [ch' token' config Hj|ch' config|ch'| |agents|id' p a Hp].
  - apply Hquiet; [by apply retired_tick|]. unfold run_tick. by destruct (tick_start _ _ _ _).
  - apply Hquiet.
    + unfold run_start. set (s1 := mkSystem _ _ _ _). assert (retired id ch token c s1) as H1.
      { destruct Hrt. split; simpl; [|lia|done]. pose proof (stop_stale ch token ch' _ rt_stale0) as Hst.
        destruct config as [config|]; [|exact Hst]. unfold stillOwns in *. simpl. rewrite lookup_insert.
        destruct (decide (ch' = ch)).
        - apply bool_decide_eq_false. intros [= He]. lia.
        - exact Hst. }
      destruct config; [by apply retired_tick|done].
    + unfold run_start, run_tick. destruct config; [|done]. by destruct (tick_start _ _ _ _).
  - apply Hquiet; [|done]. apply retired_mgr; [|done]. intros m. apply stop_stale.
  - apply Hquiet; [|done]. apply retired_mgr; [|done]. done.
  - apply Hquiet; [|done]. by apply retired_mgr.
  - unfold run_resume. destruct (resume localeCompare date_parse p a (sy_mgr s)) as [[m' q] es] eqn:Hr.
    destruct (resume_frame _ _ p a _ _ _ _ Hr) as (_ & _ & _ & Hctl & Hsame).
    assert (stillOwns ch token m' = false) as Hst.
    { pose proof (rt_stale _ _ _ _ _ Hrt) as H0. destruct Hctl as [[Ho _]|[-> _]]; [|by apply stop_stale].
      unfold stillOwns in *. by rewrite Ho. }
    exists ((id',.) <$> es). pose proof (rt_poll _ _ _ _ _ Hrt) as Hpoll. pose proof (rt_old _ _ _ _ _ Hrt) as Hold.
    destruct (decide (id' = id)) as [->|Hne].
    + rewrite Hp in Hpoll. destruct Hpoll as (Hch & Htok & <-).
      destruct (stale_resume p a _ _ _ _ ltac:(rewrite Hch, Htok; apply (rt_stale _ _ _ _ _ Hrt)) Hr) as [Hl He].
      exists (q ≫= fun p' => engaged (po_pc p')). rewrite entries_of_own. split; [by destruct q|]. split; [|done].
      destruct q as [p'|]; (split; simpl; [exact Hst|exact Hold|]).
      * destruct (Hsame p' eq_refl) as (E1 & E2 & _). rewrite lookup_insert_eq. by rewrite E1, E2.
      * by rewrite lookup_delete_eq.
    + exists c. rewrite entries_of_other by done. split; [by destruct q|].
      split; [|split; [apply left_of_refl|set_solver]].
      destruct q; (split; simpl; [exact Hst|exact Hold|]); [by rewrite lookup_insert_ne|by rewrite lookup_delete_ne].
Qed.

Lemma retired_steps id ch token c s s' :
  retired id ch token c s -> rtc (step localeCompare date_parse) s s' ->
  exists added c', sy_log s' = sy_log s ++ added /\ retired id ch token c' s' /\
    left_of c c' (length (entries_of id added)) /\
    forall e, e ∈ entries_of id added -> exists n, c = Some (e.1.2, n).
Proof.
  intros Hr Hs. revert c Hr. induction Hs as [s|s s1 s2 H1 H2 IH]; intros c Hr.
  - exists [], c. rewrite app_nil_r. split_and!; [done..|apply left_of_refl|set_solver].
  - destruct (retired_step id ch token c s s1 Hr H1) as (l1 & c1 & Hl1 & Hr1 & Hb1 & He1).
    destruct (IH c1 Hr1) as (l2 & c2 & Hl2 & Hr2 & Hb2 & He2).
    exists (l1 ++ l2), c2. rewrite entries_of_app, length_app, app_assoc, <- Hl1.
    split_and!; [done..|by eapply left_of_trans|]. intros e [He|He]%elem_of_app; [by apply He1|].
    destruct (He2 e He) as [n Hc]. subst c1. destruct c as [[k b]|]; [|done]. simpl in Hb1.
    destruct Hb1 as [-> _]. by eexists.
Qed.

(** C12. A poll that is overtaken retires.  No two polls of one channel are ever in flight; and
    from the moment the configuration a poll was started with is replaced or stopped, in every
    continuation the poll never owns the channel again and starts runs only for the repository
    whose listing it had already accepted, and no more of them than the events of it it had left:
    for no other repository, and for none at all when it had accepted no listing. *)
Theorem stale_poll_retires s s' id p
    (Hreach : reachable localeCompare date_parse s) (Hp : sy_polls s !! id = Some p)
    (Hstale : stillOwns (po_channel p) (po_token p) (sy_mgr s) = false)
    (Hsteps : rtc (step localeCompare date_parse) s s') :
  (forall id' p', sy_polls s' !! id' = Some p' -> po_channel p' = po_channel p ->
    po_channel p ∈ g_inFlight (sy_mgr s') /\
    forall id2 p2, sy_polls s' !! id2 = Some p2 -> po_channel p2 = po_channel p -> id2 = id') /\
  stillOwns (po_channel p) (po_token p) (sy_mgr s') = false /\
  exists added, sy_log s' = sy_log s ++ added /\
    match engaged (po_pc p) with
    | None => entries_of id added = []
    | Some (repoKey, rest) =>
        length (entries_of id added) <= rest /\ Forall (fun e => e.1.2 = repoKey) (entries_of id added)
    end.
Proof.
  apply reachable_inv in Hreach as Hi. pose proof (inv_steps _ _ _ _ Hi Hsteps) as Hi'.
  destruct (inv_polls _ s Hi id p Hp) as (H1 & H2 & _).
  assert (retired id (po_channel p) (po_token p) (engaged (po_pc p)) s) as Hr.
  { split; [done|done|]. by rewrite Hp. }
  destruct (retired_steps _ _ _ _ _ _ Hr Hsteps) as (added & c' & Hl & Hr' & Hb & He). split_and!.
  - intros id' p' Hp' Hc. split; [rewrite <- Hc; by eapply inv_polls|].
    intros id2 p2 Hp2 Hc2. eapply (inv_alone _ s' Hi'); [done..|congruence].
  - apply Hr'.
  - exists added. split; [done|]. destruct (engaged (po_pc p)) as [[k b]|].
    + split.
      * destruct c' as [[]|]; simpl in Hb; [destruct Hb; lia|lia].
      * apply Forall_forall. intros e Hin. destruct (He e Hin) as [n [= Hk _]]. done.
    + destruct c' as [[]|]; simpl in Hb; [done|]. by apply nil_length_inv.
Qed.

(** A tick starts at most its allowance of runs, and those of repositories whose
    dispatching then failed in addition. *)
Lemma tick_run_cap s id p :
  reachable localeCompare date_parse s -> sy_polls s !! id = Some p ->
  po_runs p <= GIT_TRIGGER_MAX_RUNS_PER_TICK + po_lost p + match po_pc p with
    | at_event _ b _ _ | at_trigger _ b _ _ => ba_dispatched b | _ => 0 end.
Proof.
  intros Hreach%reachable_inv Hp. destruct (inv_polls _ s Hreach id p Hp) as (_ & _ & _ & _ & Ha).
  unfold accounts in Ha. destruct (po_pc p); lia.
Qed.
End Stale.

(** ** Turns *)

(** The offset of the [i]-th poll from now, when nothing stops the channel *)
Fixpoint nth_offset (ch : Channel) (n i : nat) (m : Manager) : nat :=
  match i with
  | 0 => (nextRepoOffset ch n m).1
  | S i' => nth_offset ch n i' (nextRepoOffset ch n m).2
  end.

Lemma nth_offset_exact ch n i m :
  1 < n -> nth_offset ch n i m = ((nextRepoOffset ch n m).1 + i) mod n.
Proof.
  intros Hn. revert m. induction i as [|i IH]; intros m; simpl.
  - rewrite Nat.add_0_r. symmetry. apply Nat.mod_small. unfold nextRepoOffset.
    destruct (Nat.leb_spec n 1); [lia|]. apply Nat.mod_upper_bound. lia.
  - rewrite IH. unfold nextRepoOffset. destruct (Nat.leb_spec n 1); [lia|]. cbn [fst snd set_offsets g_repoOffsets].
    rewrite lookup_insert_eq. cbn [from_option id]. rewrite Nat.Div0.mod_mod, Nat.Div0.add_mod_idemp_l. f_equal. lia.
Qed.

(** Every repository of a channel is the first of some tick among as many ticks as
    there are repositories, and then has the whole allowance. *)
Lemma rotation_fair ch n m r : r < n -> 1 < n -> exists i, i < n /\ nth_offset ch n i m = r.
Proof.
  intros Hr Hn. set (o := (nextRepoOffset ch n m).1).
  assert (o < n) as Ho.
  { unfold o, nextRepoOffset. destruct (Nat.leb_spec n 1); [lia|]. apply Nat.mod_upper_bound. lia. }
  exists ((r + n - o) mod n). split; [apply Nat.mod_upper_bound; lia|]. rewrite nth_offset_exact by done. fold o.
  rewrite Nat.Div0.add_mod_idemp_r. replace (o + (r + n - o)) with (r + 1 * n) by lia.
  rewrite Nat.Div0.mod_add. by apply Nat.mod_small.
Qed.

(** Only a single new comment, by the account of the channel, is passed over. *)
Lemma self_authored_exact ch repo fired now fetched latest m m' :
  isSelfAuthored ch repo fired now fetched latest m = (true, m') ->
  ev_event fired = commented /\ ev_newComments fired = Some 1%Z /\
  exists account author,
    (forgeAccount ch (rp_host repo) now fetched m).1 = Some account /\
    match rq_lastCommentAuthor (ev_request fired) with Some a => Some a | None => latest end = Some author /\
    toLowerCase author = toLowerCase account.
Proof.
  unfold isSelfAuthored. case_bool_decide as He; simpl; [|done]. case_bool_decide as Hn; simpl; [|done].
  destruct (forgeAccount _ _ _ _ _) as [account m1].
  destruct account as [[|c account]|]; cbn [nonempty]; [done| |done].
  destruct (match rq_lastCommentAuthor _ with Some _ => _ | None => _ end) as [[|d author]|] eqn:Ha;
    cbn [nonempty]; [done| |done]. intros [Hq _]%pair_eq. apply String.eqb_eq in Hq. split_and!; try done. eexists _, _. split_and!; [done|done|exact Hq].
Qed.

(** ** Runs of the system *)

Inductive Action :=
| ac_timer (ch : Channel)
| ac_start (ch : Channel) (config : option GitTriggerConfig)
| ac_stop (ch : Channel)
| ac_agents (agents : gmap string ChannelAgent)
| ac_resume (id : nat) (a : Answer).

Section Acts.
Context (localeCompare : string -> string -> Z) (date_parse : string -> option Z).

Definition act (x : Action) (s : System) : option System :=
  match x with
  | ac_timer ch => '(token, config) ← g_jobs (sy_mgr s) !! ch; Some (run_tick ch token config s)
  | ac_start ch config => Some (run_start ch config s)
  | ac_stop ch => Some (with_mgr (stop ch) s)
  | ac_agents agents => Some (with_mgr (agents_change agents) s)
  | ac_resume id a => p ← sy_polls s !! id; Some (run_resume localeCompare date_parse id p a s)
  end.

Fixpoint acts (l : list Action) (s : System) : option System :=
  match l with [] => Some s | x :: l' => s' ← act x s; acts l' s' end.

Lemma act_step x s s' : act x s = Some s' -> step localeCompare date_parse s s'.
Proof.
  destruct x as [ch|ch config|ch|agents|id a]; simpl.
  - destruct (g_jobs (sy_mgr s) !! ch) as [[token config]|] eqn:Hj; [|done]. intros [= <-]. by apply step_timer.
  - intros [= <-]. apply step_start.
  - intros [= <-]. apply step_stop.
  - intros [= <-]. apply step_agents.
  - destruct (sy_polls s !! id) eqn:Hp; [|done]. intros [= <-]. by apply step_resume.
Qed.

Lemma acts_steps l s s' : acts l s = Some s' -> rtc (step localeCompare date_parse) s s'.
Proof.
  revert s. induction l as [|x l IH]; intros s; simpl; [intros [= <-]; done|].
  destruct (act x s) as [s1|] eqn:Hx; [|done]. intros Hl. eapply rtc_l; [by eapply act_step|by apply IH].
Qed.

(** A process that starts with no rows stored *)
Definition fresh (agents : gmap string ChannelAgent) : Manager := mkManager agents ∅ ∅ ∅ ∅ ∅ ∅.

Lemma acts_reachable agents l s : acts l (idle (fresh agents)) = Some s -> reachable localeCompare date_parse s.
Proof. intros Hl. exists (fresh agents). split_and!; try done. by eapply acts_steps. Qed.
End Acts.

(** ** Examples *)

Definition demo_channel : Channel := ("a", glab).

Definition demo_agents (published : bool) : gmap string ChannelAgent :=
  {["a" := mkChannelAgent published true ["glab"]]}.

Definition demo_config (repos : list GitTriggerRepo) : GitTriggerConfig := mkConfig repos [opened] [] true "review".

Definition demo_mr (n : Z) : json := JObj [("iid", JNum (JInt n)); ("sha", JStr "s")].

Definition answering (pages : nat -> outcome json) (throws : option string) : Answer :=
  mkAnswer throws (fun _ => false) pages (Ret (false, None)) (Ret JNull) (Ret JNull) 0%Z "t" true.

Definition fine : Answer := answering (fun _ => Ret (JArr [])) None.
Definition listed (l : list json) : Answer := answering (fun _ => Ret (JArr l)) None.

(** A poll from its first call to the listing of its first repository, and one
    repository more *)
Definition to_listing (id : nat) (l : Answer) : list Action :=
  ac_resume id <$> [fine; fine; fine; fine; l; fine; fine].
Definition more_listing (id : nat) (l : Answer) : list Action := ac_resume id <$> [fine; l; fine; fine].

Definition demo_run : list Action -> option System := fun l =>
  acts demo_compare (fun _ => None) l (idle (fresh (demo_agents true))).

Definition one_repo : GitTriggerConfig := demo_config [mkRepo scope_project "g/r" None].

(** A first tick seeds the repository; the second finds two new requests. *)
Definition demo_dispatching : list Action :=
  [ac_start demo_channel (Some one_repo)] ++ to_listing 1 (listed [demo_mr 1]) ++ [ac_resume 1 fine;
   ac_timer demo_channel] ++ to_listing 2 (listed [demo_mr 1; demo_mr 2; demo_mr 3]).

(** One of the two starts a run, the queue refuses the other. *)
Definition refusing : Answer :=
  mkAnswer None (fun _ => false) (fun _ => Ret JNull) (Ret (false, None)) (Ret JNull) (Ret JNull) 0%Z "t" false.

Definition demo_writing : list Action := demo_dispatching ++ (ac_resume 2 <$> [fine; fine; fine; refusing]).

Definition demo_system (l : list Action) : System := default (idle (fresh ∅)) (demo_run l).

Lemma demo_reachable l : is_Some (demo_run l) -> reachable demo_compare (fun _ => None) (demo_system l).
Proof.
  intros [s Hs]. unfold demo_system. rewrite Hs. by eapply acts_reachable.
Qed.

Definition demo_row (l : list Action) : option StateRow :=
  g_rows (sy_mgr (demo_system l)) !! (demo_channel, "g/r").


(** The configuration is saved again while the second poll dispatches. *)
Definition demo_overtaken : list Action := demo_dispatching ++ [ac_start demo_channel (Some one_repo)].

Lemma stale_poll_retires_witness :
  let s := demo_system demo_overtaken in
  let s' := demo_system (demo_overtaken ++ (ac_resume 2 <$> [fine; fine; fine; fine; fine])) in
  (exists p, sy_polls s !! 2 = Some p /\ engaged (po_pc p) = Some ("g/r", 2)) /\
  length (entries_of 2 (sy_log s)) = 0 /\ length (entries_of 2 (sy_log s')) = 2 /\
  stillOwns demo_channel 0 (sy_mgr s') = false /\
  exists added, sy_log s' = sy_log s ++ added /\
    length (entries_of 2 added) <= 2 /\ Forall (fun e => e.1.2 = "g/r") (entries_of 2 added).
Proof.
  intros s s'. destruct (sy_polls s !! 2) as [p|] eqn:Hp; [|by vm_compute in Hp].
  assert (po_channel p = demo_channel /\ po_token p = 0 /\ engaged (po_pc p) = Some ("g/r", 2)) as (Hch & Ht & Hc).
  { vm_compute in Hp. by injection Hp as <-. }
  assert (rtc (step demo_compare (fun _ => None)) s s') as Hs.
  { apply (acts_steps demo_compare (fun _ => None) (ac_resume 2 <$> [fine; fine; fine; fine; fine])). by vm_compute. }
  assert (stillOwns (po_channel p) (po_token p) (sy_mgr s) = false) as Hstale by (rewrite Hch, Ht; by vm_compute).
  destruct (stale_poll_retires demo_compare (fun _ => None) s s' 2 p
    (demo_reachable demo_overtaken ltac:(by vm_compute; eexists)) Hp Hstale Hs) as (_ & Ho & added & Hl & Ha).
  rewrite Hch, Ht in Ho. rewrite Hc in Ha.
  split; [exact (ex_intro _ p (conj eq_refl Hc))|]. split; [vm_compute; reflexivity|].
  split; [vm_compute; reflexivity|]. split; [exact Ho|]. exists added. split; [exact Hl|exact Ha].
Defined.

(** *** A poll stops the configuration that replaced it

    The agent is stopped and started again while a poll waits for its row: the
    answer says stopped, and the poll then takes away the timer of the new
    configuration.  The agent is published with the channel and has no poll. *)
Definition stopped_and_started : list Action :=
  [ac_start demo_channel (Some one_repo); ac_agents (demo_agents false); ac_resume 1 fine; ac_stop demo_channel;
   ac_agents (demo_agents true); ac_start demo_channel (Some one_repo); ac_resume 1 fine].

Lemma overtaken_poll_stops_channel :
  let m := sy_mgr (demo_system stopped_and_started) in
  is_Some (demo_run stopped_and_started) /\ isStillLive demo_channel m = true /\
  g_jobs m = ∅ /\ g_owners m = ∅ /\ g_inFlight m = ∅ /\ sy_polls (demo_system stopped_and_started) = ∅.
Proof. by vm_compute; split; [eexists|]. Qed.

(** *** More runs than the allowance of a tick

    Two repositories with five new requests each: the fifth run of the first
    throws, its four runs are not charged, and the second has its five. *)
Definition two_repos : GitTriggerConfig :=
  demo_config [mkRepo scope_project "g/r" None; mkRepo scope_project "g/q" None].

Definition five : Answer := listed (demo_mr <$> [1; 2; 3; 4; 5]%Z).
Definition failing : Answer := answering (fun _ => Ret JNull) (Some "SQLITE_BUSY").

Definition two_busy_repos : list Action :=
  [ac_start demo_channel (Some two_repos)] ++ to_listing 1 fine ++ [ac_resume 1 fine] ++
    more_listing 1 fine ++ [ac_resume 1 fine; ac_timer demo_channel] ++
  to_listing 2 five ++ (ac_resume 2 <$> replicate 9 fine) ++ (ac_resume 2 <$> [failing; fine]) ++
  more_listing 2 five ++ (ac_resume 2 <$> replicate 10 fine).

Lemma tick_exceeds_run_cap :
  let s := demo_system two_busy_repos in
  length (filter (fun e => e.1.1 = run_started) (entries_of 2 (sy_log s))) = 9 /\
  9 > GIT_TRIGGER_MAX_RUNS_PER_TICK /\ is_Some (sy_polls s !! 2).
Proof. split; [by vm_compute|]. split; [unfold GIT_TRIGGER_MAX_RUNS_PER_TICK; lia|]. by vm_compute; eexists. Qed.

(** *** More pages than the allowance of a tick

    Each of five groups costs a page after the allowance is spent, and the pages
    of a listing that fails are not charged at all. *)
Definition five_groups : GitTriggerConfig :=
  demo_config ((fun n => mkRepo scope_group n None) <$> ["a"; "b"; "c"; "d"; "e"]).

Definition full : json := JArr (replicate 100 (demo_mr 1)).
Definition full_pages : Answer := answering (fun _ => Ret full) None.
Definition last_page_fails : Answer :=
  answering (fun n => if (n <? 5)%nat then Ret full else Throw (GitTriggerCliError "glab api timed out")) None.

(** The pages requested by the poll of [five_groups] when every group answers [l];
    [n] calls follow each listing. *)
Definition pages_of_tick (l : Answer) (n : nat) : option nat :=
  let group := ac_resume 1 <$> ([fine; l] ++ replicate n fine) in
  po_calls <$> sy_polls (demo_system (ac_start demo_channel (Some five_groups) ::
    (ac_resume 1 <$> [fine; fine; fine]) ++ group ++ group ++ group ++ group ++ (ac_resume 1 <$> [fine; l]))) !! 1.

Lemma tick_exceeds_page_budget :
  pages_of_tick full_pages 3 = Some 9 /\ pages_of_tick last_page_fails 1 = Some 25 /\
  GIT_TRIGGER_MAX_PAGE_BUDGET = 5%Z.
Proof. by vm_compute. Qed.
