(* ===== verification/GitRun.v ===== *)
(** * The run of a git trigger, from its creation to its start

    triggerRun of lib/git-trigger-manager.ts, the template and the channel it
    fills, and lib/git-trigger-run-preflight.ts, which execute-chat-run.ts asks
    before it spends a turn on a run that waited.  The capacity check and the
    dispatch are two computations, as anything may take the slot in between; the
    dispatch runs on the tables of World.v with the admission of TaskQueue.v.  The
    run's id is an argument.  The fields of a stored origin have the types they
    were written with. *)
From stdpp Require Import pretty.
From S2P Require Import Prelude Json Records Schema LeaseRegistry World TaskQueue TaskQueueDb Scheduling JobRetry GitTriggerDiff GitForge GitPoll.

(** ** The intent *)

Definition event_name (e : GitTriggerEvent) : string :=
  match e with opened => "opened" | updated => "updated" | commented => "commented" | closed => "closed" end.

Record IntentVars := mkVars {
  iv_event : string; iv_repo : string; iv_host : option string; iv_number : Z; iv_title : string;
  iv_url : option string; iv_author : option string; iv_sourceBranch : option string;
  iv_targetBranch : option string; iv_sha : option string
}.

Definition placeholders (vars : IntentVars) : list (string * string) :=
  [("{{event}}", iv_event vars); ("{{repo}}", iv_repo vars); ("{{host}}", default "" (iv_host vars));
   ("{{number}}", pretty (iv_number vars)); ("{{title}}", iv_title vars); ("{{url}}", default "" (iv_url vars));
   ("{{author}}", default "" (iv_author vars)); ("{{source_branch}}", default "" (iv_sourceBranch vars));
   ("{{target_branch}}", default "" (iv_targetBranch vars)); ("{{sha}}", default "" (iv_sha vars))].

(** One pass over the template; [skip] characters of a placeholder are left to
    pass over. *)
Fixpoint render (map : list (string * string)) (skip : nat) (s : string) : string :=
  match s with
  | "" => ""
  | String c s' =>
      match skip with
      | S n => render map n s'
      | 0 =>
          match find (fun kv => String.prefix kv.1 s) map with
          | Some kv => kv.2 +:+ render map (pred (String.length kv.1)) s'
          | None => String c (render map 0 s')
          end
      end
  end.

Definition renderGitTriggerIntent (template : string) (vars : IntentVars) : string :=
  render (placeholders vars) 0 template.

(** ** The channel *)

Record ChannelOpts := mkChannelOpts {
  co_provider : GitTriggerProvider; co_event : GitTriggerEvent; co_project : string; co_host : option string;
  co_number : Z; co_url : option string; co_sha : option string; co_authorName : option string
}.

(** The context and the display name *)
Definition buildGitTriggerChannel (o : ChannelOpts) : js_object * option string :=
  let str k (s : option string) obj := obj_set_opt obj k (JStr <$> nonempty s) in
  let displayName := nonempty (trim <$> co_authorName o) in
  let provider := JStr (CLI_BINARY (co_provider o)) in
  let info :=
    str "sha" (co_sha o) (str "url" (co_url o)
      (obj_set (str "host" (co_host o)
        [("provider", provider); ("event", JStr (event_name (co_event o))); ("project", JStr (co_project o))])
        "number" (JNum (JInt (co_number o))))) in
  (str "display_name" displayName
     [("channel_type", provider); ("channel_info", JObj info); ("user_info", JNull)], displayName).

(** ** Dispatching *)

(** The world, the contexts waiting for their runs, the runs named in audit
    entries, and the executions started *)
Record Dispatching := mkDispatching {
  di_world : World;
  di_contexts : gmap string js_object;
  di_audits : list string;
  di_executions : list (string * string)
}.

Definition on_world {A} (m : M World A) : M Dispatching A := fun s =>
  let '(o, w) := m (di_world s) in (o, mkDispatching w (di_contexts s) (di_audits s) (di_executions s)).

Definition on_contexts (f : gmap string js_object -> gmap string js_object) : M Dispatching unit :=
  modify (fun s => mkDispatching (di_world s) (f (di_contexts s)) (di_audits s) (di_executions s)).

Definition audit (runId : string) : M Dispatching unit :=
  modify (fun s => mkDispatching (di_world s) (di_contexts s) (di_audits s ++ [runId]) (di_executions s)).

Definition start_execution (agentId runId : string) : M Dispatching unit :=
  modify (fun s => mkDispatching (di_world s) (di_contexts s) (di_audits s) (di_executions s ++ [(agentId, runId)])).

(** The agent's columns *)
Record TriggeredAgent := mkTriggered { ta_id : string; ta_userId : option string; ta_maxConcurrency : nat }.

Section Dispatch.
Context `{Instance}.

Definition request_project (repo : GitTriggerRepo) (fired : GitTriggerFiredEvent) : string :=
  default (rp_project repo) (nonempty (rq_project (ev_request fired))).

Definition gitTriggerOrigin (provider : GitTriggerProvider) (repo : GitTriggerRepo) (fired : GitTriggerFiredEvent)
    (isQueued : bool) : js_object :=
  obj_set (obj_set (obj_set_opt
    [("provider", JStr (CLI_BINARY provider)); ("event", JStr (event_name (ev_event fired)));
     ("project", JStr (request_project repo fired))]
    "host" (JStr <$> nonempty (rp_host repo)))
    "number" (JNum (JInt (rq_number (ev_request fired))))) "queued" (JBool isQueued).

Definition trigger_vars (repo : GitTriggerRepo) (fired : GitTriggerFiredEvent) : IntentVars :=
  let request := ev_request fired in
  mkVars (event_name (ev_event fired)) (request_project repo fired) (rp_host repo) (rq_number request)
    (rq_title request) (rq_url request) (rq_author request) (rq_sourceBranch request) (rq_targetBranch request)
    (Some (rq_sha request)).

Definition trigger_channel (provider : GitTriggerProvider) (repo : GitTriggerRepo) (fired : GitTriggerFiredEvent)
    : js_object * option string :=
  let request := ev_request fired in
  buildGitTriggerChannel (mkChannelOpts provider (ev_event fired) (request_project repo fired) (rp_host repo)
    (rq_number request) (rq_url request) (Some (rq_sha request)) (rq_author request)).

(** The row a trigger inserts *)
Definition trigger_row (agent : TriggeredAgent) (provider : GitTriggerProvider) (config : GitTriggerConfig)
    (repo : GitTriggerRepo) (fired : GitTriggerFiredEvent) : Run :=
  mkRun pending None (Some [("gitTriggerOrigin", JObj (gitTriggerOrigin provider repo fired true))])
    (Some (CLI_BINARY provider)) None None None None (Some (ta_id agent)) None clock clock empty_usage
    (mkOrigin (renderGitTriggerIntent (gc_intent config) (trigger_vars repo fired)) (ta_userId agent)
       (trigger_channel provider repo fired).2 None).

Definition unqueued_metadata (md : js_object) : js_object :=
  match as_object (obj_get md "gitTriggerOrigin") with
  | Some origin => obj_set md "gitTriggerOrigin" (JObj (obj_set origin "queued" (JBool false)))
  | None => md
  end.

Definition unqueued (r : Run) : Run :=
  match run_executionMetadata r with
  | Some md => with_metadata (Some (unqueued_metadata md)) r
  | None => r
  end.

Definition markGitTriggerRunUnqueued (runId : string) : M World unit :=
  db_write (set_runs (alter unqueued runId)).

(** triggerRun after its capacity check: whether the run was dispatched *)
Definition dispatch (runId : string) (agent : TriggeredAgent) (provider : GitTriggerProvider)
    (config : GitTriggerConfig) (repo : GitTriggerRepo) (fired : GitTriggerFiredEvent) : M Dispatching bool :=
  _ ← on_world (insert_run runId (trigger_row agent provider config repo fired));
  _ ← on_contexts (insert runId [("channel", JObj (trigger_channel provider repo fired).1)]);
  _ ← audit runId;
  slotResult ← on_world (tryAcquireSlot (ta_id agent) runId (ta_maxConcurrency agent));
  match slotResult with
  | slot_queue_full =>
      _ ← on_world (db_write (set_runs (delete runId)));
      _ ← on_contexts (delete runId);
      mret false
  | slot_queued => mret true
  | slot_acquired =>
      _ ← on_world (markGitTriggerRunUnqueued runId);
      _ ← start_execution (ta_id agent) runId;
      mret true
  end.

(** triggerRun with nothing in between *)
Definition triggerRun (runId : string) (agent : TriggeredAgent) (provider : GitTriggerProvider)
    (config : GitTriggerConfig) (repo : GitTriggerRepo) (fired : GitTriggerFiredEvent) : M Dispatching bool :=
  capacity ← on_world (hasAdmissionCapacity (ta_id agent) (ta_maxConcurrency agent));
  if (capacity : bool) then dispatch runId agent provider config repo fired else mret false.
End Dispatch.

(** ** Before the run starts *)

Record GitTriggerRunOrigin := mkRunOrigin {
  go_provider : string; go_event : string; go_project : string; go_number : Z; go_host : option string
}.

Definition read_origin (metadata : option js_object) : option GitTriggerRunOrigin :=
  o ← as_object (md ← metadata; obj_get md "gitTriggerOrigin");
  let str k := as_string (obj_get o k) in
  provider ← str "provider"; event ← str "event"; project ← str "project"; number ← integer (obj_get o "number");
  Some (mkRunOrigin provider event project number (str "host")).

Definition CODE_REVIEW_EVENTS : list string := ["opened"; "updated"].
Definition SUPERSEDING_STATUSES : list RunStatus := [pending; queued; running; completed].
Definition SUPERSEDE_SCAN_LIMIT : nat := 200.

Definition requestRef (o : GitTriggerRunOrigin) : string :=
  go_project o +:+ (if decide (go_provider o = "glab") then "!" else "#") +:+ pretty (go_number o).

Definition isSameRequest (a b : GitTriggerRunOrigin) : bool :=
  bool_decide (go_provider a = go_provider b /\ go_project a = go_project b /\ go_number a = go_number b /\
               default "" (go_host a) = default "" (go_host b)).

(** A row the query selects for a run of [agentId] created at [createdAt] *)
Definition newer_run (agentId : string) (origin : GitTriggerRunOrigin) (createdAt : Z) (r : Run) : bool :=
  bool_decide (run_initiatorAgentId r = Some agentId) && bool_decide (run_triggerSource r = Some (go_provider origin)) &&
  (createdAt <? run_createdAt r)%Z && bool_decide (run_status r ∈ SUPERSEDING_STATUSES).

Definition by_createdAt (a b : string * Run) : Z := (run_createdAt a.2 - run_createdAt b.2)%Z.

Definition newer_runs (agentId : string) (origin : GitTriggerRunOrigin) (createdAt : Z) (runs : gmap string Run)
    : list (string * Run) :=
  take SUPERSEDE_SCAN_LIMIT
    (sort by_createdAt (filter (fun row => newer_run agentId origin createdAt row.2 = true) (map_to_list runs))).

(** The test of one row of the scan *)
Definition reviews (origin : GitTriggerRunOrigin) (selfId : string) (row : string * Run) : bool :=
  negb (bool_decide (row.1 = selfId)) && bool_decide (run_status row.2 ∈ SUPERSEDING_STATUSES) &&
  match read_origin (run_executionMetadata row.2) with
  | Some candidate => bool_decide (go_event candidate ∈ CODE_REVIEW_EVENTS) && isSameRequest origin candidate
  | None => false
  end.

Definition findSupersedingRunId (origin : GitTriggerRunOrigin) (selfId : string) (newer : list (string * Run))
    : option string :=
  fst <$> find (reviews origin selfId) newer.

Definition superseded_message (origin : GitTriggerRunOrigin) (id : string) : string :=
  "A newer run (" +:+ id +:+ ") for " +:+ requestRef origin +:+ " reviews its latest head; skipped this " +:+
  quoted (go_event origin) +:+ " run as a duplicate.".

Definition finished_message (origin : GitTriggerRunOrigin) (state : string) : string :=
  (if decide (go_provider origin = "glab") then "Merge request" else "Pull request") +:+ " " +:+ requestRef origin +:+
  " was " +:+ state +:+ " before this run started; skipped the " +:+ quoted (go_event origin) +:+
  " run to avoid spending tokens on a finished request.".

(** [newer] is what the query returned or threw, [state] what the forge reports. *)
Definition gitTriggerRunSkipReason (origin : GitTriggerRunOrigin) (selfId : string)
    (newer : outcome (list (string * Run))) (state : GitTriggerRequestLiveState) : option string :=
  if decide (go_event origin = "closed") then None
  else
    let superseding :=
      if decide (go_event origin ∈ CODE_REVIEW_EVENTS)
      then match newer with Ret rows => findSupersedingRunId origin selfId rows | Throw _ => None end
      else None in
    match nonempty superseding with
    | Some id => Some (superseded_message origin id)
    | None =>
        match state with
        | live_merged => Some (finished_message origin "merged")
        | live_closed => Some (finished_message origin "closed")
        | live_open | live_unknown => None
        end
    end.

(** The check of executeChatRun: a run that took a slot at once is not asked about. *)
Definition preflight (runId agentId : string) (run : Run) (runs : gmap string Run) (queryFails : bool)
    (state : GitTriggerRequestLiveState) : option string :=
  match read_origin (run_executionMetadata run) with
  | None => None
  | Some origin =>
      if decide ((md ← run_executionMetadata run; o ← as_object (obj_get md "gitTriggerOrigin"); obj_get o "queued")
                 = Some (JBool false))
      then None
      else gitTriggerRunSkipReason origin runId
             (if queryFails then Throw (mkError "Error" "query failed")
              else Ret (newer_runs agentId origin (run_createdAt run) runs)) state
  end.

(** The transition of cancelStaleGitTriggerRun: whether it was this call's *)
Definition cancelStaleGitTriggerRun `{Instance} (runId reason : string) : M World bool :=
  update_runs runId (fun r => bool_decide (run_status r = running))
    (fun r => with_updatedAt clock (with_result (Some (JObj [("error", JStr reason)])) (with_status cancelled r))).

(** ** What a dispatch leaves *)

Lemma on_world_run {A} (m : M World A) w cs au ex :
  on_world m (mkDispatching w cs au ex) = let '(o, w') := m w in (o, mkDispatching w' cs au ex).
Proof. done. Qed.

Lemma unqueue_inserted `{Instance} runId row (runs : gmap string Run) :
  alter unqueued runId (<[runId := row]> runs) = <[runId := unqueued row]> runs.
Proof. by rewrite alter_insert_eq. Qed.

(** A dispatch inserts the run, announces it and asks for admission.  The run is
    started with its mark cleared, or waits with the mark that has the forge asked
    again before it starts; refused, it is withdrawn with its context and nothing but
    the audit entry stays; an error of admission leaves it pending. *)
Lemma dispatch_outcome `{Instance} runId agent provider config repo fired w cs au ex o s' :
  wf (w_reg w) -> db_runs (w_db w) !! runId = None -> cs !! runId = None ->
  dispatch runId agent provider config repo fired (mkDispatching w cs au ex) = (o, s') ->
  let row := trigger_row agent provider config repo fired in
  let cs1 := <[runId := [("channel", JObj (trigger_channel provider repo fired).1)]]> cs in
  let runs := db_runs (w_db w) in
  let runs' := db_runs (w_db (di_world s')) in
  di_audits s' = au ++ [runId] /\
  match o with
  | Ret true =>
      di_contexts s' = cs1 /\
      (runs' = <[runId := unqueued (admitted_row slot_acquired row)]> runs /\
       di_executions s' = ex ++ [(ta_id agent, runId)] /\ hasExecutionLease runId (w_reg (di_world s')) = true \/
       runs' = <[runId := admitted_row slot_queued row]> runs /\ di_executions s' = ex)
  | Ret false => di_world s' = w /\ di_contexts s' = cs /\ di_executions s' = ex
  | Throw _ => runs' = <[runId := row]> runs /\ di_contexts s' = cs1 /\ di_executions s' = ex
  end.
Proof.
  intros Hw Hn Hc Hrun. cbv zeta. unfold dispatch in Hrun. set (row := trigger_row _ _ _ _ _) in *.
  erewrite bind_run in Hrun by (rewrite on_world_run; unfold insert_run; rewrite Hn; reflexivity).
  erewrite bind_run in Hrun by reflexivity. erewrite bind_run in Hrun by reflexivity.
  cbn [di_world di_contexts di_audits di_executions] in Hrun.
  unfold mbind at 1, M_bind at 1 in Hrun. rewrite on_world_run in Hrun.
  destruct (tryAcquireSlot _ runId _ _) as [oa w1] eqn:Ha.
  pose proof (admit_replay _ _ _ _ _ _ _ Hw Ha) as Hadm.
  destruct oa as [[]|e]; cbn in Hrun; injection Hrun as <- <-; cbn.
  - destruct Hadm as [Hruns Hl]. split; [done|]. split; [done|]. left. rewrite Hruns, unqueue_inserted.
    split; [done|]. split; [done|]. by apply Hl.
  - destruct Hadm as [Hruns _]. split; [done|]. split; [done|]. by right.
  - subst w1. split; [done|]. split; [by apply (delete_inserted runId row)|]. split; [|done].
    by rewrite delete_insert_id.
  - subst w1. by split_and!.
Qed.

(** The origin a run is stored with is the one its preflight reads. *)
Lemma stored_origin `{Instance} agent provider config repo fired :
  read_origin (run_executionMetadata (trigger_row agent provider config repo fired)) =
  Some (mkRunOrigin (CLI_BINARY provider) (event_name (ev_event fired)) (request_project repo fired)
          (rq_number (ev_request fired)) (nonempty (rp_host repo))).
Proof. unfold trigger_row, read_origin. simpl. unfold gitTriggerOrigin. by destruct (nonempty (rp_host repo)). Qed.

(** A run that took its slot at once is never skipped. *)
Lemma started_at_once_runs `{Instance} agent provider config repo fired runId runs fails state :
  preflight runId (ta_id agent) (unqueued (admitted_row slot_acquired (trigger_row agent provider config repo fired)))
    runs fails state = None.
Proof.
  unfold preflight. destruct (read_origin _); [|done]. rewrite decide_True; [done|].
  simpl. unfold unqueued_metadata, gitTriggerOrigin. simpl. by destruct (nonempty (rp_host repo)).
Qed.

(** A value is put in its place as it is, whatever it contains. *)
Lemma render_value map k v s :
  find (fun kv => String.prefix kv.1 (k +:+ s)) map = Some (k, v) -> k <> "" ->
  render map 0 (k +:+ s) = v +:+ render map 0 s.
Proof.
  intros Hf Hk. destruct k as [|c k]; [done|]. rewrite append_cons in *. cbn [render]. rewrite Hf. cbn [fst snd].
  f_equal. simpl. clear Hf Hk. induction k as [|d k IH]; [by destruct s|]. rewrite append_cons. exact IH.
Qed.

(** ** What a skip leaves *)

Lemma same_request_trans a b c : isSameRequest a b = true -> isSameRequest b c = true -> isSameRequest a c = true.
Proof.
  unfold isSameRequest. rewrite !bool_decide_eq_true. intros (-> & -> & -> & ->) (-> & -> & -> & ->). done.
Qed.

Lemma max_exists {A} (f : A -> Z) (l : list A) :
  l <> [] -> exists x, x ∈ l /\ forall y, y ∈ l -> (f y <= f x)%Z.
Proof.
  induction l as [|x l IH]; [done|]. intros _. destruct (decide (l = [])) as [->|Hl].
  - exists x. split; [by left|]. intros y ->%list_elem_of_singleton. lia.
  - destruct (IH Hl) as (z & Hz & Hm). destruct (Z.le_gt_cases (f x) (f z)).
    + exists z. split; [by right|]. intros y [->|Hy]%elem_of_cons; [done|auto].
    + exists x. split; [by left|]. intros y [->|Hy]%elem_of_cons; [lia|]. specialize (Hm y Hy). lia.
Qed.

(** A run for the request of [origin] that reviews its code, newer than [createdAt] *)
Definition reviewer (agentId : string) (origin : GitTriggerRunOrigin) (createdAt : Z) (r : Run) : Prop :=
  run_initiatorAgentId r = Some agentId /\ (createdAt < run_createdAt r)%Z /\
  run_status r ∈ SUPERSEDING_STATUSES /\
  exists o, read_origin (run_executionMetadata r) = Some o /\ isSameRequest origin o = true /\
    go_event o ∈ CODE_REVIEW_EVENTS.

Lemma newer_runs_spec agentId origin createdAt runs row :
  row ∈ newer_runs agentId origin createdAt runs ->
  runs !! row.1 = Some row.2 /\ newer_run agentId origin createdAt row.2 = true.
Proof.
  unfold newer_runs. intros Hin. assert (row ∈ sort by_createdAt (filter (fun row => newer_run agentId origin createdAt row.2 = true) (map_to_list runs))) as Hs.
  { eapply elem_of_take in Hin as (i & Hi & _). by eapply list_elem_of_lookup_2. }
  rewrite sort_perm in Hs. apply list_elem_of_filter in Hs as [Hf Hm]. destruct row as [id r].
  by apply elem_of_map_to_list in Hm.
Qed.

Lemma superseding_reviewer agentId origin selfId createdAt runs id :
  findSupersedingRunId origin selfId (newer_runs agentId origin createdAt runs) = Some id ->
  exists r, runs !! id = Some r /\ reviewer agentId origin createdAt r.
Proof.
  unfold findSupersedingRunId. destruct (find _ _) as [[id' r]|] eqn:Hf; [|done]. intros [= <-].
  apply find_some in Hf as [Hin Hr]. apply list_elem_of_In, newer_runs_spec in Hin as [Hid Hn]. simpl in *.
  exists r. split; [done|]. unfold newer_run in Hn. unfold reviews in Hr. simpl in Hr.
  destruct (read_origin _) as [o|] eqn:Ho; [|by rewrite andb_false_r in Hr].
  repeat match goal with H : (_ && _)%bool = true |- _ => apply andb_true_iff in H as [? ?] end.
  repeat match goal with H : bool_decide _ = true |- _ => apply bool_decide_eq_true in H end.
  split; [done|]. split; [by apply Z.ltb_lt|]. split; [done|]. by exists o.
Qed.

(** The newest reviewer is not superseded. *)
Lemma newest_reviewer agentId origin createdAt (runs : gmap string Run) :
  (exists id r, runs !! id = Some r /\ reviewer agentId origin createdAt r) ->
  exists id r, runs !! id = Some r /\ reviewer agentId origin createdAt r /\
    forall o, read_origin (run_executionMetadata r) = Some o -> isSameRequest origin o = true ->
      findSupersedingRunId o id (newer_runs agentId o (run_createdAt r) runs) = None.
Proof.
  intros (id0 & r0 & H0 & Hr0).
  assert (forall r, Decision (reviewer agentId origin createdAt r)) as Hdec.
  { intros r. unfold reviewer. destruct (read_origin (run_executionMetadata r)) as [o|].
    - destruct (decide (run_initiatorAgentId r = Some agentId /\ (createdAt < run_createdAt r)%Z /\
        run_status r ∈ SUPERSEDING_STATUSES /\ isSameRequest origin o = true /\ go_event o ∈ CODE_REVIEW_EVENTS));
        [left|right]; naive_solver.
    - right. naive_solver. }
  destruct (max_exists (fun row => run_createdAt row.2)
    (filter (fun row => reviewer agentId origin createdAt row.2) (map_to_list runs))) as ([id r] & Hin & Hmax).
  { intros He. assert ((id0, r0) ∈ filter (fun row => reviewer agentId origin createdAt row.2) (map_to_list runs)) as Hx.
    { apply list_elem_of_filter. split; [done|]. by apply elem_of_map_to_list. }
    rewrite He in Hx. set_solver. }
  apply list_elem_of_filter in Hin as [Hrev Hid]. apply elem_of_map_to_list in Hid. simpl in Hrev.
  exists id, r. split; [done|]. split; [done|]. intros o Ho Hsame.
  destruct (findSupersedingRunId _ _ _) as [id2|] eqn:Hf; [|done].
  apply superseding_reviewer in Hf as (r2 & Hid2 & Ha & Hc & Hst & o2 & Ho2 & Hs2 & He2).
  assert (run_createdAt r2 <= run_createdAt r)%Z; [|lia].
  apply (Hmax (id2, r2)). apply list_elem_of_filter. split; [|by apply elem_of_map_to_list]. simpl.
  destruct Hrev as (_ & Hc0 & _). split; [done|]. split; [lia|]. split; [done|].
  exists o2. split; [done|]. split; [by eapply same_request_trans|done].
Qed.

(** C27. Skipping a queued run never leaves its request unreviewed: when a run for a request that
    the forge reports open is skipped, there is a newer run of the same agent for the same
    request, for an event that has its code reviewed, waiting, executing or completed, which the
    same check lets through, whether or not its own query fails. *)
Theorem skip_leaves_a_review runId agentId run runs fails reason
    (Hskip : preflight runId agentId run runs fails live_open = Some reason) :
  exists origin id r o,
    read_origin (run_executionMetadata run) = Some origin /\
    runs !! id = Some r /\ run_initiatorAgentId r = Some agentId /\ (run_createdAt run < run_createdAt r)%Z /\
    run_status r ∈ SUPERSEDING_STATUSES /\
    read_origin (run_executionMetadata r) = Some o /\ isSameRequest origin o = true /\
    go_event o ∈ CODE_REVIEW_EVENTS /\
    forall fails', preflight id agentId r runs fails' live_open = None.
Proof.
  unfold preflight in Hskip. destruct (read_origin (run_executionMetadata run)) as [origin|] eqn:Ho; [|done].
  destruct (decide _); [done|]. unfold gitTriggerRunSkipReason in Hskip. destruct (decide _); [done|].
  destruct (decide (go_event origin ∈ CODE_REVIEW_EVENTS)); [|done]. destruct fails; [done|].
  destruct (findSupersedingRunId _ _ _) as [id0|] eqn:Hf; [|done]. clear Hskip.
  destruct (superseding_reviewer _ _ _ _ _ _ Hf) as (r0 & H0 & Hr0).
  destruct (newest_reviewer agentId origin (run_createdAt run) runs) as (id & r & Hid & Hrev & Hlast); [by eauto|].
  destruct Hrev as (Ha & Hc & Hst & o & Hor & Hs & He). exists origin, id, r, o.
  split; [done|]. do 7 (split; [done|]). intros fails'. unfold preflight. rewrite Hor. destruct (decide _); [done|].
  unfold gitTriggerRunSkipReason. destruct (decide _); [done|]. rewrite decide_True by done.
  destruct fails'; [done|]. by rewrite Hlast.
Qed.

(** ** Examples *)

Definition demo_run_row (event : GitTriggerEvent) (createdAt : Z) (st : RunStatus) : Run :=
  mkRun st None
    (Some [("gitTriggerOrigin", JObj (gitTriggerOrigin glab (mkRepo scope_project "g/r" None)
             (mkFired event (demo_request 7 "s" 0) None) true))])
    (Some "glab") None None None None (Some "a") None createdAt createdAt empty_usage empty_origin.

Definition demo_stored_runs : gmap string Run :=
  {["r1" := demo_run_row opened 1 running; "r2" := demo_run_row updated 2 queued;
    "r3" := demo_run_row updated 3 queued; "r4" := demo_run_row commented 4 queued;
    "r5" := demo_run_row updated 5 failed]}.

(** The first two are skipped for the third, which the failed fifth does not replace. *)
Lemma skip_leaves_a_review_witness :
  is_Some (preflight "r1" "a" (demo_run_row opened 1 running) demo_stored_runs false live_open) /\
  exists id r, demo_stored_runs !! id = Some r /\ (1 < run_createdAt r)%Z /\
    (forall fails', preflight id "a" r demo_stored_runs fails' live_open = None).
Proof.
  destruct (preflight "r1" "a" (demo_run_row opened 1 running) demo_stored_runs false live_open) as [reason|] eqn:Hs;
    [|by vm_compute in Hs].
  split; [by eexists|].
  destruct (skip_leaves_a_review "r1" "a" (demo_run_row opened 1 running) demo_stored_runs false reason Hs)
    as (origin & id & r & o & _ & Hid & _ & Hc & _ & _ & _ & _ & Hf).
  exists id, r. split; [exact Hid|]. split; [exact Hc|exact Hf].
Defined.

Lemma only_the_newest_runs :
  (fun id => r ← demo_stored_runs !! id; preflight id "a" r demo_stored_runs false live_open) <$> ["r1"; "r2"; "r3"; "r4"] =
  [Some (superseded_message (mkRunOrigin "glab" "opened" "g/r" 7 None) "r2");
   Some (superseded_message (mkRunOrigin "glab" "updated" "g/r" 7 None) "r3"); None; None].
Proof. by vm_compute. Qed.
