(* ===== verification/ScheduleTrigger.v ===== *)
(** * Scheduled runs

    lib/schedule-trigger.ts with isSupportedScheduleCron of the shared package,
    buildScheduleChannel of lib/run-channel.ts and the rehearsal of
    routes/agent-schedules.ts: which entries of an agent's schedules are
    registered, what a firing does, and the manual firing of one entry.  The cron
    library and the formatting of dates are parameters; a firing goes through the
    admission of TaskQueue.v, and the execution it starts without waiting is an
    effect, as in JobRetry.v.  The random run id is an argument. *)
From stdpp Require Import pretty.
From S2P Require Import Prelude Json Records Schema LeaseRegistry World TaskQueue TaskQueueDb Scheduling JobRetry.

(** ** Configuration *)

Record ScheduleConfig := mkSchedule {
  sc_id : option string;
  sc_cron : string;
  sc_intent : string;
  sc_timezone : option string
}.

Inductive ScheduleConfigInput := sc_none | sc_one (c : ScheduleConfig) | sc_many (l : list ScheduleConfig).

Definition DEFAULT_SCHEDULE_TIMEZONE : string := "Asia/Shanghai".

Definition normalizeScheduleConfigs (config : ScheduleConfigInput) : list ScheduleConfig :=
  match config with sc_none => [] | sc_one c => [c] | sc_many l => l end.

Definition resolveScheduleId (agentId : string) (schedule : ScheduleConfig) (index : nat) : string :=
  default (agentId +:+ ":" +:+ pretty index) (sc_id schedule).

(** [schedule.timezone || DEFAULT_SCHEDULE_TIMEZONE] *)
Definition timezone_of (c : ScheduleConfig) : string :=
  match sc_timezone c with None | Some "" => DEFAULT_SCHEDULE_TIMEZONE | Some tz => tz end.

(** What the cron library does: which expressions it parses, which time zones it
    knows, and when an expression fires next *)
Class Croner := {
  cron_parses : string -> bool;
  timezone_known : string -> bool;
  next_run : string -> string -> option string
}.

(** The number of fields between whitespace *)
Fixpoint fields (in_field : bool) (s : string) : nat :=
  match s with
  | "" => 0
  | String c s' =>
      if js_whitespace c then fields false s'
      else (if in_field then 0 else 1) + fields true s'
  end.

(** [FIVE_FIELD_CRON.test(s.trim())] *)
Definition five_fields (cron : string) : bool := (fields false (trim cron) =? 5)%nat.

Inductive UnregistrableReason := bad_cron | bad_timezone.

#[export] Instance UnregistrableReason_eq_dec : EqDecision UnregistrableReason.
Proof. solve_decision. Defined.

(** The jobs of each agent, each with its entry and its position *)
Abbreviation Jobs := (js_record (list (nat * ScheduleConfig))).

Section Cron.
Context `{Croner}.

Definition isSupportedScheduleCron (expr : string) : bool := five_fields expr && cron_parses (trim expr).
Definition isValidCron (expr : string) : bool := isSupportedScheduleCron expr.

(** The library looks at the time zone at once only when there is a callback. *)
Definition registerCron (cron timezone : string) (callback : bool) : option UnregistrableReason :=
  if negb (five_fields cron) then Some bad_cron
  else if cron_parses cron && (negb callback || timezone_known timezone) then None
  else Some (if isValidCron cron then bad_timezone else bad_cron).

(** An unknown time zone shows when the next firing is computed. *)
Definition computeNextRun (cron timezone : string) : option string :=
  match registerCron cron timezone false with
  | Some _ => None
  | None => if timezone_known timezone then next_run cron timezone else None
  end.

Definition describeUnregistrable (cron timezone : string) : string :=
  if isValidCron cron then "timezone " +:+ quoted timezone +:+ " is not a known IANA timezone"
  else "cron " +:+ quoted cron +:+ " is not a valid 5-field expression".

Record ScheduleEntry := mkEntry {
  se_id : string;
  se_index : nat;
  se_cron : string;
  se_timezone : string;
  se_intent : string;
  se_nextRun : option string;
  se_stable : bool
}.

Definition schedule_entry (agentId : string) (index : nat) (schedule : ScheduleConfig) : ScheduleEntry :=
  let timezone := timezone_of schedule in
  mkEntry (resolveScheduleId agentId schedule index) index (sc_cron schedule) timezone (sc_intent schedule)
    (computeNextRun (sc_cron schedule) timezone) (bool_decide (is_Some (sc_id schedule))).

Definition listSchedules (agentId : string) (config : ScheduleConfigInput) : list ScheduleEntry :=
  imap (schedule_entry agentId) (normalizeScheduleConfigs config).

(** ** ScheduleTriggerManager *)

Definition registrable (c : ScheduleConfig) : bool :=
  bool_decide (registerCron (sc_cron c) (timezone_of c) true = None).

Definition registered (config : ScheduleConfigInput) : list (nat * ScheduleConfig) :=
  filter (fun ic => registrable ic.2 = true) (imap pair (normalizeScheduleConfigs config)).

Definition stop_schedules (agentId : string) (jobs : Jobs) : Jobs := rec_delete jobs agentId.

Definition start_schedules (agentId : string) (config : ScheduleConfigInput) (jobs : Jobs) : Jobs :=
  let jobs := stop_schedules agentId jobs in
  match registered config with [] => jobs | l => map_put jobs agentId l end.

Definition stopAll (jobs : Jobs) : Jobs := foldl (fun jobs agentId => stop_schedules agentId jobs) jobs jobs.*1.

(** The columns of an agent that the schedules read *)
Record ScheduleAgent := mkScheduleAgent {
  sa_published : bool;
  sa_active : bool;
  sa_publishChannels : list string;
  sa_scheduleConfig : ScheduleConfigInput;
  sa_scheduleRunAsOwner : bool;
  sa_scheduleRunAsUserId : option string;
  sa_userId : option string;
  sa_maxConcurrency : nat
}.

Definition schedule_channel (agent : ScheduleAgent) : bool := bool_decide ("schedule" ∈ sa_publishChannels agent).

Definition restoreAll (agents : list (string * ScheduleAgent)) (jobs : Jobs) : Jobs :=
  foldl (fun jobs '(agentId, agent) =>
           if sa_published agent && schedule_channel agent &&
              negb (bool_decide (normalizeScheduleConfigs (sa_scheduleConfig agent) = []))
           then start_schedules agentId (sa_scheduleConfig agent) jobs else jobs) jobs agents.

(** What the callback of a job does before it fires *)
Inductive Triggered := tg_stopped | tg_skipped | tg_fires (agent : ScheduleAgent).

Definition triggerRun (agentId : string) (agent : option ScheduleAgent) (jobs : Jobs) : Triggered * Jobs :=
  match agent with
  | None => (tg_stopped, stop_schedules agentId jobs)
  | Some agent =>
      if negb (sa_published agent) then (tg_stopped, stop_schedules agentId jobs)
      else if negb (sa_active agent) then (tg_skipped, jobs)
      else (tg_fires agent, jobs)
  end.

(** ** routes/agent-schedules.ts *)

(** POST /agents/:id/schedules/:scheduleId/run, up to the firing: the code of the
    refusal, or the entry fired *)
Definition rehearse (agentId scheduleId : string) (agent : ScheduleAgent) : string + (nat * ScheduleConfig) :=
  if negb (sa_published agent) then inl "AGENT_NOT_PUBLISHED"
  else if negb (schedule_channel agent) then inl "SCHEDULE_CHANNEL_DISABLED"
  else if negb (sa_active agent) then inl "AGENT_INACTIVE"
  else match filter (fun e => se_id e = scheduleId) (listSchedules agentId (sa_scheduleConfig agent)) with
       | [] => inl "NOT_FOUND"
       | [entry] =>
           if negb (se_stable entry) then inl "SCHEDULE_ID_REQUIRED"
           else match se_nextRun entry with
                | None => inl "SCHEDULE_NOT_REGISTERED"
                | Some _ =>
                    match normalizeScheduleConfigs (sa_scheduleConfig agent) !! se_index entry with
                    | Some c => inr (se_index entry, c)
                    | None => inl "unreachable"
                    end
                end
       | _ => inl "SCHEDULE_ID_AMBIGUOUS"
       end.
End Cron.

(** ** A firing *)

Record RunAsUser := mkRunAs { ru_email : string; ru_name : option string; ru_sourceId : option string }.

(** A row of users, as far as a schedule reads it *)
Record UserIdentity := mkIdentity {
  ui_isActive : bool;
  ui_email : option string;
  ui_idaasSub : option string;
  ui_displayName : option string
}.

Definition nonblank (s : option string) : option string := match s with Some "" => None | _ => s end.

Definition resolveScheduleRunAsUser (agent : ScheduleAgent) (users : string -> option UserIdentity) : option RunAsUser :=
  match nonblank (sa_scheduleRunAsUserId agent) with
  | None => None
  | Some id =>
      if negb (sa_scheduleRunAsOwner agent) || negb (schedule_channel agent) then None
      else match users id with
           | Some user =>
               match ui_isActive user, nonblank (ui_email user), nonblank (ui_idaasSub user) with
               | true, Some email, Some sub => Some (mkRunAs email (ui_displayName user) (Some sub))
               | _, _, _ => None
               end
           | None => None
           end
  end.

(** The context and the display name *)
Definition buildScheduleChannel (scheduleId cron : string) (user : option RunAsUser) : js_object * option string :=
  let str k (s : option string) o := obj_set_opt o k (JStr <$> nonblank s) in
  let user := match user with Some u => if decide (ru_email u = "") then None else Some u | None => None end in
  let user_info :=
    match user with
    | Some u =>
        JObj (str "source_id" (ru_sourceId u)
          (obj_set (str "name" (ru_name u) [("email", JStr (ru_email u))]) "source" (JStr "idaas")))
    | None => JNull
    end in
  let displayName := user ≫= ru_name in
  (str "display_name" displayName
     [("channel_type", JStr "schedule");
      ("channel_info", JObj (str "cron" (Some cron) (str "schedule_id" (Some scheduleId) [])));
      ("user_info", user_info)],
   displayName).

(** [s.replace(/pattern/g, by)] for a literal pattern; [skip] characters of a
    match are left to pass over. *)
Fixpoint replace_all (pattern by_ : string) (skip : nat) (s : string) : string :=
  match s with
  | "" => ""
  | String c s' =>
      match skip with
      | S n => replace_all pattern by_ n s'
      | 0 =>
          if String.prefix pattern s then by_ +:+ replace_all pattern by_ (pred (String.length pattern)) s'
          else String c (replace_all pattern by_ 0 s')
      end
  end.

(** The instant of a firing, in the three forms of a template *)
Record Instant := mkInstant { in_date : string -> string; in_time : string -> string; in_iso : string }.

Definition renderIntent (now : Instant) (template timezone : string) : string :=
  replace_all "{{iso}}" (in_iso now) 0
    (replace_all "{{time}}" (in_time now timezone) 0
       (replace_all "{{date}}" (in_date now timezone) 0 template)).

Inductive FireStatus := fired_pending | fired_queued | fired_queue_full.

Section Fire.
Context `{Instance}.

(** The row a firing inserts *)
Definition schedule_row (agentId : string) (agent : ScheduleAgent) (scheduleUser : option RunAsUser)
    (displayName : option string) (intent : string) : Run :=
  mkRun pending None None (Some "schedule") None None None None (Some agentId) None clock clock empty_usage
    (mkOrigin intent (match scheduleUser with Some _ => sa_scheduleRunAsUserId agent | None => sa_userId agent end)
       displayName None).

Definition schedule_queue_full : json := JObj [("error", JStr "Agent queue is full at schedule trigger time")].

Definition fireSchedule (runId agentId : string) (agent : ScheduleAgent) (users : string -> option UserIdentity)
    (now : Instant) (config : ScheduleConfig) (scheduleIndex : nat) : M Retry (FireStatus * string) :=
  let intent := renderIntent now (sc_intent config) (timezone_of config) in
  let scheduleUser := resolveScheduleRunAsUser agent users in
  let '(ctx, displayName) :=
    buildScheduleChannel (resolveScheduleId agentId config scheduleIndex) (sc_cron config) scheduleUser in
  _ ← in_world (insert_run runId (schedule_row agentId agent scheduleUser displayName intent));
  _ ← add_effect (RegisterPendingContext runId [("channel", JObj ctx)]);
  slotResult ← in_world (tryAcquireSlot agentId runId (sa_maxConcurrency agent));
  match slotResult with
  | slot_queue_full =>
      _ ← in_world (db_write (set_runs (alter (fun r =>
            with_updatedAt clock (with_result (Some schedule_queue_full) (with_status failed r))) runId)));
      mret (fired_queue_full, intent)
  | slot_queued => mret (fired_queued, intent)
  | slot_acquired =>
      _ ← add_effect (ExecuteChatRun agentId runId None);
      mret (fired_pending, intent)
  end.
End Fire.

(** ** What is registered *)

Section Registered.
Context `{Croner}.

Lemma start_exact agentId config jobs a :
  rec_get (start_schedules agentId config jobs) a =
  if decide (a = agentId) then match registered config with [] => None | l => Some l end else rec_get jobs a.
Proof.
  unfold start_schedules, stop_schedules. destruct (registered config) as [|ic l].
  - rewrite rec_get_delete. by case_decide.
  - rewrite rec_get_put, rec_get_delete. by case_decide.
Qed.

(** Whether restoring gives an agent jobs *)
Definition restores (agent : ScheduleAgent) : bool := sa_published agent && schedule_channel agent.

(** After a restart every published agent with the schedule channel has a job for
    each of its entries the library takes, whatever the other entries and agents
    are, and no other agent has any. *)
Theorem restored_jobs_exact (agents : list (string * ScheduleAgent)) (a : string) :
  NoDup agents.*1 ->
  rec_get (restoreAll agents []) a =
  match rec_get agents a with
  | Some agent =>
      if restores agent then match registered (sa_scheduleConfig agent) with [] => None | l => Some l end else None
  | None => None
  end.
Proof.
  assert (forall jobs, NoDup agents.*1 -> (forall k, k ∈ agents.*1 -> rec_get jobs k = None) ->
    rec_get (restoreAll agents jobs) a =
    match rec_get agents a with
    | Some agent =>
        if restores agent then match registered (sa_scheduleConfig agent) with [] => None | l => Some l end else None
    | None => rec_get jobs a
    end) as Hgen.
  { induction agents as [|[k agent] agents IH]; intros jobs Hd Hj; [done|].
    simpl in Hd. apply NoDup_cons in Hd as [Hk Hd]. cbn [restoreAll foldl rec_get].
    set (jobs' := if _ && _ && _ then _ else jobs).
    assert (forall i, rec_get jobs' i = if decide (i = k) then
      (if restores agent then match registered (sa_scheduleConfig agent) with [] => None | l => Some l end else None)
      else rec_get jobs i) as Hj'.
    { intros i. unfold jobs', restores. destruct (sa_published agent && schedule_channel agent); simpl.
      - case_bool_decide as Hn; simpl; [|apply start_exact]. unfold registered. rewrite Hn. simpl.
        case_decide; [subst; apply Hj; by left|done].
      - case_decide; [subst; apply Hj; by left|done]. }
    change (foldl _ jobs' agents) with (restoreAll agents jobs'). rewrite IH; [|done|].
    - rewrite Hj'. destruct (decide (a = k)) as [->|]; [|done].
      by replace (rec_get agents k) with (@None ScheduleAgent) by (symmetry; by apply rec_get_None).
    - intros i Hi. rewrite Hj', decide_False by (intros ->; done). apply Hj. by right. }
  intros Hd. apply Hgen; done.
Qed.

(** The next firing is computed for what would be registered. *)
Lemma next_run_registrable c : is_Some (computeNextRun (sc_cron c) (timezone_of c)) -> registrable c = true.
Proof.
  unfold computeNextRun, registrable, registerCron. intros [t Ht]. apply bool_decide_eq_true.
  destruct (negb (five_fields (sc_cron c))); [done|]. simpl in Ht. rewrite andb_true_r in Ht.
  destruct (cron_parses (sc_cron c)); [|done]. simpl. by destruct (timezone_known (timezone_of c)).
Qed.

(** A rehearsal fires an entry only when its cron would: the entry is one the
    registrar takes, it is the only one with that id, and the callback of its job
    would fire the same entry of the same agent. *)
Theorem rehearsal_is_cron (agentId scheduleId : string) (agent : ScheduleAgent) (jobs : Jobs) i c :
  rehearse agentId scheduleId agent = inr (i, c) ->
  (i, c) ∈ registered (sa_scheduleConfig agent) /\ sc_id c = Some scheduleId /\
  (forall j c', (j, c') ∈ registered (sa_scheduleConfig agent) -> sc_id c' = Some scheduleId -> (j, c') = (i, c)) /\
  restores agent = true /\ triggerRun agentId (Some agent) jobs = (tg_fires agent, jobs).
Proof.
  unfold rehearse, restores, triggerRun. destruct (sa_published agent); [|done]. destruct (schedule_channel agent); [|done].
  destruct (sa_active agent); [|done]. simpl. set (cs := normalizeScheduleConfigs (sa_scheduleConfig agent)).
  assert (forall e, e ∈ filter (fun e => se_id e = scheduleId) (listSchedules agentId (sa_scheduleConfig agent)) <->
    exists j c', cs !! j = Some c' /\ e = schedule_entry agentId j c' /\ se_id e = scheduleId) as Hl.
  { intros e. rewrite list_elem_of_filter. unfold listSchedules. fold cs. rewrite elem_of_lookup_imap. naive_solver. }
  destruct (filter _ _) as [|e [|e' l]] eqn:Hf; [done| |done].
  destruct (se_stable e) eqn:Hs; [|done]. simpl. destruct (se_nextRun e) as [t|] eqn:Hn; [|done].
  destruct (proj1 (Hl e)) as (j & c0 & Hj & -> & Hid); [by left|]. simpl in Hs, Hn |- *. rewrite Hj. intros [= <- <-].
  apply bool_decide_eq_true in Hs as [x Hx]. simpl in Hid. unfold resolveScheduleId in Hid. rewrite Hx in Hid. simpl in Hid. subst x.
  assert (forall k c', (k, c') ∈ registered (sa_scheduleConfig agent) <-> registrable c' = true /\ cs !! k = Some c') as Hreg.
  { intros k c'. unfold registered. rewrite list_elem_of_filter. fold cs. simpl. rewrite elem_of_lookup_imap. naive_solver. }
  split_and!; try done.
  - apply Hreg. split; [|done]. apply next_run_registrable. by rewrite Hn.
  - intros k c' Hin Hc'. apply Hreg in Hin as [_ Hk].
    assert (schedule_entry agentId k c' ∈ [schedule_entry agentId j c0]) as He%list_elem_of_singleton.
    { apply Hl. exists k, c'. split; [done|]. split; [done|]. simpl. unfold resolveScheduleId. by rewrite Hc'. }
    assert (k = j) as -> by exact (f_equal se_index He). congruence.
Qed.
End Registered.

(** ** What a firing leaves *)

(** A firing inserts one run of the agent, from the schedule, attributed to the
    run-as user only when their identity resolved, and hands it to admission: it
    executes at once, waits in the queue, or is failed because the queue is full;
    an error of admission leaves it pending. *)
Theorem fire_outcome `{Instance} (runId agentId : string) (agent : ScheduleAgent)
    (users : string -> option UserIdentity) (now : Instant) (config : ScheduleConfig) (index : nat)
    (w : World) (es : list retry_effect) o w' es' :
  wf (w_reg w) -> db_runs (w_db w) !! runId = None ->
  fireSchedule runId agentId agent users now config index (mkRetry w es) = (o, mkRetry w' es') ->
  let user := resolveScheduleRunAsUser agent users in
  let '(ctx, displayName) := buildScheduleChannel (resolveScheduleId agentId config index) (sc_cron config) user in
  let intent := renderIntent now (sc_intent config) (timezone_of config) in
  let row := schedule_row agentId agent user displayName intent in
  let registered := es ++ [RegisterPendingContext runId [("channel", JObj ctx)]] in
  match o with
  | Ret (fired_pending, i) =>
      i = intent /\ db_runs (w_db w') = <[runId := admitted_row slot_acquired row]> (db_runs (w_db w)) /\
      hasExecutionLease runId (w_reg w') = true /\ es' = registered ++ [ExecuteChatRun agentId runId None]
  | Ret (fired_queued, i) =>
      i = intent /\ db_runs (w_db w') = <[runId := admitted_row slot_queued row]> (db_runs (w_db w)) /\ es' = registered
  | Ret (fired_queue_full, i) =>
      i = intent /\ es' = registered /\
      db_runs (w_db w') = <[runId := with_updatedAt clock (with_result (Some schedule_queue_full) (with_status failed row))]>
                            (db_runs (w_db w))
  | Throw _ => db_runs (w_db w') = <[runId := row]> (db_runs (w_db w)) /\ es' = registered
  end.
Proof.
  intros Hw Hn Hrun. cbn zeta. unfold fireSchedule in Hrun.
  destruct (buildScheduleChannel _ _ _) as [ctx displayName].
  set (row := schedule_row agentId agent _ displayName _) in *.
  erewrite bind_run in Hrun by (unfold in_world, insert_run; simpl; rewrite Hn; reflexivity).
  erewrite bind_run in Hrun by reflexivity. cbn [jr_world jr_effects] in Hrun.
  unfold mbind at 1, M_bind at 1, in_world at 1 in Hrun. cbn [jr_world jr_effects] in Hrun.
  destruct (tryAcquireSlot agentId runId (sa_maxConcurrency agent) _) as [oa w1] eqn:Ha.
  pose proof (admit_replay _ _ _ _ _ _ _ Hw Ha) as Hadm.
  destruct oa as [[]|e]; simpl in Hrun.
  - injection Hrun as <- <- <-. destruct Hadm as [Hruns Hl]. split_and!; try done. by apply Hl.
  - injection Hrun as <- <- <-. destruct Hadm as [Hruns _]. by split_and!.
  - injection Hrun as <- <- <-. subst w1. split_and!; try done. simpl. by rewrite alter_insert_eq.
  - injection Hrun as <- <- <-. subst w1. done.
Qed.
