(* ===== verification/DbTyping.v ===== *)
(** * The columns that go together

    Which values of [owner_instance_id] and [queued_at] a run may have in each
    status, and which owner a lease may have in each phase, as a typing of the
    tables; every operation that writes them keeps it, whatever runs before. *)
From S2P Require Import Liveness Reaper EvaluationQueue LeaseSweeper RunLifecycle JobRetry AgentBinding Recovery RunExecute.
From S2P Require Import Prelude Json Schema LeaseRegistry World ScmWorkload Resume TaskQueue TaskQueueDb Scheduling RunClaims.

(** A running run has an owner, one that has not started has none, and a
    queued run knows since when it waits. *)
Definition run_typed (r : Run) : Prop :=
  match run_status r with
  | pending => run_ownerInstanceId r = None
  | queued => run_ownerInstanceId r = None /\ is_Some (run_queuedAt r)
  | running => is_Some (run_ownerInstanceId r)
  | completed | failed | cancelled => True
  end.

(** A reserved lease has no owner, an active one has. *)
Definition lease_typed (l : ScmLease) : Prop :=
  match lease_phase l with
  | reserved => lease_ownerInstanceId l = None
  | active => is_Some (lease_ownerInstanceId l)
  end.

Definition db_typed (d : Db) : Prop :=
  map_Forall (fun _ => run_typed) (db_runs d) /\ map_Forall (fun _ => lease_typed) (db_leases d).

Definition typed (w : World) : Prop := db_typed (w_db w).

(** ** Statements *)

Lemma typed_frame w w' :
  db_runs (w_db w') = db_runs (w_db w) -> db_leases (w_db w') = db_leases (w_db w) ->
  typed w -> typed w'.
Proof. unfold typed, db_typed. by intros -> ->. Qed.

Lemma keeps_select {A} (f : Db -> A) : keeps typed (select f).
Proof. apply keeps_gets. Qed.

Lemma keeps_update_runs id (cond : Run -> bool) f :
  (forall r, cond r = true -> run_typed r -> run_typed (f r)) ->
  keeps typed (update_runs id cond f).
Proof.
  intros Hf w o w' [Hr Hl]. rewrite update_runs_cond.
  destruct (db_runs (w_db w) !! id) as [r|] eqn:Hrow; [|by intros [= _ <-]].
  destruct (cond r) eqn:Hc; intros [= _ <-]; [|done]. split; [|done]. simpl.
  apply map_Forall_insert_2; [|done]. apply Hf; [done|]. by apply (Hr id).
Qed.

Lemma keeps_db_write f :
  (forall d, db_typed d -> db_typed (f d)) -> keeps typed (db_write f).
Proof. intros Hf w o w' Hw [= _ <-]. by apply Hf. Qed.

Lemma keeps_write_returning f :
  (forall d, db_typed d -> db_typed (f d).2) -> keeps typed (write_returning f).
Proof.
  intros Hf w o w' Hw. unfold write_returning. specialize (Hf _ Hw).
  destruct (f (w_db w)) as [b d]. by intros [= _ <-].
Qed.

Lemma keeps_withTransaction {A} (m : M World A) : keeps typed m -> keeps typed (withTransaction m).
Proof.
  intros Hm w o w' Hw. unfold withTransaction. destruct (m w) as [[a|e] w1] eqn:Hr;
    intros [= _ <-]; [by eapply Hm | done].
Qed.

Lemma keeps_on_registry {A} (f : Registry -> A * Registry) : keeps typed (on_registry f).
Proof. intros w o w' Hw. unfold on_registry. destruct (f (w_reg w)). by intros [= _ <-]. Qed.

Lemma keeps_fold_each {A B} (f : A -> B -> M World B) l b :
  (forall x b, keeps typed (f x b)) -> keeps typed (fold_each l f b).
Proof. intros Hf w o w'. apply fold_each_invariant. intros x b1 t ot t' _. apply Hf. Qed.

(** A write that leaves the runs and the leases alone *)
Lemma db_typed_frame d d' :
  db_runs d' = db_runs d -> db_leases d' = db_leases d -> db_typed d -> db_typed d'.
Proof. unfold db_typed. by intros -> ->. Qed.

Lemma db_typed_insert_lease k l d :
  lease_typed l -> db_typed d -> db_typed (set_leases (insert k l) d).
Proof. intros Hl [Hr Hls]. split; [done|]. by apply map_Forall_insert_2. Qed.

Lemma db_typed_delete_lease k d : db_typed d -> db_typed (set_leases (delete k) d).
Proof. intros [Hr Hls]. split; [done|]. by apply map_Forall_delete. Qed.

Lemma db_typed_activate k o now d :
  db_typed d -> db_typed (set_leases (alter (with_phase_owner active (Some o) now) k) d).
Proof.
  intros [Hr Hls]. split; [done|]. simpl. intros x l.
  intros [(<- & l0 & _ & ->)|[_ Hx]]%lookup_alter_Some; [by eexists|]. by apply (Hls x).
Qed.

#[local] Hint Resolve keeps_select keeps_on_registry db_typed_delete_lease db_typed_activate : keeps.

(** One statement, or the structure of the computation *)
Ltac typed_step :=
  match goal with
  | |- run_typed _ => solve [unfold run_typed; simpl; eauto]
  | |- forall _, _ => intro
  | |- keeps _ (match ?x with _ => _ end) => destruct x
  | |- keeps _ (_ ≫= _) => apply keeps_bind
  | |- keeps _ (withTransaction _) => apply keeps_withTransaction
  | |- keeps _ (withScmPathMutation _) => apply keeps_withTransaction
  | |- keeps _ (try_catch _ _) => apply keeps_try_catch
  | |- keeps _ (fold_each _ _ _) => apply keeps_fold_each
  | |- keeps _ (for_each _ _) => apply keeps_for_each
  | |- keeps _ (update_runs _ _ _) => apply keeps_update_runs
  | |- keeps _ (db_write (set_leases _)) => apply keeps_db_write
  | |- keeps _ (db_write _) =>
      apply keeps_db_write; intros ?; apply db_typed_frame; reflexivity
  | |- keeps _ (write_returning _) =>
      apply keeps_write_returning; intros ? ?; repeat case_match; simpl;
      first [assumption | by apply db_typed_delete_lease
            | eapply db_typed_frame; [| |eassumption]; reflexivity]
  | |- keeps _ (modify _) => apply keeps_modify; intros ?; apply typed_frame; reflexivity
  end.
Ltac typed_auto := repeat (first [solve [eauto with keeps] | typed_step]).

(** ** The operations *)

Section Operations.
Context `{Instance}.

(** Leases *)

Lemma admission_typed {T} t id a (k : ScmWorkloadAdmission -> M World T) :
  (forall adm, keeps typed (k adm)) -> keeps typed (withScmWorkloadAdmission t id a k).
Proof.
  intros Hk. unfold withScmWorkloadAdmission, assertHeartbeatOwnership, loadLease,
    assertMatchingReservation.
  typed_auto. by apply db_typed_insert_lease.
Qed.

Lemma activateInMutation_typed t id o : keeps typed (activateScmWorkloadInMutation t id o).
Proof.
  unfold activateScmWorkloadInMutation, assertHeartbeatOwnership, loadLease,
    findScmSourceSyncClaim, workloadOccupiesSharedCheckout. typed_auto.
Qed.
#[local] Hint Resolve activateInMutation_typed : keeps.

Lemma activate_typed t id o : keeps typed (activateScmWorkload t id o).
Proof. unfold activateScmWorkload. typed_auto. Qed.
#[local] Hint Resolve activate_typed : keeps.

Lemma releaseReserved_typed t id : keeps typed (releaseReservedScmWorkloadInMutation t id).
Proof. unfold releaseReservedScmWorkloadInMutation. typed_auto. Qed.

Lemma releaseRecovered_typed t id : keeps typed (releaseRecoveredScmWorkload t id).
Proof. unfold releaseRecoveredScmWorkload. typed_auto. Qed.

Lemma release_typed t id o : keeps typed (releaseScmWorkload t id o).
Proof. unfold releaseScmWorkload, loadLease. typed_auto. Qed.
#[local] Hint Resolve releaseReserved_typed releaseRecovered_typed : keeps.

(** The queue *)

Lemma admitted_row_typed slot r : run_typed (admitted_row slot r).
Proof. destruct slot; unfold run_typed; simpl; eauto. Qed.

Lemma admit_write_typed a id mx adm : keeps typed (admit_write a id mx adm).
Proof.
  unfold admit_write, removal_gate, decide_slot, countOccupiedRunSlots. typed_auto.
  apply admitted_row_typed.
Qed.

Lemma admitRun_typed a id mx : keeps typed (db_admitRun a id mx).
Proof.
  unfold db_admitRun. typed_auto. apply admission_typed. intros adm. apply admit_write_typed.
Qed.

Lemma promoteQueuedRun_typed a id mx : keeps typed (db_promoteQueuedRun a id mx).
Proof. unfold db_promoteQueuedRun, countOccupiedRunSlots. typed_auto. Qed.
#[local] Hint Resolve admitRun_typed promoteQueuedRun_typed : keeps.

Lemma tryAcquireSlot_typed a id mx : keeps typed (tryAcquireSlot a id mx).
Proof.
  unfold tryAcquireSlot, withAgentScmWorkloadLock, reserve, activate_or_complete, complete.
  simpl. unfold db_activateRun. typed_auto.
Qed.

Lemma promote_loop_typed n a mx k : keeps typed (promote_loop n a mx k).
Proof.
  revert k. induction n as [|n IH]; intros k; simpl; [typed_auto|].
  unfold promotion_occupancy, claim_queued, reserve, onExecute. simpl.
  unfold countOccupiedRunSlots, db_getOldestQueuedRun. typed_auto.
Qed.

Lemma scheduleNext_typed a : keeps typed (scheduleNext a).
Proof.
  unfold scheduleNext, promoteQueuedRuns, withAgentScmWorkloadLock, promoteQueuedRunsLocked.
  change (getAgentMaxConcurrency a) with (db_getAgentMaxConcurrency a).
  unfold db_getAgentMaxConcurrency. typed_auto; apply promote_loop_typed.
Qed.
#[local] Hint Resolve scheduleNext_typed : keeps.

Lemma requeueForResume_typed id code o : keeps typed (db_requeueForResume id code o).
Proof. unfold db_requeueForResume. typed_auto. Qed.
#[local] Hint Resolve requeueForResume_typed : keeps.

(** Claims *)

Lemma cancellation_typed id st : keeps typed (claimRunCancellation id st).
Proof. unfold claimRunCancellation. typed_auto. Qed.

Lemma claimReapableRun_typed id o scope : keeps typed (claimReapableRun id o scope).
Proof. unfold claimReapableRun. typed_auto. Qed.
#[local] Hint Resolve claimReapableRun_typed : keeps.

Lemma claimRunForRetry_typed id metadata : keeps typed (claimRunForRetry id metadata).
Proof. unfold claimRunForRetry. typed_auto. Qed.

Lemma restoreFailedRun_typed id previous : keeps typed (restoreFailedRun id previous).
Proof. unfold restoreFailedRun. typed_auto. Qed.

Lemma run_transition_typed id st result :
  st ∈ TERMINAL_STATUSES -> keeps typed (run_transition id st result).
Proof.
  intros Hst. unfold run_transition. apply keeps_update_runs. intros r _ _.
  unfold TERMINAL_STATUSES in Hst. unfold run_typed. simpl. set_solver.
Qed.

(** What other clients write to the metadata column *)
Context (rivals : nat -> World -> World).
Hypothesis rivals_typed : forall n w, typed w -> typed (rivals n w).

Lemma merge_typed id produce : keeps typed (mergeExecutionMetadata rivals id produce).
Proof.
  unfold mergeExecutionMetadata. generalize 0. generalize MAX_MERGE_ATTEMPTS.
  intros k. induction k as [|k IH]; intros n; simpl; [typed_auto|].
  unfold merge_attempt. typed_auto. apply keeps_modify. auto.
Qed.
#[local] Hint Resolve merge_typed : keeps.

(** Recovery, and the reapers *)

Context (markTaskFailed : string -> string -> M World unit).
Hypothesis markTaskFailed_typed : forall sessionId message, keeps typed (markTaskFailed sessionId message).

Lemma hooks_failed_typed pg run reason :
  keeps typed (_ ← sync_a2a_task markTaskFailed run reason; release_recovered pg run).
Proof. unfold sync_a2a_task, release_recovered. typed_auto. Qed.

Lemma fail_with_typed id e : keeps typed (fail_with id e).
Proof. unfold fail_with. typed_auto. Qed.

Lemma fail_status_typed id : keeps typed (db_updateRunStatus id "failed").
Proof. unfold db_updateRunStatus. simpl. typed_auto. Qed.
#[local] Hint Resolve hooks_failed_typed fail_with_typed fail_status_typed : keeps.

Lemma applyFailure_typed pg run reason :
  keeps typed (applyFailure (startup_hooks pg markTaskFailed rivals) run reason).
Proof.
  unfold applyFailure, guarded. simpl. unfold db_failRunWithStructuredReason. typed_auto.
Qed.
#[local] Hint Resolve applyFailure_typed : keeps.

Lemma recovery_typed pg now timeout :
  keeps typed (startup_recovery pg markTaskFailed rivals now timeout).
Proof.
  unfold startup_recovery, recoverOnStartup, all_agent_ids, recover_agent, orphan, recover_queued,
    recover_running, guarded. simpl.
  unfold db_getRunsByStatus, db_getOrphanedPendingRuns, db_getDanglingPendingRuns,
    db_getDanglingQueuedRuns, canRequeueInterruptedRun, markRunForResume, release_recovered.
  typed_auto.
Qed.

(** The bookkeeping that follows a settlement *)
Context (afterRunSettled : string -> M World unit).
Hypothesis afterRunSettled_typed : forall id, keeps typed (afterRunSettled id).
#[local] Hint Resolve afterRunSettled_typed : keeps.

Lemma reaper_typed judge : keeps typed (reapOrphanedRuns (defaultReaperDeps judge afterRunSettled)).
Proof.
  unfold reapOrphanedRuns, reap_candidate, settle_orphan, tryResume, defaultReaperDeps. simpl.
  unfold listOrphanedRunCandidates, loadInstanceLiveness, canRequeueInterruptedRun,
    RunClaims.claimRunForReap. typed_auto.
Qed.

Context (canJudgePeers : bool) (registered : string -> bool) (token : string -> string).

Lemma sweeper_typed : keeps typed (sweepOrphanedScmWorkloadLeases canJudgePeers registered token).
Proof.
  unfold sweepOrphanedScmWorkloadLeases, loadInstanceLiveness, sweep_lease,
    isWorkloadLocallyActive, isWorkloadTerminal, ephemeralWorktreeName,
    reserveEphemeralWorktreeRemoval. typed_auto.
Qed.

Lemma dead_instances_typed :
  keeps typed (failScmWorkloadsOfDeadInstances canJudgePeers registered afterRunSettled).
Proof.
  unfold failScmWorkloadsOfDeadInstances, loadInstanceLiveness, reap_lease,
    isWorkloadLocallyActive, isWorkloadTerminal, LeaseSweeper.claimRunForReap,
    claimEvaluationForReap, update_tasks. typed_auto.
Qed.

(** Agents *)

Lemma deleteRows_typed id : keeps typed (deleteRows id).
Proof.
  unfold deleteRows. apply keeps_bind; [typed_auto|]. intros _. apply keeps_bind; [|intros _].
  - apply keeps_db_write. intros d [Hr Hl]. split; [|done]. simpl. intros x r.
    rewrite lookup_fmap, fmap_Some. intros (r0 & Hr0 & ->). specialize (Hr x r0 Hr0).
    unfold detached_run. by destruct (decide _).
  - intros w o w' Hw. unfold delete_agent_row. repeat case_match; intros [= _ <-]; done.
Qed.

Lemma find_workload_typed evals a : keeps typed (findActiveAgentScmWorkload evals a).
Proof. unfold findActiveAgentScmWorkload, findDurableAgentScmWorkload. typed_auto. Qed.
#[local] Hint Resolve deleteRows_typed find_workload_typed : keeps.

Lemma deleteAgent_typed evals id existing : keeps typed (deleteAgent evals id existing).
Proof.
  unfold deleteAgent, deleteAgentWithBindingGuard, withAgentLock, remove_in_guard, loadBinding.
  typed_auto.
Qed.

Lemma updateAgent_typed id p : keeps typed (updateAgent id p).
Proof.
  intros w o w' Hw. unfold updateAgent. repeat case_match; intros [= _ <-]; done.
Qed.
#[local] Hint Resolve updateAgent_typed : keeps.

Lemma patchAgent_typed evals owner id existing p :
  keeps typed (patchAgent evals owner id existing p).
Proof.
  unfold patchAgent, check_source, mutateAgentBinding, withAgentLock, mutate_in_guard, loadBinding,
    isReadySource. typed_auto.
Qed.

(** Runs *)

Lemma insert_run_typed id row : run_typed row -> keeps typed (insert_run id row).
Proof.
  intros Hrow w o w' [Hr Hl]. unfold insert_run.
  destruct (db_runs (w_db w) !! id); intros [= _ <-]; [done|]. split; [|done].
  by apply map_Forall_insert_2.
Qed.

Lemma settle_both_typed runId stepId st stepSt result output ms :
  st ∈ LeaseSweeper.TERMINAL_STATUSES ->
  keeps typed (settle_both runId stepId st stepSt result output ms).
Proof.
  intros Hst. unfold settle_both, update_steps. pose proof run_transition_typed. typed_auto.
Qed.

Lemma record_usage_typed runId stepId usage : keeps typed (record_usage runId stepId usage).
Proof. unfold record_usage, update_steps. typed_auto. Qed.
End Operations.

(** ** Every interleaving *)

(** The operations that write runs or leases, each by any process *)
Inductive table_op : forall {A : Type}, M World A -> Prop :=
| op_insert id row :
    run_status row = pending -> run_ownerInstanceId row = None -> table_op (insert_run id row)
| op_acquire (i : Instance) a id mx : table_op (tryAcquireSlot a id mx)
| op_schedule (i : Instance) a : table_op (scheduleNext a)
| op_activate (i : Instance) t id o : table_op (activateScmWorkload t id o)
| op_release (i : Instance) t id o : table_op (releaseScmWorkload t id o)
| op_release_reserved t id : table_op (releaseReservedScmWorkload t id)
| op_cancel (i : Instance) id st : table_op (claimRunCancellation id st)
| op_retry (i : Instance) id metadata : table_op (claimRunForRetry id metadata)
| op_restore (i : Instance) id previous : table_op (restoreFailedRun id previous)
| op_settle (i : Instance) runId stepId st stepSt result output ms :
    st ∈ LeaseSweeper.TERMINAL_STATUSES ->
    table_op (settle_both runId stepId st stepSt result output ms)
| op_usage runId stepId usage : table_op (record_usage runId stepId usage)
| op_merge rivals id produce :
    (forall n w, typed w -> typed (rivals n w)) ->
    table_op (mergeExecutionMetadata rivals id produce)
| op_recover (i : Instance) pg markTaskFailed rivals now timeout :
    (forall n w, typed w -> typed (rivals n w)) ->
    (forall sessionId message, keeps typed (markTaskFailed sessionId message)) ->
    table_op (startup_recovery pg markTaskFailed rivals now timeout)
| op_reap (i : Instance) judge afterRunSettled :
    (forall id, keeps typed (afterRunSettled id)) ->
    table_op (reapOrphanedRuns (defaultReaperDeps judge afterRunSettled))
| op_sweep (i : Instance) judge registered token :
    table_op (sweepOrphanedScmWorkloadLeases judge registered token)
| op_fail_dead (i : Instance) judge registered afterRunSettled :
    (forall id, keeps typed (afterRunSettled id)) ->
    table_op (failScmWorkloadsOfDeadInstances judge registered afterRunSettled)
| op_delete_agent (i : Instance) evals id existing : table_op (deleteAgent evals id existing)
| op_patch_agent evals owner id existing p : table_op (patchAgent evals owner id existing p).

(** One operation, or a change of what this view does not show: the memory
    of the processes and the other tables *)
Inductive table_step (w w' : World) : Prop :=
| step_op A (m : M World A) o : table_op m -> m w = (o, w') -> table_step w w'
| step_elsewhere :
    db_runs (w_db w') = db_runs (w_db w) -> db_leases (w_db w') = db_leases (w_db w) ->
    table_step w w'.

Lemma table_op_typed {A} (m : M World A) : table_op m -> keeps typed m.
Proof.
  destruct 1.
  - apply insert_run_typed. unfold run_typed. by rewrite H.
  - apply tryAcquireSlot_typed.
  - apply scheduleNext_typed.
  - apply activate_typed.
  - apply release_typed.
  - apply keeps_withTransaction, releaseReserved_typed.
  - apply cancellation_typed.
  - apply claimRunForRetry_typed.
  - apply restoreFailedRun_typed.
  - by apply settle_both_typed.
  - apply record_usage_typed.
  - by apply merge_typed.
  - by apply recovery_typed.
  - by apply reaper_typed.
  - apply sweeper_typed.
  - by apply dead_instances_typed.
  - apply deleteAgent_typed.
  - apply patchAgent_typed.
Qed.

Lemma table_step_typed w w' : table_step w w' -> typed w -> typed w'.
Proof.
  intros [A m o Hop Hrun | Hr Hl] Hw; [by eapply table_op_typed | by eapply typed_frame].
Qed.


(** The claim of an execution request is no such operation: it makes an
    ill-typed row of every row it may be applied to. *)
Lemma executed_row_untyped `{Instance} r :
  run_typed r -> run_status r ∈ EXECUTABLE -> ~ run_typed (executed_row r).
Proof.
  unfold run_typed. intros Hr Hs. simpl.
  assert (run_ownerInstanceId r = None) as ->; [|by intros []].
  unfold EXECUTABLE in Hs. destruct (run_status r); set_solver.
Qed.

(** ** Witness *)

Definition typing_demo : World :=
  set_db (fun _ => mkDb {[ "r1" := demo_run pending 1;
                           "r2" := with_queuedAt (Some 2%Z) (demo_run queued 2) ]}
    ∅ {[ "a1" := mkAgent 1 ws_temp None true "A" None None None false ]} ∅ ∅ ∅ ∅ ∅ ∅ ∅) empty_world.

Lemma typed_demo : typed typing_demo.
Proof.
  split; [|by apply map_Forall_empty]. simpl.
  apply map_Forall_insert_2; [done|]. apply map_Forall_insert_2; [by vm_compute; eauto|].
  apply map_Forall_empty.
Qed.

Definition typing_first : World :=
  (@tryAcquireSlot (@taskQueueDb ex_instance) "a1" "r1" 1 typing_demo).2.
Definition typing_second : World := (@claimRunCancellation ex_instance "r2" cancel_queued typing_first).2.

